(** * A reference-counted red-black tree: the C sources [mem.c] and [rbt.c]
    embedded as state-passing programs over one heap of counted objects. *)

From stdpp Require Import gmap list sorting.

#[local] Set Warnings "-clear-no-such-hyp".
Local Open Scope Z_scope.

(** ** Values of the C program *)

(** An address returned by [malloc]; a pointer is an address or [NULL]. *)
Definition addr := positive.
Abbreviation ptr := (option addr).
Abbreviation NULL := (@None addr).

(** Pointers compared as the integers they are, [NULL] being 0. *)
Definition ptr_to_Z (p : ptr) : Z :=
  match p with Some a => Z.pos a | None => 0 end.

(** [int] bounds; signed overflow is undefined in C. *)
Definition INT_MAX : Z := 2147483647.
Definition INT_MIN : Z := -2147483648.

(** rbt.h: node colors *)
Inductive rbt_color_t := RED | BLACK.

(** rbt.c: rotation directions *)
Inductive direction_t := LEFT | RIGHT.

#[global] Instance rbt_color_eq_dec : EqDecision rbt_color_t.
Proof. solve_decision. Defined.
#[global] Instance direction_eq_dec : EqDecision direction_t.
Proof. solve_decision. Defined.

(** The code pointers the program hands to [mem_allocate] as finalizers. *)
Inductive destructor_t := Fn_rbt_free | Fn_rbt_node_free.

(** A [comparator_t] code pointer: the default one of rbt.c, which orders the
    content pointers themselves, or a caller's function that reads both
    arguments through [mem_unbox] and orders the integers found there. *)
Inductive comparator_t :=
  | Fn_rbt_default_comparator
  | Fn_unbox_compare (f : Z -> Z -> Z).

(** rbt.h: a tree node *)
Record rbt_node_t := mk_node {
  left : ptr;
  right : ptr;
  parent : ptr;
  color : rbt_color_t;
  contents : ptr
}.

(** rbt.h: a tree *)
Record rbt_t := mk_tree {
  root : ptr;
  comp : comparator_t
}.

(** What lies behind the header of an allocation: memory not written yet, a
    node, a tree, or a boxed integer ([box_t]). *)
Inductive payload_t :=
  | Raw (size : Z)
  | Node (n : rbt_node_t)
  | Tree (t : rbt_t)
  | Box (val : Z).

(** mem.c: the header [obj_t], together with the payload that follows it. *)
Record obj_t := mk_obj {
  refcount : Z;
  p_finalize : option destructor_t;
  payload : payload_t
}.

Abbreviation heap := (gmap addr obj_t).

(** ** The monad of C computations

    A computation reads and writes the heap. It ends with a value ([Ok]),
    with undefined behaviour ([Fault]: a [NULL] or freed pointer is
    dereferenced, an [int] overflows), or without fuel ([Timeout]). *)

Inductive result (A : Type) :=
  | Ok (a : A)
  | Fault
  | Timeout.
Arguments Ok {A} a.
Arguments Fault {A}.
Arguments Timeout {A}.

Definition M (A : Type) : Type := heap -> result (A * heap).

Definition ret {A} (a : A) : M A := fun h => Ok (a, h).
Definition bind {A B} (m : M A) (f : A -> M B) : M B :=
  fun h => match m h with
           | Ok (a, h') => f a h'
           | Fault => Fault
           | Timeout => Timeout
           end.
Definition fault {A} : M A := fun _ => Fault.
Definition timeout {A} : M A := fun _ => Timeout.

Notation "'let*' x ':=' e 'in' k" := (bind e (fun x => k))
  (at level 10, x name, e at level 100, k at level 200).
Notation "'let*' ' p ':=' e 'in' k" := (bind e (fun x => match x with p => k end))
  (at level 10, p pattern, e at level 100, k at level 200).
Notation "e1 ';;;' e2" := (bind e1 (fun _ => e2))
  (at level 100, e2 at level 200, right associativity).

Definition when (b : bool) (m : M unit) : M unit := if b then m else ret tt.
(** [a && b] and [a || b] of C: the right operand runs only when needed. *)
Definition andM (a b : M bool) : M bool :=
  let* x := a in if x then b else ret false.
Definition orM (a b : M bool) : M bool :=
  let* x := a in if x then ret true else b.

Definition is_null (p : ptr) : bool := if p is Some _ then false else true.
Definition ptr_eqb (p q : ptr) : bool := bool_decide (p = q).
Definition color_eqb (c d : rbt_color_t) : bool := bool_decide (c = d).
Definition direction_eqb (c d : direction_t) : bool := bool_decide (c = d).

(** *** Loads and stores *)

Definition load (p : ptr) : M obj_t := fun h =>
  match p with
  | Some a => match h !! a with Some o => Ok (o, h) | None => Fault end
  | None => Fault
  end.

Definition store (p : ptr) (o : obj_t) : M unit := fun h =>
  match p with
  | Some a => match h !! a with Some _ => Ok (tt, <[a := o]> h) | None => Fault end
  | None => Fault
  end.

Definition set_payload (p : ptr) (x : payload_t) : M unit :=
  let* o := load p in store p (mk_obj (refcount o) (p_finalize o) x).

Definition get_node (p : ptr) : M rbt_node_t :=
  let* o := load p in
  match payload o with Node n => ret n | _ => fault end.

Definition get_tree (p : ptr) : M rbt_t :=
  let* o := load p in
  match payload o with Tree t => ret t | _ => fault end.

(** [p->left], [p->right], ... as reads *)
Definition get_left (p : ptr) : M ptr := let* n := get_node p in ret (left n).
Definition get_right (p : ptr) : M ptr := let* n := get_node p in ret (right n).
Definition get_parent (p : ptr) : M ptr := let* n := get_node p in ret (parent n).
Definition get_color (p : ptr) : M rbt_color_t := let* n := get_node p in ret (color n).
Definition get_contents (p : ptr) : M ptr := let* n := get_node p in ret (contents n).
Definition get_root (tree : ptr) : M ptr := let* t := get_tree tree in ret (root t).
Definition get_comp (tree : ptr) : M comparator_t := let* t := get_tree tree in ret (comp t).

(** [p->left = v], [p->right = v], ... as writes *)
Definition set_left (p v : ptr) : M unit :=
  let* n := get_node p in
  set_payload p (Node (mk_node v (right n) (parent n) (color n) (contents n))).
Definition set_right (p v : ptr) : M unit :=
  let* n := get_node p in
  set_payload p (Node (mk_node (left n) v (parent n) (color n) (contents n))).
Definition set_parent (p v : ptr) : M unit :=
  let* n := get_node p in
  set_payload p (Node (mk_node (left n) (right n) v (color n) (contents n))).
Definition set_color (p : ptr) (c : rbt_color_t) : M unit :=
  let* n := get_node p in
  set_payload p (Node (mk_node (left n) (right n) (parent n) c (contents n))).
Definition set_root (tree v : ptr) : M unit :=
  let* t := get_tree tree in
  set_payload tree (Tree (mk_tree v (comp t))).

(** [a + b] on [int]: undefined when the sum leaves the range. *)
Definition int_add (a b : Z) : M Z :=
  if bool_decide (INT_MIN <= a + b <= INT_MAX) then ret (a + b) else fault.

(** ** mem.c *)

Definition sizeof_rbt_node_t : Z := 40.
Definition sizeof_rbt_t : Z := 16.
Definition sizeof_box_t : Z := 8.

(** [malloc] hands out an address that is not in use. *)
Definition mem_allocate (size : Z) (p_destruct_fn : option destructor_t) : M ptr :=
  fun h =>
    let a := fresh (dom h) in
    Ok (Some a, <[a := mk_obj 1 p_destruct_fn (Raw size)]> h).

Definition mem_retain (p_obj : ptr) : M ptr :=
  let* p_hdr := load p_obj in
  let* rc := int_add (refcount p_hdr) 1 in
  store p_obj (mk_obj rc (p_finalize p_hdr) (payload p_hdr));;;
  ret p_obj.

Definition free (p : ptr) : M unit := fun h =>
  match p with
  | Some a => match h !! a with Some _ => Ok (tt, delete a h) | None => Fault end
  | None => Fault
  end.

(** rbt.c: the two finalizers, over the [release] they call back into. *)
Definition rbt_free (release : ptr -> M unit) (v_tree : ptr) : M unit :=
  if is_null v_tree then ret tt else
  let* r := get_root v_tree in
  if is_null r then ret tt else release r.

Definition rbt_node_free (release : ptr -> M unit) (v_node : ptr) : M unit :=
  if is_null v_node then ret tt else
  let* c := get_contents v_node in
  release c;;;
  let* l := get_left v_node in
  when (negb (is_null l)) (release l);;;
  let* r := get_right v_node in
  when (negb (is_null r)) (release r).

Definition call_destructor (release : ptr -> M unit) (f : destructor_t) : ptr -> M unit :=
  match f with
  | Fn_rbt_free => rbt_free release
  | Fn_rbt_node_free => rbt_node_free release
  end.

Fixpoint mem_release (fuel : nat) (p_obj : ptr) : M unit :=
  match fuel with
  | O => timeout
  | S fuel =>
    let* p_hdr := load p_obj in
    let* rc := int_add (refcount p_hdr) (-1) in
    store p_obj (mk_obj rc (p_finalize p_hdr) (payload p_hdr));;;
    if rc <? 1 then
      match p_finalize p_hdr with
      | Some f => call_destructor (mem_release fuel) f p_obj
      | None => ret tt
      end;;;
      free p_obj
    else ret tt
  end.

Definition mem_num_references (p_obj : ptr) : M Z :=
  let* p_hdr := load p_obj in ret (refcount p_hdr).

Definition mem_box (val : Z) : M ptr :=
  let* p_box := mem_allocate sizeof_box_t None in
  set_payload p_box (Box val);;;
  ret p_box.

Definition mem_unbox (p_box : ptr) : M Z :=
  let* o := load p_box in
  match payload o with Box v => ret v | _ => fault end.

(** ** rbt.c *)

(** The default comparator: the order of the pointers themselves. *)
Definition rbt_default_comparator (a b : ptr) : Z :=
  if ptr_eqb a b then 0 else if ptr_to_Z a <? ptr_to_Z b then -1 else 1.

(** A call through a [comparator_t]. *)
Definition call_comparator (c : comparator_t) (p_a p_b : ptr) : M Z :=
  match c with
  | Fn_rbt_default_comparator => ret (rbt_default_comparator p_a p_b)
  | Fn_unbox_compare f =>
      let* a := mem_unbox p_a in
      let* b := mem_unbox p_b in
      ret (f a b)
  end.

(** [tree->comp(a, b)] *)
Definition tree_comp (tree : ptr) (a b : ptr) : M Z :=
  let* c := get_comp tree in call_comparator c a b.

Definition rbt_node_new (contents : ptr) : M ptr :=
  let* node := mem_allocate sizeof_rbt_node_t (Some Fn_rbt_node_free) in
  set_payload node (Node (mk_node NULL NULL NULL RED contents));;;
  ret node.

Definition rbt_new (comparator : option comparator_t) : M ptr :=
  let* tree := mem_allocate sizeof_rbt_t (Some Fn_rbt_free) in
  set_payload tree
    (Tree (mk_tree NULL (if comparator is Some c then c else Fn_rbt_default_comparator)));;;
  ret tree.

(** leaves are NULL and black implicitly *)
Definition node_color (node : ptr) : M rbt_color_t :=
  if is_null node then ret BLACK else get_color node.

Definition rotate (tree node : ptr) (direction : direction_t) : M unit :=
  let* edon := (if direction_eqb direction LEFT then get_right node else get_left node) in
  if is_null edon then ret tt (* rotation isn't allowed *) else
  let* np := get_parent node in
  (if is_null np then set_root tree edon
   else
     let* npl := get_left np in
     if ptr_eqb npl node then set_left np edon else set_right np edon);;;
  set_parent edon np;;;
  (if direction_eqb direction LEFT then
     let* el := get_left edon in
     set_right node el;;;
     when (negb (is_null el)) (set_parent el node);;;
     set_left edon node
   else
     let* er := get_right edon in
     set_left node er;;;
     when (negb (is_null er)) (set_parent er node);;;
     set_right edon node);;;
  set_parent node edon.

Definition rbt_ins_rebalance (tree node : ptr) (heavy_side : direction_t) : M unit :=
  let* parent := get_parent node in
  let* grandparent := (if is_null parent then ret NULL else get_parent parent) in
  rotate tree grandparent (if direction_eqb heavy_side LEFT then RIGHT else LEFT);;;
  set_color parent BLACK;;;
  set_color grandparent RED.

Fixpoint rbt_ins_recolor (fuel : nat) (tree node : ptr) : M unit :=
  match fuel with
  | O => timeout
  | S fuel =>
    let* parent := get_parent node in
    let* grandparent := (if is_null parent then ret NULL else get_parent parent) in
    let* uncle :=
      (if is_null grandparent then ret NULL else
       let* gl := get_left grandparent in
       if ptr_eqb parent gl then get_right grandparent else get_left grandparent) in
    if is_null parent then set_color node BLACK
    else
      let* pc := node_color parent in
      if color_eqb BLACK pc then ret tt (* dont need to do anything *)
      else
        let* uc := node_color uncle in
        if color_eqb uc RED then
          set_color grandparent RED;;;
          set_color parent BLACK;;;
          set_color uncle BLACK;;;
          rbt_ins_recolor fuel tree grandparent
        else
          let* pl := get_left parent in
          let node_side := if ptr_eqb node pl then LEFT else RIGHT in
          let* gl := get_left grandparent in
          let parent_side := if ptr_eqb parent gl then LEFT else RIGHT in
          let* node :=
            (if negb (direction_eqb node_side parent_side) then
               rotate tree parent parent_side;;;
               ret parent
             else ret node) in
          rbt_ins_rebalance tree node parent_side
  end.

Fixpoint rbt_insert_node (fuel : nat) (tree node parent : ptr) : M unit :=
  match fuel with
  | O => timeout
  | S fuel' =>
    if is_null parent then
      set_root tree node;;;
      rbt_ins_recolor fuel tree node
    else
      let* nc := get_contents node in
      let* pc := get_contents parent in
      let* c := tree_comp tree nc pc in
      if c <? 0 then
        let* pl := get_left parent in
        if negb (is_null pl) then rbt_insert_node fuel' tree node pl
        else
          set_parent node parent;;;
          set_left parent node;;;
          rbt_ins_recolor fuel tree node
      else
        let* pr := get_right parent in
        if negb (is_null pr) then rbt_insert_node fuel' tree node pr
        else
          set_parent node parent;;;
          set_right parent node;;;
          rbt_ins_recolor fuel tree node
  end.

Definition rbt_insert (fuel : nat) (tree value : ptr) : M ptr :=
  let* new_node := rbt_node_new value in
  let* r := get_root tree in
  rbt_insert_node fuel tree new_node r;;;
  ret new_node.

Fixpoint rbt_lookup_node (fuel : nat) (tree node value : ptr) : M ptr :=
  match fuel with
  | O => timeout
  | S fuel =>
    if is_null node then ret NULL else
    let* nc := get_contents node in
    let* c := tree_comp tree value nc in
    if c =? 0 then ret node
    else if c >? 0 then
      let* r := get_right node in rbt_lookup_node fuel tree r value
    else
      let* l := get_left node in rbt_lookup_node fuel tree l value
  end.

Definition rbt_lookup (fuel : nat) (tree value : ptr) : M ptr :=
  let* r := get_root tree in
  rbt_lookup_node fuel tree r value.

(** node has a count -1 of black nodes to leaves relative to the rest of the tree *)
Fixpoint rbt_del_rebalance (fuel : nat) (tree node : ptr) : M unit :=
  match fuel with
  | O => timeout
  | S fuel =>
    let* parent := get_parent node in
    if negb (is_null parent) then
      let* pl := get_left parent in
      let node_side := if ptr_eqb node pl then LEFT else RIGHT in
      let* sib := (if direction_eqb node_side LEFT then get_right parent else get_left parent) in
      let* inside_nibling :=
        (if is_null sib then ret NULL
         else if direction_eqb node_side LEFT then get_left sib else get_right sib) in
      let* outside_nibling :=
        (if is_null sib then ret NULL
         else if direction_eqb node_side LEFT then get_right sib else get_left sib) in
      let* sc := node_color sib in
      if color_eqb RED sc then
        (* rotate so sib is black & recurse w/ new scenario *)
        rotate tree parent node_side;;;
        set_color parent RED;;;
        set_color sib BLACK;;;
        rbt_del_rebalance fuel tree node
      else
        let* both_black :=
          andM (let* ic := node_color inside_nibling in ret (color_eqb BLACK ic))
               (let* oc := node_color outside_nibling in ret (color_eqb BLACK oc)) in
        if both_black then
          (* both niblings are black ; can paint sib red & rebalance on parent *)
          set_color sib RED;;;
          let* pc := node_color parent in
          if color_eqb RED pc then set_color parent BLACK
          else rbt_del_rebalance fuel tree parent
        else
          let* oc := node_color outside_nibling in
          if color_eqb BLACK oc then
            (* convert "inside" case to "outside" case & recurse w/ new scenario *)
            rotate tree sib (if direction_eqb node_side LEFT then RIGHT else LEFT);;;
            set_color sib RED;;;
            set_color inside_nibling BLACK;;;
            rbt_del_rebalance fuel tree node
          else
            rotate tree parent node_side;;;
            let* pc := get_color parent in
            set_color sib pc;;;
            set_color parent BLACK;;;
            set_color outside_nibling BLACK
    else
      set_color node BLACK
  end.

Fixpoint rightmost_descendent (fuel : nat) (node : ptr) : M ptr :=
  match fuel with
  | O => timeout
  | S fuel =>
    let* r := get_right node in
    if negb (is_null r) then rightmost_descendent fuel r else ret node
  end.

Fixpoint rbt_delete_node (fuel : nat) (tree node : ptr) : M unit :=
  match fuel with
  | O => timeout
  | S fuel' =>
    let* parent := get_parent node in
    let* nl := get_left node in
    let* nr := get_right node in
    (if negb (is_null nl) && negb (is_null nr) then
       let* replacement := rightmost_descendent fuel nl in
       mem_retain replacement;;;
       rbt_delete_node fuel' tree replacement;;;
       let* nl := get_left node in
       when (negb (is_null nl)) (set_parent nl replacement);;;
       let* nr := get_right node in
       when (negb (is_null nr)) (set_parent nr replacement);;;
       let* nl := get_left node in
       set_left replacement nl;;;
       let* nr := get_right node in
       set_right replacement nr;;;
       let* np := get_parent node in
       set_parent replacement np;;;
       let* nc := get_color node in
       set_color replacement nc;;;
       if is_null parent then set_root tree replacement
       else
         let* pl := get_left parent in
         if ptr_eqb node pl then set_left parent replacement
         else set_right parent replacement
     else
       (* node has at most one non-leaf child *)
       let* c := node_color node in
       let* '(child, parent) :=
         (if color_eqb RED c then
            (* node cannot have children *)
            let* pl := get_left parent in
            (if ptr_eqb node pl then set_left parent NULL else set_right parent NULL);;;
            ret (NULL, parent)
          else
            let* red_child :=
              orM (let* lc := node_color nl in ret (color_eqb RED lc))
                  (let* rc := node_color nr in ret (color_eqb RED rc)) in
            if red_child then
              let child := if negb (is_null nl) then nl else nr in
              set_color child BLACK;;;
              ret (child, parent)
            else
              rbt_del_rebalance fuel tree node;;;
              (* reset child/parent after rebalance; tree may have been rotated *)
              let* parent := get_parent node in
              let* nl := get_left node in
              let* nr := get_right node in
              ret (if negb (is_null nl) then nl else nr, parent)) in
       when (negb (is_null child)) (set_parent child parent);;;
       if is_null parent then set_root tree child
       else
         let* pr := get_right parent in
         if ptr_eqb node pr then set_right parent child
         else set_left parent child);;;
    set_left node NULL;;;
    set_right node NULL;;;
    set_parent node NULL;;;
    mem_release fuel node
  end.

Definition rbt_delete (fuel : nat) (tree value : ptr) : M unit :=
  let* doomed := rbt_lookup fuel tree value in
  if negb (is_null doomed) then rbt_delete_node fuel tree doomed else ret tt.

(** ** The validator of rbt.c *)

(** Modelled from the spec: the declaration of [rbt_status_t] is not in the
    rbt.h at hand. The spec lists the classifications of the validator
    (consistent, unknown color, red node with red child, out-of-order key,
    node referencing itself, parent back-reference mismatch, and the root
    color and black-height checks); the constants carry the names rbt.c
    gives them. *)
Inductive rbt_status_t :=
  | OK
  | OUT_OF_ORDER
  | SELF_REFERENCE
  | BAD_PARENT_POINTER
  | BAD_ROOT_COLOR
  | BLACK_NODES_UNBALANCED
  | UNKNOWN_COLOR
  | RED_WITH_RED_CHILD.

#[global] Instance rbt_status_eq_dec : EqDecision rbt_status_t.
Proof. solve_decision. Defined.

Definition status_eqb (a b : rbt_status_t) : bool := bool_decide (a = b).

(** if path to the left != path to the right, return -1 (invalid) *)
Fixpoint count_black_nodes_to_leaf (fuel : nat) (node : ptr) : M Z :=
  match fuel with
  | O => timeout
  | S fuel =>
    if is_null node then ret 0 else
    let* l := get_left node in
    let* leftcount := count_black_nodes_to_leaf fuel l in
    let* r := get_right node in
    let* rightcount := count_black_nodes_to_leaf fuel r in
    if negb (leftcount =? rightcount) then ret (-1)
    else
      let* c := get_color node in
      if color_eqb c BLACK then int_add leftcount 1
      else ret leftcount
  end.

Fixpoint rbt_check_node (fuel : nat) (tree node min_val max_val : ptr) : M rbt_status_t :=
  match fuel with
  | O => timeout
  | S fuel' =>
    let* neg1 := mem_box (-1) in
    let* st :=
      (if is_null node then ret OK else
       let* c := get_color node in
       let* nl := get_left node in
       let* nr := get_right node in
       let* nc := get_contents node in
       let* st :=
         (if negb (color_eqb c RED) && negb (color_eqb c BLACK) then ret UNKNOWN_COLOR
          else
            let* red_red :=
              andM (ret (color_eqb c RED))
                   (andM (let* lc := node_color nl in ret (negb (color_eqb lc BLACK)))
                         (let* rc := node_color nr in ret (negb (color_eqb rc BLACK)))) in
            if red_red then ret RED_WITH_RED_CHILD
            else
              let* below_min :=
                andM (let* x := tree_comp tree min_val neg1 in ret (x >? 0))
                     (let* x := tree_comp tree nc min_val in ret (x <? 0)) in
              if below_min then ret OUT_OF_ORDER
              else
                let* above_max :=
                  andM (let* x := tree_comp tree max_val neg1 in ret (x >? 0))
                       (let* x := tree_comp tree nc max_val in ret (x >? 0)) in
                if above_max then ret OUT_OF_ORDER
                else if ptr_eqb nl node || ptr_eqb nr node then ret SELF_REFERENCE
                else
                  let* bad_left :=
                    andM (ret (negb (is_null nl)))
                         (let* lp := get_parent nl in ret (negb (ptr_eqb lp node))) in
                  if bad_left then ret BAD_PARENT_POINTER
                  else
                    let* bad_right :=
                      andM (ret (negb (is_null nr)))
                           (let* rp := get_parent nr in ret (negb (ptr_eqb rp node))) in
                    if bad_right then ret BAD_PARENT_POINTER
                    else ret OK) in
       let* st :=
         (if status_eqb st OK then rbt_check_node fuel' tree nl min_val nc else ret st) in
       if status_eqb st OK then rbt_check_node fuel' tree nr nc max_val else ret st) in
    mem_release fuel neg1;;;
    ret st
  end.

(** check the contents of the given tree/node as valid *)
Definition rbt_check_status (fuel : nat) (tree : ptr) : M rbt_status_t :=
  let* neg1 := mem_box (-1) in
  let* st :=
    (if is_null tree then ret OK else
     let* r := get_root tree in
     let* st := rbt_check_node fuel tree r neg1 neg1 in
     let* st :=
       (let* b := andM (ret (status_eqb st OK))
                       (andM (ret (negb (is_null r)))
                             (let* rp := get_parent r in ret (negb (is_null rp)))) in
        if b then ret BAD_PARENT_POINTER else ret st) in
     let* st :=
       (let* b := andM (ret (status_eqb st OK))
                       (let* rc := node_color r in ret (negb (color_eqb rc BLACK))) in
        if b then ret BAD_ROOT_COLOR else ret st) in
     let* b := andM (ret (status_eqb st OK))
                    (let* n := count_black_nodes_to_leaf fuel r in ret (n =? -1)) in
     if b then ret BLACK_NODES_UNBALANCED else ret st) in
  mem_release 1 neg1;;;
  ret st.

(** ** Test drivers: what a caller of the public operations writes *)

Definition int_compare (a b : Z) : Z :=
  if a =? b then 0 else if a <? b then -1 else 1.

Inductive op := Ins (k : Z) | Del (k : Z).

(** [rbt_insert(tree, mem_box(k))], or
    [b = mem_box(k); rbt_delete(tree, b); mem_release(b)]. *)
Definition run_op (fuel : nat) (tree : ptr) (o : op) : M unit :=
  match o with
  | Ins k => let* b := mem_box k in rbt_insert fuel tree b;;; ret tt
  | Del k => let* b := mem_box k in rbt_delete fuel tree b;;; mem_release 1 b
  end.

Fixpoint run_ops (fuel : nat) (tree : ptr) (os : list op) : M unit :=
  match os with
  | [] => ret tt
  | o :: os => run_op fuel tree o;;; run_ops fuel tree os
  end.

(** The value a computation ends with, the heap left aside. *)
Definition value_of {A} (r : result (A * heap)) : result A :=
  match r with
  | Ok (a, _) => Ok a
  | Fault => Fault
  | Timeout => Timeout
  end.

(** ** Views of the heap used by the statements *)

(** The node, the tree or the boxed integer stored at an address, if any. *)
Definition node_of (h : heap) (a : addr) : option rbt_node_t :=
  match h !! a with
  | Some o => match payload o with Node n => Some n | _ => None end
  | None => None
  end.

Definition tree_of (h : heap) (a : addr) : option rbt_t :=
  match h !! a with
  | Some o => match payload o with Tree t => Some t | _ => None end
  | None => None
  end.

Definition box_of (h : heap) (p : ptr) : option Z :=
  match p with
  | Some a =>
      match h !! a with
      | Some o => match payload o with Box v => Some v | _ => None end
      | None => None
      end
  | None => None
  end.

(** The heap after the payload at [a] is overwritten, header kept: what
    [set_payload] leaves when [a] is live. *)
Definition header_of (h : heap) (a : addr) : Z * option destructor_t :=
  match h !! a with
  | Some o => (refcount o, p_finalize o)
  | None => (0, None)
  end.

Definition upd (a : addr) (x : payload_t) (h : heap) : heap :=
  <[a := mk_obj (header_of h a).1 (header_of h a).2 x]> h.

Definition with_left (v : ptr) (n : rbt_node_t) : rbt_node_t :=
  mk_node v (right n) (parent n) (color n) (contents n).
Definition with_right (v : ptr) (n : rbt_node_t) : rbt_node_t :=
  mk_node (left n) v (parent n) (color n) (contents n).
Definition with_parent (v : ptr) (n : rbt_node_t) : rbt_node_t :=
  mk_node (left n) (right n) v (color n) (contents n).
Definition with_color (c : rbt_color_t) (n : rbt_node_t) : rbt_node_t :=
  mk_node (left n) (right n) (parent n) c (contents n).

(** [tree = rbt_new(compare)], then the operations in turn. *)
Definition build (fuel : nat) (os : list op) : M ptr :=
  let* tree := rbt_new (Some (Fn_unbox_compare int_compare)) in
  run_ops fuel tree os;;;
  ret tree.

(** The boxed integers met by an in-order walk from [node]. *)
Fixpoint inorder_keys (fuel : nat) (node : ptr) : M (list Z) :=
  match fuel with
  | O => timeout
  | S fuel =>
    if is_null node then ret [] else
    let* l := get_left node in
    let* ls := inorder_keys fuel l in
    let* c := get_contents node in
    let* k := mem_unbox c in
    let* r := get_right node in
    let* rs := inorder_keys fuel r in
    ret (ls ++ k :: rs)
  end.

(** The heap a computation leaves when run on the empty heap. *)
Definition heap_after {A} (m : M A) : heap :=
  match m ∅ with
  | Ok (_, h) => h
  | _ => ∅
  end.

(** A computation that leaves the heap as it found it. *)
Definition readonly {A} (m : M A) : Prop :=
  ∀ h a h', m h = Ok (a, h') -> h' = h.

(** What a test reads off a tree after the operations [os]: the validator's
    status, the root, the parent field of the root, and the keys met in
    order from the root. *)
Definition observe (fuel : nat) (os : list op)
  : M (rbt_status_t * ptr * ptr * list Z) :=
  let* tree := build fuel os in
  let* st := rbt_check_status fuel tree in
  let* r := get_root tree in
  let* rp := (if is_null r then ret NULL else get_parent r) in
  let* ks := inorder_keys fuel r in
  ret (st, r, rp, ks).

(** A hand-made tree, as a test of the validator links it: a BLACK root 10
    whose left child 5 is RED and has one child, the RED node 3, on the left
    (or, with [both], RED children 3 and 7). *)
Definition red_red_tree (both : bool) : M ptr :=
  let* tree := rbt_new (Some (Fn_unbox_compare int_compare)) in
  let* b10 := mem_box 10 in
  let* n10 := rbt_node_new b10 in
  let* b5 := mem_box 5 in
  let* n5 := rbt_node_new b5 in
  let* b3 := mem_box 3 in
  let* n3 := rbt_node_new b3 in
  set_color n10 BLACK;;;
  set_left n10 n5;;;
  set_parent n5 n10;;;
  set_left n5 n3;;;
  set_parent n3 n5;;;
  (if both then
     let* b7 := mem_box 7 in
     let* n7 := rbt_node_new b7 in
     set_right n5 n7;;;
     set_parent n7 n5
   else ret tt);;;
  set_root tree n10;;;
  ret tree.

(** The same key inserted twice, then looked up: the two nodes made and the
    node found. *)
Definition insert_twice_lookup (fuel : nat) (k : Z) : M (ptr * ptr * ptr) :=
  let* tree := rbt_new (Some (Fn_unbox_compare int_compare)) in
  let* b1 := mem_box k in
  let* n1 := rbt_insert fuel tree b1 in
  let* b2 := mem_box k in
  let* n2 := rbt_insert fuel tree b2 in
  let* b := mem_box k in
  let* found := rbt_lookup fuel tree b in
  ret (n1, n2, found).

(** ** Abstract trees and what it means for the heap to hold one *)

(** A binary tree of nodes, each with its address, color, contents pointer
    and the key the comparator reads through that pointer. *)
Inductive ntree :=
  | Leaf
  | T (l : ntree) (a : addr) (c : rbt_color_t) (v : ptr) (k : Z) (r : ntree).

(** One step from a node down to a child: the side of the child, the node,
    and the node's other subtree. A context is the path of such steps from a
    position up to the root, innermost first. *)
Record frame := Frame {
  f_side : direction_t;
  f_addr : addr;
  f_color : rbt_color_t;
  f_contents : ptr;
  f_key : Z;
  f_sib : ntree
}.
Abbreviation ctx := (list frame).

Definition fill (F : frame) (t : ntree) : ntree :=
  match f_side F with
  | LEFT => T t (f_addr F) (f_color F) (f_contents F) (f_key F) (f_sib F)
  | RIGHT => T (f_sib F) (f_addr F) (f_color F) (f_contents F) (f_key F) t
  end.

Fixpoint plug (C : ctx) (t : ntree) : ntree :=
  match C with
  | [] => t
  | F :: C => plug C (fill F t)
  end.

Definition ptr_of (t : ntree) : ptr :=
  match t with Leaf => NULL | T _ a _ _ _ _ => Some a end.

Definition color_of (t : ntree) : rbt_color_t :=
  match t with Leaf => BLACK | T _ _ c _ _ _ => c end.

(** In-order traversals: the nodes (address, contents, key), the addresses,
    the keys. *)
Fixpoint nodes (t : ntree) : list (addr * ptr * Z) :=
  match t with
  | Leaf => []
  | T l a c v k r => nodes l ++ (a, v, k) :: nodes r
  end.

Fixpoint addrs (t : ntree) : list addr :=
  match t with
  | Leaf => []
  | T l a c v k r => addrs l ++ a :: addrs r
  end.

Fixpoint keys (t : ntree) : list Z :=
  match t with
  | Leaf => []
  | T l a c v k r => keys l ++ k :: keys r
  end.

Fixpoint height (t : ntree) : nat :=
  match t with
  | Leaf => O
  | T l _ _ _ _ r => S (Nat.max (height l) (height r))
  end.

Definition ctx_addrs (C : ctx) : list addr :=
  flat_map (fun F => f_addr F :: addrs (f_sib F)) C.

Definition ctx_parent (C : ctx) : ptr :=
  match C with [] => NULL | F :: _ => Some (f_addr F) end.

(** What a comparator makes of a contents pointer, and how it orders two
    such keys: [tree->comp(a, b)] is [cmp_fun] on the keys of [a] and [b]. *)
Definition key_of (cmp : comparator_t) (h : heap) (v : ptr) : option Z :=
  match cmp with
  | Fn_rbt_default_comparator => Some (ptr_to_Z v)
  | Fn_unbox_compare _ => box_of h v
  end.

Definition cmp_fun (cmp : comparator_t) : Z -> Z -> Z :=
  match cmp with
  | Fn_rbt_default_comparator => int_compare
  | Fn_unbox_compare f => f
  end.

(** [rep cmp h par t]: the heap holds the subtree [t] below the parent
    [par]: every node of [t] is a node object whose fields are the roots of
    its subtrees, its structural parent, its color and its contents. *)
Fixpoint rep (cmp : comparator_t) (h : heap) (par : ptr) (t : ntree) : Prop :=
  match t with
  | Leaf => True
  | T l a c v k r =>
      node_of h a = Some (mk_node (ptr_of l) (ptr_of r) par c v) ∧
      key_of cmp h v = Some k ∧
      rep cmp h (Some a) l ∧ rep cmp h (Some a) r
  end.

(** The node object of a frame, around the hole pointer and below [par]. *)
Definition frame_node (F : frame) (hole par : ptr) : rbt_node_t :=
  match f_side F with
  | LEFT => mk_node hole (ptr_of (f_sib F)) par (f_color F) (f_contents F)
  | RIGHT => mk_node (ptr_of (f_sib F)) hole par (f_color F) (f_contents F)
  end.

Definition rep_frame (cmp : comparator_t) (h : heap) (F : frame)
    (hole par : ptr) : Prop :=
  node_of h (f_addr F) = Some (frame_node F hole par) ∧
  key_of cmp h (f_contents F) = Some (f_key F) ∧
  rep cmp h (Some (f_addr F)) (f_sib F).

(** [rep_ctx cmp tree h C hole]: the heap holds the context [C] around a
    position whose pointer is [hole], up to the tree object at [tree]. *)
Fixpoint rep_ctx (cmp : comparator_t) (tree : addr) (h : heap) (C : ctx)
    (hole : ptr) : Prop :=
  match C with
  | [] => tree_of h tree = Some (mk_tree hole cmp)
  | F :: C' =>
      rep_frame cmp h F hole (ctx_parent C') ∧
      rep_ctx cmp tree h C' (Some (f_addr F))
  end.

(** [is_tree cmp tree h t]: the tree object at [tree] has comparator [cmp]
    and its root pointer leads to the nodes of [t], all distinct, with every
    parent field equal to the structural parent (none for the root). *)
Definition is_tree (cmp : comparator_t) (tree : addr) (h : heap) (t : ntree) : Prop :=
  tree_of h tree = Some (mk_tree (ptr_of t) cmp) ∧
  rep cmp h NULL t ∧
  NoDup (addrs t).

Definition is_node (h : heap) (a : addr) : Prop := is_Some (node_of h a).

(** Keys read in [h] are read alike in [h']. *)
Definition keys_kept (cmp : comparator_t) (h h' : heap) : Prop :=
  ∀ v k, key_of cmp h v = Some k -> key_of cmp h' v = Some k.

(** The heap after the pointer to the position of a context is overwritten:
    the root field of the tree, or the child field of the innermost parent. *)
Definition set_hole (cmp : comparator_t) (tree : addr) (C : ctx) (new : ptr)
    (h : heap) : heap :=
  match C with
  | [] => upd tree (Tree (mk_tree new cmp)) h
  | F :: C' => upd (f_addr F) (Node (frame_node F new (ctx_parent C'))) h
  end.

(** [h'] differs from [h] at most in fields of nodes and in root fields of
    trees: the same addresses are live, with the same counts and finalizers;
    a node is still a node, a tree still a tree with its comparator, and
    every other payload is as it was. *)
Definition fields_only (h h' : heap) : Prop :=
  ∀ x, match h !! x, h' !! x with
       | Some o, Some o' =>
           refcount o' = refcount o ∧ p_finalize o' = p_finalize o ∧
           match payload o, payload o' with
           | Node _, Node _ => True
           | Tree t, Tree t' => comp t' = comp t
           | p, p' => p' = p
           end
       | None, None => True
       | _, _ => False
       end.

(** The rotation of a subtree at its root: towards LEFT the right child
    comes up, towards RIGHT the left child; without that child nothing moves. *)
Definition rotate_tree (d : direction_t) (t : ntree) : ntree :=
  match d, t with
  | LEFT, T l a c v k (T bl b cb vb kb br) => T (T l a c v k bl) b cb vb kb br
  | RIGHT, T (T bl b cb vb kb br) a c v k r => T bl b cb vb kb (T br a c v k r)
  | _, _ => t
  end.

(** The child of a node on a side. *)
Definition child (d : direction_t) (t : ntree) : ntree :=
  match t with
  | Leaf => Leaf
  | T l _ _ _ _ r => match d with LEFT => l | RIGHT => r end
  end.

Definition opposite (d : direction_t) : direction_t :=
  match d with LEFT => RIGHT | RIGHT => LEFT end.

(** ** Ordered trees and the search path *)

(** The comparator contract: [f] orders keys totally, equal keys allowed. *)
Record total_preorder (f : Z -> Z -> Z) : Prop := {
  cmp_refl : ∀ x, f x x = 0;
  cmp_sym : ∀ x y, f x y = 0 -> f y x = 0;
  cmp_flip : ∀ x y, f x y < 0 <-> f y x > 0;
  cmp_trans : ∀ x y z, f x y <= 0 -> f y z <= 0 -> f x z <= 0
}.

(** Keys in order: nothing on the left is above the node's key, nothing on
    the right below it. *)
Fixpoint bst (f : Z -> Z -> Z) (t : ntree) : Prop :=
  match t with
  | Leaf => True
  | T l a c v k r =>
      Forall (fun x => f x k <= 0) (keys l) ∧
      Forall (fun x => f k x <= 0) (keys r) ∧
      bst f l ∧ bst f r
  end.

(** The node [rbt_lookup_node] stops at: the first node on the way down from
    the root whose key compares equal to [k]. *)
Fixpoint search (f : Z -> Z -> Z) (k : Z) (t : ntree) : ptr :=
  match t with
  | Leaf => NULL
  | T l a c v k' r =>
      if f k k' =? 0 then Some a
      else if f k k' >? 0 then search f k r
      else search f k l
  end.

(** The root of a context is BLACK: the outermost frame holds the root node. *)
Definition ctx_root_black (C : ctx) : Prop :=
  match last C with
  | Some F => f_color F = BLACK
  | None => True
  end.

Definition recolor_tree (c : rbt_color_t) (t : ntree) : ntree :=
  match t with
  | Leaf => Leaf
  | T l a _ v k r => T l a c v k r
  end.

Definition frame_color (c : rbt_color_t) (F : frame) : frame :=
  Frame (f_side F) (f_addr F) c (f_contents F) (f_key F) (f_sib F).

(** The same node seen from its other child: the hole and the sibling
    subtree change places. *)
Definition frame_swap (F : frame) (t : ntree) : frame :=
  Frame (opposite (f_side F)) (f_addr F) (f_color F) (f_contents F) (f_key F) t.

Definition frame_sib (s : ntree) (F : frame) : frame :=
  Frame (f_side F) (f_addr F) (f_color F) (f_contents F) (f_key F) s.

(** The way down taken by [rbt_insert_node] for a key [k]: to the left when
    [k] compares below the key of a node, to the right otherwise (so also
    when the keys compare equal), until an absent child is met. The result is
    the context of that position. *)
Fixpoint descend (f : Z -> Z -> Z) (k : Z) (C : ctx) (t : ntree) : ctx :=
  match t with
  | Leaf => C
  | T l a c v k' r =>
      if f k k' <? 0 then descend f k (Frame LEFT a c v k' r :: C) l
      else descend f k (Frame RIGHT a c v k' l :: C) r
  end.

(** The tree with a new RED leaf hung at that position, before the fix-up. *)
Definition attach (f : Z -> Z -> Z) (t : ntree) (b : addr) (v : ptr) (k : Z) : ntree :=
  plug (descend f k [] t) (T Leaf b RED v k Leaf).

(** The nodes of a context that come before and after its position in the
    in-order traversal. *)
Fixpoint ctx_before (C : ctx) : list (addr * ptr * Z) :=
  match C with
  | [] => []
  | F :: C' =>
      ctx_before C' ++
      match f_side F with
      | LEFT => []
      | RIGHT => nodes (f_sib F) ++ [(f_addr F, f_contents F, f_key F)]
      end
  end.

Fixpoint ctx_after (C : ctx) : list (addr * ptr * Z) :=
  match C with
  | [] => []
  | F :: C' =>
      match f_side F with
      | LEFT => (f_addr F, f_contents F, f_key F) :: nodes (f_sib F)
      | RIGHT => []
      end ++ ctx_after C'
  end.

(** The in-order traversal is non-decreasing under the comparator. *)
Definition ordered (f : Z -> Z -> Z) (t : ntree) : Prop :=
  Sorted (fun x y => f x y <= 0) (keys t).

(** The object [rbt_node_new] makes. *)
Definition new_node_obj (value : ptr) : obj_t :=
  mk_obj 1 (Some Fn_rbt_node_free) (Node (mk_node NULL NULL NULL RED value)).

(** ** What [rbt_delete_node] is handed *)

(** The node [rbt_delete(tree, mem_box(k))] is about to remove after the
    operations [os], as [rbt_delete_node] finds it: the doomed node, the root
    of the tree, and the color, the two child fields and the parent field of
    the doomed node. *)
Definition doomed_node (fuel : nat) (os : list op) (k : Z)
  : M (ptr * ptr * rbt_color_t * ptr * ptr * ptr) :=
  let* tree := build fuel os in
  let* b := mem_box k in
  let* doomed := rbt_lookup fuel tree b in
  let* r := get_root tree in
  let* c := node_color doomed in
  let* l := get_left doomed in
  let* rt := get_right doomed in
  let* p := get_parent doomed in
  ret (doomed, r, c, l, rt, p).

(** The same delete when the doomed node has two children: the node the
    recursive call of [rbt_delete_node] is handed,
    [rightmost_descendent(node->left)], with its color and child fields. *)
Definition replacement_node (fuel : nat) (os : list op) (k : Z)
  : M (ptr * ptr * rbt_color_t * ptr * ptr) :=
  let* tree := build fuel os in
  let* b := mem_box k in
  let* doomed := rbt_lookup fuel tree b in
  let* l := get_left doomed in
  let* replacement := rightmost_descendent fuel l in
  let* c := node_color replacement in
  let* rl := get_left replacement in
  let* rr := get_right replacement in
  ret (doomed, replacement, c, rl, rr).

(** The root field of the tree after the operations [os], and the node
    object it names, if that is still live. *)
Definition root_after (fuel : nat) (os : list op) : M (ptr * option rbt_node_t) :=
  let* tree := build fuel os in
  let* r := get_root tree in
  fun h => Ok ((r, match r with Some a => node_of h a | None => None end), h).

(** ** The color invariants on abstract trees *)

(** The number of BLACK nodes on each path from the root of [t] down to an
    absent child, when all these paths agree. *)
Fixpoint black_height (t : ntree) : option nat :=
  match t with
  | Leaf => Some O
  | T l _ c _ _ r =>
      match black_height l, black_height r with
      | Some n, Some m =>
          if decide (n = m) then Some (match c with BLACK => S n | RED => n end)
          else None
      | _, _ => None
      end
  end.

(** No RED node has a RED child. *)
Fixpoint no_red_red (t : ntree) : Prop :=
  match t with
  | Leaf => True
  | T l _ c _ _ r =>
      (c = RED -> color_of l = BLACK ∧ color_of r = BLACK) ∧
      no_red_red l ∧ no_red_red r
  end.

(** The color condition on a context, around a position whose subtree has
    a root of color [c]: no RED node with a RED child among the nodes of the
    context and their other subtrees. *)
Fixpoint ctx_no_red_red (C : ctx) (c : rbt_color_t) : Prop :=
  match C with
  | [] => True
  | F :: C' =>
      no_red_red (f_sib F) ∧
      (f_color F = RED -> c = BLACK ∧ color_of (f_sib F) = BLACK) ∧
      ctx_no_red_red C' (f_color F)
  end.

(** The two color invariants together. *)
Definition red_black (t : ntree) : Prop :=
  no_red_red t ∧ is_Some (black_height t).

(** ** Ownership *)

(** The addresses that belong to a node: the node itself and its contents. *)
Definition node_cells (x : addr * ptr * Z) : list addr :=
  x.1.1 :: match x.1.2 with Some b => [b] | None => [] end.

(** The addresses that belong to a tree, in order. *)
Definition cells (t : ntree) : list addr := flat_map node_cells (nodes t).

(** The heap without the addresses [xs]. *)
Definition remove (xs : list addr) (h : heap) : heap := foldr delete h xs.

(** A node as [rbt_insert] leaves it to its tree: one reference to the node,
    whose finalizer is [rbt_node_free], and one reference to its contents,
    an object without finalizer. *)
Definition node_owned (h : heap) (x : addr * ptr * Z) : Prop :=
  (∃ o, h !! x.1.1 = Some o ∧ refcount o = 1 ∧ p_finalize o = Some Fn_rbt_node_free) ∧
  (∃ b o, x.1.2 = Some b ∧ h !! b = Some o ∧ refcount o = 1 ∧ p_finalize o = None).

Definition owned (h : heap) (t : ntree) : Prop := Forall (node_owned h) (nodes t).

(** The same, read off the objects themselves along the child pointers. *)
Fixpoint owns (h : heap) (t : ntree) : Prop :=
  match t with
  | Leaf => True
  | T l a c v k r =>
      (∃ par, h !! a = Some (mk_obj 1 (Some Fn_rbt_node_free)
                               (Node (mk_node (ptr_of l) (ptr_of r) par c v)))) ∧
      (∃ b p, v = Some b ∧ h !! b = Some (mk_obj 1 None p)) ∧
      owns h l ∧ owns h r
  end.

(** A tree that holds the one reference to each of its nodes and of their
    contents, all distinct, in a heap that holds nothing else. *)
Definition sole_owner (cmp : comparator_t) (tree : addr) (h : heap) (t : ntree) : Prop :=
  is_tree cmp tree h t ∧ owned h t ∧
  (∃ o, h !! tree = Some o ∧ refcount o = 1 ∧ p_finalize o = Some Fn_rbt_free) ∧
  NoDup (tree :: cells t) ∧
  (∀ x, is_Some (h !! x) -> x ∈ tree :: cells t).

(** ** The black-height that a context asks of its subtree *)

(** The black-height of a frame filled with a subtree of black-height [d],
    when the other subtree agrees. *)
Definition frame_bh (F : frame) (d : nat) : option nat :=
  match black_height (f_sib F) with
  | Some m =>
      if decide (d = m)
      then Some (match f_color F with BLACK => S d | RED => d end)
      else None
  | None => None
  end.

Fixpoint ctx_bh (C : ctx) (d : nat) : option nat :=
  match C with
  | [] => Some d
  | F :: C' => match frame_bh F d with Some e => ctx_bh C' e | None => None end
  end.

(** A context that makes a red-black tree of every BLACK subtree of
    black-height [d] that satisfies the color invariants. *)
Definition ctx_ok (C : ctx) (d : nat) : Prop :=
  is_Some (ctx_bh C d) ∧ ctx_no_red_red C BLACK ∧ ctx_root_black C.

(** The outcome of the fix-up at the position [C] with the subtree [tf]:
    the heap [h'] holds [tf] at a position [C'] that takes a subtree of
    black-height [d]. *)
Definition fixed (cmp : comparator_t) (tree : addr) (h : heap) (C : ctx) (tf : ntree)
    (d : nat) (h' : heap) (C' : ctx) : Prop :=
  is_tree cmp tree h' (plug C' tf) ∧ fields_only h h' ∧ ctx_ok C' d ∧
  (∀ x, nodes (plug C' x) = nodes (plug C x)).

(** ** Counts *)

(** The heap with the count of the object at [a] set to [c]. *)
Definition with_count (a : addr) (c : Z) (h : heap) : heap :=
  alter (fun o => mk_obj c (p_finalize o) (payload o)) a h.

(** ** What the validator establishes *)

(** The computation [m] run on [h] ends normally on [h'] with a value that
    satisfies [P]. *)
Definition returns {A} (m : M A) (h h' : heap) (P : A -> Prop) : Prop :=
  ∃ a, m h = Ok (a, h') ∧ P a.

(** No RED node has two RED children: what the validator asks of the
    colors of a node and its children. *)
Fixpoint no_red_with_red_children (t : ntree) : Prop :=
  match t with
  | Leaf => True
  | T l _ c _ _ r =>
      (c = RED -> color_of l = BLACK ∨ color_of r = BLACK) ∧
      no_red_with_red_children l ∧ no_red_with_red_children r
  end.

(** The number [count_black_nodes_to_leaf] computes on a subtree: -1 where
    the numbers of the two subtrees of a node differ. *)
Fixpoint black_count (t : ntree) : Z :=
  match t with
  | Leaf => 0
  | T l _ c _ _ r =>
      if negb (black_count l =? black_count r) then -1
      else match c with BLACK => black_count l + 1 | RED => black_count l end
  end.

(** The order [rbt_check_node] asks for between the bounds [klo] and [khi]:
    a bound is in force when it compares above -1; the key of a node is
    then not below the lower bound and not above the upper one, and it is
    the upper bound of the left subtree and the lower bound of the right
    one. *)
Fixpoint ordered_within (f : Z -> Z -> Z) (t : ntree) (klo khi : Z) : Prop :=
  match t with
  | Leaf => True
  | T l _ _ _ k r =>
      ¬ (f klo (-1) > 0 ∧ f k klo < 0) ∧
      ¬ (f khi (-1) > 0 ∧ f k khi > 0) ∧
      ordered_within f l klo k ∧ ordered_within f r k khi
  end.

(** The trees [rbt_check_status] accepts. *)
Definition accepted (f : Z -> Z -> Z) (t : ntree) : Prop :=
  no_red_with_red_children t ∧ ordered_within f t (-1) (-1) ∧
  color_of t = BLACK ∧ black_count t ≠ -1.

(** * Proofs *)

(** ** Running computations *)

Lemma bind_Ok {A B} (m : M A) (f : A -> M B) h a h1 :
  m h = Ok (a, h1) -> bind m f h = f a h1.
Proof. intros H. unfold bind. by rewrite H. Qed.

Lemma bind_Fault {A B} (m : M A) (f : A -> M B) h :
  m h = Fault -> bind m f h = Fault.
Proof. intros H. unfold bind. by rewrite H. Qed.

Lemma bind_ret {A B} (a : A) (f : A -> M B) h : bind (ret a) f h = f a h.
Proof. done. Qed.

Lemma bind_assoc {A B C} (m : M A) (f : A -> M B) (g : B -> M C) h :
  bind (bind m f) g h = bind m (fun a => bind (f a) g) h.
Proof. unfold bind. destruct (m h) as [[a h1]| |]; done. Qed.

Lemma int_add_in_range a b h :
  INT_MIN <= a + b <= INT_MAX -> int_add a b h = Ok (a + b, h).
Proof. intros H. unfold int_add. rewrite bool_decide_eq_true_2; done. Qed.

Lemma load_Some a o (h : heap) : h !! a = Some o -> load (Some a) h = Ok (o, h).
Proof. intros H. unfold load. by rewrite H. Qed.

Lemma store_Some a o o' (h : heap) :
  h !! a = Some o -> store (Some a) o' h = Ok (tt, <[a := o']> h).
Proof. intros H. unfold store. by rewrite H. Qed.

Lemma free_Some a o (h : heap) : h !! a = Some o -> free (Some a) h = Ok (tt, delete a h).
Proof. intros H. unfold free. by rewrite H. Qed.

Lemma set_payload_Some a o x (h : heap) :
  h !! a = Some o ->
  set_payload (Some a) x h = Ok (tt, <[a := mk_obj (refcount o) (p_finalize o) x]> h).
Proof.
  intros H. unfold set_payload.
  rewrite (bind_Ok _ _ _ _ _ (load_Some _ _ _ H)).
  by apply store_Some with o.
Qed.

Lemma set_payload_upd a o x (h : heap) :
  h !! a = Some o -> set_payload (Some a) x h = Ok (tt, upd a x h).
Proof.
  intros H. rewrite (set_payload_Some _ _ _ _ H). unfold upd, header_of.
  by rewrite H.
Qed.

#[global] Arguments load : simpl never.
#[global] Arguments store : simpl never.
#[global] Arguments free : simpl never.
#[global] Arguments set_payload : simpl never.
#[global] Arguments mem_allocate : simpl never.
#[global] Arguments mem_retain : simpl never.
#[global] Arguments mem_release : simpl never.
#[global] Arguments int_add : simpl never.

(** ** The reference-count protocol of mem.c *)

Lemma mem_allocate_fresh size f (h : heap) :
  ∃ a, h !! a = None ∧
       mem_allocate size f h = Ok (Some a, <[a := mk_obj 1 f (Raw size)]> h).
Proof.
  exists (fresh (dom h)). split; [|done].
  apply not_elem_of_dom, is_fresh.
Qed.

Lemma mem_retain_Some a o (h : heap) :
  h !! a = Some o -> INT_MIN <= refcount o < INT_MAX ->
  mem_retain (Some a) h
  = Ok (Some a, <[a := mk_obj (refcount o + 1) (p_finalize o) (payload o)]> h).
Proof.
  intros H ?. unfold mem_retain.
  rewrite (bind_Ok _ _ _ _ _ (load_Some _ _ _ H)).
  erewrite bind_Ok by (apply int_add_in_range; unfold INT_MAX, INT_MIN in *; lia).
  by rewrite (bind_Ok _ _ _ _ _ (store_Some _ _ _ _ H)).
Qed.

(** [mem_release] on a live object: the count goes down by one; the finalizer
    and [free] run exactly when the new count is below 1. *)
Lemma mem_release_Some fuel a o (h : heap) :
  h !! a = Some o -> INT_MIN < refcount o <= INT_MAX ->
  mem_release (S fuel) (Some a) h =
    if bool_decide (refcount o - 1 < 1) then
      (match p_finalize o with
       | Some f => call_destructor (mem_release fuel) f (Some a)
       | None => ret tt
       end;;; free (Some a))
        (<[a := mk_obj (refcount o - 1) (p_finalize o) (payload o)]> h)
    else Ok (tt, <[a := mk_obj (refcount o - 1) (p_finalize o) (payload o)]> h).
Proof.
  intros H ?. unfold mem_release; fold mem_release.
  rewrite (bind_Ok _ _ _ _ _ (load_Some _ _ _ H)).
  erewrite bind_Ok by (apply int_add_in_range; unfold INT_MAX, INT_MIN in *; lia).
  rewrite (bind_Ok _ _ _ _ _ (store_Some _ _ _ _ H)).
  replace (refcount o + -1) with (refcount o - 1) by lia.
  case_bool_decide as Hlt.
  - apply Z.ltb_lt in Hlt. by rewrite Hlt.
  - apply Z.ltb_nlt in Hlt. by rewrite Hlt.
Qed.

Lemma mem_release_last fuel a o (h : heap) :
  h !! a = Some o -> p_finalize o = None -> INT_MIN < refcount o <= 1 ->
  mem_release (S fuel) (Some a) h = Ok (tt, delete a h).
Proof.
  intros H Hfin ?. rewrite (mem_release_Some _ _ _ _ H) by (unfold INT_MAX; lia).
  rewrite bool_decide_eq_true_2 by lia. rewrite Hfin.
  rewrite bind_ret. erewrite free_Some by apply lookup_insert_eq.
  by rewrite delete_insert_eq.
Qed.

Lemma mem_release_shared fuel a o (h : heap) :
  h !! a = Some o -> 1 < refcount o <= INT_MAX ->
  mem_release (S fuel) (Some a) h
  = Ok (tt, <[a := mk_obj (refcount o - 1) (p_finalize o) (payload o)]> h).
Proof.
  intros H ?. rewrite (mem_release_Some _ _ _ _ H) by (unfold INT_MIN; lia).
  by rewrite bool_decide_eq_false_2 by lia.
Qed.

Lemma mem_num_references_Some a o (h : heap) :
  h !! a = Some o -> mem_num_references (Some a) h = Ok (refcount o, h).
Proof.
  intros H. unfold mem_num_references.
  by rewrite (bind_Ok _ _ _ _ _ (load_Some _ _ _ H)).
Qed.

Lemma rbt_node_new_fresh v (h : heap) :
  ∃ b, h !! b = None ∧
       rbt_node_new v h
       = Ok (Some b, <[b := mk_obj 1 (Some Fn_rbt_node_free)
                                  (Node (mk_node NULL NULL NULL RED v))]> h).
Proof.
  destruct (mem_allocate_fresh sizeof_rbt_node_t (Some Fn_rbt_node_free) h)
    as (b & Hb & Hal).
  exists b. split; [done|].
  unfold rbt_node_new. rewrite (bind_Ok _ _ _ _ _ Hal).
  erewrite bind_Ok by (apply set_payload_Some, lookup_insert_eq).
  cbn. by rewrite insert_insert_eq.
Qed.

(** An object without finalizer: allocated, retained once, released twice. *)
Lemma plain_object_scenario size fuel (h : heap) :
  ∃ b h1 h2 h3,
    h !! b = None ∧
    mem_allocate size None h = Ok (Some b, h1) ∧
    mem_num_references (Some b) h1 = Ok (1, h1) ∧
    mem_retain (Some b) h1 = Ok (Some b, h2) ∧
    mem_num_references (Some b) h2 = Ok (2, h2) ∧
    mem_release (S fuel) (Some b) h2 = Ok (tt, h3) ∧
    is_Some (h3 !! b) ∧
    mem_release (S fuel) (Some b) h3 = Ok (tt, h).
Proof.
  destruct (mem_allocate_fresh size None h) as (b & Hb & Hal).
  eexists b, _, _, _. split; [done|]. split; [exact Hal|].
  split; [by erewrite mem_num_references_Some by apply lookup_insert_eq|].
  split.
  { erewrite mem_retain_Some
      by (try apply lookup_insert_eq; cbn; unfold INT_MAX, INT_MIN; lia).
    cbn. rewrite insert_insert_eq. reflexivity. }
  split; [by erewrite mem_num_references_Some by apply lookup_insert_eq|].
  split.
  { erewrite mem_release_shared
      by (try apply lookup_insert_eq; cbn; unfold INT_MAX; lia).
    cbn. rewrite insert_insert_eq. reflexivity. }
  split; [rewrite lookup_insert_eq; eauto|].
  erewrite mem_release_last
    by (try apply lookup_insert_eq; cbn; unfold INT_MIN; (done || lia)).
  by rewrite delete_insert_id.
Qed.

(** ** Reading and writing nodes *)

Lemma node_of_Some h a n :
  node_of h a = Some n -> ∃ o, h !! a = Some o ∧ payload o = Node n.
Proof.
  unfold node_of. destruct (h !! a) as [o|]; [|done].
  destruct (payload o) eqn:E; try done. intros [= ->]. eauto.
Qed.

Lemma tree_of_Some h a t :
  tree_of h a = Some t -> ∃ o, h !! a = Some o ∧ payload o = Tree t.
Proof.
  unfold tree_of. destruct (h !! a) as [o|]; [|done].
  destruct (payload o) eqn:E; try done. intros [= ->]. eauto.
Qed.

Lemma box_of_Some h p v :
  box_of h p = Some v -> ∃ a o, p = Some a ∧ h !! a = Some o ∧ payload o = Box v.
Proof.
  unfold box_of. destruct p as [a|]; [|done].
  destruct (h !! a) as [o|] eqn:Ho; [|done].
  destruct (payload o) eqn:E; try done. intros [= ->]. by exists a, o.
Qed.

Lemma get_node_ok h a n : node_of h a = Some n -> get_node (Some a) h = Ok (n, h).
Proof.
  intros (o & Ho & Hp)%node_of_Some. unfold get_node.
  rewrite (bind_Ok _ _ _ _ _ (load_Some _ _ _ Ho)). by rewrite Hp.
Qed.

Lemma get_tree_ok h a t : tree_of h a = Some t -> get_tree (Some a) h = Ok (t, h).
Proof.
  intros (o & Ho & Hp)%tree_of_Some. unfold get_tree.
  rewrite (bind_Ok _ _ _ _ _ (load_Some _ _ _ Ho)). by rewrite Hp.
Qed.

Lemma mem_unbox_ok h p v : box_of h p = Some v -> mem_unbox p h = Ok (v, h).
Proof.
  intros (a & o & -> & Ho & Hp)%box_of_Some. unfold mem_unbox.
  rewrite (bind_Ok _ _ _ _ _ (load_Some _ _ _ Ho)). by rewrite Hp.
Qed.

Lemma get_left_ok h a n : node_of h a = Some n -> get_left (Some a) h = Ok (left n, h).
Proof. intros H. unfold get_left. by rewrite (bind_Ok _ _ _ _ _ (get_node_ok _ _ _ H)). Qed.
Lemma get_right_ok h a n : node_of h a = Some n -> get_right (Some a) h = Ok (right n, h).
Proof. intros H. unfold get_right. by rewrite (bind_Ok _ _ _ _ _ (get_node_ok _ _ _ H)). Qed.
Lemma get_parent_ok h a n : node_of h a = Some n -> get_parent (Some a) h = Ok (parent n, h).
Proof. intros H. unfold get_parent. by rewrite (bind_Ok _ _ _ _ _ (get_node_ok _ _ _ H)). Qed.
Lemma get_color_ok h a n : node_of h a = Some n -> get_color (Some a) h = Ok (color n, h).
Proof. intros H. unfold get_color. by rewrite (bind_Ok _ _ _ _ _ (get_node_ok _ _ _ H)). Qed.
Lemma get_contents_ok h a n :
  node_of h a = Some n -> get_contents (Some a) h = Ok (contents n, h).
Proof. intros H. unfold get_contents. by rewrite (bind_Ok _ _ _ _ _ (get_node_ok _ _ _ H)). Qed.
Lemma get_root_ok h a t : tree_of h a = Some t -> get_root (Some a) h = Ok (root t, h).
Proof. intros H. unfold get_root. by rewrite (bind_Ok _ _ _ _ _ (get_tree_ok _ _ _ H)). Qed.
Lemma get_comp_ok h a t : tree_of h a = Some t -> get_comp (Some a) h = Ok (comp t, h).
Proof. intros H. unfold get_comp. by rewrite (bind_Ok _ _ _ _ _ (get_tree_ok _ _ _ H)). Qed.

Lemma node_color_ok h a n :
  node_of h a = Some n -> node_color (Some a) h = Ok (color n, h).
Proof. apply get_color_ok. Qed.
Lemma node_color_NULL h : node_color NULL h = Ok (BLACK, h).
Proof. done. Qed.

Lemma set_node_upd h a n x :
  node_of h a = Some n -> set_payload (Some a) x h = Ok (tt, upd a x h).
Proof. intros (o & Ho & _)%node_of_Some. by apply set_payload_upd with o. Qed.

Lemma set_left_ok h a n v :
  node_of h a = Some n ->
  set_left (Some a) v h = Ok (tt, upd a (Node (with_left v n)) h).
Proof.
  intros H. unfold set_left. rewrite (bind_Ok _ _ _ _ _ (get_node_ok _ _ _ H)).
  by apply set_node_upd with n.
Qed.
Lemma set_right_ok h a n v :
  node_of h a = Some n ->
  set_right (Some a) v h = Ok (tt, upd a (Node (with_right v n)) h).
Proof.
  intros H. unfold set_right. rewrite (bind_Ok _ _ _ _ _ (get_node_ok _ _ _ H)).
  by apply set_node_upd with n.
Qed.
Lemma set_parent_ok h a n v :
  node_of h a = Some n ->
  set_parent (Some a) v h = Ok (tt, upd a (Node (with_parent v n)) h).
Proof.
  intros H. unfold set_parent. rewrite (bind_Ok _ _ _ _ _ (get_node_ok _ _ _ H)).
  by apply set_node_upd with n.
Qed.
Lemma set_color_ok h a n c :
  node_of h a = Some n ->
  set_color (Some a) c h = Ok (tt, upd a (Node (with_color c n)) h).
Proof.
  intros H. unfold set_color. rewrite (bind_Ok _ _ _ _ _ (get_node_ok _ _ _ H)).
  by apply set_node_upd with n.
Qed.
Lemma set_root_ok h a t v :
  tree_of h a = Some t ->
  set_root (Some a) v h = Ok (tt, upd a (Tree (mk_tree v (comp t))) h).
Proof.
  intros H. unfold set_root. rewrite (bind_Ok _ _ _ _ _ (get_tree_ok _ _ _ H)).
  destruct (tree_of_Some _ _ _ H) as (o & Ho & _). by apply set_payload_upd with o.
Qed.

#[global] Arguments get_node : simpl never.
#[global] Arguments get_tree : simpl never.
#[global] Arguments get_left : simpl never.
#[global] Arguments get_right : simpl never.
#[global] Arguments get_parent : simpl never.
#[global] Arguments get_color : simpl never.
#[global] Arguments get_contents : simpl never.
#[global] Arguments get_root : simpl never.
#[global] Arguments get_comp : simpl never.
#[global] Arguments set_left : simpl never.
#[global] Arguments set_right : simpl never.
#[global] Arguments set_parent : simpl never.
#[global] Arguments set_color : simpl never.
#[global] Arguments set_root : simpl never.
#[global] Arguments mem_unbox : simpl never.

(** What an overwrite at [a] leaves of the views. *)
Lemma lookup_upd_ne a b x h : a ≠ b -> upd a x h !! b = h !! b.
Proof. intros. unfold upd. by rewrite lookup_insert_ne. Qed.

Lemma node_of_upd_eq a n h : node_of (upd a (Node n) h) a = Some n.
Proof. unfold node_of, upd. by rewrite lookup_insert_eq. Qed.
Lemma node_of_upd_ne a b x h : a ≠ b -> node_of (upd a x h) b = node_of h b.
Proof. intros. unfold node_of. by rewrite lookup_upd_ne. Qed.
Lemma node_of_upd_tree a t h b :
  is_Some (tree_of h a) -> node_of (upd a (Tree t) h) b = node_of h b.
Proof.
  intros [t0 (o & Ho & Hp)%tree_of_Some]. destruct (decide (a = b)) as [<-|].
  - unfold node_of, upd. rewrite lookup_insert_eq, Ho. cbn. by rewrite Hp.
  - by apply node_of_upd_ne.
Qed.

Lemma tree_of_upd_eq a t h : tree_of (upd a (Tree t) h) a = Some t.
Proof. unfold tree_of, upd. by rewrite lookup_insert_eq. Qed.
Lemma tree_of_upd_ne a b x h : a ≠ b -> tree_of (upd a x h) b = tree_of h b.
Proof. intros. unfold tree_of. by rewrite lookup_upd_ne. Qed.
Lemma tree_of_upd_node a n h b :
  is_Some (node_of h a) -> tree_of (upd a (Node n) h) b = tree_of h b.
Proof.
  intros [n0 (o & Ho & Hp)%node_of_Some]. destruct (decide (a = b)) as [<-|].
  - unfold tree_of, upd. rewrite lookup_insert_eq, Ho. cbn. by rewrite Hp.
  - by apply tree_of_upd_ne.
Qed.

Lemma box_of_upd_node a n h p :
  is_Some (node_of h a) -> box_of (upd a (Node n) h) p = box_of h p.
Proof.
  intros [n0 (o & Ho & Hp)%node_of_Some]. destruct p as [b|]; [|done].
  destruct (decide (a = b)) as [<-|].
  - unfold box_of, upd. rewrite lookup_insert_eq, Ho. cbn. by rewrite Hp.
  - unfold box_of. by rewrite lookup_upd_ne.
Qed.
Lemma box_of_upd_tree a t h p :
  is_Some (tree_of h a) -> box_of (upd a (Tree t) h) p = box_of h p.
Proof.
  intros [n0 (o & Ho & Hp)%tree_of_Some]. destruct p as [b|]; [|done].
  destruct (decide (a = b)) as [<-|].
  - unfold box_of, upd. rewrite lookup_insert_eq, Ho. cbn. by rewrite Hp.
  - unfold box_of. by rewrite lookup_upd_ne.
Qed.

Lemma upd_same_node a n h : node_of h a = Some n -> upd a (Node n) h = h.
Proof.
  intros (o & Ho & Hp)%node_of_Some. unfold upd, header_of. rewrite Ho. cbn.
  apply insert_id. rewrite Ho. destruct o. cbn in *. by subst.
Qed.

(** [rbt_node_free] on a node without children releases the contents only. *)
Lemma rbt_node_free_leaf release a n (h h1 : heap) :
  node_of h a = Some n -> left n = NULL -> right n = NULL ->
  release (contents n) h = Ok (tt, h1) ->
  node_of h1 a = Some n ->
  rbt_node_free release (Some a) h = Ok (tt, h1).
Proof.
  intros Hn Hl Hr Hrel Hn1. unfold rbt_node_free. cbn [is_null].
  rewrite (bind_Ok _ _ _ _ _ (get_contents_ok _ _ _ Hn)).
  rewrite (bind_Ok _ _ _ _ _ Hrel).
  rewrite (bind_Ok _ _ _ _ _ (get_left_ok _ _ _ Hn1)), Hl. cbn [is_null negb when].
  rewrite bind_ret.
  rewrite (bind_Ok _ _ _ _ _ (get_right_ok _ _ _ Hn1)), Hr. done.
Qed.

(** The last release of a childless node: [rbt_node_free] releases the
    contents [a], then the node is freed. *)
Lemma release_last_of_leaf fuel a o b ob n (h : heap) :
  h !! a = Some o -> p_finalize o = None -> INT_MIN < refcount o <= INT_MAX ->
  a ≠ b ->
  h !! b = Some ob -> refcount ob = 1 -> p_finalize ob = Some Fn_rbt_node_free ->
  payload ob = Node n -> left n = NULL -> right n = NULL -> contents n = Some a ->
  ∃ h4, mem_release (S (S fuel)) (Some b) h = Ok (tt, h4) ∧
        h4 !! b = None ∧
        h4 !! a = (if bool_decide (refcount o - 1 < 1) then None
                   else Some (mk_obj (refcount o - 1) None (payload o))).
Proof.
  intros Ha Hfin Hrc Hab Hb Hrcb Hfb Hpb Hl Hr Hc.
  erewrite mem_release_Some by (try done; rewrite Hrcb; unfold INT_MAX, INT_MIN; lia).
  rewrite Hrcb, Hfb, Hpb. rewrite bool_decide_eq_true_2 by lia.
  cbn [call_destructor].
  set (hb := <[b := _]> h).
  assert (node_of hb b = Some n) as Hn
      by (unfold node_of, hb; by rewrite lookup_insert_eq).
  assert (hb !! a = Some o) as Hba by (unfold hb; by rewrite lookup_insert_ne).
  destruct (decide (refcount o - 1 < 1)) as [Hlt|Hge].
  - rewrite bool_decide_eq_true_2 by done.
    exists (delete b (delete a hb)). split.
    + erewrite bind_Ok; cycle 1.
      { eapply rbt_node_free_leaf with (n := n); [done..| |].
        - rewrite Hc. apply mem_release_last with o; [done..|lia].
        - unfold node_of. rewrite lookup_delete_ne by done.
          unfold hb. by rewrite lookup_insert_eq. }
      erewrite free_Some; [done|].
      rewrite lookup_delete_ne by done. unfold hb. apply lookup_insert_eq.
    + split; [apply lookup_delete_eq|].
      rewrite lookup_delete_ne by done. apply lookup_delete_eq.
  - rewrite bool_decide_eq_false_2 by done.
    eexists (delete b (<[a := _]> hb)). split.
    + erewrite bind_Ok; cycle 1.
      { eapply rbt_node_free_leaf with (n := n); [done..| |].
        - rewrite Hc. apply mem_release_shared with (o := o); [done|lia].
        - unfold node_of. rewrite lookup_insert_ne by done.
          unfold hb. by rewrite lookup_insert_eq. }
      erewrite free_Some; [done|].
      rewrite lookup_insert_ne by done. unfold hb. apply lookup_insert_eq.
    + split; [apply lookup_delete_eq|].
      rewrite lookup_delete_ne by done. rewrite lookup_insert_eq. by rewrite Hfin.
Qed.

(** A node made by [rbt_node_new] over a live, finalizer-free contents object
    [a]: retained once, released twice. The second release runs
    [rbt_node_free], which releases the contents, and frees the node. *)
Lemma node_scenario fuel a o (h : heap) :
  h !! a = Some o -> p_finalize o = None -> INT_MIN < refcount o <= INT_MAX ->
  ∃ b h1 h2 h3 h4,
    h !! b = None ∧
    rbt_node_new (Some a) h = Ok (Some b, h1) ∧
    mem_num_references (Some b) h1 = Ok (1, h1) ∧
    mem_retain (Some b) h1 = Ok (Some b, h2) ∧
    mem_num_references (Some b) h2 = Ok (2, h2) ∧
    mem_release (S (S fuel)) (Some b) h2 = Ok (tt, h3) ∧
    is_Some (h3 !! b) ∧ h3 !! a = Some o ∧
    mem_release (S (S fuel)) (Some b) h3 = Ok (tt, h4) ∧
    h4 !! b = None ∧
    h4 !! a = (if bool_decide (refcount o - 1 < 1) then None
               else Some (mk_obj (refcount o - 1) None (payload o))).
Proof.
  intros Ha Hfin Hrc.
  destruct (rbt_node_new_fresh (Some a) h) as (b & Hb & Hnew).
  assert (a ≠ b) as Hab by (intros ->; congruence).
  set (n := mk_node NULL NULL NULL RED (Some a)) in *.
  set (ob := mk_obj 1 (Some Fn_rbt_node_free) (Node n)).
  destruct (release_last_of_leaf fuel a o b ob n (<[b := ob]> h))
    as (h4 & Hrel & Hb4 & Ha4); try done.
  { by rewrite lookup_insert_ne. }
  { apply lookup_insert_eq. }
  exists b, (<[b := ob]> h), (<[b := mk_obj 2 (Some Fn_rbt_node_free) (Node n)]> h),
    (<[b := ob]> h), h4.
  split; [done|]. split; [exact Hnew|].
  split; [by erewrite mem_num_references_Some by apply lookup_insert_eq|].
  split.
  { erewrite mem_retain_Some
      by (try apply lookup_insert_eq; cbn; unfold INT_MAX, INT_MIN; lia).
    cbn. by rewrite insert_insert_eq. }
  split; [by erewrite mem_num_references_Some by apply lookup_insert_eq|].
  split.
  { erewrite mem_release_shared
      by (try apply lookup_insert_eq; cbn; unfold INT_MAX; lia).
    cbn. by rewrite insert_insert_eq. }
  split; [rewrite lookup_insert_eq; eauto|].
  split; [by rewrite lookup_insert_ne|].
  done.
Qed.

(** C5. The reference-count protocol. On every heap, the empty one
    included, [mem_allocate] returns an unused handle whose count is 1 and
    leaves every other object as it was. On every live object [a] whose
    count lies strictly inside the [int] range: [mem_retain] returns the
    same handle and raises the count by 1, leaving every other object as it
    was; [mem_release] lowers the count by 1 and, exactly when the new
    count is below 1, runs the finalizer (if there is one) and then frees
    the storage, and otherwise keeps the object. On every heap, an object
    that is allocated and retained once has 2 references; the first release
    keeps its storage and the second frees it. The same holds for a node of
    [rbt_node_new] over live contents without finalizer: the finalizer of
    the node releases the contents. *)
Theorem refcount_protocol (size : Z) (f : option destructor_t) (fuel : nat) (h : heap) :
  (* mem_allocate *)
  (∃ b h1, h !! b = None ∧ mem_allocate size f h = Ok (Some b, h1) ∧
           mem_num_references (Some b) h1 = Ok (1, h1) ∧
           ∀ x, x ≠ b -> h1 !! x = h !! x) ∧
  (* mem_retain *)
  (∀ a o, h !! a = Some o -> INT_MIN < refcount o < INT_MAX ->
     ∃ h1, mem_retain (Some a) h = Ok (Some a, h1) ∧
           mem_num_references (Some a) h1 = Ok (refcount o + 1, h1) ∧
           h1 !! a = Some (mk_obj (refcount o + 1) (p_finalize o) (payload o)) ∧
           ∀ x, x ≠ a -> h1 !! x = h !! x) ∧
  (* mem_release *)
  (∀ a o, h !! a = Some o -> INT_MIN < refcount o < INT_MAX ->
     let h1 := <[a := mk_obj (refcount o - 1) (p_finalize o) (payload o)]> h in
     (refcount o - 1 < 1 ->
        mem_release (S fuel) (Some a) h
        = (match p_finalize o with
           | Some g => call_destructor (mem_release fuel) g (Some a)
           | None => ret tt
           end;;; free (Some a)) h1) ∧
     (refcount o - 1 < 1 -> p_finalize o = None ->
        mem_release (S fuel) (Some a) h = Ok (tt, delete a h)) ∧
     (¬ refcount o - 1 < 1 ->
        mem_release (S fuel) (Some a) h = Ok (tt, h1) ∧
        mem_num_references (Some a) h1 = Ok (refcount o - 1, h1))) ∧
  (* allocate, retain, release, release *)
  (∃ b h1 h2 h3,
      h !! b = None ∧ mem_allocate size None h = Ok (Some b, h1) ∧
      mem_retain (Some b) h1 = Ok (Some b, h2) ∧
      mem_num_references (Some b) h2 = Ok (2, h2) ∧
      mem_release (S fuel) (Some b) h2 = Ok (tt, h3) ∧ is_Some (h3 !! b) ∧
      mem_release (S fuel) (Some b) h3 = Ok (tt, h) ∧ h !! b = None) ∧
  (* the same with a node over the contents [a] *)
  (∀ a o, h !! a = Some o -> INT_MIN < refcount o < INT_MAX -> p_finalize o = None ->
     ∃ b h1 h2 h3 h4,
        h !! b = None ∧ rbt_node_new (Some a) h = Ok (Some b, h1) ∧
        mem_retain (Some b) h1 = Ok (Some b, h2) ∧
        mem_num_references (Some b) h2 = Ok (2, h2) ∧
        mem_release (S (S fuel)) (Some b) h2 = Ok (tt, h3) ∧
        is_Some (h3 !! b) ∧ h3 !! a = Some o ∧
        mem_release (S (S fuel)) (Some b) h3 = Ok (tt, h4) ∧
        h4 !! b = None ∧
        h4 !! a = (if bool_decide (refcount o - 1 < 1) then None
                   else Some (mk_obj (refcount o - 1) None (payload o)))).
Proof.
  split; [|split; [|split; [|split]]].
  - destruct (mem_allocate_fresh size f h) as (b & Hb & Hal).
    eexists b, _. split; [done|]. split; [exact Hal|]. split.
    + by erewrite mem_num_references_Some by apply lookup_insert_eq.
    + intros x Hx. by rewrite lookup_insert_ne.
  - intros a o Ha Hrc.
    eexists. split; [apply mem_retain_Some; [done|lia]|]. split; [|split].
    + by erewrite mem_num_references_Some by apply lookup_insert_eq.
    + apply lookup_insert_eq.
    + intros x Hx. by rewrite lookup_insert_ne.
  - intros a o Ha Hrc h1. unfold h1. split; [|split].
    + intros Hlt. rewrite (mem_release_Some _ _ _ _ Ha) by lia.
      by rewrite bool_decide_eq_true_2.
    + intros Hlt Hfin. apply mem_release_last with o; [done..|lia].
    + intros Hge. split.
      * apply mem_release_shared; [done|lia].
      * by erewrite mem_num_references_Some by apply lookup_insert_eq.
  - destruct (plain_object_scenario size fuel h)
      as (b & h1 & h2 & h3 & Hb & ? & ? & ? & ? & ? & ? & ?).
    exists b, h1, h2, h3. done.
  - intros a o Ha Hrc Hfin.
    destruct (node_scenario fuel a o h Ha Hfin)
      as (b & h1 & h2 & h3 & h4 & Hb & ? & ? & ? & ? & ? & ? & ? & ? & ? & ?);
      [lia|].
    exists b, h1, h2, h3, h4. done.
Qed.

(** The first allocation of a program, on the empty heap; and a live box
    with one reference, retained once. *)
Lemma refcount_protocol_witness :
  let h : heap := {[ 1%positive := mk_obj 1 None (Box 7) ]} in
  (∃ b h1, mem_allocate 8 None ∅ = Ok (Some b, h1) ∧
           mem_num_references (Some b) h1 = Ok (1, h1)) ∧
  (∃ h1, mem_retain (Some 1%positive) h = Ok (Some 1%positive, h1) ∧
         mem_num_references (Some 1%positive) h1 = Ok (2, h1)).
Proof.
  intros h. split.
  - destruct (refcount_protocol 8 None 1 ∅) as ((b & h1 & _ & Hal & Hnum & _) & _).
    exists b, h1. split; [exact Hal|exact Hnum].
  - destruct (refcount_protocol 8 None 1 h) as (_ & Hretain & _).
    destruct (Hretain 1%positive (mk_obj 1 None (Box 7))) as (h1 & Hret & Hnum & _).
    + reflexivity.
    + cbn. unfold INT_MIN, INT_MAX. lia.
    + exists h1. split; [exact Hret|exact Hnum].
Defined.

(** ** Lookup only reads *)

Lemma readonly_ret {A} (a : A) : readonly (ret a).
Proof. by intros h b h' [= _ ->]. Qed.

Lemma readonly_bind {A B} (m : M A) (f : A -> M B) :
  readonly m -> (∀ a, readonly (f a)) -> readonly (bind m f).
Proof.
  intros Hm Hf h b h'. unfold bind. destruct (m h) as [[a h1]| |] eqn:E; try done.
  intros H. apply Hf in H. apply Hm in E. congruence.
Qed.

Lemma readonly_fault {A} : readonly (@fault A).
Proof. by intros h a h'. Qed.
Lemma readonly_timeout {A} : readonly (@timeout A).
Proof. by intros h a h'. Qed.

Lemma readonly_load p : readonly (load p).
Proof.
  intros h o h'. unfold load. destruct p as [a|]; [|done].
  destruct (h !! a); [|done]. by intros [= _ ->].
Qed.

Lemma readonly_get_node p : readonly (get_node p).
Proof.
  apply readonly_bind; [apply readonly_load|]. intros o.
  destruct (payload o); auto using readonly_ret, @readonly_fault.
Qed.

Lemma readonly_get_tree p : readonly (get_tree p).
Proof.
  apply readonly_bind; [apply readonly_load|]. intros o.
  destruct (payload o); auto using readonly_ret, @readonly_fault.
Qed.

Lemma readonly_mem_unbox p : readonly (mem_unbox p).
Proof.
  apply readonly_bind; [apply readonly_load|]. intros o.
  destruct (payload o); auto using readonly_ret, @readonly_fault.
Qed.

Lemma readonly_tree_comp tree a b : readonly (tree_comp tree a b).
Proof.
  apply readonly_bind.
  { apply readonly_bind; [apply readonly_get_tree|]. intros; apply readonly_ret. }
  intros [|f]; [apply readonly_ret|].
  repeat (apply readonly_bind; [apply readonly_mem_unbox|]; intros ?).
  apply readonly_ret.
Qed.

Lemma readonly_rbt_lookup_node fuel tree node value :
  readonly (rbt_lookup_node fuel tree node value).
Proof.
  revert node. induction fuel as [|fuel IH]; intros node; cbn [rbt_lookup_node].
  { apply readonly_timeout. }
  destruct (is_null node); [apply readonly_ret|].
  apply readonly_bind.
  { apply readonly_bind; [apply readonly_get_node|]. intros; apply readonly_ret. }
  intros c. apply readonly_bind; [apply readonly_tree_comp|]. intros x.
  destruct (x =? 0); [apply readonly_ret|].
  destruct (x >? 0).
  - apply readonly_bind; [|by intros].
    apply readonly_bind; [apply readonly_get_node|]. intros; apply readonly_ret.
  - apply readonly_bind; [|by intros].
    apply readonly_bind; [apply readonly_get_node|]. intros; apply readonly_ret.
Qed.

Lemma readonly_rbt_lookup fuel tree value : readonly (rbt_lookup fuel tree value).
Proof.
  apply readonly_bind.
  { apply readonly_bind; [apply readonly_get_tree|]. intros; apply readonly_ret. }
  intros r. apply readonly_rbt_lookup_node.
Qed.

(** C7. When [rbt_lookup] finds no node for the value, [rbt_delete] with the
    same value ends normally and leaves the whole heap as it was: the root,
    every node with its links, color and contents, and every other object. *)
Theorem rbt_delete_absent (fuel : nat) (tree value : ptr) (h h' : heap) :
  rbt_lookup fuel tree value h = Ok (NULL, h') ->
  rbt_delete fuel tree value h = Ok (tt, h).
Proof.
  intros H. assert (h' = h) as -> by (by eapply readonly_rbt_lookup).
  unfold rbt_delete. by rewrite (bind_Ok _ _ _ _ _ H).
Qed.

(** The tree holding 5 and 3, and a box holding 7 that is looked up and
    deleted. *)
Lemma rbt_delete_absent_witness :
  let h := heap_after (build 10 [Ins 5; Ins 3];;; mem_box 7) in
  rbt_delete 10 (Some 1%positive) (Some 6%positive) h = Ok (tt, h).
Proof.
  intros h. apply (rbt_delete_absent 10 (Some 1%positive) (Some 6%positive) h h).
  vm_compute. reflexivity.
Defined.

(** C8. [rbt_del_rebalance] on a node without parent writes BLACK into the
    color of that node and changes nothing else: the heap it leaves is the
    old one with that one field overwritten, and is the old heap itself
    when the node was BLACK already. *)
Theorem rbt_del_rebalance_root (fuel : nat) (tree : ptr) (a : addr) (h : heap)
    (rc : Z) (fin : option destructor_t) (l r v : ptr) (c : rbt_color_t) :
  h !! a = Some (mk_obj rc fin (Node (mk_node l r NULL c v))) ->
  rbt_del_rebalance (S fuel) tree (Some a) h
  = Ok (tt, <[a := mk_obj rc fin (Node (mk_node l r NULL BLACK v))]> h)
  ∧ (c = BLACK -> <[a := mk_obj rc fin (Node (mk_node l r NULL BLACK v))]> h = h).
Proof.
  intros Ha.
  assert (node_of h a = Some (mk_node l r NULL c v)) as Hn
      by (unfold node_of; by rewrite Ha).
  split.
  - cbn [rbt_del_rebalance].
    rewrite (bind_Ok _ _ _ _ _ (get_parent_ok _ _ _ Hn)). cbn [parent is_null negb].
    rewrite (set_color_ok _ _ _ _ Hn). unfold upd, header_of. by rewrite Ha.
  - intros ->. by apply insert_id.
Qed.

Lemma rbt_del_rebalance_root_witness :
  let h := heap_after (build 10 [Ins 5; Ins 3]) in
  rbt_del_rebalance 1 (Some 1%positive) (Some 3%positive) h = Ok (tt, h).
Proof.
  intros h.
  destruct (rbt_del_rebalance_root 0 (Some 1%positive) 3%positive h 1
              (Some Fn_rbt_node_free) (Some 5%positive) NULL (Some 2%positive) BLACK)
    as [Hrun Hsame].
  - vm_compute. reflexivity.
  - rewrite Hsame in Hrun by reflexivity. exact Hrun.
Defined.

(** ** The public operations on concrete inputs *)

(** C1. The invariants do not survive every delete. After the inserts 3, 2,
    5, 6 the validator reports OK, the root has no parent and the keys in
    order are 2, 3, 5, 6. Deleting 3, a node with two children whose
    predecessor's removal rotates at the node itself, leaves a root (the node
    of key 2) whose parent field points to the node of key 5; the nodes of 5
    and 6 are no longer reached from the root, and the validator reports
    BAD_PARENT_POINTER. *)
Theorem delete_two_children_breaks_invariants :
  value_of (observe 20 [Ins 3; Ins 2; Ins 5; Ins 6] ∅)
  = Ok (OK, Some 3%positive, NULL, [2; 3; 5; 6]) ∧
  value_of (observe 20 [Ins 3; Ins 2; Ins 5; Ins 6; Del 3] ∅)
  = Ok (BAD_PARENT_POINTER, Some 5%positive, Some 7%positive, [2]).
Proof. split; vm_compute; reflexivity. Qed.

(** C2, as first stated, fails: of two nodes inserted with the same key,
    [rbt_lookup] returns the first, which lies nearer the root, not the one
    inserted last. *)
Lemma lookup_returns_first_of_equal_keys :
  value_of (insert_twice_lookup 20 5 ∅)
  = Ok (Some 3%positive, Some 5%positive, Some 3%positive).
Proof. vm_compute. reflexivity. Qed.

(** C3. The validator misses a RED node with one RED child: on the tree
    10(BLACK) - 5(RED) - 3(RED), each the left child of the one before, it
    reports OK. RED_WITH_RED_CHILD is reported only when both children of a
    RED node are RED, as on the same tree with a RED right child 7 added
    under 5. *)
Theorem check_status_misses_single_red_child :
  value_of ((let* t := red_red_tree false in rbt_check_status 20 t) ∅) = Ok OK ∧
  value_of ((let* t := red_red_tree true in rbt_check_status 20 t) ∅)
  = Ok RED_WITH_RED_CHILD.
Proof. split; vm_compute; reflexivity. Qed.

(** The predecessor found by [rightmost_descendent] has no right child, so
    that it has at most one child. *)
Lemma rightmost_descendent_no_right fuel node h r h' :
  rightmost_descendent fuel node h = Ok (r, h') ->
  h' = h ∧ get_right r h = Ok (NULL, h).
Proof.
  revert node. induction fuel as [|fuel IH]; intros node; [done|].
  cbn [rightmost_descendent]. unfold bind at 1.
  destruct (get_right node h) as [[x h1]| |] eqn:E; try done.
  assert (h1 = h) as ->.
  { eapply (readonly_bind _ _ (readonly_get_node node)); [|exact E].
    intros; apply readonly_ret. }
  destruct x as [x|]; cbn [is_null negb].
  - apply IH.
  - intros [= <- <-]. done.
Qed.

(** C4. The splice after a two-children delete can miss the position of the
    deleted node. After the inserts 3, 2, 5, 6 the root is the node of 3
    (address 3) with children 2 (address 5) and 5 (address 7). Deleting 3
    removes the predecessor 2 first, which rotates the node of 3 below the
    node of 5; the predecessor is then made the root of the tree, although
    the deleted node is the left child of the node of 5 by then: the
    predecessor's parent field names the node of 5, whose left field still
    names the deleted node, whose storage is freed. *)
Theorem delete_splice_misses_position :
  value_of ((let* tree := build 20 [Ins 3; Ins 2; Ins 5; Ins 6] in
             let* r := get_root tree in
             let* l := get_left r in
             let* r' := get_right r in
             ret (r, l, r')) ∅)
  = Ok (Some 3%positive, Some 5%positive, Some 7%positive) ∧
  value_of ((let* tree := build 20 [Ins 3; Ins 2; Ins 5; Ins 6; Del 3] in
             let* r := get_root tree in
             let* rp := get_parent r in
             let* rpp := get_parent rp in
             let* rpl := get_left rp in
             ret (r, rp, rpp, rpl)) ∅)
  = Ok (Some 5%positive, Some 7%positive, NULL, Some 3%positive) ∧
  value_of ((build 20 [Ins 3; Ins 2; Ins 5; Ins 6; Del 3];;;
             load (Some 3%positive)) ∅) = Fault.
Proof. repeat split; vm_compute; reflexivity. Qed.

(** ** Trees in the heap *)

Lemma ptr_of_fill F t : ptr_of (fill F t) = Some (f_addr F).
Proof. unfold fill. by destruct (f_side F). Qed.

Lemma addrs_fill F t : addrs (fill F t) ≡ₚ addrs t ++ f_addr F :: addrs (f_sib F).
Proof.
  unfold fill. destruct (f_side F); cbn [addrs]; [done|].
  by rewrite (comm (++)), <- Permutation_middle.
Qed.

Lemma addrs_plug C t : addrs (plug C t) ≡ₚ addrs t ++ ctx_addrs C.
Proof.
  revert t. induction C as [|F C IH]; intros t; cbn [plug ctx_addrs flat_map].
  - by rewrite app_nil_r.
  - rewrite IH, addrs_fill. fold (ctx_addrs C). by rewrite <- app_assoc.
Qed.

Lemma addrs_nodes t : addrs t = (nodes t).*1.*1.
Proof.
  induction t as [|l IHl a c v k r IHr]; [done|]. cbn [addrs nodes].
  rewrite !fmap_app, !fmap_cons. cbn. by rewrite IHl, IHr.
Qed.

Lemma keys_nodes t : keys t = (nodes t).*2.
Proof.
  induction t as [|l IHl a c v k r IHr]; [done|]. cbn [keys nodes].
  rewrite !fmap_app, !fmap_cons. cbn. by rewrite IHl, IHr.
Qed.

Lemma is_node_upd a b n h : is_node h b -> is_node (upd a (Node n) h) b.
Proof.
  unfold is_node. intros H. destruct (decide (a = b)) as [<-|].
  - rewrite node_of_upd_eq. eauto.
  - by rewrite node_of_upd_ne.
Qed.

Lemma is_node_upd_tree a b t h :
  is_Some (tree_of h a) -> is_node h b -> is_node (upd a (Tree t) h) b.
Proof. unfold is_node. intros ? H. by rewrite node_of_upd_tree. Qed.

Lemma is_tree_obj_upd_node a b n h :
  is_node h a -> is_Some (tree_of h b) -> is_Some (tree_of (upd a (Node n) h) b).
Proof. intros ? H. by rewrite tree_of_upd_node. Qed.

Lemma node_not_tree h a b : is_node h a -> is_Some (tree_of h b) -> a ≠ b.
Proof.
  intros [n (o & Ho & Hp)%node_of_Some] [t (o' & Ho' & Hp')%tree_of_Some] ->.
  congruence.
Qed.

Section with_tree.
Context (cmp : comparator_t) (tree : addr).

Lemma keys_kept_refl h : keys_kept cmp h h.
Proof. by intros v k. Qed.

Lemma keys_kept_trans h1 h2 h3 :
  keys_kept cmp h1 h2 -> keys_kept cmp h2 h3 -> keys_kept cmp h1 h3.
Proof. intros H1 H2 v k ?. by apply H2, H1. Qed.

Lemma keys_kept_upd_node a n h : is_node h a -> keys_kept cmp h (upd a (Node n) h).
Proof.
  intros Ha v k. unfold key_of. destruct cmp; [done|].
  by rewrite box_of_upd_node.
Qed.

Lemma keys_kept_upd_tree a t h :
  is_Some (tree_of h a) -> keys_kept cmp h (upd a (Tree t) h).
Proof.
  intros Ha v k. unfold key_of. destruct cmp; [done|].
  by rewrite box_of_upd_tree.
Qed.

(** [tree->comp(a, b)] on two pointers with keys. *)
Lemma tree_comp_ok h r a b ka kb :
  tree_of h tree = Some (mk_tree r cmp) ->
  key_of cmp h a = Some ka -> key_of cmp h b = Some kb ->
  tree_comp (Some tree) a b h = Ok (cmp_fun cmp ka kb, h).
Proof.
  intros Ht Ha Hb. unfold tree_comp.
  rewrite (bind_Ok _ _ _ _ _ (get_comp_ok _ _ _ Ht)). cbn [comp].
  unfold key_of in *. destruct cmp as [|f]; cbn [call_comparator cmp_fun].
  - injection Ha as <-. injection Hb as <-.
    unfold ret, rbt_default_comparator, int_compare, ptr_eqb. do 3 f_equal.
    case_bool_decide as E.
    + subst. by rewrite Z.eqb_refl.
    + destruct (ptr_to_Z a =? ptr_to_Z b) eqn:E'; [|done].
      apply Z.eqb_eq in E'. destruct a, b; cbn in E'; congruence.
  - rewrite (bind_Ok _ _ _ _ _ (mem_unbox_ok _ _ _ Ha)).
    by rewrite (bind_Ok _ _ _ _ _ (mem_unbox_ok _ _ _ Hb)).
Qed.

(** *** Frame rules for [rep] *)

Lemma rep_ext h h' par t :
  (∀ a, a ∈ addrs t -> node_of h' a = node_of h a) ->
  keys_kept cmp h h' ->
  rep cmp h par t -> rep cmp h' par t.
Proof.
  intros Hn Hk. revert par.
  induction t as [|l IHl a c v k r IHr]; intros par; [done|].
  cbn [rep addrs] in *. intros (Ha & Hkey & Hl & Hr).
  split; [rewrite Hn; [done|set_solver]|].
  split; [by apply Hk|].
  split; [apply IHl; [|done]|apply IHr; [|done]]; intros; apply Hn; set_solver.
Qed.

Lemma rep_upd_node a n h par t :
  a ∉ addrs t -> is_node h a ->
  rep cmp h par t -> rep cmp (upd a (Node n) h) par t.
Proof.
  intros Ha Hn. apply rep_ext; [|by apply keys_kept_upd_node].
  intros b Hb. apply node_of_upd_ne. set_solver.
Qed.

Lemma rep_upd_tree a x h par t :
  is_Some (tree_of h a) ->
  rep cmp h par t -> rep cmp (upd a (Tree x) h) par t.
Proof.
  intros Ha. apply rep_ext; [|by apply keys_kept_upd_tree].
  intros b Hb. by apply node_of_upd_tree.
Qed.

Lemma rep_is_node h par t a : rep cmp h par t -> a ∈ addrs t -> is_node h a.
Proof.
  revert par. induction t as [|l IHl b c v k r IHr]; intros par; cbn [rep addrs].
  { set_solver. }
  intros (Hb & _ & Hl & Hr) [Ha|[->|Ha]%elem_of_cons]%elem_of_app; unfold is_node in *; eauto.
Qed.

(** The root of a subtree can be hung under another parent. *)
Lemma rep_reparent h par par' l a c v k r :
  a ∉ addrs l -> a ∉ addrs r ->
  rep cmp h par (T l a c v k r) ->
  rep cmp (upd a (Node (mk_node (ptr_of l) (ptr_of r) par' c v)) h) par'
    (T l a c v k r).
Proof.
  intros Hl Hr (Ha & Hk & Hrl & Hrr). cbn [rep].
  assert (is_node h a) by (unfold is_node; eauto).
  split; [apply node_of_upd_eq|]. split; [by apply keys_kept_upd_node|].
  split; by apply rep_upd_node.
Qed.

Lemma rep_fill h F t par :
  rep cmp h par (fill F t)
  ↔ rep_frame cmp h F (ptr_of t) par ∧ rep cmp h (Some (f_addr F)) t.
Proof.
  unfold fill, rep_frame, frame_node.
  destruct (f_side F); cbn [rep]; naive_solver.
Qed.

Lemma is_tree_plug h C t :
  is_tree cmp tree h (plug C t)
  ↔ rep_ctx cmp tree h C (ptr_of t) ∧ rep cmp h (ctx_parent C) t ∧
    NoDup (addrs t ++ ctx_addrs C).
Proof.
  revert t. induction C as [|F C IH]; intros t.
  - cbn [plug rep_ctx ctx_parent ctx_addrs flat_map]. rewrite app_nil_r. done.
  - cbn [plug rep_ctx]. rewrite IH, ptr_of_fill, rep_fill.
    cbn [ctx_parent ctx_addrs flat_map]. fold (ctx_addrs C).
    rewrite addrs_fill, <- app_assoc. naive_solver.
Qed.
End with_tree.

Lemma fields_only_refl h : fields_only h h.
Proof.
  intros x. destruct (h !! x) as [o|]; [|done].
  repeat split. by destruct (payload o).
Qed.

Lemma fields_only_trans h1 h2 h3 :
  fields_only h1 h2 -> fields_only h2 h3 -> fields_only h1 h3.
Proof.
  intros H1 H2 x. specialize (H1 x). specialize (H2 x).
  destruct (h1 !! x) as [o1|], (h2 !! x) as [o2|], (h3 !! x) as [o3|]; try done.
  destruct H1 as (? & ? & H1), H2 as (? & ? & H2).
  split; [congruence|]. split; [congruence|].
  destruct (payload o1), (payload o2), (payload o3); congruence.
Qed.

Lemma fields_only_upd_node a n h : is_node h a -> fields_only h (upd a (Node n) h).
Proof.
  intros [n0 (o & Ho & Hp)%node_of_Some] x. destruct (decide (a = x)) as [<-|].
  - unfold upd, header_of. rewrite lookup_insert_eq, Ho. cbn. by rewrite Hp.
  - rewrite lookup_upd_ne by done. apply fields_only_refl.
Qed.

Lemma fields_only_upd_tree a r t h :
  tree_of h a = Some t -> fields_only h (upd a (Tree (mk_tree r (comp t))) h).
Proof.
  intros (o & Ho & Hp)%tree_of_Some x. destruct (decide (a = x)) as [<-|].
  - unfold upd, header_of. rewrite lookup_insert_eq, Ho. cbn. by rewrite Hp.
  - rewrite lookup_upd_ne by done. apply fields_only_refl.
Qed.

Lemma fields_only_box h h' p v : fields_only h h' -> box_of h p = Some v -> box_of h' p = Some v.
Proof.
  intros H (a & o & -> & Ho & Hp)%box_of_Some. specialize (H a).
  unfold box_of. rewrite Ho in H. destruct (h' !! a) as [o'|]; [|done].
  destruct H as (_ & _ & H). rewrite Hp in H. by rewrite H.
Qed.

Lemma fields_only_keys cmp h h' : fields_only h h' -> keys_kept cmp h h'.
Proof.
  intros H v k. unfold key_of. destruct cmp; [done|]. by apply fields_only_box.
Qed.

Lemma fields_only_fresh h h' x : fields_only h h' -> h !! x = None -> h' !! x = None.
Proof.
  intros H Hx. specialize (H x). rewrite Hx in H. by destruct (h' !! x).
Qed.

Section with_tree_ctx.
Context (cmp : comparator_t) (tree : addr).

Lemma rep_ctx_ext h h' C hole :
  (∀ a, a ∈ ctx_addrs C -> node_of h' a = node_of h a) ->
  tree_of h' tree = tree_of h tree ->
  keys_kept cmp h h' ->
  rep_ctx cmp tree h C hole -> rep_ctx cmp tree h' C hole.
Proof.
  intros Hn Ht Hk. revert hole.
  induction C as [|F C IH]; intros hole; cbn [rep_ctx].
  { by rewrite Ht. }
  cbn [ctx_addrs flat_map] in Hn. fold (ctx_addrs C) in Hn.
  intros ((HF & Hkey & Hsib) & HC). split.
  - split; [rewrite Hn; [done|set_solver]|]. split; [by apply Hk|].
    eapply rep_ext; [|done..]. intros; apply Hn; set_solver.
  - apply IH; [|done]. intros; apply Hn; set_solver.
Qed.

Lemma rep_ctx_tree_obj h C hole :
  rep_ctx cmp tree h C hole -> ∃ r, tree_of h tree = Some (mk_tree r cmp).
Proof.
  revert hole. induction C as [|F C IH]; intros hole; cbn [rep_ctx]; [eauto|].
  intros [_ H]. eauto.
Qed.

Lemma rep_ctx_upd_node a n h C hole :
  a ∉ ctx_addrs C -> is_node h a ->
  rep_ctx cmp tree h C hole -> rep_ctx cmp tree (upd a (Node n) h) C hole.
Proof.
  intros Ha Hn HC. eapply rep_ctx_ext; [| |by apply keys_kept_upd_node|done].
  - intros b Hb. apply node_of_upd_ne. set_solver.
  - by apply tree_of_upd_node.
Qed.

Lemma rep_ctx_is_node h C hole a :
  rep_ctx cmp tree h C hole -> a ∈ ctx_addrs C -> is_node h a.
Proof.
  revert hole. induction C as [|F C IH]; intros hole; cbn [rep_ctx ctx_addrs flat_map].
  { set_solver. }
  fold (ctx_addrs C).
  intros ((HF & _ & Hsib) & HC) [->|[Ha|Ha]%elem_of_app]%elem_of_cons.
  - unfold is_node. eauto.
  - by eapply rep_is_node.
  - by eapply IH.
Qed.

(** *** Overwriting the pointer to a position *)

Lemma set_hole_ok h C a new :
  rep_ctx cmp tree h C (Some a) -> a ∉ ctx_addrs C ->
  (if is_null (ctx_parent C) then set_root (Some tree) new
   else
     let* npl := get_left (ctx_parent C) in
     if ptr_eqb npl (Some a) then set_left (ctx_parent C) new
     else set_right (ctx_parent C) new) h
  = Ok (tt, set_hole cmp tree C new h).
Proof.
  destruct C as [|F C]; cbn [rep_ctx ctx_parent is_null set_hole].
  - intros Ht _. by rewrite (set_root_ok _ _ _ _ Ht).
  - intros ((HF & _ & Hsib) & _) Ha.
    rewrite (bind_Ok _ _ _ _ _ (get_left_ok _ _ _ HF)).
    unfold frame_node in *. destruct (f_side F); cbn [left].
    + unfold ptr_eqb. rewrite bool_decide_eq_true_2 by done.
      by rewrite (set_left_ok _ _ _ _ HF).
    + unfold ptr_eqb. rewrite bool_decide_eq_false_2.
      { by rewrite (set_right_ok _ _ _ _ HF). }
      intros E. apply Ha. cbn [ctx_addrs flat_map].
      destruct (f_sib F); [done|]. injection E as ->. cbn [addrs]. set_solver.
Qed.

Lemma fields_only_set_hole h C old new :
  rep_ctx cmp tree h C old -> fields_only h (set_hole cmp tree C new h).
Proof.
  destruct C as [|F C]; cbn [rep_ctx set_hole].
  - intros Ht. by apply (fields_only_upd_tree _ _ _ _ Ht).
  - intros ((HF & _) & _). apply fields_only_upd_node. unfold is_node. eauto.
Qed.

Lemma node_of_set_hole h C old new x :
  rep_ctx cmp tree h C old -> x ∉ ctx_addrs C ->
  node_of (set_hole cmp tree C new h) x = node_of h x.
Proof.
  destruct C as [|F C]; cbn [rep_ctx set_hole ctx_addrs flat_map].
  - intros Ht _. apply node_of_upd_tree. eauto.
  - intros _ Hx. apply node_of_upd_ne. set_solver.
Qed.

Lemma is_node_set_hole h C old new x :
  rep_ctx cmp tree h C old -> is_node h x -> is_node (set_hole cmp tree C new h) x.
Proof.
  destruct C as [|F C]; cbn [rep_ctx set_hole].
  - intros Ht. apply is_node_upd_tree. eauto.
  - intros _. apply is_node_upd.
Qed.

Lemma rep_set_hole h C old new par t :
  rep_ctx cmp tree h C old -> (∀ x, x ∈ addrs t -> x ∉ ctx_addrs C) ->
  rep cmp h par t -> rep cmp (set_hole cmp tree C new h) par t.
Proof.
  intros HC Hd. apply rep_ext.
  - intros a Ha. eapply node_of_set_hole; eauto.
  - eapply fields_only_keys, fields_only_set_hole; eauto.
Qed.

Lemma rep_ctx_set_hole h C old new :
  rep_ctx cmp tree h C old -> NoDup (ctx_addrs C) ->
  rep_ctx cmp tree (set_hole cmp tree C new h) C new.
Proof.
  destruct C as [|F C]; cbn [rep_ctx set_hole ctx_addrs flat_map].
  - intros _ _. apply tree_of_upd_eq.
  - fold (ctx_addrs C). intros ((HF & Hk & Hsib) & HC) Hnd.
    apply NoDup_cons in Hnd as [Hp Hnd]. apply NoDup_app in Hnd as (_ & _ & _).
    assert (is_node h (f_addr F)) by (unfold is_node; eauto).
    split; [split; [|split]|].
    + apply node_of_upd_eq.
    + by apply keys_kept_upd_node.
    + apply rep_upd_node; [set_solver|done..].
    + apply rep_ctx_upd_node; [set_solver|done..].
Qed.
End with_tree_ctx.

(** ** Distinct addresses *)

#[global] Typeclasses Opaque ctx_addrs addrs.

Lemma NoDup_submseteq_inv {A} (l k : list A) : NoDup k -> l ⊆+ k -> NoDup l.
Proof.
  intros Hk (k' & Hp)%submseteq_Permutation. rewrite Hp in Hk.
  by apply NoDup_app in Hk as (? & _ & _).
Qed.

Lemma nodup_ne {A} (L : list A) a b : NoDup L -> [a; b] ⊆+ L -> a ≠ b.
Proof.
  intros HL Hs. apply (NoDup_submseteq_inv _ _ HL) in Hs.
  apply NoDup_cons in Hs as [Hs _]. set_solver.
Qed.

Lemma nodup_notin {A} (L L1 : list A) a : NoDup L -> a :: L1 ⊆+ L -> a ∉ L1.
Proof.
  intros HL Hs. apply (NoDup_submseteq_inv _ _ HL) in Hs.
  by apply NoDup_cons in Hs as [Hs _].
Qed.

Lemma nodup_disjoint {A} (L L1 L2 : list A) :
  NoDup L -> L1 ++ L2 ⊆+ L -> ∀ x, x ∈ L1 -> x ∉ L2.
Proof.
  intros HL Hs. apply (NoDup_submseteq_inv _ _ HL) in Hs.
  by apply NoDup_app in Hs as (_ & Hs & _).
Qed.

(** Facts that follow from [H : NoDup L]: two members differ, a member is not
    in another part, two parts are disjoint, a part has no duplicates. *)
Ltac by_nodup H :=
  first [ apply (nodup_ne _ _ _ H)
        | apply (nodup_notin _ _ _ H)
        | apply (nodup_disjoint _ _ _ H)
        | apply (NoDup_submseteq_inv _ _ H) ];
  cbn [addrs]; solve_submseteq.

(** ** Symbolic execution of node reads and writes *)

Lemma fields_only_step h h' a n :
  fields_only h h' -> is_node h' a -> fields_only h (upd a (Node n) h').
Proof. intros ? ?. eapply fields_only_trans; [done|]. by apply fields_only_upd_node. Qed.

Ltac ne_solve := first [assumption | apply not_eq_sym; assumption | congruence].

Ltac node_simpl :=
  repeat first
    [ rewrite node_of_upd_eq
    | rewrite node_of_upd_ne by ne_solve
    | erewrite node_of_set_hole by eassumption ].

Ltac is_node_solve :=
  repeat apply is_node_upd;
  try (eapply is_node_set_hole; [eassumption|]);
  unfold is_node; eauto.

Ltac node_fact h a H :=
  eassert (node_of h a = Some _) as H
    by (node_simpl; first [eassumption | reflexivity]).

#[global] Arguments frame_node !F hole par /.
#[global] Arguments fill !F t /.

Lemma parent_frame_node F hole par : parent (frame_node F hole par) = par.
Proof. by destruct F as [[] a c v k s]. Qed.
Lemma color_frame_node F hole par : color (frame_node F hole par) = f_color F.
Proof. by destruct F as [[] a c v k s]. Qed.
Lemma contents_frame_node F hole par : contents (frame_node F hole par) = f_contents F.
Proof. by destruct F as [[] a c v k s]. Qed.

Lemma ptr_of_ne t a : a ∉ addrs t -> ptr_of t ≠ Some a.
Proof. destruct t; [done|]. cbn [addrs ptr_of]. intros H [= ->]. set_solver. Qed.

Lemma ptr_eqb_refl p : ptr_eqb p p = true.
Proof. unfold ptr_eqb. by rewrite bool_decide_eq_true_2. Qed.

Lemma ptr_eqb_ne a q : q ≠ Some a -> ptr_eqb (Some a) q = false.
Proof. intros H. unfold ptr_eqb. by rewrite bool_decide_eq_false_2. Qed.

(** Tests on pointers, colors and directions that are settled. *)
Lemma ptr_eqb_Some_NULL a : ptr_eqb (Some a) NULL = false.
Proof. done. Qed.
Lemma ptr_eqb_NULL_Some a : ptr_eqb NULL (Some a) = false.
Proof. done. Qed.

Ltac beval :=
  rewrite ?ptr_eqb_refl, ?ptr_eqb_Some_NULL, ?ptr_eqb_NULL_Some;
  repeat match goal with
         | H : ?q ≠ Some ?a |- context [ptr_eqb (Some ?a) ?q] =>
             rewrite (ptr_eqb_ne a q H)
         end;
  change (color_eqb BLACK BLACK) with true;
  change (color_eqb RED RED) with true;
  change (color_eqb BLACK RED) with false;
  change (color_eqb RED BLACK) with false;
  change (direction_eqb LEFT LEFT) with true;
  change (direction_eqb RIGHT RIGHT) with true;
  change (direction_eqb LEFT RIGHT) with false;
  change (direction_eqb RIGHT LEFT) with false;
  cbn [negb is_null].

Ltac msimpl :=
  cbn [is_null negb when left right parent color contents ptr_of
       with_left with_right with_parent with_color
       ctx_parent frame_node f_side f_addr f_color f_contents f_key f_sib];
  rewrite ?parent_frame_node, ?color_frame_node, ?contents_frame_node;
  cbn [is_null negb when].

(** A step whose outcome is among the hypotheses. *)
Ltac use_run :=
  match goal with
  | H : ?m ?h = Ok _ |- bind ?m _ ?h = _ => rewrite (bind_Ok _ _ _ _ _ H)
  | H : ?m ?h = Ok _ |- ?m ?h = _ => exact H
  end.

Ltac msimpl_all := msimpl; beval; msimpl.

Ltac mstep :=
  msimpl_all;
  lazymatch goal with
  | |- bind (bind _ _) _ _ = _ => rewrite bind_assoc
  | |- bind (ret _) _ _ = _ => rewrite bind_ret
  | |- bind (get_left (Some ?a)) _ ?h = _ =>
      let H := fresh in node_fact h a H;
      rewrite (bind_Ok _ _ _ _ _ (get_left_ok _ _ _ H)); clear H
  | |- bind (get_right (Some ?a)) _ ?h = _ =>
      let H := fresh in node_fact h a H;
      rewrite (bind_Ok _ _ _ _ _ (get_right_ok _ _ _ H)); clear H
  | |- bind (get_parent (Some ?a)) _ ?h = _ =>
      let H := fresh in node_fact h a H;
      rewrite (bind_Ok _ _ _ _ _ (get_parent_ok _ _ _ H)); clear H
  | |- bind (get_color (Some ?a)) _ ?h = _ =>
      let H := fresh in node_fact h a H;
      rewrite (bind_Ok _ _ _ _ _ (get_color_ok _ _ _ H)); clear H
  | |- bind (node_color (Some ?a)) _ ?h = _ =>
      let H := fresh in node_fact h a H;
      rewrite (bind_Ok _ _ _ _ _ (node_color_ok _ _ _ H)); clear H
  | |- bind (node_color NULL) _ ?h = _ =>
      rewrite (bind_Ok _ _ _ _ _ (node_color_NULL h))
  | |- bind (get_contents (Some ?a)) _ ?h = _ =>
      let H := fresh in node_fact h a H;
      rewrite (bind_Ok _ _ _ _ _ (get_contents_ok _ _ _ H)); clear H
  | |- bind (set_left (Some ?a) ?v) _ ?h = _ =>
      let H := fresh in node_fact h a H;
      rewrite (bind_Ok _ _ _ _ _ (set_left_ok _ _ _ v H)); clear H
  | |- bind (set_right (Some ?a) ?v) _ ?h = _ =>
      let H := fresh in node_fact h a H;
      rewrite (bind_Ok _ _ _ _ _ (set_right_ok _ _ _ v H)); clear H
  | |- bind (set_parent (Some ?a) ?v) _ ?h = _ =>
      let H := fresh in node_fact h a H;
      rewrite (bind_Ok _ _ _ _ _ (set_parent_ok _ _ _ v H)); clear H
  | |- bind (set_color (Some ?a) ?v) _ ?h = _ =>
      let H := fresh in node_fact h a H;
      rewrite (bind_Ok _ _ _ _ _ (set_color_ok _ _ _ v H)); clear H
  | |- set_left (Some ?a) ?v ?h = _ =>
      let H := fresh in node_fact h a H;
      rewrite (set_left_ok _ _ _ v H); clear H
  | |- set_right (Some ?a) ?v ?h = _ =>
      let H := fresh in node_fact h a H;
      rewrite (set_right_ok _ _ _ v H); clear H
  | |- set_parent (Some ?a) ?v ?h = _ =>
      let H := fresh in node_fact h a H;
      rewrite (set_parent_ok _ _ _ v H); clear H
  | |- set_color (Some ?a) ?v ?h = _ =>
      let H := fresh in node_fact h a H;
      rewrite (set_color_ok _ _ _ v H); clear H
  | |- ret _ _ = _ => unfold ret
  end.

Ltac mrun := repeat first [msimpl_all; use_run | mstep]; msimpl_all.

Ltac fo_solve :=
  repeat (apply fields_only_step; [|is_node_solve]);
  first [ eapply fields_only_set_hole; eassumption | apply fields_only_refl ].

Ltac rep_frame_solve Hnd :=
  repeat (apply rep_upd_node; [by_nodup Hnd|is_node_solve|]);
  first [ assumption
        | eapply rep_set_hole; [eassumption|by_nodup Hnd|assumption] ].

Ltac nodup_assoc Hnd :=
  cbn [addrs] in Hnd |- *; rewrite <- ?app_assoc in Hnd |- *;
  cbn [app] in Hnd |- *; rewrite <- ?app_assoc in Hnd |- *; exact Hnd.

Section rotation.
Context (cmp : comparator_t) (tree : addr).

Lemma rotate_left_ok h C l a c v k bl b cb vb kb br :
  is_tree cmp tree h (plug C (T l a c v k (T bl b cb vb kb br))) ->
  ∃ h', rotate (Some tree) (Some a) LEFT h = Ok (tt, h') ∧
        is_tree cmp tree h' (plug C (T (T l a c v k bl) b cb vb kb br)) ∧
        fields_only h h'.
Proof.
  intros (HC & Hrep & Hnd)%is_tree_plug.
  destruct bl as [|gl g gc gv gk gr];
    cbn [rep ptr_of] in Hrep; cbn [addrs] in Hnd; destruct_and!.
  all: assert (a ∉ ctx_addrs C) as HaC by by_nodup Hnd.
  all: assert (b ∉ ctx_addrs C) as HbC by by_nodup Hnd.
  all: assert (a ≠ b) as Hab by by_nodup Hnd.
  all: assert (NoDup (ctx_addrs C)) as HndC by by_nodup Hnd.
  all: try (assert (g ≠ a) by by_nodup Hnd; assert (g ≠ b) by by_nodup Hnd;
            assert (g ∉ ctx_addrs C) by by_nodup Hnd).
  all: eexists; split;
    [ unfold rotate; change (direction_eqb LEFT LEFT) with true; cbv iota;
      do 2 mstep;
      rewrite (bind_Ok _ _ _ _ _ (set_hole_ok cmp tree _ _ _ (Some b) HC HaC));
      repeat mstep; reflexivity |].
  all: match goal with
       | |- is_tree _ _ ?h' _ ∧ _ => assert (fields_only h h') as Hfo by fo_solve
       end.
  all: split; [|exact Hfo].
  all: apply is_tree_plug; split; [|split].
  all: try (cbn [ptr_of]; repeat (apply rep_ctx_upd_node; [done|is_node_solve|]);
            by eapply rep_ctx_set_hole).
  all: try by_nodup Hnd.
  all: cbn [rep ptr_of]; node_simpl;
       cbn [left right parent color contents with_left with_right with_parent with_color].
  all: repeat split; try done;
       try (by eapply (fields_only_keys _ _ _ Hfo));
       try rep_frame_solve Hnd.
Qed.
Lemma rotate_right_ok h C bl b cb vb kb br a c v k r :
  is_tree cmp tree h (plug C (T (T bl b cb vb kb br) a c v k r)) ->
  ∃ h', rotate (Some tree) (Some a) RIGHT h = Ok (tt, h') ∧
        is_tree cmp tree h' (plug C (T bl b cb vb kb (T br a c v k r))) ∧
        fields_only h h'.
Proof.
  intros (HC & Hrep & Hnd)%is_tree_plug.
  destruct br as [|gl g gc gv gk gr];
    cbn [rep ptr_of] in Hrep; cbn [addrs] in Hnd; destruct_and!.
  all: assert (a ∉ ctx_addrs C) as HaC by by_nodup Hnd.
  all: assert (b ∉ ctx_addrs C) as HbC by by_nodup Hnd.
  all: assert (a ≠ b) as Hab by by_nodup Hnd.
  all: assert (NoDup (ctx_addrs C)) as HndC by by_nodup Hnd.
  all: try (assert (g ≠ a) by by_nodup Hnd; assert (g ≠ b) by by_nodup Hnd;
            assert (g ∉ ctx_addrs C) by by_nodup Hnd).
  all: eexists; split;
    [ unfold rotate; change (direction_eqb RIGHT LEFT) with false; cbv iota;
      do 2 mstep;
      rewrite (bind_Ok _ _ _ _ _ (set_hole_ok cmp tree _ _ _ (Some b) HC HaC));
      repeat mstep; reflexivity |].
  all: match goal with
       | |- is_tree _ _ ?h' _ ∧ _ => assert (fields_only h h') as Hfo by fo_solve
       end.
  all: split; [|exact Hfo].
  all: apply is_tree_plug; split; [|split].
  all: try (cbn [ptr_of]; repeat (apply rep_ctx_upd_node; [done|is_node_solve|]);
            by eapply rep_ctx_set_hole).
  all: try by_nodup Hnd.
  all: cbn [rep ptr_of]; node_simpl;
       cbn [left right parent color contents with_left with_right with_parent with_color].
  all: repeat split; try done;
       try (by eapply (fields_only_keys _ _ _ Hfo));
       try rep_frame_solve Hnd.
Qed.

Lemma nodes_plug C t1 t2 : nodes t1 = nodes t2 -> nodes (plug C t1) = nodes (plug C t2).
Proof.
  revert t1 t2. induction C as [|F C IH]; intros t1 t2 H; [done|].
  cbn [plug]. apply IH. unfold fill. destruct (f_side F); cbn [nodes]; by rewrite H.
Qed.

Lemma nodes_rotate_tree d t : nodes (rotate_tree d t) = nodes (t).
Proof.
  destruct d, t as [|[|ll la lc lv lk lr] a c v k [|rl ra rc rv rk rr]];
    cbn [rotate_tree nodes]; try done.
  all: by rewrite <- ?app_assoc.
Qed.

Lemma rotate_ok d h C t a :
  is_tree cmp tree h (plug C t) -> ptr_of t = Some a ->
  child (opposite d) t ≠ Leaf ->
  ∃ h', rotate (Some tree) (Some a) d h = Ok (tt, h') ∧
        is_tree cmp tree h' (plug C (rotate_tree d t)) ∧
        fields_only h h'.
Proof.
  intros Ht Ha Hc. destruct t as [|l a' c v k r]; [done|].
  injection Ha as ->. destruct d; cbn [child opposite] in Hc.
  - destruct r as [|bl b cb vb kb br]; [done|]. by apply rotate_left_ok.
  - destruct l as [|bl b cb vb kb br]; [done|]. by apply rotate_right_ok.
Qed.

(** X3. Without a child on the side opposite to the direction, [rotate]
    ends normally and leaves the heap as it was. *)
Theorem rotate_not_allowed (d : direction_t) (h : heap) (C : ctx) (t : ntree) (a : addr) :
  is_tree cmp tree h (plug C t) -> ptr_of t = Some a ->
  child (opposite d) t = Leaf ->
  rotate (Some tree) (Some a) d h = Ok (tt, h).
Proof.
  intros (HC & Hrep & Hnd)%is_tree_plug Ha Hc.
  destruct t as [|l a' c v k r]; [done|]. injection Ha as ->.
  cbn [rep] in Hrep. destruct Hrep as (Ha & _).
  unfold rotate. destruct d; cbn [child opposite] in Hc; subst.
  - change (direction_eqb LEFT LEFT) with true. cbv iota.
    by rewrite (bind_Ok _ _ _ _ _ (get_right_ok _ _ _ Ha)).
  - change (direction_eqb RIGHT LEFT) with false. cbv iota.
    by rewrite (bind_Ok _ _ _ _ _ (get_left_ok _ _ _ Ha)).
Qed.

(** C6. A single rotation. The tree is [plug C t]: the pivot [a] is the
    root of the subtree [t] at the position [C]. When the pivot has a
    child on the side opposite to the direction, [rotate] ends normally
    and the heap then holds [plug C (rotate_tree d t)]: that child stands
    at the pivot's former position (the root field of the tree when [C]
    is empty, else the child field of the pivot's parent that named the
    pivot, now names the child), every parent field equals the structural
    parent again, the nodes met in order (address, contents, key) are the
    same, and nothing but fields of nodes and the root field changed. *)
Theorem rotate_spec (d : direction_t) (h : heap) (C : ctx) (t : ntree) (a : addr) :
  is_tree cmp tree h (plug C t) -> ptr_of t = Some a ->
  child (opposite d) t ≠ Leaf ->
  ∃ h', rotate (Some tree) (Some a) d h = Ok (tt, h') ∧
        is_tree cmp tree h' (plug C (rotate_tree d t)) ∧
        ptr_of (rotate_tree d t) = ptr_of (child (opposite d) t) ∧
        rep_ctx cmp tree h' C (ptr_of (child (opposite d) t)) ∧
        nodes (plug C (rotate_tree d t)) = nodes (plug C t) ∧
        fields_only h h'.
Proof.
  intros Ht Ha Hc. destruct (rotate_ok d h C t a Ht Ha Hc) as (h' & Hrun & Ht' & Hfo).
  exists h'. split; [done|]. split; [done|].
  assert (ptr_of (rotate_tree d t) = ptr_of (child (opposite d) t)) as Hp.
  { destruct d, t as [|[|ll la lc lv lk lr] a' c v k [|rl ra rc rv rk rr]]; done. }
  split; [done|]. split.
  { apply is_tree_plug in Ht' as (HC' & _). by rewrite <- Hp. }
  split; [|done]. apply nodes_plug, nodes_rotate_tree.
Qed.
End rotation.

(** The tree holding 5 alone: its root has no child to rotate up. *)
Lemma rotate_not_allowed_witness :
  let h := heap_after (build 10 [Ins 5]) in
  rotate (Some 1%positive) (Some 3%positive) LEFT h = Ok (tt, h).
Proof.
  intros h.
  apply (rotate_not_allowed (Fn_unbox_compare int_compare) 1%positive LEFT h []
           (T Leaf 3%positive BLACK (Some 2%positive) 5 Leaf) 3%positive).
  - repeat split; try (vm_compute; reflexivity).
    apply (bool_decide_unpack _). vm_compute. exact I.
  - reflexivity.
  - reflexivity.
Defined.

(** The tree holding 1 and 2, rotated to the LEFT at its root. *)
Lemma rotate_spec_witness :
  let h := heap_after (build 10 [Ins 1; Ins 2]) in
  let t := T Leaf 3%positive BLACK (Some 2%positive) 1
             (T Leaf 5%positive RED (Some 4%positive) 2 Leaf) in
  ∃ h', rotate (Some 1%positive) (Some 3%positive) LEFT h = Ok (tt, h') ∧
        is_tree (Fn_unbox_compare int_compare) 1%positive h' (rotate_tree LEFT t) ∧
        nodes (rotate_tree LEFT t) = nodes t.
Proof.
  intros h t.
  destruct (rotate_spec (Fn_unbox_compare int_compare) 1%positive LEFT h [] t 3%positive)
    as (h' & Hrun & Ht & _ & _ & Hn & _).
  - repeat split; try (vm_compute; reflexivity).
    apply (bool_decide_unpack _). vm_compute. exact I.
  - reflexivity.
  - discriminate.
  - exists h'. split; [exact Hrun|]. split; [exact Ht|exact Hn].
Defined.

(** ** Lookup *)

Section lookup.
Context (cmp : comparator_t) (tree : addr).

Lemma rbt_lookup_node_ok fuel h r par t value k :
  tree_of h tree = Some (mk_tree r cmp) ->
  rep cmp h par t -> key_of cmp h value = Some k ->
  (height t < fuel)%nat ->
  rbt_lookup_node fuel (Some tree) (ptr_of t) value h
  = Ok (search (cmp_fun cmp) k t, h).
Proof.
  intros Ht. revert fuel par.
  induction t as [|l IHl a c v k' rr IHr]; intros fuel par Hrep Hk Hfuel.
  { destruct fuel; [lia|]. done. }
  destruct fuel as [|fuel]; [lia|]. cbn [height] in Hfuel.
  cbn [rep] in Hrep. destruct Hrep as (Ha & Hka & Hl & Hr).
  cbn [rbt_lookup_node ptr_of is_null search].
  rewrite (bind_Ok _ _ _ _ _ (get_contents_ok _ _ _ Ha)). cbn [contents].
  rewrite (bind_Ok _ _ _ _ _ (tree_comp_ok cmp tree _ _ _ _ _ _ Ht Hk Hka)).
  destruct (cmp_fun cmp k k' =? 0); [done|].
  destruct (cmp_fun cmp k k' >? 0).
  - rewrite (bind_Ok _ _ _ _ _ (get_right_ok _ _ _ Ha)). cbn [right].
    eapply IHr; [done..|lia].
  - rewrite (bind_Ok _ _ _ _ _ (get_left_ok _ _ _ Ha)). cbn [left].
    eapply IHl; [done..|lia].
Qed.

Lemma rbt_lookup_ok fuel h t value k :
  is_tree cmp tree h t -> key_of cmp h value = Some k ->
  (height t < fuel)%nat ->
  rbt_lookup fuel (Some tree) value h = Ok (search (cmp_fun cmp) k t, h).
Proof.
  intros (Ht & Hrep & _) Hk Hfuel. unfold rbt_lookup.
  rewrite (bind_Ok _ _ _ _ _ (get_root_ok _ _ _ Ht)). cbn [root].
  by eapply rbt_lookup_node_ok.
Qed.
End lookup.

Lemma search_found f k t a :
  search f k t = Some a -> ∃ v k', (a, v, k') ∈ nodes t ∧ f k k' = 0.
Proof.
  induction t as [|l IHl b c v k' r IHr]; [done|]. cbn [search nodes].
  destruct (f k k' =? 0) eqn:E.
  - intros [= ->]. apply Z.eqb_eq in E. exists v, k'. set_solver.
  - destruct (f k k' >? 0).
    + intros (v' & k'' & ? & ?)%IHr. exists v', k''. set_solver.
    + intros (v' & k'' & ? & ?)%IHl. exists v', k''. set_solver.
Qed.

Lemma search_none f k t :
  total_preorder f -> bst f t ->
  search f k t = NULL -> Forall (fun x => f k x ≠ 0) (keys t).
Proof.
  intros Hf. induction t as [|l IHl b c v k' r IHr]; [by constructor|].
  cbn [search bst keys]. intros (Hlk & Hrk & Hl & Hr).
  destruct (f k k' =? 0) eqn:E; [done|]. apply Z.eqb_neq in E.
  destruct (f k k' >? 0) eqn:E'.
  - apply Z.gtb_lt in E'. intros Hs. apply Forall_app. split.
    + eapply Forall_impl; [exact Hlk|]. cbn. intros x Hx Hkx.
      assert (f k k' <= 0); [|lia].
      eapply (cmp_trans f Hf); [|exact Hx]. lia.
    + constructor; [done|auto].
  - assert (f k k' < 0) as Hlt.
    { rewrite Z.gtb_ltb in E'. apply Z.ltb_ge in E'. lia. }
    intros Hs. apply Forall_app. split; [auto|].
    constructor; [done|].
    eapply Forall_impl; [exact Hrk|]. cbn. intros x Hx Hkx.
    apply (cmp_flip f Hf) in Hlt.
    assert (f k' k <= 0); [|lia].
    eapply (cmp_trans f Hf); [exact Hx|]. apply (cmp_sym f Hf) in Hkx. lia.
Qed.

Section lookup_spec.
Context (cmp : comparator_t) (tree : addr).

(** C2, amended. On a heap that holds a well-formed tree [t] whose keys are
    in order under a comparator that is a total preorder, and for a value
    whose key is [k], [rbt_lookup] with fuel above the height of [t]
    ends normally, leaves the heap as it was and returns [search k t]:
    the first node on the way down from the root whose key compares equal
    to [k]. That node is a node of the tree with a key equal to [k]; and
    when NULL is returned, no node of the tree has a key equal to [k]. *)
Theorem rbt_lookup_spec (fuel : nat) (h : heap) (t : ntree) (value : ptr) (k : Z) :
  is_tree cmp tree h t -> key_of cmp h value = Some k ->
  total_preorder (cmp_fun cmp) -> bst (cmp_fun cmp) t ->
  (height t < fuel)%nat ->
  ∃ found,
    rbt_lookup fuel (Some tree) value h = Ok (found, h) ∧
    found = search (cmp_fun cmp) k t ∧
    (∀ a, found = Some a ->
          ∃ v k', (a, v, k') ∈ nodes t ∧ cmp_fun cmp k k' = 0) ∧
    (found = NULL -> ∀ a v k', (a, v, k') ∈ nodes t -> cmp_fun cmp k k' ≠ 0).
Proof.
  intros Ht Hk Hf Hb Hfuel. eexists. split; [by eapply rbt_lookup_ok|].
  split; [done|]. split.
  - intros a. apply search_found.
  - intros Hs a v k' Hin. apply (search_none _ _ _ Hf Hb) in Hs.
    rewrite Forall_forall in Hs. apply Hs. rewrite keys_nodes.
    apply list_elem_of_fmap. by exists (a, v, k').
Qed.
End lookup_spec.

(** The comparator of the test drivers keeps the contract. *)
Lemma int_compare_preorder : total_preorder int_compare.
Proof.
  split; unfold int_compare.
  - intros x. by rewrite Z.eqb_refl.
  - intros x y. destruct (Z.eqb_spec x y), (Z.eqb_spec y x), (Z.ltb_spec x y); lia.
  - intros x y. destruct (Z.eqb_spec x y), (Z.eqb_spec y x), (Z.ltb_spec x y), (Z.ltb_spec y x); lia.
  - intros x y z. destruct (Z.eqb_spec x y), (Z.eqb_spec y z), (Z.eqb_spec x z),
      (Z.ltb_spec x y), (Z.ltb_spec y z), (Z.ltb_spec x z); lia.
Qed.

(** The tree holding 5 and 3, and a box holding 3 that is looked up. *)
Lemma rbt_lookup_spec_witness :
  let h := heap_after (build 10 [Ins 5; Ins 3];;; mem_box 3) in
  rbt_lookup 10 (Some 1%positive) (Some 6%positive) h = Ok (Some 5%positive, h).
Proof.
  intros h.
  destruct (rbt_lookup_spec (Fn_unbox_compare int_compare) 1%positive 10 h
              (T (T Leaf 5%positive RED (Some 4%positive) 3 Leaf)
                 3%positive BLACK (Some 2%positive) 5 Leaf)
              (Some 6%positive) 3)
    as (found & Hrun & Hfound & _).
  - repeat split; try (vm_compute; reflexivity).
    apply (bool_decide_unpack _). vm_compute. exact I.
  - vm_compute. reflexivity.
  - exact int_compare_preorder.
  - cbn. repeat split; repeat constructor; vm_compute; discriminate.
  - cbn. lia.
  - subst found. exact Hrun.
Defined.

(** ** Recoloring and the rotations of insertion *)

Section insert_steps.
Context (cmp : comparator_t) (tree : addr).

Lemma node_at h C l a c v k r :
  is_tree cmp tree h (plug C (T l a c v k r)) ->
  node_of h a = Some (mk_node (ptr_of l) (ptr_of r) (ctx_parent C) c v).
Proof. intros (_ & Hrep & _)%is_tree_plug. by destruct Hrep. Qed.

Lemma recolor_ok c' h C l a c v k r :
  is_tree cmp tree h (plug C (T l a c v k r)) ->
  ∃ h', set_color (Some a) c' h = Ok (tt, h') ∧
        is_tree cmp tree h' (plug C (T l a c' v k r)) ∧
        fields_only h h'.
Proof.
  intros Ht. pose proof (node_at _ _ _ _ _ _ _ _ Ht) as Ha.
  apply is_tree_plug in Ht as (HC & Hrep & Hnd).
  cbn [rep] in Hrep. destruct Hrep as (_ & Hk & Hl & Hr).
  eexists. split; [mstep; reflexivity|].
  match goal with
  | |- is_tree _ _ ?h' _ ∧ _ => assert (fields_only h h') as Hfo by fo_solve
  end.
  split; [|exact Hfo]. apply is_tree_plug. split; [|split].
  - apply rep_ctx_upd_node; [by_nodup Hnd|is_node_solve|done].
  - cbn [rep]. node_simpl. cbn [with_color left right parent contents].
    repeat split; try done; try (by eapply (fields_only_keys _ _ _ Hfo));
      rep_frame_solve Hnd.
  - done.
Qed.

Lemma ins_rebalance_left_ok h C t n p pc pv pk ps g gc gv gk gs :
  is_tree cmp tree h (plug C (T (T t p pc pv pk ps) g gc gv gk gs)) ->
  ptr_of t = Some n ->
  ∃ h', rbt_ins_rebalance (Some tree) (Some n) LEFT h = Ok (tt, h') ∧
        is_tree cmp tree h'
          (plug C (T t p BLACK pv pk (T ps g RED gv gk gs))) ∧
        fields_only h h'.
Proof.
  intros Ht Hn. destruct t as [|tl n' nc nv nk tr]; [done|]. injection Hn as ->.
  pose proof (node_at h (Frame LEFT p pc pv pk ps :: Frame LEFT g gc gv gk gs :: C)
                _ _ _ _ _ _ Ht) as Hnn.
  pose proof (node_at h (Frame LEFT g gc gv gk gs :: C) _ _ _ _ _ _ Ht) as Hp.
  destruct (rotate_ok cmp tree RIGHT h C _ g Ht eq_refl) as (h1 & Hrot & Ht1 & Hfo1);
    [done|]. cbn [rotate_tree] in Ht1.
  destruct (recolor_ok BLACK _ _ _ _ _ _ _ _ Ht1) as (h2 & Hc2 & Ht2 & Hfo2).
  destruct (recolor_ok RED h2 (Frame RIGHT p BLACK pv pk (T tl n nc nv nk tr) :: C)
              _ _ _ _ _ _ Ht2) as (h3 & Hc3 & Ht3 & Hfo3).
  exists h3. split; [|split].
  - unfold rbt_ins_rebalance. do 2 mstep.
    change (direction_eqb LEFT LEFT) with true. cbv iota.
    rewrite (bind_Ok _ _ _ _ _ Hrot), (bind_Ok _ _ _ _ _ Hc2). exact Hc3.
  - exact Ht3.
  - eauto using fields_only_trans.
Qed.
Lemma ins_rebalance_right_ok h C t n p pc pv pk ps g gc gv gk gs :
  is_tree cmp tree h (plug C (T gs g gc gv gk (T ps p pc pv pk t))) ->
  ptr_of t = Some n ->
  ∃ h', rbt_ins_rebalance (Some tree) (Some n) RIGHT h = Ok (tt, h') ∧
        is_tree cmp tree h'
          (plug C (T (T gs g RED gv gk ps) p BLACK pv pk t)) ∧
        fields_only h h'.
Proof.
  intros Ht Hn. destruct t as [|tl n' nc nv nk tr]; [done|]. injection Hn as ->.
  pose proof (node_at h (Frame RIGHT p pc pv pk ps :: Frame RIGHT g gc gv gk gs :: C)
                _ _ _ _ _ _ Ht) as Hnn.
  pose proof (node_at h (Frame RIGHT g gc gv gk gs :: C) _ _ _ _ _ _ Ht) as Hp.
  destruct (rotate_ok cmp tree LEFT h C _ g Ht eq_refl) as (h1 & Hrot & Ht1 & Hfo1);
    [done|]. cbn [rotate_tree] in Ht1.
  destruct (recolor_ok BLACK _ _ _ _ _ _ _ _ Ht1) as (h2 & Hc2 & Ht2 & Hfo2).
  destruct (recolor_ok RED h2 (Frame LEFT p BLACK pv pk (T tl n nc nv nk tr) :: C)
              _ _ _ _ _ _ Ht2) as (h3 & Hc3 & Ht3 & Hfo3).
  exists h3. split; [|split].
  - unfold rbt_ins_rebalance. do 2 mstep.
    change (direction_eqb RIGHT LEFT) with false. cbv iota.
    rewrite (bind_Ok _ _ _ _ _ Hrot), (bind_Ok _ _ _ _ _ Hc2). exact Hc3.
  - exact Ht3.
  - eauto using fields_only_trans.
Qed.
End insert_steps.

(** ** The fix-up after insertion, case by case *)

Lemma color_of_plug C t :
  color_of (plug C t) = match last C with Some F => f_color F | None => color_of t end.
Proof.
  revert t. induction C as [|F C IH]; intros t; [done|]. cbn [plug]. rewrite IH.
  destruct C as [|F' C].
  - cbn. unfold fill. by destruct (f_side F).
  - rewrite last_cons_cons. destruct (last (F' :: C)) eqn:E; [done|].
    by apply last_None in E.
Qed.

Lemma ctx_root_black_tail F C : ctx_root_black (F :: C) -> ctx_root_black C.
Proof. unfold ctx_root_black. destruct C as [|F' C]; [done|]. by rewrite last_cons_cons. Qed.

Lemma color_of_plug_black C t :
  ctx_root_black C -> (C = [] -> color_of t = BLACK) -> color_of (plug C t) = BLACK.
Proof.
  intros HC Ht. rewrite color_of_plug. unfold ctx_root_black in HC.
  destruct (last C) eqn:E; [done|]. apply last_None in E. auto.
Qed.

Section insert_cases.
Context (cmp : comparator_t) (tree : addr).

(** The node is the root: it is colored BLACK. *)
Lemma ins_recolor_root fuel h tl n nc nv nk tr :
  is_tree cmp tree h (T tl n nc nv nk tr) ->
  ∃ h', rbt_ins_recolor (S fuel) (Some tree) (Some n) h = Ok (tt, h') ∧
        is_tree cmp tree h' (T tl n BLACK nv nk tr) ∧ fields_only h h'.
Proof.
  intros Ht. pose proof (node_at cmp tree h [] _ _ _ _ _ _ Ht) as Hnn.
  destruct (recolor_ok cmp tree BLACK h [] _ _ _ _ _ _ Ht) as (h1 & Hc & Ht1 & Hfo).
  exists h1. split; [|done]. cbn [rbt_ins_recolor]. mrun.
Qed.

(** The parent is BLACK: nothing to do. *)
Lemma ins_recolor_black_parent fuel h C P t n :
  is_tree cmp tree h (plug (P :: C) t) -> ptr_of t = Some n ->
  f_color P = BLACK ->
  rbt_ins_recolor (S fuel) (Some tree) (Some n) h = Ok (tt, h).
Proof.
  intros Ht Hn HP. destruct t as [|tl n' nc nv nk tr]; [done|]. injection Hn as ->.
  pose proof (node_at cmp tree h (P :: C) _ _ _ _ _ _ Ht) as Hnn.
  destruct P as [sP p pc pv pk ps]. cbn in HP. subst pc.
  destruct C as [|[sG g gc gv gk gs] C2].
  - destruct sP.
    + pose proof (node_at cmp tree h [] _ _ _ _ _ _ Ht) as Hp.
      cbn [rbt_ins_recolor]. mrun. reflexivity.
    + pose proof (node_at cmp tree h [] _ _ _ _ _ _ Ht) as Hp.
      cbn [rbt_ins_recolor]. mrun. reflexivity.
  - pose proof Ht as (_ & _ & Hnd)%is_tree_plug.
    destruct sP, sG.
    all: cbn [fill plug f_side f_addr f_sib f_color f_key f_contents ctx_addrs flat_map addrs app] in Hnd.
    all: match type of Ht with
         | is_tree _ _ _ (plug (_ :: ?G :: ?C) _) =>
             pose proof (node_at cmp tree h (G :: C) _ _ _ _ _ _ Ht) as Hp;
             pose proof (node_at cmp tree h C _ _ _ _ _ _ Ht) as Hg
         end.
    all: assert (ptr_of gs ≠ Some p) by (apply ptr_of_ne; by_nodup Hnd).
    all: cbn [rbt_ins_recolor]; mrun; reflexivity.
Qed.

Lemma plug_app C1 C2 t : plug (C1 ++ C2) t = plug C2 (plug C1 t).
Proof. revert t. induction C1 as [|F C1 IH]; intros t; [done|]. apply IH. Qed.

Lemma recolor_focus c' h C t a :
  is_tree cmp tree h (plug C t) -> ptr_of t = Some a ->
  ∃ h', set_color (Some a) c' h = Ok (tt, h') ∧
        is_tree cmp tree h' (plug C (recolor_tree c' t)) ∧
        fields_only h h'.
Proof.
  intros Ht Ha. destruct t as [|l a' c v k r]; [done|]. injection Ha as ->.
  by apply (recolor_ok cmp tree c' h C l a c v k r).
Qed.

(** Recoloring an ancestor of the position. *)
Lemma recolor_frame_ok c h Cin F C t :
  is_tree cmp tree h (plug (Cin ++ F :: C) t) ->
  ∃ h', set_color (Some (f_addr F)) c h = Ok (tt, h') ∧
        is_tree cmp tree h' (plug (Cin ++ frame_color c F :: C) t) ∧
        fields_only h h'.
Proof.
  rewrite !plug_app. cbn [plug]. intros Ht.
  destruct (recolor_focus c h C _ (f_addr F) Ht) as (h' & Hc & Ht' & Hfo).
  { by destruct F as [[] ? ? ? ? ?]. }
  exists h'. split; [done|]. split; [|done].
  by destruct F as [[] ? ? ? ? ?].
Qed.

(** Recoloring the sibling of an ancestor-or-self of the position. *)
Lemma recolor_sib_ok c h Cin F C t u :
  is_tree cmp tree h (plug (Cin ++ F :: C) t) -> ptr_of (f_sib F) = Some u ->
  ∃ h', set_color (Some u) c h = Ok (tt, h') ∧
        is_tree cmp tree h'
          (plug (Cin ++ frame_sib (recolor_tree c (f_sib F)) F :: C) t) ∧
        fields_only h h'.
Proof.
  rewrite !plug_app. cbn [plug]. intros Ht Hu.
  assert (is_tree cmp tree h (plug (frame_swap F (plug Cin t) :: C) (f_sib F))) as Ht0.
  { by destruct F as [[] ? ? ? ? ?]. }
  destruct (recolor_focus c h _ _ u Ht0 Hu) as (h' & Hc & Ht' & Hfo).
  exists h'. split; [done|]. split; [|done].
  by destruct F as [[] ? ? ? ? ?].
Qed.

(** Parent and uncle are RED: both become BLACK, the grandparent RED, and
    the fix-up goes on from the grandparent. *)
Lemma ins_recolor_red_uncle fuel h C P G t n u :
  is_tree cmp tree h (plug (P :: G :: C) t) -> ptr_of t = Some n ->
  f_color P = RED -> ptr_of (f_sib G) = Some u -> color_of (f_sib G) = RED ->
  ∃ h', rbt_ins_recolor (S fuel) (Some tree) (Some n) h
        = rbt_ins_recolor fuel (Some tree) (Some (f_addr G)) h' ∧
        is_tree cmp tree h'
          (plug (frame_color BLACK P
                 :: frame_sib (recolor_tree BLACK (f_sib G)) (frame_color RED G)
                 :: C) t) ∧
        fields_only h h'.
Proof.
  intros Ht Hn HP Hu Huc.
  destruct (recolor_frame_ok RED h [P] G C t Ht) as (h1 & Hc1 & Ht1 & Hfo1).
  destruct (recolor_frame_ok BLACK h1 [] P _ t Ht1) as (h2 & Hc2 & Ht2 & Hfo2).
  destruct (recolor_sib_ok BLACK h2 [frame_color BLACK P] (frame_color RED G) C t u Ht2 Hu)
    as (h3 & Hc3 & Ht3 & Hfo3).
  exists h3. split; [|split; [exact Ht3|eauto using fields_only_trans]].
  destruct t as [|tl n' nc nv nk tr]; [done|]. injection Hn as ->.
  pose proof (node_at cmp tree h (P :: G :: C) _ _ _ _ _ _ Ht) as Hnn.
  pose proof Ht as (_ & _ & Hnd)%is_tree_plug.
  destruct P as [sP p pc pv pk ps], G as [sG g gc gv gk gs].
  cbn [f_color f_sib f_addr] in *. subst pc.
  destruct gs as [|ul u' uc uv uk ur]; [done|]. cbn in Hu, Huc. injection Hu as ->. subst uc.
  destruct sP, sG.
  all: cbn [fill plug f_side f_addr f_sib f_color f_key f_contents ctx_addrs flat_map addrs app] in Hnd.
  all: match type of Ht with
       | is_tree _ _ _ (plug (?P :: ?G :: ?C) _) =>
           pose proof (node_at cmp tree h (G :: C) _ _ _ _ _ _ Ht) as Hp;
           pose proof (node_at cmp tree h C _ _ _ _ _ _ Ht) as Hg;
           pose proof (node_at cmp tree h
                         (frame_swap G (fill P (T tl n nc nv nk tr)) :: C)
                         _ _ _ _ _ _ Ht) as Hun
       end.
  all: assert (u ≠ p) as Hup by by_nodup Hnd.
  all: assert (Some u ≠ Some p) by congruence.
  all: cbn [rbt_ins_recolor]; mrun; reflexivity.
Qed.

(** The uncle is BLACK or absent, node and parent are both left children:
    one rotation to the right at the grandparent. *)
Lemma ins_recolor_outside_left fuel h C t n p pv pk ps g gc gv gk gs :
  is_tree cmp tree h (plug C (T (T t p RED pv pk ps) g gc gv gk gs)) ->
  ptr_of t = Some n -> color_of gs = BLACK ->
  ∃ h', rbt_ins_recolor (S fuel) (Some tree) (Some n) h = Ok (tt, h') ∧
        is_tree cmp tree h' (plug C (T t p BLACK pv pk (T ps g RED gv gk gs))) ∧
        fields_only h h'.
Proof.
  intros Ht Hn Hgs.
  destruct (ins_rebalance_left_ok cmp tree h C t n p RED pv pk ps g gc gv gk gs Ht Hn)
    as (h' & Hrb & Ht' & Hfo).
  exists h'. split; [|done].
  destruct t as [|tl n' nc nv nk tr]; [done|]. injection Hn as ->.
  pose proof (node_at cmp tree h (Frame LEFT p RED pv pk ps :: Frame LEFT g gc gv gk gs :: C)
                _ _ _ _ _ _ Ht) as Hnn.
  pose proof (node_at cmp tree h (Frame LEFT g gc gv gk gs :: C) _ _ _ _ _ _ Ht) as Hp.
  pose proof (node_at cmp tree h C _ _ _ _ _ _ Ht) as Hg.
  destruct gs as [|ul u uc uv uk ur]; [|cbn in Hgs; subst uc].
  all: cbn [ptr_of] in *.
  - cbn [rbt_ins_recolor]; mrun; reflexivity.
  - pose proof (node_at cmp tree h
                  (Frame RIGHT g gc gv gk (T (T tl n nc nv nk tr) p RED pv pk ps) :: C)
                  _ _ _ _ _ _ Ht) as Hu.
    cbn [rbt_ins_recolor]; mrun; reflexivity.
Qed.

Lemma ins_recolor_outside_right fuel h C t n p pv pk ps g gc gv gk gs :
  is_tree cmp tree h (plug C (T gs g gc gv gk (T ps p RED pv pk t))) ->
  ptr_of t = Some n -> color_of gs = BLACK ->
  ∃ h', rbt_ins_recolor (S fuel) (Some tree) (Some n) h = Ok (tt, h') ∧
        is_tree cmp tree h' (plug C (T (T gs g RED gv gk ps) p BLACK pv pk t)) ∧
        fields_only h h'.
Proof.
  intros Ht Hn Hgs.
  destruct (ins_rebalance_right_ok cmp tree h C t n p RED pv pk ps g gc gv gk gs Ht Hn)
    as (h' & Hrb & Ht' & Hfo).
  exists h'. split; [|done].
  destruct t as [|tl n' nc nv nk tr]; [done|]. injection Hn as ->.
  pose proof (node_at cmp tree h (Frame RIGHT p RED pv pk ps :: Frame RIGHT g gc gv gk gs :: C)
                _ _ _ _ _ _ Ht) as Hnn.
  pose proof (node_at cmp tree h (Frame RIGHT g gc gv gk gs :: C) _ _ _ _ _ _ Ht) as Hp.
  pose proof (node_at cmp tree h C _ _ _ _ _ _ Ht) as Hg.
  pose proof Ht as (_ & _ & Hnd)%is_tree_plug. cbn [addrs] in Hnd.
  assert (ptr_of ps ≠ Some n) by (apply ptr_of_ne; by_nodup Hnd).
  assert (ptr_of gs ≠ Some p) by (apply ptr_of_ne; by_nodup Hnd).
  destruct gs as [|ul u uc uv uk ur]; [|cbn in Hgs; subst uc].
  all: cbn [ptr_of] in *.
  - cbn [rbt_ins_recolor]; mrun; reflexivity.
  - pose proof (node_at cmp tree h
                  (Frame LEFT g gc gv gk (T ps p RED pv pk (T tl n nc nv nk tr)) :: C)
                  _ _ _ _ _ _ Ht) as Hu.
    cbn [rbt_ins_recolor]; mrun; reflexivity.
Qed.

(** The uncle is BLACK or absent, the parent is a left child and the node
    its right child: a rotation to the left at the parent, then to the
    right at the grandparent. *)
Lemma ins_recolor_inside_left fuel h C tl n nc nv nk tr p pv pk ps g gc gv gk gs :
  is_tree cmp tree h
    (plug C (T (T ps p RED pv pk (T tl n nc nv nk tr)) g gc gv gk gs)) ->
  color_of gs = BLACK ->
  ∃ h', rbt_ins_recolor (S fuel) (Some tree) (Some n) h = Ok (tt, h') ∧
        is_tree cmp tree h'
          (plug C (T (T ps p RED pv pk tl) n BLACK nv nk (T tr g RED gv gk gs))) ∧
        fields_only h h'.
Proof.
  intros Ht Hgs.
  destruct (rotate_ok cmp tree LEFT h (Frame LEFT g gc gv gk gs :: C)
              (T ps p RED pv pk (T tl n nc nv nk tr)) p Ht eq_refl)
    as (h1 & Hrot & Ht1 & Hfo1); [done|]. cbn [rotate_tree] in Ht1.
  destruct (ins_rebalance_left_ok cmp tree h1 C (T ps p RED pv pk tl) p
              n nc nv nk tr g gc gv gk gs Ht1 eq_refl)
    as (h' & Hrb & Ht' & Hfo).
  exists h'. split; [|split; [done|eauto using fields_only_trans]].
  pose proof (node_at cmp tree h (Frame RIGHT p RED pv pk ps :: Frame LEFT g gc gv gk gs :: C)
                _ _ _ _ _ _ Ht) as Hnn.
  pose proof (node_at cmp tree h (Frame LEFT g gc gv gk gs :: C) _ _ _ _ _ _ Ht) as Hp.
  pose proof (node_at cmp tree h C _ _ _ _ _ _ Ht) as Hg.
  pose proof Ht as (_ & _ & Hnd)%is_tree_plug. cbn [addrs] in Hnd.
  assert (ptr_of ps ≠ Some n) by (apply ptr_of_ne; by_nodup Hnd).
  destruct gs as [|ul u uc uv uk ur]; [|cbn in Hgs; subst uc].
  all: cbn [ptr_of] in *.
  - cbn [rbt_ins_recolor]; mrun; reflexivity.
  - pose proof (node_at cmp tree h
                  (Frame RIGHT g gc gv gk (T ps p RED pv pk (T tl n nc nv nk tr)) :: C)
                  _ _ _ _ _ _ Ht) as Hu.
    cbn [rbt_ins_recolor]; mrun; reflexivity.
Qed.

Lemma ins_recolor_inside_right fuel h C tl n nc nv nk tr p pv pk ps g gc gv gk gs :
  is_tree cmp tree h
    (plug C (T gs g gc gv gk (T (T tl n nc nv nk tr) p RED pv pk ps))) ->
  color_of gs = BLACK ->
  ∃ h', rbt_ins_recolor (S fuel) (Some tree) (Some n) h = Ok (tt, h') ∧
        is_tree cmp tree h'
          (plug C (T (T gs g RED gv gk tl) n BLACK nv nk (T tr p RED pv pk ps))) ∧
        fields_only h h'.
Proof.
  intros Ht Hgs.
  destruct (rotate_ok cmp tree RIGHT h (Frame RIGHT g gc gv gk gs :: C)
              (T (T tl n nc nv nk tr) p RED pv pk ps) p Ht eq_refl)
    as (h1 & Hrot & Ht1 & Hfo1); [done|]. cbn [rotate_tree] in Ht1.
  destruct (ins_rebalance_right_ok cmp tree h1 C (T tr p RED pv pk ps) p
              n nc nv nk tl g gc gv gk gs Ht1 eq_refl)
    as (h' & Hrb & Ht' & Hfo).
  exists h'. split; [|split; [done|eauto using fields_only_trans]].
  pose proof (node_at cmp tree h (Frame LEFT p RED pv pk ps :: Frame RIGHT g gc gv gk gs :: C)
                _ _ _ _ _ _ Ht) as Hnn.
  pose proof (node_at cmp tree h (Frame RIGHT g gc gv gk gs :: C) _ _ _ _ _ _ Ht) as Hp.
  pose proof (node_at cmp tree h C _ _ _ _ _ _ Ht) as Hg.
  pose proof Ht as (_ & _ & Hnd)%is_tree_plug. cbn [addrs] in Hnd.
  assert (ptr_of gs ≠ Some p) by (apply ptr_of_ne; by_nodup Hnd).
  destruct gs as [|ul u uc uv uk ur]; [|cbn in Hgs; subst uc].
  all: cbn [ptr_of] in *.
  - cbn [rbt_ins_recolor]; mrun; reflexivity.
  - pose proof (node_at cmp tree h
                  (Frame LEFT g gc gv gk (T (T tl n nc nv nk tr) p RED pv pk ps) :: C)
                  _ _ _ _ _ _ Ht) as Hu.
    cbn [rbt_ins_recolor]; mrun; reflexivity.
Qed.
End insert_cases.

(** ** The color invariants through the fix-up *)

Lemma no_red_red_plug_iff C t :
  no_red_red (plug C t) <-> no_red_red t ∧ ctx_no_red_red C (color_of t).
Proof.
  revert t. induction C as [|F C IH]; intros t; cbn [plug ctx_no_red_red]; [tauto|].
  rewrite IH. destruct F as [[] a c v k s];
    cbn [fill f_side f_sib f_addr f_color f_contents f_key no_red_red color_of]; tauto.
Qed.

Lemma black_height_fill_ext F t t' :
  black_height t = black_height t' -> black_height (fill F t) = black_height (fill F t').
Proof.
  intros H. destruct F as [[] a c v k s];
    cbn [fill f_side f_sib f_addr f_color f_contents f_key black_height]; by rewrite H.
Qed.

Lemma black_height_plug_ext C t t' :
  black_height t = black_height t' -> black_height (plug C t) = black_height (plug C t').
Proof.
  revert t t'. induction C as [|F C IH]; intros t t' H; [done|].
  cbn [plug]. by apply IH, black_height_fill_ext.
Qed.

Lemma red_black_plug C s s' :
  is_Some (black_height (plug C s)) -> black_height s' = black_height s ->
  no_red_red s' -> ctx_no_red_red C (color_of s') -> red_black (plug C s').
Proof.
  intros Hbh Heq Hs HC. split; [by apply no_red_red_plug_iff|].
  by rewrite (black_height_plug_ext C s' s).
Qed.

Lemma ctx_no_red_red_black C c : ctx_no_red_red C c -> ctx_no_red_red C BLACK.
Proof. destruct C as [|F C]; [done|]. cbn. tauto. Qed.

Ltac bh_cases :=
  cbn [black_height] in *;
  repeat match goal with
  | H : context [black_height ?t] |- _ => is_var t; destruct (black_height t)
  | |- context [black_height ?t] => is_var t; destruct (black_height t)
  end;
  repeat case_decide; simplify_eq; try done; try lia.

Lemma grandparent_black P G C c :
  f_color P = RED -> ctx_no_red_red (P :: G :: C) c ->
  f_color G = BLACK ∧ ctx_no_red_red C BLACK ∧ color_of (f_sib P) = BLACK ∧
  no_red_red (f_sib P) ∧ no_red_red (f_sib G).
Proof.
  intros HP (HsP & HcP & HsG & HcG & HC). destruct (HcP HP) as [_ HPs].
  destruct (f_color G) eqn:E.
  - destruct (HcG eq_refl) as [? _]. congruence.
  - done.
Qed.

Lemma red_root_rb l n v k r :
  no_red_red (T l n RED v k r) -> is_Some (black_height (T l n RED v k r)) ->
  red_black (T l n BLACK v k r).
Proof.
  cbn [no_red_red]. intros (_ & Hl & Hr) Hbh. split; [cbn; naive_solver|].
  revert Hbh. bh_cases.
Qed.

Lemma black_parent_rb P C t :
  f_color P = BLACK -> no_red_red t -> ctx_no_red_red (P :: C) BLACK ->
  is_Some (black_height (plug (P :: C) t)) -> red_black (plug (P :: C) t).
Proof.
  intros HP Ht (Hs & _ & HC) Hbh. split; [|done].
  apply no_red_red_plug_iff. split; [done|]. cbn [ctx_no_red_red].
  split; [done|]. split; [|done]. congruence.
Qed.

Lemma red_uncle_rb P G C t :
  f_color P = RED -> color_of (f_sib G) = RED ->
  color_of t = RED -> no_red_red t -> ctx_no_red_red (P :: G :: C) BLACK ->
  is_Some (black_height (plug (P :: G :: C) t)) ->
  let t1 := fill (frame_sib (recolor_tree BLACK (f_sib G)) (frame_color RED G))
                 (fill (frame_color BLACK P) t) in
  color_of t1 = RED ∧ no_red_red t1 ∧ ctx_no_red_red C BLACK ∧
  is_Some (black_height (plug C t1)).
Proof.
  intros HP HG Hct Ht HC Hbh t1.
  destruct (grandparent_black P G C BLACK HP HC) as (HGb & HC2 & HsP & HnP & HnG).
  destruct P as [sP p pc pv pk ps], G as [sG g gc gv gk gs].
  cbn [f_color f_sib] in *. subst pc gc.
  destruct gs as [|ul u uc uv uk ur]; [done|]. cbn [color_of] in HG. subst uc.
  cbn [no_red_red] in HnG. destruct HnG as (Hu & Hul & Hur). destruct (Hu eq_refl) as [Hcl Hcr].
  split; [by destruct sG|]. split; [|split; [done|]].
  - subst t1. destruct sP, sG; cbn; naive_solver.
  - cbn [plug] in Hbh.
    rewrite (black_height_plug_ext C _
               (fill (Frame sG g BLACK gv gk (T ul u RED uv uk ur)) (fill (Frame sP p RED pv pk ps) t)));
      [done|].
    subst t1. clear. destruct sP, sG;
      cbn [fill frame_sib frame_color recolor_tree f_side f_sib f_addr f_color f_contents f_key];
      bh_cases.
Qed.

Lemma outside_left_rb C t p pv pk ps g gc gv gk gs :
  color_of t = RED -> no_red_red t -> color_of gs = BLACK ->
  ctx_no_red_red (Frame LEFT p RED pv pk ps :: Frame LEFT g gc gv gk gs :: C) BLACK ->
  is_Some (black_height (plug C (T (T t p RED pv pk ps) g gc gv gk gs))) ->
  red_black (plug C (T t p BLACK pv pk (T ps g RED gv gk gs))).
Proof.
  intros Hct Ht Hgs HC Hbh.
  match type of HC with ctx_no_red_red (?P :: ?G :: _) _ =>
    destruct (grandparent_black P G C BLACK eq_refl HC) as (HGb & HC2 & HsP & HnP & HnG)
  end.
  cbn [f_color f_sib] in *. subst gc.
  eapply red_black_plug; [exact Hbh| | |done].
  - clear. bh_cases.
  - cbn. naive_solver.
Qed.

Lemma outside_right_rb C t p pv pk ps g gc gv gk gs :
  color_of t = RED -> no_red_red t -> color_of gs = BLACK ->
  ctx_no_red_red (Frame RIGHT p RED pv pk ps :: Frame RIGHT g gc gv gk gs :: C) BLACK ->
  is_Some (black_height (plug C (T gs g gc gv gk (T ps p RED pv pk t)))) ->
  red_black (plug C (T (T gs g RED gv gk ps) p BLACK pv pk t)).
Proof.
  intros Hct Ht Hgs HC Hbh.
  match type of HC with ctx_no_red_red (?P :: ?G :: _) _ =>
    destruct (grandparent_black P G C BLACK eq_refl HC) as (HGb & HC2 & HsP & HnP & HnG)
  end.
  cbn [f_color f_sib] in *. subst gc.
  eapply red_black_plug; [exact Hbh| | |done].
  - clear. bh_cases.
  - cbn. naive_solver.
Qed.

Lemma inside_left_rb C tl n v k tr p pv pk ps g gc gv gk gs :
  no_red_red (T tl n RED v k tr) -> color_of gs = BLACK ->
  ctx_no_red_red (Frame RIGHT p RED pv pk ps :: Frame LEFT g gc gv gk gs :: C) BLACK ->
  is_Some (black_height (plug C (T (T ps p RED pv pk (T tl n RED v k tr)) g gc gv gk gs))) ->
  red_black (plug C (T (T ps p RED pv pk tl) n BLACK v k (T tr g RED gv gk gs))).
Proof.
  intros Ht Hgs HC Hbh.
  match type of HC with ctx_no_red_red (?P :: ?G :: _) _ =>
    destruct (grandparent_black P G C BLACK eq_refl HC) as (HGb & HC2 & HsP & HnP & HnG)
  end.
  cbn [f_color f_sib] in *. subst gc.
  eapply red_black_plug; [exact Hbh| | |done].
  - clear. bh_cases.
  - cbn in *. naive_solver.
Qed.

Lemma inside_right_rb C tl n v k tr p pv pk ps g gc gv gk gs :
  no_red_red (T tl n RED v k tr) -> color_of gs = BLACK ->
  ctx_no_red_red (Frame LEFT p RED pv pk ps :: Frame RIGHT g gc gv gk gs :: C) BLACK ->
  is_Some (black_height (plug C (T gs g gc gv gk (T (T tl n RED v k tr) p RED pv pk ps)))) ->
  red_black (plug C (T (T gs g RED gv gk tl) n BLACK v k (T tr p RED pv pk ps))).
Proof.
  intros Ht Hgs HC Hbh.
  match type of HC with ctx_no_red_red (?P :: ?G :: _) _ =>
    destruct (grandparent_black P G C BLACK eq_refl HC) as (HGb & HC2 & HsP & HnP & HnG)
  end.
  cbn [f_color f_sib] in *. subst gc.
  eapply red_black_plug; [exact Hbh| | |done].
  - clear. bh_cases.
  - cbn in *. naive_solver.
Qed.

Lemma nodes_fill_eq F F' t :
  f_side F' = f_side F -> f_addr F' = f_addr F -> f_contents F' = f_contents F ->
  f_key F' = f_key F -> nodes (f_sib F') = nodes (f_sib F) ->
  ∀ t', nodes t' = nodes t -> nodes (fill F' t') = nodes (fill F t).
Proof.
  destruct F as [s a c v k sb], F' as [s' a' c' v' k' sb']. cbn.
  intros -> -> -> -> Hs t' Ht. destruct s; cbn [nodes]; by rewrite Hs, Ht.
Qed.

Section insert_fixup.
Context (cmp : comparator_t) (tree : addr).

(** The fix-up from any node of a tree with a BLACK root (or from the root
    itself): it ends normally within fuel above the depth of the node,
    keeps the nodes in their order and leaves a well-formed tree with a
    BLACK root. *)
Lemma rbt_ins_recolor_ok fuel : ∀ h C t n,
  is_tree cmp tree h (plug C t) -> ptr_of t = Some n ->
  ctx_root_black C -> (length C < fuel)%nat ->
  ∃ h' t', rbt_ins_recolor fuel (Some tree) (Some n) h = Ok (tt, h') ∧
           is_tree cmp tree h' t' ∧
           nodes t' = nodes (plug C t) ∧
           color_of t' = BLACK ∧
           fields_only h h' ∧
           (color_of t = RED -> no_red_red t -> ctx_no_red_red C BLACK ->
            is_Some (black_height (plug C t)) -> red_black t').
Proof.
  induction fuel as [|fuel IH]; intros h C t n Ht Hn Hblack Hfuel; [cbn in Hfuel; lia|].
  destruct C as [|P C1].
  { destruct t as [|tl n' nc nv nk tr]; [done|]. injection Hn as ->.
    destruct (ins_recolor_root cmp tree fuel h _ _ _ _ _ _ Ht) as (h' & Hrun & Ht' & Hfo).
    exists h', (T tl n BLACK nv nk tr). do 5 (split; [done|]).
    intros Hc Hnt _ Hbh. cbn [color_of] in Hc. subst nc. by apply red_root_rb. }
  destruct (f_color P) eqn:HP; cycle 1.
  { exists h, (plug (P :: C1) t).
    split; [by eapply ins_recolor_black_parent|].
    split; [done|]. split; [done|].
    split; [by apply color_of_plug_black|]. split; [apply fields_only_refl|].
    intros _ Hnt HC Hbh. by apply black_parent_rb. }
  destruct C1 as [|G C2].
  { unfold ctx_root_black in Hblack. cbn in Hblack. congruence. }
  destruct (color_of (f_sib G)) eqn:HG.
  - (* RED uncle *)
    destruct (f_sib G) as [|ul u uc uv uk ur] eqn:EG; [done|].
    destruct (ins_recolor_red_uncle cmp tree fuel h C2 P G t n u Ht Hn HP)
      as (h1 & Hrun & Ht1 & Hfo1); [by rewrite EG..|].
    cbn [plug] in Ht1.
    edestruct (IH h1 C2) as (h' & t' & Hrun' & Ht' & Hnodes & Hcol & Hfo' & Hrb');
      [exact Ht1|apply ptr_of_fill| |cbn in Hfuel; lia|].
    { by do 2 apply ctx_root_black_tail in Hblack. }
    exists h', t'. split; [by rewrite Hrun|]. split; [done|].
    split; [|split; [done|split; [eauto using fields_only_trans|]]]; cycle 1.
    { intros Hc Hnt HC Hbh.
      destruct (red_uncle_rb P G C2 t HP) as (H1 & H2 & H3 & H4); try done.
      { by rewrite EG. }
      by apply Hrb'. }
    rewrite Hnodes. cbn [plug]. apply nodes_plug.
    apply nodes_fill_eq; try done.
    { cbn. rewrite EG. by destruct (f_sib G). }
    apply nodes_fill_eq; done.
  - (* BLACK uncle: rotations *)
    assert (∀ x, color_of x = BLACK -> color_of (plug C2 x) = BLACK) as Hroot.
    { intros x Hx. apply color_of_plug_black; [|done].
      by do 2 apply ctx_root_black_tail in Hblack. }
    destruct t as [|tl n' nc nv nk tr]; [done|]. injection Hn as ->.
    destruct P as [sP p pc pv pk ps], G as [sG g gc gv gk gs].
    cbn [f_color f_sib] in *. subst pc.
    destruct sP, sG.
    + destruct (ins_recolor_outside_left cmp tree fuel h C2 _ n _ _ _ _ _ _ _ _ _ Ht eq_refl HG)
        as (h' & Hrun & Ht' & Hfo).
      eexists h', _. split; [done|]. split; [done|].
      split; [|split; [by apply Hroot|split; [done|]]]; cycle 1.
      { intros Hc Hnt HC Hbh. cbn [color_of] in Hc. subst nc. by apply outside_left_rb with gc. }
      cbn [plug fill f_side f_addr f_color f_contents f_key f_sib].
      apply nodes_plug. cbn [nodes]. by repeat first [rewrite <- app_assoc | rewrite <- app_comm_cons].
    + destruct (ins_recolor_inside_right cmp tree fuel h C2 _ _ _ _ _ _ _ _ _ _ _ _ _ _ _ Ht HG)
        as (h' & Hrun & Ht' & Hfo).
      eexists h', _. split; [done|]. split; [done|].
      split; [|split; [by apply Hroot|split; [done|]]]; cycle 1.
      { intros Hc Hnt HC Hbh. cbn [color_of] in Hc. subst nc. by apply inside_right_rb with gc. }
      cbn [plug fill f_side f_addr f_color f_contents f_key f_sib].
      apply nodes_plug. cbn [nodes]. by repeat first [rewrite <- app_assoc | rewrite <- app_comm_cons].
    + destruct (ins_recolor_inside_left cmp tree fuel h C2 _ _ _ _ _ _ _ _ _ _ _ _ _ _ _ Ht HG)
        as (h' & Hrun & Ht' & Hfo).
      eexists h', _. split; [done|]. split; [done|].
      split; [|split; [by apply Hroot|split; [done|]]]; cycle 1.
      { intros Hc Hnt HC Hbh. cbn [color_of] in Hc. subst nc. by apply inside_left_rb with gc. }
      cbn [plug fill f_side f_addr f_color f_contents f_key f_sib].
      apply nodes_plug. cbn [nodes]. by repeat first [rewrite <- app_assoc | rewrite <- app_comm_cons].
    + destruct (ins_recolor_outside_right cmp tree fuel h C2 _ n _ _ _ _ _ _ _ _ _ Ht eq_refl HG)
        as (h' & Hrun & Ht' & Hfo).
      eexists h', _. split; [done|]. split; [done|].
      split; [|split; [by apply Hroot|split; [done|]]]; cycle 1.
      { intros Hc Hnt HC Hbh. cbn [color_of] in Hc. subst nc. by apply outside_right_rb with gc. }
      cbn [plug fill f_side f_addr f_color f_contents f_key f_sib].
      apply nodes_plug. cbn [nodes]. by repeat first [rewrite <- app_assoc | rewrite <- app_comm_cons].
Qed.
End insert_fixup.

(** ** Insertion: the way down and the new leaf *)

Lemma node_of_alloc h b o a : h !! b = None -> is_Some (node_of h a) -> node_of (<[b := o]> h) a = node_of h a.
Proof.
  intros Hb [n (o' & Ho & _)%node_of_Some]. unfold node_of.
  rewrite lookup_insert_ne; [done|]. intros ->. congruence.
Qed.

Lemma box_of_alloc h b o p v : h !! b = None -> box_of h p = Some v -> box_of (<[b := o]> h) p = Some v.
Proof.
  intros Hb (a & o' & -> & Ho & Hp)%box_of_Some. unfold box_of.
  rewrite lookup_insert_ne; [by rewrite Ho, Hp|]. intros ->. congruence.
Qed.

Section insert_descent.
Context (cmp : comparator_t) (tree : addr).

Lemma keys_kept_alloc h b o : h !! b = None -> keys_kept cmp h (<[b := o]> h).
Proof.
  intros Hb v k. unfold key_of. destruct cmp; [done|]. by apply box_of_alloc.
Qed.

Lemma rep_alloc h b o par t :
  h !! b = None -> rep cmp h par t -> rep cmp (<[b := o]> h) par t.
Proof.
  intros Hb Hrep. eapply rep_ext; [| by apply keys_kept_alloc | done].
  intros a Ha. apply node_of_alloc; [done|]. by eapply rep_is_node.
Qed.

Lemma is_tree_alloc h b o t :
  h !! b = None -> is_tree cmp tree h t -> is_tree cmp tree (<[b := o]> h) t.
Proof.
  intros Hb (Ht & Hrep & Hnd). split; [|split; [by apply rep_alloc|done]].
  unfold tree_of in *. rewrite lookup_insert_ne; [done|].
  intros ->. by rewrite Hb in Ht.
Qed.

Lemma is_tree_fresh h b t : h !! b = None -> is_tree cmp tree h t -> b ∉ addrs t.
Proof.
  intros Hb (_ & Hrep & _) Hin.
  destruct (rep_is_node cmp h NULL t b Hrep Hin) as [n (o & Ho & _)%node_of_Some].
  congruence.
Qed.

(** Hanging a new leaf at an empty position. *)
Lemma link_ok h C b value k :
  is_tree cmp tree h (plug C Leaf) ->
  node_of h b = Some (mk_node NULL NULL (ctx_parent C) RED value) ->
  key_of cmp h value = Some k ->
  b ∉ addrs (plug C Leaf) ->
  is_tree cmp tree (set_hole cmp tree C (Some b) h)
    (plug C (T Leaf b RED value k Leaf)) ∧
  fields_only h (set_hole cmp tree C (Some b) h).
Proof.
  intros Ht Hb Hk Hfresh.
  apply is_tree_plug in Ht as (HC & _ & Hnd). cbn [addrs app] in Hnd.
  rewrite addrs_plug in Hfresh. cbn [addrs app] in Hfresh.
  assert (fields_only h (set_hole cmp tree C (Some b) h)) as Hfo
      by (by eapply fields_only_set_hole).
  split; [|done]. apply is_tree_plug. split; [|split].
  - by eapply rep_ctx_set_hole.
  - cbn [rep ptr_of]. erewrite node_of_set_hole by done.
    split; [done|]. split; [|done]. by eapply (fields_only_keys _ _ _ Hfo).
  - cbn [addrs app]. by apply NoDup_cons.
Qed.

Lemma is_tree_upd_other h b n t :
  b ∉ addrs t -> is_node h b ->
  is_tree cmp tree h t -> is_tree cmp tree (upd b (Node n) h) t.
Proof.
  intros Hb Hn (Ht & Hrep & Hnd). split; [|split; [by apply rep_upd_node|done]].
  by rewrite tree_of_upd_node.
Qed.

Lemma ctx_root_black_plug F C t :
  color_of (plug C (fill F t)) = BLACK -> ctx_root_black (F :: C).
Proof.
  change (plug C (fill F t)) with (plug (F :: C) t). rewrite color_of_plug.
  unfold ctx_root_black. destruct (last (F :: C)) eqn:E; [done|].
  by apply last_None in E.
Qed.

Lemma rbt_insert_node_ok b value k : ∀ t fuel h C a,
  ptr_of t = Some a ->
  is_tree cmp tree h (plug C t) ->
  node_of h b = Some (mk_node NULL NULL NULL RED value) ->
  key_of cmp h value = Some k ->
  b ∉ addrs (plug C t) ->
  color_of (plug C t) = BLACK ->
  (length C + 2 * height t <= fuel)%nat ->
  ∃ h' t', rbt_insert_node fuel (Some tree) (Some b) (Some a) h = Ok (tt, h') ∧
           is_tree cmp tree h' t' ∧
           nodes t' = nodes (plug (descend (cmp_fun cmp) k C t) (T Leaf b RED value k Leaf)) ∧
           color_of t' = BLACK ∧
           fields_only h h' ∧
           (red_black (plug C t) -> red_black t').
Proof.
  induction t as [|l IHl a' c v k' r IHr]; intros fuel h C a Ha Ht Hb Hk Hfresh Hcol Hfuel;
    [done|].
  injection Ha as ->. cbn [height] in Hfuel.
  destruct fuel as [|fuel]; [lia|].
  pose proof (node_at cmp tree h C _ _ _ _ _ _ Ht) as Hna.
  pose proof Ht as (Htree & _ & _).
  pose proof Ht as (_ & (_ & Hka & _) & _)%is_tree_plug.
  assert (is_node h b) as Hbn by (unfold is_node; eauto).
  cbn [rbt_insert_node descend]. cbn [is_null].
  rewrite (bind_Ok _ _ _ _ _ (get_contents_ok _ _ _ Hb)).
  rewrite (bind_Ok _ _ _ _ _ (get_contents_ok _ _ _ Hna)). cbn [contents].
  rewrite (bind_Ok _ _ _ _ _ (tree_comp_ok cmp tree _ _ _ _ _ _ Htree Hk Hka)).
  assert (b ≠ a) as Hba.
  { intros ->. apply Hfresh. rewrite addrs_plug. cbn [addrs]. set_solver. }
  destruct (cmp_fun cmp k k' <? 0).
  - rewrite (bind_Ok _ _ _ _ _ (get_left_ok _ _ _ Hna)). cbn [left].
    destruct l as [|ll la lc lv lk lr]; cbn [ptr_of is_null negb].
    + (* link on the left *)
      set (F := Frame LEFT a c v k' r).
      set (h1 := upd b (Node (mk_node NULL NULL (Some a) RED value)) h).
      assert (is_tree cmp tree h1 (plug (F :: C) Leaf)) as Ht1
          by (by apply is_tree_upd_other).
      destruct (link_ok h1 (F :: C) b value k Ht1) as (Ht2 & Hfo2).
      { apply node_of_upd_eq. }
      { by apply keys_kept_upd_node. }
      { done. }
      destruct (rbt_ins_recolor_ok cmp tree (S fuel) _ (F :: C) _ b Ht2 eq_refl)
        as (h' & t' & Hrun & Ht' & Hnodes & Hcol' & Hfo' & Hrb').
      { by apply ctx_root_black_plug with Leaf. }
      { cbn [length]. lia. }
      exists h', t'. split; [|split; [done|split; [done|split; [done|split]]]]; cycle 2.
      { intros [Hnrr Hbh]. apply Hrb'; [done|done| |].
        - change (no_red_red (plug (F :: C) Leaf)) in Hnrr.
          by apply no_red_red_plug_iff in Hnrr as [_ ?].
        - by rewrite (black_height_plug_ext (F :: C) _ Leaf). }
      * rewrite (bind_Ok _ _ _ _ _ (set_parent_ok _ _ _ (Some a) Hb)).
        assert (node_of h1 a = Some (mk_node NULL (ptr_of r) (ctx_parent C) c v)) as Hna1
            by (unfold h1; by rewrite node_of_upd_ne).
        rewrite (bind_Ok _ _ _ _ _ (set_left_ok _ _ _ (Some b) Hna1)).
        exact Hrun.
      * eapply fields_only_trans; [|exact Hfo'].
        eapply fields_only_trans; [|exact Hfo2].
        by apply fields_only_upd_node.
    + eapply (IHl fuel h (Frame LEFT a c v k' r :: C)); try done.
      cbn [length height] in *. lia.
  - rewrite (bind_Ok _ _ _ _ _ (get_right_ok _ _ _ Hna)). cbn [right].
    destruct r as [|rl ra rc rv rk rr]; cbn [ptr_of is_null negb].
    + set (F := Frame RIGHT a c v k' l).
      set (h1 := upd b (Node (mk_node NULL NULL (Some a) RED value)) h).
      assert (is_tree cmp tree h1 (plug (F :: C) Leaf)) as Ht1
          by (by apply is_tree_upd_other).
      destruct (link_ok h1 (F :: C) b value k Ht1) as (Ht2 & Hfo2).
      { apply node_of_upd_eq. }
      { by apply keys_kept_upd_node. }
      { done. }
      destruct (rbt_ins_recolor_ok cmp tree (S fuel) _ (F :: C) _ b Ht2 eq_refl)
        as (h' & t' & Hrun & Ht' & Hnodes & Hcol' & Hfo' & Hrb').
      { by apply ctx_root_black_plug with Leaf. }
      { cbn [length]. lia. }
      exists h', t'. split; [|split; [done|split; [done|split; [done|split]]]]; cycle 2.
      { intros [Hnrr Hbh]. apply Hrb'; [done|done| |].
        - change (no_red_red (plug (F :: C) Leaf)) in Hnrr.
          by apply no_red_red_plug_iff in Hnrr as [_ ?].
        - by rewrite (black_height_plug_ext (F :: C) _ Leaf). }
      * rewrite (bind_Ok _ _ _ _ _ (set_parent_ok _ _ _ (Some a) Hb)).
        assert (node_of h1 a = Some (mk_node (ptr_of l) NULL (ctx_parent C) c v)) as Hna1
            by (unfold h1; by rewrite node_of_upd_ne).
        rewrite (bind_Ok _ _ _ _ _ (set_right_ok _ _ _ (Some b) Hna1)).
        exact Hrun.
      * eapply fields_only_trans; [|exact Hfo'].
        eapply fields_only_trans; [|exact Hfo2].
        by apply fields_only_upd_node.
    + eapply (IHr fuel h (Frame RIGHT a c v k' l :: C)); try done.
      cbn [length height] in *. lia.
Qed.
End insert_descent.

(** ** Insertion from the root *)

(** The nodes of a tree in order: those before the position, the subtree at
    the position, those after it. *)
Lemma nodes_plug_split C t : nodes (plug C t) = ctx_before C ++ nodes t ++ ctx_after C.
Proof.
  revert t. induction C as [|F C IH]; intros t; cbn [plug ctx_before ctx_after].
  { by rewrite app_nil_r. }
  rewrite IH. destruct F as [[] a c v k s]; cbn [fill f_side f_sib f_addr f_contents f_key nodes].
  - rewrite app_nil_r. by repeat first [rewrite <- app_assoc | rewrite <- app_comm_cons].
  - by repeat first [rewrite <- app_assoc | rewrite <- app_comm_cons].
Qed.

Lemma plug_descend_leaf f k C t : plug (descend f k C t) Leaf = plug C t.
Proof.
  revert C. induction t as [|l IHl a c v k' r IHr]; intros C; [done|].
  cbn [descend]. destruct (f k k' <? 0); [apply IHl|apply IHr].
Qed.

Section insert_top.
Context (cmp : comparator_t) (tree : addr).

Lemma rbt_insert_ok fuel h t value k :
  is_tree cmp tree h t -> color_of t = BLACK ->
  key_of cmp h value = Some k ->
  (2 * height t + 1 <= fuel)%nat ->
  ∃ b h' t',
    h !! b = None ∧
    rbt_insert fuel (Some tree) value h = Ok (Some b, h') ∧
    is_tree cmp tree h' t' ∧
    nodes t' = nodes (attach (cmp_fun cmp) t b value k) ∧
    color_of t' = BLACK ∧
    fields_only (<[b := new_node_obj value]> h) h' ∧
    (red_black t -> red_black t').
Proof.
  intros Ht Hcol Hk Hfuel.
  destruct (rbt_node_new_fresh value h) as (b & Hb & Hnew).
  set (h1 := <[b := new_node_obj value]> h).
  assert (is_tree cmp tree h1 t) as Ht1 by (by apply is_tree_alloc).
  assert (node_of h1 b = Some (mk_node NULL NULL NULL RED value)) as Hnb
      by (unfold node_of, h1; by rewrite lookup_insert_eq).
  assert (key_of cmp h1 value = Some k) as Hk1 by (by apply keys_kept_alloc).
  assert (b ∉ addrs t) as Hfresh by (by eapply is_tree_fresh).
  pose proof Ht1 as (Htree & _ & _).
  unfold rbt_insert. rewrite (bind_Ok _ _ _ _ _ Hnew). fold (new_node_obj value). fold h1.
  rewrite (bind_Ok _ _ _ _ _ (get_root_ok _ _ _ Htree)). cbn [root].
  destruct t as [|l a c v k' r].
  - (* the empty tree *)
    destruct fuel as [|fuel]; [lia|].
    destruct (link_ok cmp tree h1 [] b value k Ht1 Hnb Hk1) as (Ht2 & Hfo2); [done|].
    destruct (ins_recolor_root cmp tree fuel _ _ _ _ _ _ _ Ht2) as (h' & Hrun & Ht' & Hfo').
    exists b, h', (T Leaf b BLACK value k Leaf).
    split; [done|]. split; [|split; [done|split; [done|split; [done|split]]]].
    + cbn [ptr_of rbt_insert_node is_null]. rewrite bind_assoc.
      rewrite (bind_Ok _ _ _ _ _ (set_root_ok _ _ _ (Some b) Htree)).
      cbn [comp]. cbn [set_hole] in Hrun. by rewrite (bind_Ok _ _ _ _ _ Hrun).
    + eauto using fields_only_trans.
    + intros _. split; cbn; eauto.
  - destruct (rbt_insert_node_ok cmp tree b value k (T l a c v k' r) fuel h1 [] a eq_refl Ht1 Hnb Hk1)
      as (h' & t' & Hrun & Ht' & Hnodes & Hcol' & Hfo' & Hrb'); [done|done|cbn [length]; lia|].
    exists b, h', t'. split; [done|]. split; [|done].
    cbn [ptr_of]. by rewrite (bind_Ok _ _ _ _ _ Hrun).
Qed.
End insert_top.

(** ** Where the way down ends *)

Section order.
Context (f : Z -> Z -> Z) (Hf : total_preorder f).

Lemma cmp_not_below x y : ¬ f x y < 0 -> f y x <= 0.
Proof.
  intros H. destruct (Z.eq_dec (f x y) 0) as [H0|H0].
  - rewrite (cmp_sym f Hf _ _ H0). lia.
  - assert (f x y > 0) as H1 by lia. apply (cmp_flip f Hf) in H1. lia.
Qed.

Lemma cmp_below_trans x y z : f x y < 0 -> f y z <= 0 -> f x z < 0.
Proof.
  intros Hxy Hyz. destruct (Z_lt_dec (f x z) 0) as [|Hn]; [done|].
  apply cmp_not_below in Hn.
  pose proof (cmp_trans f Hf _ _ _ Hyz Hn) as Hyx.
  apply (cmp_flip f Hf) in Hxy. lia.
Qed.

#[local] Instance cmp_le_trans : Transitive (fun x y => f x y <= 0).
Proof. intros x y z. apply (cmp_trans f Hf). Qed.

Lemma bst_sorted t : bst f t <-> StronglySorted (fun x y => f x y <= 0) (keys t).
Proof.
  induction t as [|l IHl a c v k r IHr]; cbn [bst keys].
  { split; [constructor|done]. }
  rewrite StronglySorted_app, StronglySorted_cons, IHl, IHr, !Forall_forall.
  split.
  - intros (Hl & Hr & Sl & Sr). split; [|done].
    intros x1 x2 H1 H2. apply elem_of_cons in H2 as [->|H2]; [by apply Hl|].
    apply (cmp_trans f Hf _ k); [by apply Hl|by apply Hr].
  - intros (Hlr & Sl & Hr & Sr). split; [|done].
    intros x Hx. apply Hlr; [done|]. apply elem_of_cons. by left.
Qed.

Lemma bst_ordered t : bst f t <-> ordered f t.
Proof.
  rewrite bst_sorted. unfold ordered. split.
  - apply StronglySorted_Sorted.
  - apply Sorted_StronglySorted. apply _.
Qed.

(** The way down for [k] keeps the keys not above [k] before the position
    and the keys strictly above [k] after it. *)
Lemma descend_ordered k : ∀ t C,
  bst f t ->
  Forall (fun x => f x.2 k <= 0) (ctx_before C) ->
  Forall (fun x => f k x.2 < 0) (ctx_after C) ->
  Forall (fun x => f x.2 k <= 0) (ctx_before (descend f k C t)) ∧
  Forall (fun x => f k x.2 < 0) (ctx_after (descend f k C t)).
Proof.
  induction t as [|l IHl a c v k' r IHr]; intros C Hb HB HA; [done|].
  cbn [descend]. destruct Hb as (Hl & Hr & Bl & Br).
  rewrite keys_nodes, Forall_fmap in Hl, Hr.
  destruct (f k k' <? 0) eqn:E.
  - apply Z.ltb_lt in E. apply IHl; [done|..]; cbn [ctx_before ctx_after f_side f_sib f_addr f_contents f_key].
    + by rewrite app_nil_r.
    + apply Forall_app. split; [|done]. constructor; [done|].
      eapply Forall_impl; [exact Hr|]. intros x Hx. cbn in Hx. by eapply cmp_below_trans.
  - apply Z.ltb_ge in E. apply IHr; [done|..]; cbn [ctx_before ctx_after f_side f_sib f_addr f_contents f_key].
    + assert (f k' k <= 0) as Hk by (apply cmp_not_below; lia).
      rewrite !Forall_app. split; [done|]. split.
      * eapply Forall_impl; [exact Hl|]. intros x Hx. cbn in Hx. by apply (cmp_trans f Hf _ k').
      * by constructor.
    + done.
Qed.
End order.

Lemma nodes_descend f k t :
  nodes t = ctx_before (descend f k [] t) ++ ctx_after (descend f k [] t).
Proof.
  rewrite <- (plug_descend_leaf f k [] t) at 1. by rewrite nodes_plug_split.
Qed.

Lemma nodes_attach f k t b v :
  nodes (attach f t b v k) =
  ctx_before (descend f k [] t) ++ (b, v, k) :: ctx_after (descend f k [] t).
Proof. unfold attach. by rewrite nodes_plug_split. Qed.

Lemma bst_nodes f t t' : total_preorder f -> nodes t' = nodes t -> bst f t -> bst f t'.
Proof. intros Hf H. rewrite !bst_sorted, !keys_nodes, H; done. Qed.

Section insert_spec.
Context (cmp : comparator_t) (tree : addr).

(** One insert, in full: the new node and its place among the old ones,
    the order and the color invariants. *)
Lemma rbt_insert_split (fuel : nat) (h : heap) (t : ntree) (value : ptr) (k : Z) :
  is_tree cmp tree h t -> color_of t = BLACK -> key_of cmp h value = Some k ->
  (2 * height t + 1 <= fuel)%nat ->
  ∃ b h' t' before after,
    h !! b = None ∧
    rbt_insert fuel (Some tree) value h = Ok (Some b, h') ∧
    is_tree cmp tree h' t' ∧ color_of t' = BLACK ∧
    nodes t = before ++ after ∧
    nodes t' = before ++ (b, value, k) :: after ∧
    fields_only (<[b := new_node_obj value]> h) h' ∧
    (total_preorder (cmp_fun cmp) -> bst (cmp_fun cmp) t ->
       Forall (fun x => cmp_fun cmp x.2 k <= 0) before ∧
       Forall (fun x => cmp_fun cmp k x.2 < 0) after ∧
       (∀ x, x ∈ nodes t -> cmp_fun cmp k x.2 = 0 -> x ∈ before) ∧
       bst (cmp_fun cmp) t') ∧
    (red_black t -> red_black t').
Proof.
  intros Ht Hcol Hk Hfuel.
  destruct (rbt_insert_ok cmp tree fuel h t value k Ht Hcol Hk Hfuel)
    as (b & h' & t' & Hb & Hrun & Ht' & Hnodes & Hcol' & Hfo & Hrb).
  set (D := descend (cmp_fun cmp) k [] t).
  exists b, h', t', (ctx_before D), (ctx_after D).
  rewrite nodes_attach in Hnodes.
  split; [done|]. split; [done|]. split; [done|]. split; [done|].
  split; [apply nodes_descend|]. split; [done|]. split; [done|].
  split; [|done].
  intros Hf Hbst.
  destruct (descend_ordered _ Hf k t [] Hbst) as [HB HA]; [constructor..|].
  fold D in HB, HA. split; [done|]. split; [done|]. split.
  { intros x Hx Hxk. rewrite (nodes_descend (cmp_fun cmp) k t) in Hx. fold D in Hx.
    apply elem_of_app in Hx as [Hx|Hx]; [done|].
    rewrite Forall_forall in HA. specialize (HA _ Hx). lia. }
  apply bst_sorted; [done|]. rewrite keys_nodes, Hnodes, fmap_app, fmap_cons. cbn [snd].
  apply StronglySorted_app. split; [|split].
  - intros x1 x2 H1 H2. apply list_elem_of_fmap in H1 as (y1 & -> & H1).
    rewrite Forall_forall in HB. specialize (HB _ H1).
    apply elem_of_cons in H2 as [->|H2]; [done|].
    apply list_elem_of_fmap in H2 as (y2 & -> & H2).
    rewrite Forall_forall in HA. specialize (HA _ H2).
    apply (cmp_trans _ Hf _ k); [done|lia].
  - apply bst_sorted in Hbst; [|done].
    rewrite keys_nodes, (nodes_descend (cmp_fun cmp) k t), fmap_app in Hbst.
    by apply StronglySorted_app_1_l in Hbst.
  - apply StronglySorted_cons. split.
    + apply Forall_fmap. eapply Forall_impl; [exact HA|].
      intros x Hx. unfold compose. cbn beta in *. lia.
    + apply bst_sorted in Hbst; [|done].
      rewrite keys_nodes, (nodes_descend (cmp_fun cmp) k t), fmap_app in Hbst.
      by apply StronglySorted_app_1_r in Hbst.
Qed.

(** C9. [rbt_insert] always makes and links a new node, whatever keys the
    tree holds. On a heap that holds a well-formed tree [t] with a BLACK
    root, and for a value whose key is [k], [rbt_insert] with enough fuel
    ends normally and returns a node [b] at an address that was free; the
    heap then holds a well-formed tree [t'] with a BLACK root whose nodes in
    order are those of [t], each with its address and contents, and the one
    new node [(b, value, k)] between them: no node is replaced and none is
    dropped. When the comparator is a total preorder and [t] is in order,
    the nodes before the new one have keys not above [k] and the nodes
    after it keys strictly above [k]; so every node of [t] whose key compares
    equal to [k] comes before the new node, the way down having gone to the
    right at each of them, and [t'] is in order again. *)
Theorem rbt_insert_duplicates (fuel : nat) (h : heap) (t : ntree) (value : ptr) (k : Z) :
  is_tree cmp tree h t -> color_of t = BLACK -> key_of cmp h value = Some k ->
  (2 * height t + 1 <= fuel)%nat ->
  ∃ b h' t' before after,
    h !! b = None ∧
    rbt_insert fuel (Some tree) value h = Ok (Some b, h') ∧
    is_tree cmp tree h' t' ∧ color_of t' = BLACK ∧
    nodes t = before ++ after ∧
    nodes t' = before ++ (b, value, k) :: after ∧
    fields_only (<[b := new_node_obj value]> h) h' ∧
    (total_preorder (cmp_fun cmp) -> bst (cmp_fun cmp) t ->
       Forall (fun x => cmp_fun cmp x.2 k <= 0) before ∧
       Forall (fun x => cmp_fun cmp k x.2 < 0) after ∧
       (∀ x, x ∈ nodes t -> cmp_fun cmp k x.2 = 0 -> x ∈ before) ∧
       bst (cmp_fun cmp) t').
Proof.
  intros Ht Hcol Hk Hfuel.
  destruct (rbt_insert_split fuel h t value k Ht Hcol Hk Hfuel)
    as (b & h' & t' & before & after & H).
  exists b, h', t', before, after. tauto.
Qed.
End insert_spec.

(** The tree holding 5, and a second box holding 5 that is inserted. *)
Lemma rbt_insert_duplicates_witness :
  let h := heap_after (build 10 [Ins 5];;; mem_box 5) in
  ∃ b h' t',
    rbt_insert 3 (Some 1%positive) (Some 4%positive) h = Ok (Some b, h') ∧
    is_tree (Fn_unbox_compare int_compare) 1%positive h' t' ∧
    nodes t' = [(3%positive, Some 2%positive, 5); (b, Some 4%positive, 5)].
Proof.
  intros h.
  destruct (rbt_insert_duplicates (Fn_unbox_compare int_compare) 1%positive 3 h
              (T Leaf 3%positive BLACK (Some 2%positive) 5 Leaf) (Some 4%positive) 5)
    as (b & h' & t' & before & after & _ & Hrun & Ht & _ & Hold & Hnew & _ & Hord).
  - repeat split; try (vm_compute; reflexivity).
    apply (bool_decide_unpack _). vm_compute. exact I.
  - reflexivity.
  - vm_compute. reflexivity.
  - cbn. lia.
  - exists b, h', t'. split; [exact Hrun|]. split; [exact Ht|].
    destruct Hord as (_ & Hafter & _ & _).
    + exact int_compare_preorder.
    + cbn. repeat split; constructor.
    + cbn [nodes app] in Hold. destruct before as [|x before].
      * cbn in Hold. subst after. inversion Hafter as [|? ? Hlt _]. vm_compute in Hlt. discriminate.
      * destruct before; [|destruct before; discriminate].
        cbn in Hold. injection Hold as <- <-. exact Hnew.
Defined.

(** ** Sequences of inserts *)

Lemma mem_box_fresh val (h : heap) :
  ∃ b, h !! b = None ∧
       mem_box val h = Ok (Some b, <[b := mk_obj 1 None (Box val)]> h).
Proof.
  destruct (mem_allocate_fresh sizeof_box_t None h) as (b & Hb & Hal).
  exists b. split; [done|].
  unfold mem_box. rewrite (bind_Ok _ _ _ _ _ Hal).
  erewrite bind_Ok; [|apply set_payload_Some; apply lookup_insert_eq].
  cbn. by rewrite insert_insert_eq.
Qed.

Lemma height_nodes t : (height t <= length (nodes t))%nat.
Proof.
  induction t as [|l IHl a c v k r IHr]; [done|].
  cbn [height nodes]. rewrite length_app. cbn [length]. lia.
Qed.

Section inserts.
Context (f : Z -> Z -> Z) (Hf : total_preorder f) (tree : addr).

(** Inserts of boxed keys, one after the other, from a tree that satisfies
    the invariants. *)
Lemma run_inserts_ok fuel : ∀ ks h t,
  is_tree (Fn_unbox_compare f) tree h t -> color_of t = BLACK ->
  red_black t -> bst f t ->
  (2 * (length (nodes t) + length ks) + 1 <= fuel)%nat ->
  ∃ h' t', run_ops fuel (Some tree) (Ins <$> ks) h = Ok (tt, h') ∧
           is_tree (Fn_unbox_compare f) tree h' t' ∧ color_of t' = BLACK ∧
           red_black t' ∧ bst f t' ∧ keys t' ≡ₚ keys t ++ ks.
Proof.
  induction ks as [|k ks IH]; intros h t Ht Hcol Hrb Hbst Hfuel.
  { exists h, t. rewrite app_nil_r. done. }
  cbn [fmap list_fmap run_ops run_op].
  destruct (mem_box_fresh k h) as (b & Hb & Hbox).
  set (h1 := <[b := mk_obj 1 None (Box k)]> h) in *.
  assert (is_tree (Fn_unbox_compare f) tree h1 t) as Ht1 by (by apply is_tree_alloc).
  assert (key_of (Fn_unbox_compare f) h1 (Some b) = Some k) as Hk.
  { unfold key_of, box_of, h1. by rewrite lookup_insert_eq. }
  pose proof (height_nodes t) as Hh.
  destruct (rbt_insert_split (Fn_unbox_compare f) tree fuel h1 t (Some b) k Ht1 Hcol Hk)
    as (n & h2 & t2 & before & after & _ & Hrun & Ht2 & Hcol2 & Hold & Hnew & _ & Hord & Hrb2).
  { cbn [length] in Hfuel. lia. }
  destruct (Hord Hf Hbst) as (_ & _ & _ & Hbst2).
  destruct (IH h2 t2 Ht2 Hcol2 (Hrb2 Hrb) Hbst2) as (h' & t' & Hrun' & Ht' & Hcol' & Hrb' & Hbst' & Hkeys).
  { rewrite Hnew, length_app. cbn [length]. rewrite Hold, length_app in Hfuel.
    cbn [length] in Hfuel. lia. }
  exists h', t'. split.
  - unfold bind at 1. rewrite (bind_Ok _ _ _ _ _ Hbox).
    rewrite (bind_Ok _ _ _ _ _ Hrun). exact Hrun'.
  - do 4 (split; [done|]). rewrite Hkeys, !keys_nodes, Hnew, Hold, !fmap_app, fmap_cons. cbn [snd].
    solve_Permutation.
Qed.
End inserts.

(** X1. Inserts alone keep the red-black invariants. For every list of keys
    [ks], inserting them in turn into a tree made by [rbt_new] with the
    comparator on boxed integers ends normally, given fuel above twice the
    number of keys, and the heap then holds a well-formed tree (every parent
    field is the structural parent, the root has none) whose root is BLACK,
    in which no RED node has a RED child, every path down to an absent child
    meets the same number of BLACK nodes, the keys in order are
    non-decreasing, and the keys are those inserted. *)
Theorem inserts_keep_invariants (ks : list Z) (fuel : nat) :
  (2 * length ks + 1 <= fuel)%nat ->
  ∃ tree h t,
    build fuel (Ins <$> ks) ∅ = Ok (Some tree, h) ∧
    is_tree (Fn_unbox_compare int_compare) tree h t ∧
    color_of t = BLACK ∧ no_red_red t ∧ is_Some (black_height t) ∧
    ordered int_compare t ∧ keys t ≡ₚ ks.
Proof.
  intros Hfuel. unfold build.
  set (h0 := <[1%positive := mk_obj 1 (Some Fn_rbt_free)
                 (Tree (mk_tree NULL (Fn_unbox_compare int_compare)))]> (∅ : heap)).
  assert (rbt_new (Some (Fn_unbox_compare int_compare)) ∅ = Ok (Some 1%positive, h0)) as Hnew
      by (vm_compute; reflexivity).
  destruct (run_inserts_ok int_compare int_compare_preorder 1%positive fuel ks h0 Leaf)
    as (h & t & Hrun & Ht & Hcol & [Hnrr Hbh] & Hbst & Hkeys).
  - split; [by vm_compute|]. split; [done|constructor].
  - done.
  - split; [done|]. cbn. eauto.
  - done.
  - cbn [nodes length]. lia.
  - exists 1%positive, h, t. split.
    + rewrite (bind_Ok _ _ _ _ _ Hnew). by rewrite (bind_Ok _ _ _ _ _ Hrun).
    + do 4 (split; [done|]). split; [|done]. by apply bst_ordered; [apply int_compare_preorder|].
Qed.

(** Three keys, the last one between the first two. *)
Lemma inserts_keep_invariants_witness :
  ∃ tree h t,
    build 7 [Ins 3; Ins 1; Ins 2] ∅ = Ok (Some tree, h) ∧
    is_tree (Fn_unbox_compare int_compare) tree h t ∧
    keys t ≡ₚ [3; 1; 2].
Proof.
  destruct (inserts_keep_invariants [3; 1; 2] 7)
    as (tree & h & t & Hrun & Ht & _ & _ & _ & _ & Hkeys).
  - cbn. lia.
  - exists tree, h, t. split; [exact Hrun|]. split; [exact Ht|exact Hkeys].
Defined.

(** ** The RED branch of [rbt_delete_node] *)

Lemma black_height_fill F t : is_Some (black_height (fill F t)) -> is_Some (black_height t).
Proof.
  destruct F as [[] a c v k s];
    cbn [fill f_side f_sib f_addr f_color f_contents f_key black_height];
    destruct (black_height t); [by eauto| |by eauto|].
  - by intros [? ?].
  - destruct (black_height s); by intros [? ?].
Qed.

Lemma black_height_plug C t : is_Some (black_height (plug C t)) -> is_Some (black_height t).
Proof.
  revert t. induction C as [|F C IH]; intros t; [done|].
  cbn [plug]. intros H. by eapply black_height_fill, IH.
Qed.

Lemma no_red_red_plug C t : no_red_red (plug C t) -> no_red_red t.
Proof.
  revert t. induction C as [|F C IH]; intros t; [done|].
  cbn [plug]. intros H%IH. destruct F as [[] a c v k s]; cbn in H; tauto.
Qed.

(** A RED node under the color invariants has two children or none. *)
Lemma red_children l a v k r :
  no_red_red (T l a RED v k r) -> is_Some (black_height (T l a RED v k r)) ->
  l = Leaf ∨ r = Leaf -> l = Leaf ∧ r = Leaf.
Proof.
  cbn [no_red_red black_height]. intros ((Hl & Hr) & Nl & Nr); [done|].
  intros Hbh Hone.
  destruct (black_height l) as [n|] eqn:El; [|by destruct Hbh].
  destruct (black_height r) as [m|] eqn:Er; [|by destruct Hbh].
  destruct (decide (n = m)) as [->|]; [|by destruct Hbh].
  destruct Hone as [->| ->]; cbn in El, Er; simplify_eq.
  - split; [done|]. destruct r as [|rl ra rc rv rk rr]; [done|].
    cbn in Hr, Er. subst rc. destruct (black_height rl), (black_height rr); try done.
    by destruct (decide _).
  - split; [|done]. destruct l as [|rl ra rc rv rk rr]; [done|].
    cbn in Hl, El. subst rc. destruct (black_height rl), (black_height rr); try done.
    by destruct (decide _).
Qed.

Lemma ptr_of_plug_cons F C t :
  ptr_of (plug (F :: C) t) = Some (f_addr (default F (last (F :: C)))).
Proof.
  revert F t. induction C as [|F' C IH]; intros F t.
  - cbn. by destruct F as [[] ? ? ? ? ?].
  - change (plug (F :: F' :: C) t) with (plug (F' :: C) (fill F t)).
    rewrite IH, last_cons_cons.
    destruct (last (F' :: C)) eqn:E; [done|]. by apply last_None in E.
Qed.

Lemma frame_in_ctx G C : G ∈ C -> f_addr G ∈ ctx_addrs C.
Proof.
  induction C as [|F C IH]; [by intros ?%elem_of_nil|].
  cbn [ctx_addrs flat_map]. fold (ctx_addrs C).
  intros [->|H]%elem_of_cons; [by left|].
  right. apply elem_of_app. right. by apply IH.
Qed.

Lemma root_in_ctx F C : f_addr (default F (last (F :: C))) ∈ ctx_addrs (F :: C).
Proof.
  apply frame_in_ctx.
  destruct (last (F :: C)) eqn:E; [|by left]. cbn. by apply last_Some_elem_of.
Qed.

Section red_doomed.
Context (cmp : comparator_t) (tree : addr).

(** X2. On a well-formed tree with a BLACK root, no RED node with a RED
    child and the same number of BLACK nodes on every path, a RED node with
    at most one child has no child at all, its parent field names a live
    node, and the root field of the tree does not name it. *)
Theorem red_doomed_node_under_invariants (h : heap) (C : ctx) (l : ntree) (a : addr)
    (v : ptr) (k : Z) (r : ntree) :
  is_tree cmp tree h (plug C (T l a RED v k r)) ->
  color_of (plug C (T l a RED v k r)) = BLACK ->
  no_red_red (plug C (T l a RED v k r)) ->
  is_Some (black_height (plug C (T l a RED v k r))) ->
  l = Leaf ∨ r = Leaf ->
  ∃ p, node_of h a = Some (mk_node NULL NULL (Some p) RED v) ∧ is_node h p ∧
       tree_of h tree ≠ Some (mk_tree (Some a) cmp).
Proof.
  intros Ht Hroot Hrr Hbh Hone.
  destruct (red_children l a v k r) as [-> ->];
    [by eapply no_red_red_plug|by eapply black_height_plug|done|].
  pose proof (node_at cmp tree _ _ _ _ _ _ _ _ Ht) as Hn. cbn [ptr_of] in Hn.
  destruct C as [|F C]; [done|].
  exists (f_addr F). split; [done|].
  pose proof Ht as (Htree & _ & Hnd).
  apply is_tree_plug in Ht as (HC & _ & _).
  split.
  - eapply rep_ctx_is_node; [exact HC|]. cbn. left.
  - rewrite Htree. intros [= Heq].
    change (ptr_of (plug (F :: C) (T Leaf a RED v k Leaf)) = Some a) in Heq.
    rewrite ptr_of_plug_cons in Heq. injection Heq as Heq.
    pose proof (root_in_ctx F C) as Hin. rewrite Heq in Hin.
    rewrite addrs_plug in Hnd. cbn [addrs app] in Hnd.
    apply NoDup_cons in Hnd as [Hnd _]. done.
Qed.
End red_doomed.

(** The tree holding 5 and 3: the node of 3 is RED, below the root. *)
Lemma red_doomed_node_under_invariants_witness :
  let h := heap_after (build 10 [Ins 5; Ins 3]) in
  ∃ p, node_of h 5%positive = Some (mk_node NULL NULL (Some p) RED (Some 4%positive)) ∧
       is_node h p.
Proof.
  intros h.
  destruct (red_doomed_node_under_invariants (Fn_unbox_compare int_compare) 1%positive h
              [Frame LEFT 3%positive BLACK (Some 2%positive) 5 Leaf]
              Leaf 5%positive (Some 4%positive) 3 Leaf)
    as (p & Hn & Hp & _).
  - repeat split; try (vm_compute; reflexivity).
    apply (bool_decide_unpack _). vm_compute. exact I.
  - reflexivity.
  - cbn. intuition discriminate.
  - cbn. eauto.
  - by left.
  - exists p. split; [exact Hn|exact Hp].
Defined.

(** C10. A RED doomed node can be the root of the tree. After five inserts
    of the key 1, a delete of 1 and one more insert of 1, [rbt_delete] of 1
    hands [rbt_delete_node] the node that [tree->root] names: it is RED, has
    no children, and its parent field names another node. The RED branch
    detaches the doomed node from that parent and never writes [tree->root]:
    after the delete the root field still names the doomed node, which is
    freed, and the validator faults when it reads it. *)
Theorem red_doomed_node_is_root :
  let os := [Ins 1; Ins 1; Ins 1; Ins 1; Ins 1; Del 1; Ins 1] in
  value_of (doomed_node 20 os 1 ∅)
  = Ok (Some 3%positive, Some 3%positive, RED, NULL, NULL, Some 7%positive) ∧
  value_of (root_after 20 (os ++ [Del 1]) ∅) = Ok (Some 3%positive, None) ∧
  value_of (observe 20 (os ++ [Del 1]) ∅) = Fault.
Proof. vm_compute. done. Qed.

(** A RED doomed node can have a child. After the operations below the root
    (node 7, BLACK) has two children; its left child (node 5) is RED and has
    a left child (node 3) and no right child, and the validator reports
    BLACK_NODES_UNBALANCED. Deleting 1 removes the root: the recursive call
    is handed node 5, takes the RED branch and drops node 3 with it. Of the
    four keys met in order before the delete, two are left. *)
Lemma red_doomed_node_has_child :
  let os := [Ins 1; Ins 1; Ins 1; Ins 2; Ins 2; Ins 2; Ins 2; Del 2; Ins 1; Ins 1] in
  value_of (replacement_node 20 os 1 ∅)
  = Ok (Some 7%positive, Some 5%positive, RED, Some 3%positive, NULL) ∧
  value_of (observe 20 os ∅)
  = Ok (BLACK_NODES_UNBALANCED, Some 7%positive, NULL, [1; 1; 1; 1]) ∧
  value_of (observe 20 (os ++ [Del 1]) ∅)
  = Ok (OK, Some 5%positive, NULL, [1; 1]).
Proof. vm_compute. done. Qed.

(** Deleting a RED leaf that is a right child also unlinks its sibling: the
    RED branch clears [parent->right], after which the node is no longer
    [parent->right] and the common tail of [rbt_delete_node] writes the
    absent child into [parent->left]. After the inserts 9, 6, 8 the tree
    holds 6, 8, 9; after the delete of 9 it holds 8 alone, and the validator
    reports OK. *)
Lemma delete_red_right_leaf_drops_sibling :
  value_of (observe 20 [Ins 9; Ins 6; Ins 8] ∅)
  = Ok (OK, Some 7%positive, NULL, [6; 8; 9]) ∧
  value_of (observe 20 [Ins 9; Ins 6; Ins 8; Del 9] ∅)
  = Ok (OK, Some 7%positive, NULL, [8]).
Proof. vm_compute. done. Qed.

(** * More of mem.c and rbt.c *)

(** ** Boxed integers *)

(** X5. [mem_box] returns an unused handle with one reference; [mem_unbox]
    reads the boxed value back; every other object is as it was; and
    releasing the box restores the heap it was made in. *)
Theorem mem_box_unbox (val : Z) (h : heap) :
  ∃ b h', h !! b = None ∧
          mem_box val h = Ok (Some b, h') ∧
          mem_unbox (Some b) h' = Ok (val, h') ∧
          mem_num_references (Some b) h' = Ok (1, h') ∧
          (∀ x, x ≠ b -> h' !! x = h !! x) ∧
          mem_release 1 (Some b) h' = Ok (tt, h).
Proof.
  destruct (mem_box_fresh val h) as (b & Hb & Hbox).
  exists b, (<[b := mk_obj 1 None (Box val)]> h).
  split; [done|]. split; [done|]. split; [|split; [|split]].
  - apply mem_unbox_ok. unfold box_of. by rewrite lookup_insert_eq.
  - unfold mem_num_references. erewrite bind_Ok; [|apply load_Some, lookup_insert_eq]. done.
  - intros x Hx. by rewrite lookup_insert_ne.
  - erewrite mem_release_last; [|apply lookup_insert_eq|done|cbn; unfold INT_MIN; lia].
    by rewrite delete_insert_id.
Qed.

(** ** The default comparator *)

Lemma ptr_to_Z_inj a b : ptr_to_Z a = ptr_to_Z b -> a = b.
Proof. destruct a, b; cbn; intros H; try done; try lia. f_equal. lia. Qed.

(** X6. [rbt_default_comparator] keeps the comparator contract: it returns
    -1, 0 or 1, it returns 0 exactly on identical pointers, it returns -1
    one way exactly when it returns 1 the other way, and as an order on the
    pointers it is a total preorder. *)
Theorem rbt_default_comparator_contract :
  (∀ a b, rbt_default_comparator a b = cmp_fun Fn_rbt_default_comparator (ptr_to_Z a) (ptr_to_Z b)) ∧
  (∀ a b, rbt_default_comparator a b = -1 ∨ rbt_default_comparator a b = 0 ∨
          rbt_default_comparator a b = 1) ∧
  (∀ a b, rbt_default_comparator a b = 0 <-> a = b) ∧
  (∀ a b, rbt_default_comparator a b = -1 <-> rbt_default_comparator b a = 1) ∧
  total_preorder (cmp_fun Fn_rbt_default_comparator).
Proof.
  assert (∀ a b, rbt_default_comparator a b = int_compare (ptr_to_Z a) (ptr_to_Z b)) as Heq.
  { intros a b. unfold rbt_default_comparator, int_compare, ptr_eqb.
    case_bool_decide as E.
    - subst. by rewrite Z.eqb_refl.
    - destruct (Z.eqb_spec (ptr_to_Z a) (ptr_to_Z b)) as [E'|]; [|done].
      by apply ptr_to_Z_inj in E'. }
  split; [exact Heq|]. split; [|split; [|split]].
  - intros a b. rewrite Heq. unfold int_compare.
    destruct (_ =? _); [tauto|]. destruct (_ <? _); tauto.
  - intros a b. rewrite Heq. unfold int_compare. split.
    + destruct (Z.eqb_spec (ptr_to_Z a) (ptr_to_Z b)) as [E|]; [by intros _; apply ptr_to_Z_inj|].
      by destruct (_ <? _).
    + intros ->. by rewrite Z.eqb_refl.
  - intros a b. rewrite !Heq. unfold int_compare.
    destruct (Z.eqb_spec (ptr_to_Z a) (ptr_to_Z b)), (Z.eqb_spec (ptr_to_Z b) (ptr_to_Z a)),
      (Z.ltb_spec (ptr_to_Z a) (ptr_to_Z b)), (Z.ltb_spec (ptr_to_Z b) (ptr_to_Z a)); split; try done; lia.
  - exact int_compare_preorder.
Qed.

(** ** The rightmost descendent *)

Section rightmost.
Context (cmp : comparator_t).

(** X7. On a heap that holds the subtree [t] below the node [a],
    [rightmost_descendent] ends normally within fuel at the height of [t],
    leaves the heap as it was and returns the last node of [t] in order. *)
Theorem rightmost_descendent_last : ∀ t fuel h par a,
  rep cmp h par t -> ptr_of t = Some a -> (height t <= fuel)%nat ->
  ∃ x, last (nodes t) = Some x ∧
       rightmost_descendent fuel (Some a) h = Ok (Some x.1.1, h).
Proof.
  induction t as [|l _ a' c v k r IHr]; intros fuel h par a Hrep Ha Hfuel; [done|].
  injection Ha as ->. cbn [height] in Hfuel. destruct fuel as [|fuel]; [lia|].
  destruct Hrep as (Hn & Hk & Hl & Hr).
  cbn [rightmost_descendent]. rewrite (bind_Ok _ _ _ _ _ (get_right_ok _ _ _ Hn)). cbn [right].
  destruct r as [|rl ra rc rv rk rr].
  - cbn [ptr_of is_null negb nodes]. exists (a, v, k). split; [|done].
    by rewrite last_app.
  - cbn [ptr_of is_null negb].
    destruct (IHr fuel h (Some a) ra Hr eq_refl) as (x & Hx & Hrun); [lia|].
    exists x. split; [|done]. cbn [nodes] in *. rewrite last_app, last_cons.
    by rewrite Hx.
Qed.
End rightmost.

(** The tree holding 3, 5 and 8: the rightmost node is that of 8. *)
Lemma rightmost_descendent_last_witness :
  let h := heap_after (build 10 [Ins 5; Ins 3; Ins 8]) in
  rightmost_descendent 2 (Some 3%positive) h = Ok (Some 7%positive, h).
Proof.
  intros h.
  destruct (rightmost_descendent_last (Fn_unbox_compare int_compare)
              (T (T Leaf 5%positive RED (Some 4%positive) 3 Leaf)
                 3%positive BLACK (Some 2%positive) 5
                 (T Leaf 7%positive RED (Some 6%positive) 8 Leaf))
              2 h NULL 3%positive)
    as (x & Hx & Hrun).
  - repeat split; vm_compute; reflexivity.
  - reflexivity.
  - cbn. lia.
  - cbn in Hx. injection Hx as <-. exact Hrun.
Defined.

(** ** Insert, then lookup *)

Lemma search_NULL_iff f k t :
  total_preorder f -> bst f t ->
  search f k t = NULL <-> Forall (fun x => f k x ≠ 0) (keys t).
Proof.
  intros Hf Hb. split; [by apply search_none|].
  intros Hall. destruct (search f k t) as [a|] eqn:E; [|done].
  apply search_found in E as (v & k' & Hin & Hk).
  rewrite Forall_forall in Hall. destruct (Hall k'); [|done].
  rewrite keys_nodes. apply list_elem_of_fmap. by exists (a, v, k').
Qed.

Section insert_lookup.
Context (cmp : comparator_t) (tree : addr).

(** X8. After [rbt_insert] of a value into a well-formed ordered tree with a
    BLACK root, [rbt_lookup] of that value finds a node; and for a probe
    whose key does not compare equal to the inserted one, [rbt_lookup]
    finds a node after the insert exactly when it found one before. *)
Theorem rbt_insert_lookup (fuel : nat) (h : heap) (t : ntree) (value : ptr) (k : Z) :
  is_tree cmp tree h t -> color_of t = BLACK ->
  total_preorder (cmp_fun cmp) -> bst (cmp_fun cmp) t ->
  key_of cmp h value = Some k ->
  (2 * length (nodes t) + 2 <= fuel)%nat ->
  ∃ b h',
    rbt_insert fuel (Some tree) value h = Ok (Some b, h') ∧
    (∃ a, rbt_lookup fuel (Some tree) value h' = Ok (Some a, h')) ∧
    (∀ probe kp, key_of cmp h probe = Some kp -> cmp_fun cmp kp k ≠ 0 ->
       ∃ found found',
         rbt_lookup fuel (Some tree) probe h = Ok (found, h) ∧
         rbt_lookup fuel (Some tree) probe h' = Ok (found', h') ∧
         (found = NULL <-> found' = NULL)).
Proof.
  intros Ht Hcol Hf Hbst Hk Hfuel.
  pose proof (height_nodes t) as Hh.
  destruct (rbt_insert_split cmp tree fuel h t value k Ht Hcol Hk)
    as (b & h' & t' & before & after & Hb & Hrun & Ht' & _ & Hold & Hnew & Hfo & Hord & _);
    [lia|].
  destruct (Hord Hf Hbst) as (_ & _ & _ & Hbst').
  assert (keys_kept cmp h h') as Hkk.
  { eapply keys_kept_trans; [by apply keys_kept_alloc|by apply fields_only_keys]. }
  assert (height t' < fuel)%nat as Hfuel'.
  { pose proof (height_nodes t') as Hh'. rewrite Hnew, length_app in Hh'. cbn [length] in Hh'.
    rewrite Hold, length_app in Hfuel. lia. }
  assert (keys t' ≡ₚ k :: keys t) as Hkeys.
  { rewrite !keys_nodes, Hnew, Hold, !fmap_app, fmap_cons. cbn [snd]. solve_Permutation. }
  exists b, h'. split; [done|]. split.
  - rewrite (rbt_lookup_ok cmp tree fuel h' t' value k Ht' (Hkk _ _ Hk) Hfuel').
    destruct (search (cmp_fun cmp) k t') as [a|] eqn:E; [by exists a|].
    apply search_none in E; [|done..]. rewrite Hkeys in E.
    apply Forall_cons in E as [E _]. destruct E. apply (cmp_refl _ Hf).
  - intros probe kp Hp Hne. eexists _, _.
    split; [apply (rbt_lookup_ok cmp tree fuel h t probe kp Ht Hp); lia|].
    split; [apply (rbt_lookup_ok cmp tree fuel h' t' probe kp Ht' (Hkk _ _ Hp) Hfuel')|].
    rewrite !search_NULL_iff by done. rewrite Hkeys, Forall_cons. tauto.
Qed.
End insert_lookup.

(** The tree holding 5; 7 is inserted and looked up. *)
Lemma rbt_insert_lookup_witness :
  let h := heap_after (build 10 [Ins 5];;; mem_box 7) in
  ∃ b h' a,
    rbt_insert 4 (Some 1%positive) (Some 4%positive) h = Ok (Some b, h') ∧
    rbt_lookup 4 (Some 1%positive) (Some 4%positive) h' = Ok (Some a, h').
Proof.
  intros h.
  destruct (rbt_insert_lookup (Fn_unbox_compare int_compare) 1%positive 4 h
              (T Leaf 3%positive BLACK (Some 2%positive) 5 Leaf) (Some 4%positive) 7)
    as (b & h' & Hrun & (a & Hlook) & _).
  - repeat split; try (vm_compute; reflexivity).
    apply (bool_decide_unpack _). vm_compute. exact I.
  - reflexivity.
  - exact int_compare_preorder.
  - cbn. repeat split; constructor.
  - vm_compute. reflexivity.
  - cbn. lia.
  - exists b, h', a. split; [exact Hrun|exact Hlook].
Defined.

(** ** The validator on trees that satisfy the invariants *)

Lemma black_height_le_height t n : black_height t = Some n -> (n <= height t)%nat.
Proof.
  revert n. induction t as [|l IHl a c v k r IHr]; intros n; cbn [black_height height].
  { intros [= <-]. lia. }
  destruct (black_height l) as [nl|]; [|done].
  destruct (black_height r) as [nr|]; [|done].
  case_decide; [|done]. specialize (IHl _ eq_refl). specialize (IHr _ eq_refl).
  destruct c; intros [= <-]; lia.
Qed.

Section count.
Context (cmp : comparator_t).

Lemma count_black_nodes_to_leaf_ok : ∀ t fuel h par n,
  rep cmp h par t -> black_height t = Some n ->
  (height t < fuel)%nat -> Z.of_nat (height t) < INT_MAX ->
  count_black_nodes_to_leaf fuel (ptr_of t) h = Ok (Z.of_nat n, h).
Proof.
  induction t as [|l IHl a c v k r IHr]; intros fuel h par n Hrep Hbh Hfuel Hmax;
    (destruct fuel as [|fuel]; [lia|]).
  { cbn in Hbh. by injection Hbh as <-. }
  cbn [height] in *. destruct Hrep as (Hn & Hk & Hl & Hr).
  cbn [black_height] in Hbh.
  destruct (black_height l) as [nl|] eqn:El; [|done].
  destruct (black_height r) as [nr|] eqn:Er; [|done].
  case_decide as E; [subst nr|done].
  cbn [count_black_nodes_to_leaf ptr_of is_null].
  rewrite (bind_Ok _ _ _ _ _ (get_left_ok _ _ _ Hn)). cbn [left].
  rewrite (bind_Ok _ _ _ _ _ (IHl fuel h _ nl Hl eq_refl ltac:(lia) ltac:(lia))).
  rewrite (bind_Ok _ _ _ _ _ (get_right_ok _ _ _ Hn)). cbn [right].
  rewrite (bind_Ok _ _ _ _ _ (IHr fuel h _ nl Hr eq_refl ltac:(lia) ltac:(lia))).
  rewrite Z.eqb_refl. cbn [negb].
  rewrite (bind_Ok _ _ _ _ _ (get_color_ok _ _ _ Hn)). cbn [color].
  pose proof (black_height_le_height _ _ El).
  destruct c; injection Hbh as <-.
  - done.
  - change (color_eqb BLACK BLACK) with true. cbv iota.
    unfold int_add. rewrite bool_decide_eq_true_2.
    + unfold ret. do 2 f_equal. lia.
    + unfold INT_MIN. lia.
Qed.
End count.

(** X18. On a heap that holds the subtree [t], whose paths to the leaves
    all count [n] BLACK nodes, [count_black_nodes_to_leaf] returns [n] (and
    so not -1) and leaves the heap as it was. *)
Theorem count_black_nodes_balanced (cmp : comparator_t) (t : ntree) (fuel : nat)
    (h : heap) (par : ptr) (n : nat) :
  rep cmp h par t -> black_height t = Some n ->
  (height t < fuel)%nat -> Z.of_nat (height t) < INT_MAX ->
  count_black_nodes_to_leaf fuel (ptr_of t) h = Ok (Z.of_nat n, h).
Proof. apply count_black_nodes_to_leaf_ok. Qed.

(** The tree holding 3, 5 and 8: one BLACK node on every path. *)
Lemma count_black_nodes_balanced_witness :
  let h := heap_after (build 10 [Ins 5; Ins 3; Ins 8]) in
  count_black_nodes_to_leaf 3 (Some 3%positive) h = Ok (1, h).
Proof.
  intros h.
  apply (count_black_nodes_balanced (Fn_unbox_compare int_compare)
           (T (T Leaf 5%positive RED (Some 4%positive) 3 Leaf)
              3%positive BLACK (Some 2%positive) 5
              (T Leaf 7%positive RED (Some 6%positive) 8 Leaf))
           3 h NULL 1).
  - repeat split; vm_compute; reflexivity.
  - reflexivity.
  - cbn. lia.
  - cbn. unfold INT_MAX. lia.
Defined.

Lemma andM_Ok (a b : M bool) h x h1 :
  a h = Ok (x, h1) -> andM a b h = if x then b h1 else Ok (false, h1).
Proof. intros H. unfold andM. rewrite (bind_Ok _ _ _ _ _ H). by destruct x. Qed.

Lemma release_box fuel b val (h : heap) :
  h !! b = None ->
  mem_release (S fuel) (Some b) (<[b := mk_obj 1 None (Box val)]> h) = Ok (tt, h).
Proof.
  intros Hb. erewrite mem_release_last; [|apply lookup_insert_eq|done|cbn; unfold INT_MIN; lia].
  by rewrite delete_insert_id.
Qed.

Lemma tree_of_alloc h b o a t : h !! b = None -> tree_of h a = Some t -> tree_of (<[b := o]> h) a = Some t.
Proof.
  intros Hb Ht. unfold tree_of in *. rewrite lookup_insert_ne; [done|].
  intros ->. by rewrite Hb in Ht.
Qed.

Lemma node_color_rep cmp h par t :
  rep cmp h par t -> node_color (ptr_of t) h = Ok (color_of t, h).
Proof.
  destruct t as [|l a c v k r]; [done|]. intros (Hn & _). cbn [ptr_of color_of].
  by rewrite (node_color_ok _ _ _ Hn).
Qed.

Lemma parent_check_ok cmp h t a :
  rep cmp h (Some a) t ->
  andM (ret (negb (is_null (ptr_of t))))
       (let* lp := get_parent (ptr_of t) in ret (negb (ptr_eqb lp (Some a)))) h
  = Ok (false, h).
Proof.
  destruct t as [|l a' c v k r]; [done|]. intros (Hn & _). cbn [ptr_of is_null negb].
  erewrite andM_Ok by reflexivity. cbv iota.
  rewrite (bind_Ok _ _ _ _ _ (get_parent_ok _ _ _ Hn)). cbn [parent].
  by rewrite ptr_eqb_refl.
Qed.

Lemma ptr_eqb_ptr_of t a : a ∉ addrs t -> ptr_eqb (ptr_of t) (Some a) = false.
Proof.
  intros H%ptr_of_ne. unfold ptr_eqb. by rewrite bool_decide_eq_false_2.
Qed.

Section check.
Context (f : Z -> Z -> Z) (Hf : total_preorder f) (tree : addr).

Lemma rbt_check_node_ok : ∀ t fuel h r par lo hi klo khi,
  tree_of h tree = Some (mk_tree r (Fn_unbox_compare f)) ->
  rep (Fn_unbox_compare f) h par t -> NoDup (addrs t) -> no_red_red t -> bst f t ->
  box_of h lo = Some klo -> box_of h hi = Some khi ->
  (f klo (-1) > 0 -> Forall (fun x => f klo x <= 0) (keys t)) ->
  (f khi (-1) > 0 -> Forall (fun x => f x khi <= 0) (keys t)) ->
  (height t < fuel)%nat ->
  rbt_check_node fuel (Some tree) (ptr_of t) lo hi h = Ok (OK, h).
Proof.
  induction t as [|l IHl a c v k rt IHr];
    intros fuel h r par lo hi klo khi Htree Hrep Hnd Hrr Hbst Hlo Hhi Blo Bhi Hfuel;
    (destruct fuel as [|fuel]; [cbn in Hfuel; lia|]);
    destruct (mem_box_fresh (-1) h) as (b & Hb & Hbox);
    set (h1 := <[b := mk_obj 1 None (Box (-1))]> h) in *;
    cbn [rbt_check_node]; rewrite (bind_Ok _ _ _ _ _ Hbox);
    pose proof (release_box fuel b (-1) h Hb) as Hrel; fold h1 in Hrel.
  { cbn [ptr_of is_null]. rewrite bind_ret. by rewrite (bind_Ok _ _ _ _ _ Hrel). }
  cbn [height] in Hfuel.
  assert (tree_of h1 tree = Some (mk_tree r (Fn_unbox_compare f))) as Htree1 by (by apply tree_of_alloc).
  assert (rep (Fn_unbox_compare f) h1 par (T l a c v k rt)) as Hrep1 by (by apply rep_alloc).
  assert (box_of h1 lo = Some klo) as Hlo1 by (by apply box_of_alloc).
  assert (box_of h1 hi = Some khi) as Hhi1 by (by apply box_of_alloc).
  assert (box_of h1 (Some b) = Some (-1)) as Hneg by (unfold box_of, h1; by rewrite lookup_insert_eq).
  destruct Hrep1 as (Hn & Hk & Hl & Hr). cbn [key_of] in Hk.
  destruct Hbst as (Bl & Br & Hbl & Hbr).
  destruct Hrr as (Hc & Hrl & Hrrt).
  cbn [addrs] in Hnd.
  assert (a ∉ addrs l) as Hal by (by_nodup Hnd).
  assert (a ∉ addrs rt) as Har by (by_nodup Hnd).
  assert (NoDup (addrs l)) as Hndl by (by_nodup Hnd).
  assert (NoDup (addrs rt)) as Hndr by (by_nodup Hnd).
  match goal with |- bind ?m _ _ = _ => assert (m h1 = Ok (OK, h1)) as Hinner end.
  2:{ rewrite (bind_Ok _ _ _ _ _ Hinner). by rewrite (bind_Ok _ _ _ _ _ Hrel). }
  cbn [ptr_of is_null].
  rewrite (bind_Ok _ _ _ _ _ (get_color_ok _ _ _ Hn)).
  rewrite (bind_Ok _ _ _ _ _ (get_left_ok _ _ _ Hn)).
  rewrite (bind_Ok _ _ _ _ _ (get_right_ok _ _ _ Hn)).
  rewrite (bind_Ok _ _ _ _ _ (get_contents_ok _ _ _ Hn)).
  cbn [color left right contents].
  match goal with |- bind ?m _ _ = _ => assert (m h1 = Ok (OK, h1)) as Hlocal end.
  2:{ rewrite (bind_Ok _ _ _ _ _ Hlocal). change (status_eqb OK OK) with true. cbv iota.
      erewrite bind_Ok; cycle 1.
      { eapply (IHl fuel h1 r (Some a) lo v klo k); try done; [|lia].
        intros H'. apply Blo in H'. cbn [keys] in H'. by apply Forall_app in H' as [? _]. }
      change (status_eqb OK OK) with true. cbv iota.
      eapply (IHr fuel h1 r (Some a) v hi k khi); try done; [|lia].
      intros H'. apply Bhi in H'. cbn [keys] in H'.
      apply Forall_app in H' as [_ H']. by apply Forall_cons in H' as [_ ?]. }
  assert (negb (color_eqb c RED) && negb (color_eqb c BLACK) = false) as -> by (by destruct c).
  erewrite bind_Ok; cycle 1.
  { destruct c.
    - destruct (Hc eq_refl) as [Hcl Hcr].
      erewrite andM_Ok by reflexivity. change (color_eqb RED RED) with true. cbv iota.
      erewrite andM_Ok; cycle 1.
      { rewrite (bind_Ok _ _ _ _ _ (node_color_rep _ _ _ _ Hl)). rewrite Hcl. reflexivity. }
      reflexivity.
    - erewrite andM_Ok by reflexivity. reflexivity. }
  cbv iota.
  pose proof (tree_comp_ok (Fn_unbox_compare f) tree h1 r lo (Some b) klo (-1) Htree1 Hlo1 Hneg) as Hc1.
  pose proof (tree_comp_ok (Fn_unbox_compare f) tree h1 r v lo k klo Htree1 Hk Hlo1) as Hc2.
  pose proof (tree_comp_ok (Fn_unbox_compare f) tree h1 r hi (Some b) khi (-1) Htree1 Hhi1 Hneg) as Hc3.
  pose proof (tree_comp_ok (Fn_unbox_compare f) tree h1 r v hi k khi Htree1 Hk Hhi1) as Hc4.
  cbn [cmp_fun] in Hc1, Hc2, Hc3, Hc4.
  erewrite bind_Ok; cycle 1.
  { erewrite andM_Ok; [|by rewrite (bind_Ok _ _ _ _ _ Hc1)].
    destruct (Z.gtb_spec (f klo (-1)) 0) as [Hpos|]; [|reflexivity].
    rewrite (bind_Ok _ _ _ _ _ Hc2).
    assert (f klo k <= 0) as Hle.
    { assert (f klo (-1) > 0) as Hgt by lia. apply Blo in Hgt. cbn [keys] in Hgt.
      apply Forall_app in Hgt as [_ Hgt]. by apply Forall_cons in Hgt as [? _]. }
    destruct (Z.ltb_spec (f k klo) 0) as [Hlt|]; [|reflexivity].
    apply (cmp_flip f Hf) in Hlt. lia. }
  cbv iota.
  erewrite bind_Ok; cycle 1.
  { erewrite andM_Ok; [|by rewrite (bind_Ok _ _ _ _ _ Hc3)].
    destruct (Z.gtb_spec (f khi (-1)) 0) as [Hpos|]; [|reflexivity].
    rewrite (bind_Ok _ _ _ _ _ Hc4).
    assert (f k khi <= 0) as Hle.
    { assert (f khi (-1) > 0) as Hgt by lia. apply Bhi in Hgt. cbn [keys] in Hgt.
      apply Forall_app in Hgt as [_ Hgt]. by apply Forall_cons in Hgt as [? _]. }
    destruct (Z.gtb_spec (f k khi) 0) as [Hgt|]; [lia|reflexivity]. }
  cbv iota.
  rewrite !ptr_eqb_ptr_of by done. cbn [orb].
  rewrite (bind_Ok _ _ _ _ _ (parent_check_ok _ _ _ _ Hl)).
  rewrite (bind_Ok _ _ _ _ _ (parent_check_ok _ _ _ _ Hr)).
  reflexivity.
Qed.

Lemma rbt_check_status_ok (fuel : nat) (h : heap) (t : ntree) :
  is_tree (Fn_unbox_compare f) tree h t ->
  color_of t = BLACK -> no_red_red t -> is_Some (black_height t) -> bst f t ->
  (height t < fuel)%nat -> Z.of_nat (height t) < INT_MAX ->
  rbt_check_status fuel (Some tree) h = Ok (OK, h).
Proof.
  intros (Htree & Hrep & Hnd) Hcol Hrr [n Hbh] Hbst Hfuel Hmax.
  destruct (mem_box_fresh (-1) h) as (b & Hb & Hbox).
  set (h1 := <[b := mk_obj 1 None (Box (-1))]> h) in *.
  pose proof (release_box 0 b (-1) h Hb) as Hrel. fold h1 in Hrel.
  assert (tree_of h1 tree = Some (mk_tree (ptr_of t) (Fn_unbox_compare f))) as Htree1
      by (by apply tree_of_alloc).
  assert (rep (Fn_unbox_compare f) h1 NULL t) as Hrep1 by (by apply rep_alloc).
  assert (box_of h1 (Some b) = Some (-1)) as Hneg by (unfold box_of, h1; by rewrite lookup_insert_eq).
  unfold rbt_check_status. rewrite (bind_Ok _ _ _ _ _ Hbox). cbn [is_null].
  match goal with |- bind ?m _ _ = _ => assert (m h1 = Ok (OK, h1)) as Hinner end.
  2:{ rewrite (bind_Ok _ _ _ _ _ Hinner). by rewrite (bind_Ok _ _ _ _ _ Hrel). }
  rewrite (bind_Ok _ _ _ _ _ (get_root_ok _ _ _ Htree1)). cbn [root].
  erewrite bind_Ok; cycle 1.
  { eapply (rbt_check_node_ok t fuel h1 _ NULL (Some b) (Some b) (-1) (-1)); try done.
    all: rewrite (cmp_refl f Hf); lia. }
  rewrite bind_assoc.
  match goal with |- bind ?m _ _ = _ => assert (m h1 = Ok (false, h1)) as Hpar end.
  { erewrite andM_Ok by reflexivity. change (status_eqb OK OK) with true. cbv iota.
    destruct t as [|l a c v k r]; [reflexivity|]. destruct Hrep1 as (Hn & _).
    cbn [ptr_of is_null negb]. erewrite andM_Ok by reflexivity. cbv iota.
    by rewrite (bind_Ok _ _ _ _ _ (get_parent_ok _ _ _ Hn)). }
  rewrite (bind_Ok _ _ _ _ _ Hpar). cbv iota. rewrite bind_ret.
  rewrite bind_assoc.
  match goal with |- bind ?m _ _ = _ => assert (m h1 = Ok (false, h1)) as Hroot end.
  { erewrite andM_Ok by reflexivity. change (status_eqb OK OK) with true. cbv iota.
    rewrite (bind_Ok _ _ _ _ _ (node_color_rep _ _ _ _ Hrep1)). by rewrite Hcol. }
  rewrite (bind_Ok _ _ _ _ _ Hroot). cbv iota. rewrite bind_ret.
  erewrite bind_Ok; cycle 1.
  { erewrite andM_Ok by reflexivity. change (status_eqb OK OK) with true. cbv iota.
    by rewrite (bind_Ok _ _ _ _ _ (count_black_nodes_to_leaf_ok _ t fuel h1 NULL n Hrep1 Hbh Hfuel Hmax)). }
  destruct (Z.eqb_spec (Z.of_nat n) (-1)); [lia|]. reflexivity.
Qed.

(** X9. [rbt_check_status] returns OK on every tree that satisfies the
    invariants, under a comparator on boxed integers that is a total
    preorder: the tree is well-formed, its root is BLACK, no RED node has a
    RED child, the black-height is uniform and the keys are in order. The
    heap is left as it was: the boxes the validator makes are released. *)
Theorem rbt_check_status_valid (fuel : nat) (h : heap) (t : ntree) :
  is_tree (Fn_unbox_compare f) tree h t ->
  color_of t = BLACK -> no_red_red t -> is_Some (black_height t) -> bst f t ->
  (height t < fuel)%nat -> Z.of_nat (height t) < INT_MAX ->
  rbt_check_status fuel (Some tree) h = Ok (OK, h).
Proof. apply rbt_check_status_ok. Qed.
End check.

(** The tree holding 5 and 3. *)
Lemma rbt_check_status_valid_witness :
  let h := heap_after (build 10 [Ins 5; Ins 3]) in
  rbt_check_status 3 (Some 1%positive) h = Ok (OK, h).
Proof.
  intros h.
  apply (rbt_check_status_valid int_compare int_compare_preorder 1%positive 3 h
           (T (T Leaf 5%positive RED (Some 4%positive) 3 Leaf)
              3%positive BLACK (Some 2%positive) 5 Leaf)).
  - repeat split; try (vm_compute; reflexivity).
    apply (bool_decide_unpack _). vm_compute. exact I.
  - reflexivity.
  - cbn. intuition discriminate.
  - cbn. eauto.
  - cbn. repeat split; repeat constructor; vm_compute; discriminate.
  - cbn. lia.
  - vm_compute. reflexivity.
Defined.

(** X10. After any sequence of inserts into a new tree, [rbt_check_status]
    returns OK and leaves the heap as it was. *)
Theorem inserts_pass_validation (ks : list Z) (fuel : nat) :
  (2 * length ks + 1 <= fuel)%nat -> Z.of_nat (length ks) < INT_MAX ->
  ∃ tree h,
    build fuel (Ins <$> ks) ∅ = Ok (Some tree, h) ∧
    rbt_check_status fuel (Some tree) h = Ok (OK, h).
Proof.
  intros Hfuel Hmax. unfold build.
  set (h0 := <[1%positive := mk_obj 1 (Some Fn_rbt_free)
                 (Tree (mk_tree NULL (Fn_unbox_compare int_compare)))]> (∅ : heap)).
  assert (rbt_new (Some (Fn_unbox_compare int_compare)) ∅ = Ok (Some 1%positive, h0)) as Hnew
      by (vm_compute; reflexivity).
  destruct (run_inserts_ok int_compare int_compare_preorder 1%positive fuel ks h0 Leaf)
    as (h & t & Hrun & Ht & Hcol & [Hnrr Hbh] & Hbst & Hkeys).
  - split; [by vm_compute|]. split; [done|constructor].
  - done.
  - split; [done|]. cbn. eauto.
  - done.
  - cbn [nodes length]. lia.
  - exists 1%positive, h. split.
    + rewrite (bind_Ok _ _ _ _ _ Hnew). by rewrite (bind_Ok _ _ _ _ _ Hrun).
    + assert (length (nodes t) = length ks) as Hlen.
      { rewrite <- (length_fmap snd), <- keys_nodes. by rewrite Hkeys. }
      pose proof (height_nodes t).
      apply (rbt_check_status_ok int_compare int_compare_preorder 1%positive fuel h t);
        try done; lia.
Qed.

Lemma inserts_pass_validation_witness :
  ∃ tree h,
    build 7 [Ins 3; Ins 1; Ins 2] ∅ = Ok (Some tree, h) ∧
    rbt_check_status 7 (Some tree) h = Ok (OK, h).
Proof.
  apply (inserts_pass_validation [3; 1; 2] 7).
  - cbn. lia.
  - vm_compute. reflexivity.
Defined.


(** ** Releasing a tree *)

Lemma lookup_remove xs (h : heap) x :
  remove xs h !! x = if bool_decide (x ∈ xs) then None else h !! x.
Proof.
  induction xs as [|y xs IH]; [done|]. cbn [remove foldr]. fold (remove xs h).
  destruct (decide (x = y)) as [->|Hne].
  - rewrite lookup_delete_eq. rewrite bool_decide_eq_true_2; [done|]. by left.
  - rewrite lookup_delete_ne by done. rewrite IH.
    case_bool_decide as E1; case_bool_decide as E2; try done.
    + destruct E2. by right.
    + apply elem_of_cons in E2 as [?|?]; done.
Qed.

Lemma cells_T l a c v k r :
  cells (T l a c v k r)
  = cells l ++ a :: match v with Some b => [b] | None => [] end ++ cells r.
Proof. unfold cells. cbn [nodes]. by rewrite flat_map_app. Qed.

Lemma owns_ext h h' t :
  (∀ x, x ∈ cells t -> h' !! x = h !! x) -> owns h t -> owns h' t.
Proof.
  induction t as [|l IHl a c v k r IHr]; [done|]. cbn [owns]. rewrite cells_T.
  intros Hext ([par Ha] & (b & p & -> & Hb) & Hl & Hr).
  split; [|split; [|split]].
  - exists par. rewrite Hext; [done|]. set_solver.
  - exists b, p. split; [done|]. rewrite Hext; [done|]. set_solver.
  - apply IHl; [|done]. intros x Hx. apply Hext. set_solver.
  - apply IHr; [|done]. intros x Hx. apply Hext. set_solver.
Qed.

Lemma release_subtree : ∀ t fuel h,
  owns h t -> NoDup (cells t) -> (height t < fuel)%nat ->
  when (negb (is_null (ptr_of t))) (mem_release fuel (ptr_of t)) h
  = Ok (tt, remove (cells t) h).
Proof.
  induction t as [|l IHl a c v k r IHr]; intros fuel h Hown Hnd Hfuel; [done|].
  cbn [height] in Hfuel. destruct fuel as [|fuel]; [lia|].
  destruct fuel as [|fuel]; [lia|].
  destruct Hown as ([par Ha] & (b & p & -> & Hb) & Hl & Hr).
  rewrite cells_T in Hnd. cbn [app] in Hnd.
  apply NoDup_app in Hnd as (Hndl & Hl1 & Hnd).
  apply NoDup_cons in Hnd as [Ha1 Hnd]. apply NoDup_cons in Hnd as [Hb1 Hndr].
  assert (a ≠ b) as Hab by (intros ->; apply Ha1; by left).
  assert ((a ∉ cells l) ∧ (a ∉ cells r)) as [Hal Har] by set_solver.
  assert ((b ∉ cells l) ∧ (b ∉ cells r)) as [Hbl Hbr] by set_solver.
  assert (∀ x, x ∈ cells l -> x ∉ cells r) as Hlr by set_solver.
  cbn [ptr_of is_null negb when].
  rewrite (mem_release_Some _ _ _ _ Ha); [|cbn; unfold INT_MIN, INT_MAX; lia].
  cbn [refcount p_finalize payload]. rewrite bool_decide_eq_true_2 by lia.
  set (n := mk_node (ptr_of l) (ptr_of r) par c (Some b)).
  set (h1 := <[a := mk_obj (1 - 1) (Some Fn_rbt_node_free) (Node n)]> h).
  assert (node_of h1 a = Some n) as Hn1 by (unfold node_of, h1; by rewrite lookup_insert_eq).
  cbn [call_destructor]. unfold rbt_node_free. cbn [is_null].
  rewrite !bind_assoc.
  rewrite (bind_Ok _ _ _ _ _ (get_contents_ok _ _ _ Hn1)). cbn [contents n].
  assert (h1 !! b = Some (mk_obj 1 None p)) as Hb1'.
  { unfold h1. by rewrite lookup_insert_ne. }
  rewrite !bind_assoc.
  rewrite (bind_Ok _ _ _ _ _ (mem_release_last fuel b _ h1 Hb1' eq_refl ltac:(cbn; unfold INT_MIN; lia))).
  set (h2 := delete b h1).
  assert (node_of h2 a = Some n) as Hn2.
  { unfold node_of, h2. rewrite lookup_delete_ne by done. exact Hn1. }
  rewrite !bind_assoc.
  rewrite (bind_Ok _ _ _ _ _ (get_left_ok _ _ _ Hn2)). cbn [left n].
  rewrite !bind_assoc.
  assert (owns h2 l) as Hl2.
  { eapply owns_ext; [|exact Hl]. intros x Hx. unfold h2, h1.
    rewrite lookup_delete_ne, lookup_insert_ne; [done|..]; intros ->; done. }
  rewrite (bind_Ok _ _ _ _ _ (IHl (S fuel) h2 Hl2 Hndl ltac:(lia))).
  set (h3 := remove (cells l) h2).
  assert (node_of h3 a = Some n) as Hn3.
  { unfold node_of, h3. rewrite lookup_remove. rewrite bool_decide_eq_false_2 by done. exact Hn2. }
  rewrite !bind_assoc.
  rewrite (bind_Ok _ _ _ _ _ (get_right_ok _ _ _ Hn3)). cbn [right n].
  assert (owns h3 r) as Hr3.
  { eapply owns_ext; [|exact Hr]. intros x Hx. unfold h3, h2, h1.
    rewrite lookup_remove, bool_decide_eq_false_2 by (intros ?; by eapply Hlr).
    rewrite lookup_delete_ne, lookup_insert_ne; [done|..]; intros ->; done. }
  rewrite (bind_Ok _ _ _ _ _ (IHr (S fuel) h3 Hr3 Hndr ltac:(lia))).
  set (h4 := remove (cells r) h3).
  assert (is_Some (h4 !! a)) as [o4 Ho4].
  { unfold h4. rewrite lookup_remove, bool_decide_eq_false_2 by done.
    apply node_of_Some in Hn3 as (o & -> & _). eauto. }
  rewrite (free_Some _ _ _ Ho4). f_equal. f_equal.
  apply map_eq. intros x. rewrite cells_T. cbn [app].
  unfold h4, h3, h2, h1. rewrite !lookup_remove.
  destruct (decide (x = a)) as [->|Hxa].
  { rewrite lookup_delete_eq, bool_decide_eq_true_2; [done|set_solver]. }
  rewrite lookup_delete_ne, !lookup_remove by done.
  destruct (decide (x = b)) as [->|Hxb].
  { rewrite lookup_delete_eq. rewrite (bool_decide_eq_true_2 (b ∈ _ ++ _)) by set_solver.
    by repeat case_bool_decide. }
  rewrite lookup_delete_ne, lookup_insert_ne by done.
  repeat case_bool_decide; try done; set_solver.
Qed.

Lemma rep_owns cmp h par t : rep cmp h par t -> owned h t -> owns h t.
Proof.
  revert par. induction t as [|l IHl a c v k r IHr]; intros par; [done|].
  intros (Hn & _ & Hl & Hr). unfold owned. cbn [nodes].
  intros [Ol [[Ha Hv] Or]%Forall_cons]%Forall_app.
  cbn [owns]. split; [|split; [|split; [by eapply IHl|by eapply IHr]]].
  - exists par. destruct Ha as (o & Ho & Hrc & Hfin). cbn in Ho.
    apply node_of_Some in Hn as (o' & Ho' & Hp). rewrite Ho in Ho'. injection Ho' as <-.
    rewrite Ho. destruct o. cbn in *. by subst.
  - destruct Hv as (b & o & Hb & Ho & Hrc & Hfin). cbn in Hb. subst v.
    exists b, (payload o). split; [done|]. rewrite Ho. destruct o. cbn in *. by subst.
Qed.

Section release.
Context (cmp : comparator_t) (tree : addr).

Lemma release_tree_ok (fuel : nat) (h : heap) (t : ntree) :
  is_tree cmp tree h t -> owned h t ->
  (∃ o, h !! tree = Some o ∧ refcount o = 1 ∧ p_finalize o = Some Fn_rbt_free) ->
  NoDup (tree :: cells t) ->
  (height t + 1 < fuel)%nat ->
  mem_release fuel (Some tree) h = Ok (tt, remove (tree :: cells t) h).
Proof.
  intros (Htree & Hrep & _) Hown (o & Ho & Hrc & Hfin) Hnd Hfuel.
  destruct fuel as [|fuel]; [lia|].
  apply NoDup_cons in Hnd as [Htc Hnd].
  rewrite (mem_release_Some _ _ _ _ Ho); [|rewrite Hrc; unfold INT_MIN, INT_MAX; lia].
  rewrite Hrc, Hfin. rewrite bool_decide_eq_true_2 by lia.
  set (h1 := <[tree := _]> h).
  assert (tree_of h1 tree = Some (mk_tree (ptr_of t) cmp)) as Htree1.
  { unfold tree_of, h1. rewrite lookup_insert_eq. cbn.
    unfold tree_of in Htree. rewrite Ho in Htree. by destruct (payload o). }
  cbn [call_destructor]. unfold rbt_free. cbn [is_null].
  rewrite !bind_assoc. rewrite (bind_Ok _ _ _ _ _ (get_root_ok _ _ _ Htree1)). cbn [root].
  assert (owns h1 t) as Hown1.
  { eapply owns_ext; [|by eapply rep_owns]. intros x Hx. unfold h1.
    rewrite lookup_insert_ne; [done|]. by intros ->. }
  pose proof (release_subtree t fuel h1 Hown1 Hnd ltac:(lia)) as Hrel.
  assert ((if is_null (ptr_of t) then ret tt else mem_release fuel (ptr_of t)) h1
          = Ok (tt, remove (cells t) h1)) as Hrel'.
  { destruct t; [done|exact Hrel]. }
  rewrite (bind_Ok _ _ _ _ _ Hrel').
  assert (is_Some (remove (cells t) h1 !! tree)) as [o1 Ho1].
  { rewrite lookup_remove, bool_decide_eq_false_2 by done. unfold h1.
    rewrite lookup_insert_eq. eauto. }
  rewrite (free_Some _ _ _ Ho1). do 2 f_equal.
  apply map_eq. intros x. cbn [remove foldr]. fold (remove (cells t) h).
  destruct (decide (x = tree)) as [->|Hx]; [by rewrite !lookup_delete_eq|].
  rewrite !lookup_delete_ne, !lookup_remove by done. unfold h1.
  by rewrite lookup_insert_ne.
Qed.

(** X11. Releasing the last reference to a tree that holds the one reference
    to each of its nodes and of their contents, all distinct, ends normally
    and frees the tree object, every node and every contents object;
    every other object is as it was. *)
Theorem mem_release_tree (fuel : nat) (h : heap) (t : ntree) :
  is_tree cmp tree h t -> owned h t ->
  (∃ o, h !! tree = Some o ∧ refcount o = 1 ∧ p_finalize o = Some Fn_rbt_free) ->
  NoDup (tree :: cells t) ->
  (height t + 1 < fuel)%nat ->
  mem_release fuel (Some tree) h = Ok (tt, remove (tree :: cells t) h) ∧
  ∀ x, remove (tree :: cells t) h !! x
       = if bool_decide (x ∈ tree :: cells t) then None else h !! x.
Proof.
  intros. split; [by apply release_tree_ok|]. intros x. apply lookup_remove.
Qed.
End release.

(** The tree holding 5 and 3, released: the heap is empty. *)
Lemma mem_release_tree_witness :
  let h := heap_after (build 10 [Ins 5; Ins 3]) in
  mem_release 4 (Some 1%positive) h = Ok (tt, ∅).
Proof.
  intros h.
  destruct (mem_release_tree (Fn_unbox_compare int_compare) 1%positive 4 h
              (T (T Leaf 5%positive RED (Some 4%positive) 3 Leaf)
                 3%positive BLACK (Some 2%positive) 5 Leaf))
    as [Hrun _].
  - repeat split; try (vm_compute; reflexivity).
    apply (bool_decide_unpack _). vm_compute. exact I.
  - repeat constructor; cbn; eexists; try eexists; repeat split; vm_compute; reflexivity.
  - eexists. repeat split; vm_compute; reflexivity.
  - apply (bool_decide_unpack _). vm_compute. exact I.
  - cbn. lia.
  - etrans; [exact Hrun|]. vm_compute. reflexivity.
Defined.


Lemma fields_only_header h h' x o :
  fields_only h h' -> h !! x = Some o ->
  ∃ o', h' !! x = Some o' ∧ refcount o' = refcount o ∧ p_finalize o' = p_finalize o.
Proof.
  intros H Hx. specialize (H x). rewrite Hx in H.
  destruct (h' !! x) as [o'|]; [|done]. exists o'. tauto.
Qed.

Lemma fields_only_live h h' x : fields_only h h' -> is_Some (h' !! x) -> is_Some (h !! x).
Proof.
  intros H [o' Hx]. specialize (H x). rewrite Hx in H.
  destruct (h !! x); [eauto|done].
Qed.

Lemma owned_live h t x : owned h t -> x ∈ cells t -> is_Some (h !! x).
Proof.
  unfold owned, cells. intros Hown (y & Hy & Hx)%list_elem_of_In%in_flat_map.
  apply list_elem_of_In in Hy, Hx. rewrite Forall_forall in Hown.
  destruct (Hown _ Hy) as ((o & Ho & _) & (b & o' & Hb & Ho' & _)).
  unfold node_cells in Hx. rewrite Hb in Hx.
  apply elem_of_cons in Hx as [->|Hx]; [eauto|].
  apply list_elem_of_singleton in Hx as ->. eauto.
Qed.

Section owned_inserts.
Context (f : Z -> Z -> Z) (tree : addr).

Lemma run_inserts_owned fuel : ∀ ks h t,
  sole_owner (Fn_unbox_compare f) tree h t -> color_of t = BLACK ->
  (2 * (length (nodes t) + length ks) + 1 <= fuel)%nat ->
  ∃ h' t', run_ops fuel (Some tree) (Ins <$> ks) h = Ok (tt, h') ∧
           sole_owner (Fn_unbox_compare f) tree h' t' ∧ color_of t' = BLACK ∧
           length (nodes t') = (length (nodes t) + length ks)%nat.
Proof.
  induction ks as [|k ks IH]; intros h t Hso Hcol Hfuel.
  { exists h, t. cbn [length]. rewrite Nat.add_0_r. done. }
  destruct Hso as (Ht & Hown & (ot & Hot & Hrc & Hfin) & Hnd & Hdom).
  cbn [fmap list_fmap run_ops run_op].
  destruct (mem_box_fresh k h) as (b & Hb & Hbox).
  set (h1 := <[b := mk_obj 1 None (Box k)]> h) in *.
  assert (is_tree (Fn_unbox_compare f) tree h1 t) as Ht1 by (by apply is_tree_alloc).
  assert (key_of (Fn_unbox_compare f) h1 (Some b) = Some k) as Hk.
  { unfold key_of, box_of, h1. by rewrite lookup_insert_eq. }
  pose proof (height_nodes t) as Hh.
  destruct (rbt_insert_split (Fn_unbox_compare f) tree fuel h1 t (Some b) k Ht1 Hcol Hk)
    as (n & h2 & t2 & before & after & Hn & Hrun & Ht2 & Hcol2 & Hold & Hnew & Hfo & _).
  { cbn [length] in Hfuel. lia. }
  set (h1' := <[n := new_node_obj (Some b)]> h1) in *.
  assert (n ≠ b) as Hnb by (intros ->; unfold h1 in Hn; by rewrite lookup_insert_eq in Hn).
  assert (h !! n = None) as Hn0 by (unfold h1 in Hn; by rewrite lookup_insert_ne in Hn).
  assert (∀ x o, h !! x = Some o ->
            ∃ o', h2 !! x = Some o' ∧ refcount o' = refcount o ∧ p_finalize o' = p_finalize o)
    as Hkeep.
  { intros x o Hx. eapply fields_only_header; [exact Hfo|]. unfold h1', h1.
    rewrite !lookup_insert_ne; [done|..]; intros ->; congruence. }
  assert (cells t2 ≡ₚ n :: b :: cells t) as Hcells.
  { unfold cells. rewrite Hnew, Hold, !flat_map_app. cbn [flat_map node_cells fst snd app].
    solve_Permutation. }
  edestruct (IH h2 t2) as (h' & t' & Hrun' & Hso' & Hcol' & Hlen'); [|exact Hcol2| |].
  - split; [done|]. split; [|split; [|split]].
    + unfold owned. rewrite Hnew. apply Forall_app. unfold owned in Hown.
      rewrite Hold in Hown. apply Forall_app in Hown as [HB HA].
      assert (∀ l, Forall (node_owned h) l -> Forall (node_owned h2) l) as Hmono.
      { intros l Hl0. eapply Forall_impl; [exact Hl0|].
        intros x ((o & Ho & ? & ?) & (vb & o' & ? & Ho' & ? & ?)).
        destruct (Hkeep _ _ Ho) as (o2 & ? & ? & ?).
        destruct (Hkeep _ _ Ho') as (o2' & ? & ? & ?).
        split; [exists o2|exists vb, o2']; repeat split; congruence. }
      split; [by apply Hmono|]. apply Forall_cons. split; [|by apply Hmono].
      cbn [fst snd]. split.
      * destruct (fields_only_header _ _ n _ Hfo (lookup_insert_eq _ _ _)) as (o2 & ? & ? & ?).
        exists o2. done.
      * assert (h1' !! b = Some (mk_obj 1 None (Box k))) as Hb1.
        { unfold h1', h1. rewrite lookup_insert_ne by done. apply lookup_insert_eq. }
        destruct (fields_only_header _ _ b _ Hfo Hb1) as (o2 & ? & ? & ?).
        exists b, o2. done.
    + destruct (Hkeep _ _ Hot) as (o2 & ? & ? & ?). exists o2. repeat split; congruence.
    + rewrite Hcells.
      assert (∀ x, x ∈ tree :: cells t -> is_Some (h !! x)) as Hlive.
      { intros x [->|Hx]%elem_of_cons; [eauto|by eapply owned_live]. }
      apply NoDup_cons in Hnd as [Htc Hndc].
      assert (n ∉ tree :: cells t) as Hn1.
      { intros [o Ho]%Hlive. congruence. }
      assert (b ∉ tree :: cells t) as Hb1.
      { intros [o Ho]%Hlive. congruence. }
      apply NoDup_cons. split; [set_solver|].
      apply NoDup_cons. split; [set_solver|].
      apply NoDup_cons. split; [set_solver|done].
    + intros x Hx. rewrite Hcells.
      apply (fields_only_live _ _ _ Hfo) in Hx. unfold h1', h1 in Hx.
      destruct (decide (x = n)) as [->|]; [set_solver|].
      destruct (decide (x = b)) as [->|]; [set_solver|].
      rewrite !lookup_insert_ne in Hx by done. apply Hdom in Hx. set_solver.
  - rewrite Hnew, length_app. cbn [length] in *. rewrite Hold, length_app in Hfuel. lia.
  - exists h', t'. split; [|split; [done|split; [done|]]].
    + unfold bind at 1. rewrite (bind_Ok _ _ _ _ _ Hbox).
      rewrite (bind_Ok _ _ _ _ _ Hrun). exact Hrun'.
    + rewrite Hlen', Hnew, Hold, !length_app. cbn [length]. lia.
Qed.
End owned_inserts.

(** X12. No leak: a tree made by [rbt_new], filled by any sequence of
    inserts of boxed keys and then released leaves the heap empty. *)
Theorem build_release_leaves_nothing (ks : list Z) (fuel : nat) :
  (2 * length ks + 2 <= fuel)%nat ->
  (let* tree := build fuel (Ins <$> ks) in mem_release fuel tree) ∅ = Ok (tt, ∅).
Proof.
  intros Hfuel. unfold build.
  set (h0 := <[1%positive := mk_obj 1 (Some Fn_rbt_free)
                 (Tree (mk_tree NULL (Fn_unbox_compare int_compare)))]> (∅ : heap)).
  assert (rbt_new (Some (Fn_unbox_compare int_compare)) ∅ = Ok (Some 1%positive, h0)) as Hnew
      by (vm_compute; reflexivity).
  destruct (run_inserts_owned int_compare 1%positive fuel ks h0 Leaf)
    as (h & t & Hrun & (Ht & Hown & Hhdr & Hnd & Hdom) & Hcol & Hlen).
  - split; [|split; [|split; [|split]]].
    + split; [by vm_compute|]. split; [done|constructor].
    + constructor.
    + eexists. split; [apply lookup_insert_eq|]. done.
    + cbn. apply NoDup_singleton.
    + intros x [o Hx]. unfold h0 in Hx.
      destruct (decide (x = 1%positive)) as [->|]; [by left|].
      by rewrite lookup_insert_ne, lookup_empty in Hx.
  - done.
  - cbn [nodes length]. lia.
  - rewrite !bind_assoc. rewrite (bind_Ok _ _ _ _ _ Hnew). rewrite !bind_assoc.
    rewrite (bind_Ok _ _ _ _ _ Hrun). rewrite bind_ret.
    pose proof (height_nodes t). cbn [nodes length] in Hlen.
    etrans; [apply (release_tree_ok _ _ fuel h t Ht Hown Hhdr Hnd); lia|].
    do 2 f_equal. apply map_eq. intros x. rewrite lookup_remove, lookup_empty.
    case_bool_decide as E; [done|].
    destruct (h !! x) eqn:Hx; [|done]. destruct E. apply Hdom. eauto.
Qed.

Lemma build_release_leaves_nothing_witness :
  (let* tree := build 8 [Ins 3; Ins 1; Ins 2] in mem_release 8 tree) ∅ = Ok (tt, ∅).
Proof. apply (build_release_leaves_nothing [3; 1; 2] 8). cbn. lia. Defined.

(** ** Deleting a node with at most one child *)

Lemma header_of_upd a x (h : heap) y : header_of (upd a x h) y = header_of h y.
Proof.
  unfold header_of at 1. destruct (decide (y = a)) as [->|Hne].
  - unfold upd. rewrite lookup_insert_eq. cbn. by destruct (header_of h a).
  - by rewrite lookup_upd_ne.
Qed.

Lemma lookup_upd_same a x (h : heap) :
  upd a x h !! a = Some (mk_obj (header_of h a).1 (header_of h a).2 x).
Proof. unfold upd. apply lookup_insert_eq. Qed.

(** Releasing the last reference to a node without children: the node goes,
    and with it its contents. *)
Lemma release_cleared_node fuel n nn b p (g : heap) :
  g !! n = Some (mk_obj 1 (Some Fn_rbt_node_free) (Node nn)) ->
  left nn = NULL -> right nn = NULL -> contents nn = Some b ->
  g !! b = Some (mk_obj 1 None p) -> n ≠ b ->
  mem_release (S (S fuel)) (Some n) g = Ok (tt, delete n (delete b g)).
Proof.
  intros Hn Hl Hr Hc Hb Hnb.
  rewrite (mem_release_Some _ _ _ _ Hn); [|cbn; unfold INT_MIN, INT_MAX; lia].
  cbn [refcount p_finalize payload]. rewrite bool_decide_eq_true_2 by lia.
  set (h4 := <[n := _]> g).
  assert (node_of h4 n = Some nn) as Hn4 by (unfold node_of, h4; by rewrite lookup_insert_eq).
  cbn [call_destructor]. unfold rbt_node_free. cbn [is_null]. rewrite !bind_assoc.
  rewrite (bind_Ok _ _ _ _ _ (get_contents_ok _ _ _ Hn4)). rewrite Hc.
  assert (h4 !! b = Some (mk_obj 1 None p)) as Hb4.
  { unfold h4. by rewrite lookup_insert_ne. }
  rewrite !bind_assoc.
  rewrite (bind_Ok _ _ _ _ _ (mem_release_last fuel b _ h4 Hb4 eq_refl ltac:(cbn; unfold INT_MIN; lia))).
  set (h5 := delete b h4).
  assert (node_of h5 n = Some nn) as Hn5.
  { unfold node_of, h5. rewrite lookup_delete_ne by done. exact Hn4. }
  rewrite !bind_assoc.
  rewrite (bind_Ok _ _ _ _ _ (get_left_ok _ _ _ Hn5)). rewrite Hl. cbn [is_null negb when].
  rewrite !bind_assoc, bind_ret, !bind_assoc.
  rewrite (bind_Ok _ _ _ _ _ (get_right_ok _ _ _ Hn5)). rewrite Hr. cbn [is_null negb when].
  rewrite bind_ret.
  apply node_of_Some in Hn5 as (o5 & Ho5 & _).
  rewrite (free_Some _ _ _ Ho5). do 2 f_equal. apply map_eq. intros x.
  destruct (decide (x = n)) as [->|Hxn]; [by rewrite !lookup_delete_eq|].
  rewrite !(lookup_delete_ne _ n) by done. unfold h5.
  destruct (decide (x = b)) as [->|Hxb]; [by rewrite !lookup_delete_eq|].
  rewrite !lookup_delete_ne by done. unfold h4. by rewrite lookup_insert_ne.
Qed.

Lemma delete_upd a x (h : heap) : delete a (upd a x h) = delete a h.
Proof. unfold upd. apply delete_insert_eq. Qed.

Lemma delete_upd_ne a b x (h : heap) : a ≠ b -> delete a (upd b x h) = upd b x (delete a h).
Proof.
  intros Hab. unfold upd. rewrite delete_insert_ne by done.
  unfold header_of. by rewrite lookup_delete_ne.
Qed.

Section local.
Context (cmp : comparator_t).

(** [rep] reads the nodes of the tree and the keys of their contents, and
    nothing else. *)
Lemma rep_local h h' par t :
  (∀ a, a ∈ addrs t -> node_of h' a = node_of h a) ->
  (∀ x, x ∈ nodes t -> key_of cmp h' x.1.2 = key_of cmp h x.1.2) ->
  rep cmp h par t -> rep cmp h' par t.
Proof.
  revert par. induction t as [|l IHl a c v k r IHr]; intros par Hn Hk; [done|].
  cbn [rep addrs nodes] in *. intros (Ha & Hv & Hl & Hr).
  split; [|split; [|split]].
  - rewrite Hn; [done|]. set_solver.
  - specialize (Hk (a, v, k)). cbn [fst snd] in Hk. rewrite Hk; [done|]. set_solver.
  - apply IHl; [| |done]; intros; [apply Hn|apply Hk]; set_solver.
  - apply IHr; [| |done]; intros; [apply Hn|apply Hk]; set_solver.
Qed.

Lemma key_of_delete h x v :
  v ≠ Some x -> key_of cmp (delete x h) v = key_of cmp h v.
Proof.
  intros Hv. unfold key_of. destruct cmp; [done|]. unfold box_of.
  destruct v as [a|]; [|done]. rewrite lookup_delete_ne; [done|]. congruence.
Qed.

Lemma node_of_delete h x a : a ≠ x -> node_of (delete x h) a = node_of h a.
Proof. intros H. unfold node_of. by rewrite lookup_delete_ne. Qed.

Lemma is_tree_delete tree h t n b :
  is_tree cmp tree h t ->
  n ≠ tree -> b ≠ tree -> n ∉ addrs t -> b ∉ addrs t ->
  (∀ x, x ∈ nodes t -> x.1.2 ≠ Some n ∧ x.1.2 ≠ Some b) ->
  is_tree cmp tree (delete n (delete b h)) t.
Proof.
  intros (Htree & Hrep & Hnd) Hnt Hbt Hn Hb Hc. split; [|split; [|done]].
  - unfold tree_of in *. by rewrite !lookup_delete_ne.
  - eapply rep_local; [| |exact Hrep].
    + intros a Ha. rewrite !node_of_delete; [done|..]; intros ->; done.
    + intros x Hx. destruct (Hc _ Hx). by rewrite !key_of_delete.
Qed.
End local.

Lemma flat_map_submseteq {A B} (f : A -> list B) l k :
  l ⊆+ k -> flat_map f l ⊆+ flat_map f k.
Proof.
  induction 1 as [|x l1 l2 _ IH|x y l|x l1 l2 _ IH|l1 l2 l3 _ IH1 _ IH2]; cbn [flat_map].
  - done.
  - by apply submseteq_app.
  - rewrite !app_assoc. apply submseteq_app; [|done].
    apply Permutation_submseteq, Permutation_app_comm.
  - etrans; [exact IH|]. apply submseteq_inserts_l. done.
  - by etrans.
Qed.

Lemma addr_in_cells t a : a ∈ addrs t -> a ∈ cells t.
Proof.
  rewrite addrs_nodes. intros (y & -> & (x & -> & Hx)%list_elem_of_fmap)%list_elem_of_fmap.
  unfold cells. apply list_elem_of_In, in_flat_map. exists x.
  split; [by apply list_elem_of_In|]. by left.
Qed.

Lemma contents_in_cells t x b : x ∈ nodes t -> x.1.2 = Some b -> b ∈ cells t.
Proof.
  intros Hx Hb. unfold cells. apply list_elem_of_In, in_flat_map. exists x.
  split; [by apply list_elem_of_In|]. unfold node_cells. rewrite Hb. right. by left.
Qed.

(** What sets the doomed node and its contents apart from the tree that is
    left. *)
Lemma doomed_apart tree T0 T1 n b k :
  NoDup (tree :: cells T0) -> (n, Some b, k) :: nodes T1 ⊆+ nodes T0 ->
  n ≠ tree ∧ b ≠ tree ∧ n ≠ b ∧ (n ∉ addrs T1) ∧ (b ∉ addrs T1) ∧
  (∀ x, x ∈ nodes T1 -> x.1.2 ≠ Some n ∧ x.1.2 ≠ Some b).
Proof.
  intros Hnd Hsub.
  apply (flat_map_submseteq node_cells) in Hsub. cbn [flat_map node_cells fst snd app] in Hsub.
  fold (cells T1) in Hsub. fold (cells T0) in Hsub.
  apply NoDup_cons in Hnd as [Ht Hnd].
  pose proof (NoDup_submseteq_inv _ _ Hnd Hsub) as Hnd1.
  apply NoDup_cons in Hnd1 as [Hn Hnd1]. apply NoDup_cons in Hnd1 as [Hb Hnd1].
  assert ((n ∈ cells T0) ∧ (b ∈ cells T0)) as [HnT HbT].
  { split; eapply elem_of_submseteq; try exact Hsub; set_solver. }
  split; [by intros ->|]. split; [by intros ->|]. split; [set_solver|].
  split; [intros ?%addr_in_cells; set_solver|].
  split; [intros ?%addr_in_cells; set_solver|].
  intros x Hx. split; intros Hc; eapply contents_in_cells in Hc; try exact Hx; set_solver.
Qed.

Lemma fields_only_delete h h' x : fields_only h h' -> fields_only (delete x h) (delete x h').
Proof.
  intros H y. destruct (decide (y = x)) as [->|]; [by rewrite !lookup_delete_eq|].
  rewrite !lookup_delete_ne by done. apply H.
Qed.

Lemma upd_upd a x y (h : heap) : upd a x (upd a y h) = upd a x h.
Proof. unfold upd at 1. rewrite header_of_upd. unfold upd. by rewrite insert_insert_eq. Qed.

Lemma finish_delete fuel n b nn ob (g h2 : heap) :
  node_of g n = Some nn -> left nn = NULL -> right nn = NULL -> contents nn = Some b ->
  header_of g n = (1, Some Fn_rbt_node_free) ->
  g !! b = Some ob -> refcount ob = 1 -> p_finalize ob = None -> n ≠ b ->
  (∀ x, x ≠ n -> g !! x = h2 !! x) ->
  mem_release (S (S fuel)) (Some n) g = Ok (tt, delete n (delete b h2)).
Proof.
  intros Hn Hl Hr Hc Hhdr Hb Hrc Hfin Hnb Hsame.
  apply node_of_Some in Hn as (o & Ho & Hp).
  unfold header_of in Hhdr. rewrite Ho in Hhdr. injection Hhdr as Hrc' Hfin'.
  erewrite (release_cleared_node fuel n nn b (payload ob)); try done.
  - do 2 f_equal. apply map_eq. intros x.
    destruct (decide (x = n)) as [->|Hxn]; [by rewrite !lookup_delete_eq|].
    rewrite !(lookup_delete_ne _ n) by done.
    destruct (decide (x = b)) as [->|Hxb]; [by rewrite !lookup_delete_eq|].
    rewrite !lookup_delete_ne by done. by apply Hsame.
  - rewrite Ho. destruct o. cbn in *. by subst.
  - rewrite Hb. destruct ob. cbn in *. by subst.
Qed.

Section delete_leaf.
Context (cmp : comparator_t) (tree : addr).

Lemma unlink_ok h C t :
  is_tree cmp tree h (plug C t) ->
  is_tree cmp tree (set_hole cmp tree C NULL h) (plug C Leaf).
Proof.
  intros (HC & _ & Hnd)%is_tree_plug. apply NoDup_app in Hnd as (_ & _ & Hnd).
  apply is_tree_plug. split; [by eapply rep_ctx_set_hole|]. done.
Qed.

Lemma delete_red_left_leaf_ok fuel h C p pc pv pk s n b k :
  is_tree cmp tree h (plug (Frame LEFT p pc pv pk s :: C) (T Leaf n RED (Some b) k Leaf)) ->
  node_owned h (n, Some b, k) ->
  NoDup (tree :: cells (plug (Frame LEFT p pc pv pk s :: C) (T Leaf n RED (Some b) k Leaf))) ->
  (1 <= fuel)%nat ->
  ∃ h', rbt_delete_node (S fuel) (Some tree) (Some n) h = Ok (tt, h') ∧
        is_tree cmp tree h' (plug (Frame LEFT p pc pv pk s :: C) Leaf) ∧
        h' !! n = None ∧ h' !! b = None ∧
        fields_only (delete n (delete b h)) h'.
Proof.
  intros Ht Hown Hnd Hfuel.
  set (F := Frame LEFT p pc pv pk s) in *.
  destruct (doomed_apart tree _ (plug (F :: C) Leaf) n b k Hnd)
    as (Hnt & Hbt & Hnb & Hn1 & Hb1 & Hc1).
  { rewrite !nodes_plug_split. cbn [nodes app]. solve_submseteq. }
  pose proof (unlink_ok _ _ _ Ht) as Ht2.
  pose proof Ht as (HC & Hrep & Hnd')%is_tree_plug.
  destruct Hrep as (Hn & Hk & _). cbn [ptr_of ctx_parent f_addr F] in Hn.
  pose proof (fields_only_set_hole cmp tree h (F :: C) _ NULL HC) as Hfo.
  destruct HC as ((Hp & Hpk & Hs) & HC). cbn [frame_node F f_side f_sib f_color f_contents f_addr ptr_of] in Hp.
  cbn [addrs app ctx_addrs flat_map f_addr f_sib F] in Hnd'. fold (ctx_addrs C) in Hnd'.
  assert (p ≠ n) as Hpn by (by_nodup Hnd').
  assert (ptr_of s ≠ Some n) as Hsn by (apply ptr_of_ne; by_nodup Hnd').
  destruct Hown as ((o & Ho & Hrc & Hfin) & (b' & ob & [= <-] & Hob & Hrcb & Hfinb)).
  cbn [fst snd] in Ho.
  assert (p ≠ b) as Hpb.
  { intros ->. apply Hb1. rewrite addrs_plug. cbn [addrs app ctx_addrs flat_map f_addr F]. by left. }
  set (h2 := set_hole cmp tree (F :: C) NULL h) in *.
  exists (delete n (delete b h2)).
  split; [|split; [|split; [|split]]].
  - cbn [rbt_delete_node]. mrun. cbn [andb]. mrun.
    destruct fuel as [|fuel]; [lia|].
    match goal with |- mem_release _ _ ?g = _ =>
      eapply (finish_delete fuel n b _ ob g h2) end;
      [apply node_of_upd_eq|done|done|done| | |done|done|done|].
    + rewrite !header_of_upd. unfold header_of. by rewrite Ho, Hrc, Hfin.
    + by rewrite !lookup_upd_ne.
    + intros x Hx. rewrite !(lookup_upd_ne n) by done.
      by rewrite upd_upd.
  - by apply is_tree_delete.
  - apply lookup_delete_eq.
  - rewrite lookup_delete_ne by done. apply lookup_delete_eq.
  - by do 2 apply fields_only_delete.
Qed.
End delete_leaf.

Section delete_cases.
Context (cmp : comparator_t) (tree : addr).

(** The relinking at the end of [rbt_delete_node], which asks whether the
    node is the right child of its parent. *)
Lemma set_hole_ok_right h C a new :
  rep_ctx cmp tree h C (Some a) -> a ∉ ctx_addrs C ->
  (if is_null (ctx_parent C) then set_root (Some tree) new
   else
     let* pr := get_right (ctx_parent C) in
     if ptr_eqb (Some a) pr then set_right (ctx_parent C) new
     else set_left (ctx_parent C) new) h
  = Ok (tt, set_hole cmp tree C new h).
Proof.
  destruct C as [|F C]; cbn [rep_ctx ctx_parent is_null set_hole].
  - intros Ht _. by rewrite (set_root_ok _ _ _ _ Ht).
  - intros ((HF & _ & Hsib) & _) Ha.
    rewrite (bind_Ok _ _ _ _ _ (get_right_ok _ _ _ HF)).
    unfold frame_node in *. destruct (f_side F); cbn [right].
    + unfold ptr_eqb. rewrite bool_decide_eq_false_2.
      { by rewrite (set_left_ok _ _ _ _ HF). }
      intros E. apply Ha. cbn [ctx_addrs flat_map].
      destruct (f_sib F); [done|]. injection E as ->. cbn [addrs]. set_solver.
    + unfold ptr_eqb. rewrite bool_decide_eq_true_2 by done.
      by rewrite (set_right_ok _ _ _ _ HF).
Qed.

Lemma header_of_set_hole C new (h : heap) y :
  header_of (set_hole cmp tree C new h) y = header_of h y.
Proof. destruct C; apply header_of_upd. Qed.

Lemma lookup_set_hole_ne C new (h : heap) x :
  x ≠ tree -> x ∉ ctx_addrs C -> set_hole cmp tree C new h !! x = h !! x.
Proof.
  intros Hx HC. destruct C as [|F C]; cbn [set_hole].
  - by rewrite lookup_upd_ne.
  - rewrite lookup_upd_ne; [done|]. intros <-. apply HC. cbn [ctx_addrs flat_map]. by left.
Qed.

Lemma delete_red_right_leaf_ok fuel h C p pc pv pk s n b k :
  is_tree cmp tree h (plug (Frame RIGHT p pc pv pk s :: C) (T Leaf n RED (Some b) k Leaf)) ->
  node_owned h (n, Some b, k) ->
  NoDup (tree :: cells (plug (Frame RIGHT p pc pv pk s :: C) (T Leaf n RED (Some b) k Leaf))) ->
  (1 <= fuel)%nat ->
  ∃ h', rbt_delete_node (S fuel) (Some tree) (Some n) h = Ok (tt, h') ∧
        is_tree cmp tree h' (plug C (T Leaf p pc pv pk Leaf)) ∧
        h' !! n = None ∧ h' !! b = None ∧
        fields_only (delete n (delete b h)) h' ∧
        (∀ x, x ∈ addrs s -> is_node h' x).
Proof.
  intros Ht Hown Hnd Hfuel.
  set (F := Frame RIGHT p pc pv pk s) in *.
  destruct (doomed_apart tree _ (plug C (T Leaf p pc pv pk Leaf)) n b k Hnd)
    as (Hnt & Hbt & Hnb & Hn1 & Hb1 & Hc1).
  { rewrite !nodes_plug_split. cbn [nodes app ctx_before ctx_after F f_side f_sib f_addr f_contents f_key].
    solve_submseteq. }
  pose proof Ht as (HC & Hrep & Hnd')%is_tree_plug.
  destruct Hrep as (Hn & Hk & _). cbn [ptr_of ctx_parent f_addr F] in Hn.
  destruct HC as ((Hp & Hpk & Hs) & HC).
  cbn [frame_node F f_side f_sib f_color f_contents f_addr f_key ptr_of] in Hp, Hpk, Hs, HC.
  cbn [addrs app ctx_addrs flat_map f_addr f_sib F] in Hnd'. fold (ctx_addrs C) in Hnd'.
  assert (p ≠ n) as Hpn by (by_nodup Hnd').
  assert (ptr_of s ≠ Some n) as Hsn by (apply ptr_of_ne; by_nodup Hnd').
  assert (p ∉ ctx_addrs C) as HpC by (by_nodup Hnd').
  assert (is_node h p) as Hpnode by (unfold is_node; eauto).
  destruct Hown as ((o & Ho & Hrc & Hfin) & (b' & ob & [= <-] & Hob & Hrcb & Hfinb)).
  cbn [fst snd] in Ho.
  assert (p ≠ b) as Hpb.
  { intros ->. apply Hb1. rewrite addrs_plug. cbn [addrs app]. by left. }
  set (h2 := upd p (Node (mk_node NULL NULL (ctx_parent C) pc pv)) h).
  assert (fields_only h h2) as Hfo by (by apply fields_only_upd_node).
  assert (is_tree cmp tree h2 (plug C (T Leaf p pc pv pk Leaf))) as Ht2.
  { apply is_tree_plug. split; [|split].
    - by apply rep_ctx_upd_node.
    - cbn [rep ptr_of]. split; [apply node_of_upd_eq|]. split; [|done].
      by apply keys_kept_upd_node.
    - cbn [addrs app]. by_nodup Hnd'. }
  exists (delete n (delete b h2)).
  split; [|split; [|split; [|split; [|split]]]].
  - cbn [rbt_delete_node]. mrun. cbn [andb]. mrun.
    destruct fuel as [|fuel]; [lia|].
    match goal with |- mem_release _ _ ?g = _ =>
      eapply (finish_delete fuel n b _ ob g h2) end;
      [apply node_of_upd_eq|done|done|done| | |done|done|done|].
    + rewrite !header_of_upd. unfold header_of. by rewrite Ho, Hrc, Hfin.
    + by rewrite !lookup_upd_ne.
    + intros x Hx. rewrite !(lookup_upd_ne n) by done.
      by rewrite upd_upd.
  - by apply is_tree_delete.
  - apply lookup_delete_eq.
  - rewrite lookup_delete_ne by done. apply lookup_delete_eq.
  - by do 2 apply fields_only_delete.
  - intros x Hx.
    assert (x ≠ n) as Hxn by (intros ->; revert Hx; by_nodup Hnd').
    assert (x ≠ p) as Hxp by (intros ->; revert Hx; by_nodup Hnd').
    assert (is_node h x) as [nx Hnx] by (by eapply rep_is_node).
    assert (x ≠ b) as Hxb.
    { destruct (doomed_apart tree _ (plug (F :: C) Leaf) n b k Hnd) as (_ & _ & _ & _ & Hb2 & _).
      { rewrite !nodes_plug_split. cbn [nodes app]. solve_submseteq. }
      intros ->. apply Hb2. rewrite addrs_plug.
      cbn [addrs app ctx_addrs flat_map f_addr f_sib F]. set_solver. }
    exists nx. rewrite !node_of_delete by done. unfold h2. by rewrite node_of_upd_ne.
Qed.

Lemma delete_black_left_child_ok fuel h C cl ch cv ck cr n b k :
  is_tree cmp tree h (plug C (T (T cl ch RED cv ck cr) n BLACK (Some b) k Leaf)) ->
  node_owned h (n, Some b, k) ->
  NoDup (tree :: cells (plug C (T (T cl ch RED cv ck cr) n BLACK (Some b) k Leaf))) ->
  (1 <= fuel)%nat ->
  ∃ h', rbt_delete_node (S fuel) (Some tree) (Some n) h = Ok (tt, h') ∧
        is_tree cmp tree h' (plug C (T cl ch BLACK cv ck cr)) ∧
        h' !! n = None ∧ h' !! b = None ∧
        fields_only (delete n (delete b h)) h'.
Proof.
  intros Ht Hown Hnd Hfuel.
  destruct (doomed_apart tree _ (plug C (T cl ch BLACK cv ck cr)) n b k Hnd)
    as (Hnt & Hbt & Hnb & Hn1 & Hb1 & Hc1).
  { rewrite !nodes_plug_split. cbn [nodes app]. solve_submseteq. }
  pose proof Ht as (HC & Hrep & Hnd')%is_tree_plug.
  destruct Hrep as (Hn & Hk & (Hch & Hck & Hcl & Hcr) & _). cbn [ptr_of] in Hn.
  cbn [addrs app] in Hnd'.
  assert (ch ≠ n) as Hchn by (by_nodup Hnd').
  assert (n ∉ ctx_addrs C) as HnC by (by_nodup Hnd').
  assert (ch ∉ ctx_addrs C) as HchC by (by_nodup Hnd').
  assert (ch ∉ addrs cl) as Hchl by (by_nodup Hnd').
  assert (ch ∉ addrs cr) as Hchr by (by_nodup Hnd').
  destruct Hown as ((o & Ho & Hrc & Hfin) & (b' & ob & [= <-] & Hob & Hrcb & Hfinb)).
  cbn [fst snd] in Ho.
  assert (ch ≠ b) as Hchb.
  { intros ->. apply Hb1. rewrite addrs_plug. cbn [addrs app]. set_solver. }
  set (c2 := mk_node (ptr_of cl) (ptr_of cr) (ctx_parent C) BLACK cv).
  set (h1 := upd ch (Node c2) h).
  assert (is_node h ch) as Hchnode by (unfold is_node; eauto).
  assert (rep_ctx cmp tree h1 C (Some n)) as HC1 by (by apply rep_ctx_upd_node).
  set (h2 := set_hole cmp tree C (Some ch) h1).
  assert (fields_only h h2) as Hfo.
  { eapply fields_only_trans; [by apply fields_only_upd_node|]. by eapply fields_only_set_hole. }
  assert (is_tree cmp tree h2 (plug C (T cl ch BLACK cv ck cr))) as Ht2.
  { apply is_tree_plug. split; [|split].
    - eapply rep_ctx_set_hole; [exact HC1|]. by_nodup Hnd'.
    - eapply rep_set_hole; [exact HC1| |].
      + intros x Hx. revert x Hx. by_nodup Hnd'.
      + cbn [rep]. split; [apply node_of_upd_eq|]. split; [by apply keys_kept_upd_node|].
        split; by apply rep_upd_node.
    - cbn [addrs]. by_nodup Hnd'. }
  exists (delete n (delete b h2)).
  split; [|split; [|split; [|split]]].
  - cbn [rbt_delete_node]. mstep. mstep. mstep. cbn [andb]. mstep. cbv iota.
    unfold orM. mrun.
    rewrite upd_upd. change (upd ch _ h) with h1.
    rewrite (bind_Ok _ _ _ _ _ (set_hole_ok_right h1 C n (Some ch) HC1 HnC)).
    unfold h1. mrun.
    destruct fuel as [|fuel]; [lia|].
    match goal with |- mem_release _ _ ?g = _ =>
      eapply (finish_delete fuel n b _ ob g h2) end;
      [apply node_of_upd_eq|done|done|done| | |done|done|done|].
    + rewrite !header_of_upd, header_of_set_hole, header_of_upd. unfold header_of.
      by rewrite Ho, Hrc, Hfin.
    + rewrite !lookup_upd_ne by done. rewrite lookup_set_hole_ne; [by rewrite lookup_upd_ne|done|].
      intros Hin. apply Hb1. rewrite addrs_plug. set_solver.
    + intros x Hx. by rewrite !(lookup_upd_ne n) by done.
  - by apply is_tree_delete.
  - apply lookup_delete_eq.
  - rewrite lookup_delete_ne by done. apply lookup_delete_eq.
  - by do 2 apply fields_only_delete.
Qed.
Lemma delete_black_right_child_ok fuel h C cl ch cv ck cr n b k :
  is_tree cmp tree h (plug C (T Leaf n BLACK (Some b) k (T cl ch RED cv ck cr))) ->
  node_owned h (n, Some b, k) ->
  NoDup (tree :: cells (plug C (T Leaf n BLACK (Some b) k (T cl ch RED cv ck cr)))) ->
  (1 <= fuel)%nat ->
  ∃ h', rbt_delete_node (S fuel) (Some tree) (Some n) h = Ok (tt, h') ∧
        is_tree cmp tree h' (plug C (T cl ch BLACK cv ck cr)) ∧
        h' !! n = None ∧ h' !! b = None ∧
        fields_only (delete n (delete b h)) h'.
Proof.
  intros Ht Hown Hnd Hfuel.
  destruct (doomed_apart tree _ (plug C (T cl ch BLACK cv ck cr)) n b k Hnd)
    as (Hnt & Hbt & Hnb & Hn1 & Hb1 & Hc1).
  { rewrite !nodes_plug_split. cbn [nodes app]. solve_submseteq. }
  pose proof Ht as (HC & Hrep & Hnd')%is_tree_plug.
  destruct Hrep as (Hn & Hk & _ & (Hch & Hck & Hcl & Hcr)). cbn [ptr_of] in Hn.
  cbn [addrs app] in Hnd'.
  assert (ch ≠ n) as Hchn by (by_nodup Hnd').
  assert (n ∉ ctx_addrs C) as HnC by (by_nodup Hnd').
  assert (ch ∉ ctx_addrs C) as HchC by (by_nodup Hnd').
  assert (ch ∉ addrs cl) as Hchl by (by_nodup Hnd').
  assert (ch ∉ addrs cr) as Hchr by (by_nodup Hnd').
  destruct Hown as ((o & Ho & Hrc & Hfin) & (b' & ob & [= <-] & Hob & Hrcb & Hfinb)).
  cbn [fst snd] in Ho.
  assert (ch ≠ b) as Hchb.
  { intros ->. apply Hb1. rewrite addrs_plug. cbn [addrs app]. set_solver. }
  set (c2 := mk_node (ptr_of cl) (ptr_of cr) (ctx_parent C) BLACK cv).
  set (h1 := upd ch (Node c2) h).
  assert (is_node h ch) as Hchnode by (unfold is_node; eauto).
  assert (rep_ctx cmp tree h1 C (Some n)) as HC1 by (by apply rep_ctx_upd_node).
  set (h2 := set_hole cmp tree C (Some ch) h1).
  assert (fields_only h h2) as Hfo.
  { eapply fields_only_trans; [by apply fields_only_upd_node|]. by eapply fields_only_set_hole. }
  assert (is_tree cmp tree h2 (plug C (T cl ch BLACK cv ck cr))) as Ht2.
  { apply is_tree_plug. split; [|split].
    - eapply rep_ctx_set_hole; [exact HC1|]. by_nodup Hnd'.
    - eapply rep_set_hole; [exact HC1| |].
      + intros x Hx. revert x Hx. by_nodup Hnd'.
      + cbn [rep]. split; [apply node_of_upd_eq|]. split; [by apply keys_kept_upd_node|].
        split; by apply rep_upd_node.
    - cbn [addrs]. by_nodup Hnd'. }
  exists (delete n (delete b h2)).
  split; [|split; [|split; [|split]]].
  - cbn [rbt_delete_node]. mstep. mstep. mstep. cbn [andb]. mstep. cbv iota.
    unfold orM. mrun.
    rewrite upd_upd. change (upd ch _ h) with h1.
    rewrite (bind_Ok _ _ _ _ _ (set_hole_ok_right h1 C n (Some ch) HC1 HnC)).
    unfold h1. mrun.
    destruct fuel as [|fuel]; [lia|].
    match goal with |- mem_release _ _ ?g = _ =>
      eapply (finish_delete fuel n b _ ob g h2) end;
      [apply node_of_upd_eq|done|done|done| | |done|done|done|].
    + rewrite !header_of_upd, header_of_set_hole, header_of_upd. unfold header_of.
      by rewrite Ho, Hrc, Hfin.
    + rewrite !lookup_upd_ne by done. rewrite lookup_set_hole_ne; [by rewrite lookup_upd_ne|done|].
      intros Hin. apply Hb1. rewrite addrs_plug. set_solver.
    + intros x Hx. by rewrite !(lookup_upd_ne n) by done.
  - by apply is_tree_delete.
  - apply lookup_delete_eq.
  - rewrite lookup_delete_ne by done. apply lookup_delete_eq.
  - by do 2 apply fields_only_delete.
Qed.

Lemma delete_black_root_leaf_ok fuel h n b k :
  is_tree cmp tree h (T Leaf n BLACK (Some b) k Leaf) ->
  node_owned h (n, Some b, k) ->
  NoDup (tree :: cells (T Leaf n BLACK (Some b) k Leaf)) ->
  (1 <= fuel)%nat ->
  ∃ h', rbt_delete_node (S fuel) (Some tree) (Some n) h = Ok (tt, h') ∧
        is_tree cmp tree h' Leaf ∧
        h' !! n = None ∧ h' !! b = None ∧
        fields_only (delete n (delete b h)) h'.
Proof.
  intros Ht Hown Hnd Hfuel.
  destruct (doomed_apart tree _ Leaf n b k Hnd) as (Hnt & Hbt & Hnb & Hn1 & Hb1 & Hc1).
  { cbn [nodes app]. solve_submseteq. }
  pose proof (unlink_ok cmp tree h [] _ Ht) as Ht2. cbn [plug] in Ht2.
  pose proof Ht as (Htree & (Hn & Hk & _) & _). cbn [ptr_of] in Hn, Htree.
  destruct Hown as ((o & Ho & Hrc & Hfin) & (b' & ob & [= <-] & Hob & Hrcb & Hfinb)).
  cbn [fst snd] in Ho.
  set (h2 := set_hole cmp tree [] NULL h) in *.
  assert (fields_only h h2) as Hfo.
  { apply (fields_only_set_hole cmp tree h [] (Some n) NULL). exact Htree. }
  exists (delete n (delete b h2)).
  split; [|split; [|split; [|split]]].
  - cbn [rbt_delete_node]. mstep. mstep. mstep. cbn [andb]. mstep. cbv iota.
    unfold orM. mrun. cbn [rbt_del_rebalance]. mrun.
    rewrite upd_same_node by done.
    rewrite (bind_Ok _ _ _ _ _ (set_root_ok _ _ _ NULL Htree)). cbn [comp].
    change (upd tree (Tree (mk_tree NULL cmp)) h) with h2.
    assert (node_of h2 n = Some (mk_node NULL NULL NULL BLACK (Some b))) as Hn2.
    { unfold h2. cbn [set_hole]. unfold node_of. by rewrite lookup_upd_ne. }
    mrun.
    destruct fuel as [|fuel]; [lia|].
    match goal with |- mem_release _ _ ?g = _ =>
      eapply (finish_delete fuel n b _ ob g h2) end;
      [apply node_of_upd_eq|done|done|done| | |done|done|done|].
    + rewrite !header_of_upd. unfold h2. rewrite header_of_set_hole. unfold header_of.
      by rewrite Ho, Hrc, Hfin.
    + rewrite !lookup_upd_ne by done. unfold h2. by rewrite lookup_set_hole_ne.
    + intros x Hx. by rewrite !(lookup_upd_ne n) by done.
  - by apply is_tree_delete.
  - apply lookup_delete_eq.
  - rewrite lookup_delete_ne by done. apply lookup_delete_eq.
  - by do 2 apply fields_only_delete.
Qed.
End delete_cases.

Section delete_top.
Context (cmp : comparator_t) (tree : addr).

(** [rbt_delete] hands [rbt_delete_node] the node the search stops at. *)
Lemma rbt_delete_found fuel h t value k n :
  is_tree cmp tree h t -> key_of cmp h value = Some k -> (height t < fuel)%nat ->
  search (cmp_fun cmp) k t = Some n ->
  rbt_delete fuel (Some tree) value h = rbt_delete_node fuel (Some tree) (Some n) h.
Proof.
  intros Ht Hk Hfuel Hs. unfold rbt_delete.
  rewrite (bind_Ok _ _ _ _ _ (rbt_lookup_ok cmp tree fuel h t value k Ht Hk Hfuel)).
  by rewrite Hs.
Qed.

(** X13. [rbt_delete] of a value whose search stops at a RED leaf that is
    the left child of its parent: the delete ends normally, the node is
    unlinked and freed together with its contents, and the heap holds the
    tree without that node; every other object keeps its count and
    finalizer. *)
Theorem rbt_delete_red_left_leaf (fuel : nat) (h : heap) (C : ctx) (p : addr)
    (pc : rbt_color_t) (pv : ptr) (pk : Z) (s : ntree) (n b : addr) (k : Z)
    (value : ptr) (kv : Z) :
  let t := plug (Frame LEFT p pc pv pk s :: C) (T Leaf n RED (Some b) k Leaf) in
  is_tree cmp tree h t -> node_owned h (n, Some b, k) -> NoDup (tree :: cells t) ->
  key_of cmp h value = Some kv -> search (cmp_fun cmp) kv t = Some n ->
  (height t <= fuel)%nat -> (1 <= fuel)%nat ->
  ∃ h', rbt_delete (S fuel) (Some tree) value h = Ok (tt, h') ∧
        is_tree cmp tree h' (plug (Frame LEFT p pc pv pk s :: C) Leaf) ∧
        h' !! n = None ∧ h' !! b = None ∧
        fields_only (delete n (delete b h)) h'.
Proof.
  intros t Ht Hown Hnd Hk Hs Hfuel H1.
  rewrite (rbt_delete_found (S fuel) h t value kv n Ht Hk ltac:(lia) Hs).
  by apply (delete_red_left_leaf_ok cmp tree fuel h C p pc pv pk s n b k).
Qed.

(** X4. [rbt_delete] of a value whose search stops at a RED leaf that is the
    right child of its parent: the node is freed with its contents, and the
    parent is left without children. The left subtree [s] of the parent is
    unlinked with the node: its nodes are still allocated and are no longer
    in the tree. The RED branch of [rbt_delete_node] clears [parent->right];
    the node is then no longer [parent->right], and the common tail writes
    the absent child into [parent->left]. *)
Theorem rbt_delete_red_right_leaf (fuel : nat) (h : heap) (C : ctx) (p : addr)
    (pc : rbt_color_t) (pv : ptr) (pk : Z) (s : ntree) (n b : addr) (k : Z)
    (value : ptr) (kv : Z) :
  let t := plug (Frame RIGHT p pc pv pk s :: C) (T Leaf n RED (Some b) k Leaf) in
  is_tree cmp tree h t -> node_owned h (n, Some b, k) -> NoDup (tree :: cells t) ->
  key_of cmp h value = Some kv -> search (cmp_fun cmp) kv t = Some n ->
  (height t <= fuel)%nat -> (1 <= fuel)%nat ->
  ∃ h', rbt_delete (S fuel) (Some tree) value h = Ok (tt, h') ∧
        is_tree cmp tree h' (plug C (T Leaf p pc pv pk Leaf)) ∧
        h' !! n = None ∧ h' !! b = None ∧
        fields_only (delete n (delete b h)) h' ∧
        (∀ x, x ∈ addrs s -> is_node h' x ∧ x ∉ addrs (plug C (T Leaf p pc pv pk Leaf))).
Proof.
  intros t Ht Hown Hnd Hk Hs Hfuel H1.
  rewrite (rbt_delete_found (S fuel) h t value kv n Ht Hk ltac:(lia) Hs).
  destruct (delete_red_right_leaf_ok cmp tree fuel h C p pc pv pk s n b k Ht Hown Hnd H1)
    as (h' & Hrun & Ht' & Hn & Hb & Hfo & Hlive).
  exists h'. do 5 (split; [done|]). intros x Hx. split; [by apply Hlive|].
  pose proof Ht as (_ & _ & Hnd')%is_tree_plug.
  cbn [addrs app ctx_addrs flat_map f_addr f_sib] in Hnd'. fold (ctx_addrs C) in Hnd'.
  rewrite addrs_plug. cbn [addrs app]. intros [->|Hin]%elem_of_cons.
  - revert Hx. by_nodup Hnd'.
  - revert x Hx Hin. by_nodup Hnd'.
Qed.

(** X14. [rbt_delete] of a value whose search stops at a BLACK node with one
    child, which is RED: the child takes the place of the node (below the
    parent of the node, or as root of the tree) and becomes BLACK; the node
    is freed with its contents. *)
Theorem rbt_delete_black_one_child (fuel : nat) (h : heap) (C : ctx)
    (l r cl cr : ntree) (ch : addr) (cv : ptr) (ck : Z) (n b : addr) (k : Z)
    (value : ptr) (kv : Z) :
  let t := plug C (T l n BLACK (Some b) k r) in
  (l = T cl ch RED cv ck cr ∧ r = Leaf) ∨ (l = Leaf ∧ r = T cl ch RED cv ck cr) ->
  is_tree cmp tree h t -> node_owned h (n, Some b, k) -> NoDup (tree :: cells t) ->
  key_of cmp h value = Some kv -> search (cmp_fun cmp) kv t = Some n ->
  (height t <= fuel)%nat -> (1 <= fuel)%nat ->
  ∃ h', rbt_delete (S fuel) (Some tree) value h = Ok (tt, h') ∧
        is_tree cmp tree h' (plug C (T cl ch BLACK cv ck cr)) ∧
        h' !! n = None ∧ h' !! b = None ∧
        fields_only (delete n (delete b h)) h'.
Proof.
  intros t Hshape Ht Hown Hnd Hk Hs Hfuel H1.
  rewrite (rbt_delete_found (S fuel) h t value kv n Ht Hk ltac:(lia) Hs).
  destruct Hshape as [[-> ->]|[-> ->]].
  - by apply (delete_black_left_child_ok cmp tree fuel h C cl ch cv ck cr n b k).
  - by apply (delete_black_right_child_ok cmp tree fuel h C cl ch cv ck cr n b k).
Qed.

(** X15. [rbt_delete] of the key of the only node of a tree leaves the
    empty tree; the node is freed with its contents. *)
Theorem rbt_delete_last_node (fuel : nat) (h : heap) (n b : addr) (k : Z)
    (value : ptr) (kv : Z) :
  is_tree cmp tree h (T Leaf n BLACK (Some b) k Leaf) ->
  node_owned h (n, Some b, k) -> NoDup [tree; n; b] ->
  key_of cmp h value = Some kv -> cmp_fun cmp kv k = 0 ->
  (1 <= fuel)%nat ->
  ∃ h', rbt_delete (S fuel) (Some tree) value h = Ok (tt, h') ∧
        is_tree cmp tree h' Leaf ∧
        h' !! n = None ∧ h' !! b = None ∧
        fields_only (delete n (delete b h)) h'.
Proof.
  intros Ht Hown Hnd Hk Hs H1.
  rewrite (rbt_delete_found (S fuel) h _ value kv n Ht Hk).
  - by apply (delete_black_root_leaf_ok cmp tree fuel h n b k).
  - cbn. lia.
  - cbn [search]. by rewrite Hs.
Qed.
End delete_top.


Lemma node_owned_intro (h : heap) a n b p k :
  h !! a = Some (mk_obj 1 (Some Fn_rbt_node_free) (Node n)) ->
  h !! b = Some (mk_obj 1 None p) ->
  node_owned h (a, Some b, k).
Proof. intros Ha Hb. split; [eexists|exists b; eexists]; cbn [fst snd]; eauto. Qed.

(** The tree holding 6, 8 and 9 (root 8, its children RED) and a box
    holding 6, which is deleted. *)
Lemma rbt_delete_red_left_leaf_witness :
  let h := heap_after (build 10 [Ins 9; Ins 6; Ins 8];;; mem_box 6) in
  ∃ h', rbt_delete 3 (Some 1%positive) (Some 8%positive) h = Ok (tt, h') ∧
        is_tree (Fn_unbox_compare int_compare) 1%positive h'
          (T Leaf 7%positive BLACK (Some 6%positive) 8
             (T Leaf 3%positive RED (Some 2%positive) 9 Leaf)).
Proof.
  intros h.
  destruct (rbt_delete_red_left_leaf (Fn_unbox_compare int_compare) 1%positive 2 h []
              7%positive BLACK (Some 6%positive) 8
              (T Leaf 3%positive RED (Some 2%positive) 9 Leaf)
              5%positive 4%positive 6 (Some 8%positive) 6)
    as (h' & Hrun & Ht & _).
  - repeat split; try (vm_compute; reflexivity).
    apply (bool_decide_unpack _). vm_compute. exact I.
  - eapply node_owned_intro; vm_compute; reflexivity.
  - apply (bool_decide_unpack _). vm_compute. exact I.
  - vm_compute. reflexivity.
  - vm_compute. reflexivity.
  - cbn. lia.
  - lia.
  - exists h'. split; [exact Hrun|exact Ht].
Defined.

(** The same tree and a box holding 9, which is deleted: 6 goes with it. *)
Lemma rbt_delete_red_right_leaf_witness :
  let h := heap_after (build 10 [Ins 9; Ins 6; Ins 8];;; mem_box 9) in
  ∃ h', rbt_delete 3 (Some 1%positive) (Some 8%positive) h = Ok (tt, h') ∧
        is_tree (Fn_unbox_compare int_compare) 1%positive h'
          (T Leaf 7%positive BLACK (Some 6%positive) 8 Leaf) ∧
        is_node h' 5%positive.
Proof.
  intros h.
  destruct (rbt_delete_red_right_leaf (Fn_unbox_compare int_compare) 1%positive 2 h []
              7%positive BLACK (Some 6%positive) 8
              (T Leaf 5%positive RED (Some 4%positive) 6 Leaf)
              3%positive 2%positive 9 (Some 8%positive) 9)
    as (h' & Hrun & Ht & _ & _ & _ & Hs).
  - repeat split; try (vm_compute; reflexivity).
    apply (bool_decide_unpack _). vm_compute. exact I.
  - eapply node_owned_intro; vm_compute; reflexivity.
  - apply (bool_decide_unpack _). vm_compute. exact I.
  - vm_compute. reflexivity.
  - vm_compute. reflexivity.
  - cbn. lia.
  - lia.
  - exists h'. split; [exact Hrun|]. split; [exact Ht|].
    apply Hs. cbn. by left.
Defined.

(** The tree holding 3 and 5 (root 5, its left child RED) and a box holding
    5, which is deleted. *)
Lemma rbt_delete_black_one_child_witness :
  let h := heap_after (build 10 [Ins 5; Ins 3];;; mem_box 5) in
  ∃ h', rbt_delete 3 (Some 1%positive) (Some 6%positive) h = Ok (tt, h') ∧
        is_tree (Fn_unbox_compare int_compare) 1%positive h'
          (T Leaf 5%positive BLACK (Some 4%positive) 3 Leaf).
Proof.
  intros h.
  destruct (rbt_delete_black_one_child (Fn_unbox_compare int_compare) 1%positive 2 h []
              (T Leaf 5%positive RED (Some 4%positive) 3 Leaf) Leaf Leaf Leaf
              5%positive (Some 4%positive) 3 3%positive 2%positive 5 (Some 6%positive) 5)
    as (h' & Hrun & Ht & _).
  - by left.
  - repeat split; try (vm_compute; reflexivity).
    apply (bool_decide_unpack _). vm_compute. exact I.
  - eapply node_owned_intro; vm_compute; reflexivity.
  - apply (bool_decide_unpack _). vm_compute. exact I.
  - vm_compute. reflexivity.
  - vm_compute. reflexivity.
  - cbn. lia.
  - lia.
  - exists h'. split; [exact Hrun|exact Ht].
Defined.

(** The tree holding 5 alone and a second box holding 5, which is deleted. *)
Lemma rbt_delete_last_node_witness :
  let h := heap_after (build 10 [Ins 5];;; mem_box 5) in
  ∃ h', rbt_delete 2 (Some 1%positive) (Some 4%positive) h = Ok (tt, h') ∧
        is_tree (Fn_unbox_compare int_compare) 1%positive h' Leaf.
Proof.
  intros h.
  destruct (rbt_delete_last_node (Fn_unbox_compare int_compare) 1%positive 1 h
              3%positive 2%positive 5 (Some 4%positive) 5)
    as (h' & Hrun & Ht & _).
  - repeat split; try (vm_compute; reflexivity).
    apply (bool_decide_unpack _). vm_compute. exact I.
  - eapply node_owned_intro; vm_compute; reflexivity.
  - apply (bool_decide_unpack _). vm_compute. exact I.
  - vm_compute. reflexivity.
  - vm_compute. reflexivity.
  - lia.
  - exists h'. split; [exact Hrun|exact Ht].
Defined.

(** ** The fix-up before the removal of a BLACK node without children *)

Lemma black_height_fill_eq F t :
  black_height (fill F t)
  = match black_height t with Some d => frame_bh F d | None => None end.
Proof.
  destruct F as [[] a c v k s]; unfold frame_bh;
    cbn [fill f_side f_sib f_addr f_color f_contents f_key black_height];
    destruct (black_height t) as [d|]; destruct (black_height s) as [m|]; try done;
    repeat case_decide; try done; try lia; by subst.
Qed.

Lemma black_height_plug_eq C t :
  black_height (plug C t)
  = match black_height t with Some d => ctx_bh C d | None => None end.
Proof.
  revert t. induction C as [|F C IH]; intros t; cbn [plug ctx_bh].
  { by destruct (black_height t). }
  rewrite IH, black_height_fill_eq. by destruct (black_height t).
Qed.

Lemma ctx_root_black_cons F F' C : ctx_root_black (F :: F' :: C) <-> ctx_root_black (F' :: C).
Proof. unfold ctx_root_black. by rewrite last_cons_cons. Qed.

Lemma ctx_root_black_push F C :
  f_color F = BLACK -> ctx_root_black C -> ctx_root_black (F :: C).
Proof. intros HF HC. destruct C as [|F' C]; [done|]. by apply ctx_root_black_cons. Qed.

Lemma ctx_root_black_swap F G C : ctx_root_black (F :: C) -> (C = [] -> f_color G = BLACK) ->
  ctx_root_black (G :: C).
Proof.
  intros HF HG. destruct C as [|F' C]; [by apply HG|].
  apply ctx_root_black_cons. by apply ctx_root_black_cons in HF.
Qed.

Lemma ctx_root_black_recolor F G C :
  f_color G = f_color F -> ctx_root_black (F :: C) -> ctx_root_black (G :: C).
Proof.
  intros HG HF. eapply ctx_root_black_swap; [done|]. intros ->.
  rewrite HG. exact HF.
Qed.

Ltac bh_ctx :=
  cbn [ctx_bh] in *; unfold frame_bh in *;
  cbn [ctx_bh f_sib f_color f_side black_height] in *;
  repeat match goal with
  | H : context [black_height ?t] |- _ => is_var t; destruct (black_height t)
  | |- context [black_height ?t] => is_var t; destruct (black_height t)
  end;
  repeat (case_decide; simplify_eq; cbn [ctx_bh] in *);
  try done; try lia; try (by intros [? ?]).

Lemma sib_not_leaf F C d : is_Some (ctx_bh (F :: C) (S d)) -> f_sib F ≠ Leaf.
Proof.
  intros H Hs. cbn [ctx_bh] in H. unfold frame_bh in H. rewrite Hs in H. cbn in H.
  case_decide; [lia|]. by destruct H.
Qed.

Section cases.
Context (p : addr) (pc : rbt_color_t) (pv : ptr) (pk : Z).
Context (s : addr) (sv : ptr) (sk : Z) (sl sr : ntree).
Context (C : ctx) (d : nat).

Lemma red_sib_left :
  ctx_ok (Frame LEFT p pc pv pk (T sl s RED sv sk sr) :: C) (S d) ->
  ctx_ok (Frame LEFT p RED pv pk sl :: Frame LEFT s BLACK sv sk sr :: C) (S d) ∧
  color_of sl = BLACK.
Proof.
  intros (Hbh & (Hs & Hp & HC) & Hroot). cbn [f_sib f_color no_red_red color_of] in *.
  destruct Hs as (Hs & Hsl & Hsr). destruct (Hs eq_refl) as [Hcl Hcr].
  assert (pc = BLACK) as -> by (destruct pc; [by destruct Hp|done]).
  split; [|done]. split; [|split].
  - revert Hbh. clear. bh_ctx.
  - cbn [ctx_no_red_red f_sib f_color]. intuition congruence.
  - apply ctx_root_black_cons. by eapply ctx_root_black_swap.
Qed.

Lemma red_sib_right :
  ctx_ok (Frame RIGHT p pc pv pk (T sl s RED sv sk sr) :: C) (S d) ->
  ctx_ok (Frame RIGHT p RED pv pk sr :: Frame RIGHT s BLACK sv sk sl :: C) (S d) ∧
  color_of sr = BLACK.
Proof.
  intros (Hbh & (Hs & Hp & HC) & Hroot). cbn [f_sib f_color no_red_red color_of] in *.
  destruct Hs as (Hs & Hsl & Hsr). destruct (Hs eq_refl) as [Hcl Hcr].
  assert (pc = BLACK) as -> by (destruct pc; [by destruct Hp|done]).
  split; [|done]. split; [|split].
  - revert Hbh. clear. bh_ctx.
  - cbn [ctx_no_red_red f_sib f_color]. intuition congruence.
  - apply ctx_root_black_cons. by eapply ctx_root_black_swap.
Qed.

Lemma both_black_red_parent side :
  ctx_ok (Frame side p RED pv pk (T sl s BLACK sv sk sr) :: C) (S d) ->
  color_of sl = BLACK -> color_of sr = BLACK ->
  ctx_ok (Frame side p BLACK pv pk (T sl s RED sv sk sr) :: C) d.
Proof.
  intros (Hbh & (Hs & Hp & HC) & Hroot) Hcl Hcr. cbn [f_sib f_color no_red_red color_of] in *.
  destruct Hs as (Hs & Hsl & Hsr).
  split; [|split].
  - revert Hbh. clear. bh_ctx.
  - cbn [ctx_no_red_red f_sib f_color no_red_red]. split; [intuition congruence|]. split; [done|].
    destruct C as [|F C']; [done|]. cbn [ctx_no_red_red] in *. intuition congruence.
  - by eapply ctx_root_black_swap.
Qed.

Lemma both_black_black_parent side :
  ctx_ok (Frame side p BLACK pv pk (T sl s BLACK sv sk sr) :: C) (S d) ->
  color_of sl = BLACK -> color_of sr = BLACK ->
  ctx_ok C (S (S d)) ∧
  ∀ C', ctx_ok C' (S d) -> ctx_ok (Frame side p BLACK pv pk (T sl s RED sv sk sr) :: C') d.
Proof.
  intros (Hbh & (Hs & Hp & HC) & Hroot) Hcl Hcr. cbn [f_sib f_color no_red_red color_of] in *.
  destruct Hs as (Hs & Hsl & Hsr).
  split.
  - split; [|split; [done|by eapply ctx_root_black_tail]].
    revert Hbh. clear. bh_ctx.
  - intros C' (Hbh' & HC' & Hroot'). split; [|split].
    + revert Hbh Hbh'. clear. bh_ctx.
    + cbn [ctx_no_red_red f_sib f_color no_red_red]. intuition congruence.
    + by apply ctx_root_black_push.
Qed.
End cases.

Section cases2.
Context (p : addr) (pc : rbt_color_t) (pv : ptr) (pk : Z).
Context (s : addr) (sv : ptr) (sk : Z).
Context (i : addr) (iv : ptr) (ik : Z) (il ir : ntree) (so : ntree).
Context (C : ctx) (d : nat).

(** The inside nibling is RED, the outside one BLACK. *)
Lemma inside_red_left :
  ctx_ok (Frame LEFT p pc pv pk (T (T il i RED iv ik ir) s BLACK sv sk so) :: C) (S d) ->
  color_of so = BLACK ->
  ctx_ok (Frame LEFT p pc pv pk (T il i BLACK iv ik (T ir s RED sv sk so)) :: C) (S d).
Proof.
  intros (Hbh & (Hs & Hp & HC) & Hroot) Hco. cbn [f_sib f_color no_red_red color_of] in *.
  destruct Hs as (_ & (Hi & Hil & Hir) & Hso). destruct (Hi eq_refl) as [Hcil Hcir].
  split; [|split].
  - revert Hbh. clear. bh_ctx.
  - cbn [ctx_no_red_red f_sib f_color no_red_red color_of]. intuition congruence.
  - eapply ctx_root_black_recolor; [|exact Hroot]; done.
Qed.

Lemma inside_red_right :
  ctx_ok (Frame RIGHT p pc pv pk (T so s BLACK sv sk (T il i RED iv ik ir)) :: C) (S d) ->
  color_of so = BLACK ->
  ctx_ok (Frame RIGHT p pc pv pk (T (T so s RED sv sk il) i BLACK iv ik ir) :: C) (S d).
Proof.
  intros (Hbh & (Hs & Hp & HC) & Hroot) Hco. cbn [f_sib f_color no_red_red color_of] in *.
  destruct Hs as (_ & Hso & (Hi & Hil & Hir)). destruct (Hi eq_refl) as [Hcil Hcir].
  split; [|split].
  - revert Hbh. clear. bh_ctx.
  - cbn [ctx_no_red_red f_sib f_color no_red_red color_of]. intuition congruence.
  - eapply ctx_root_black_recolor; [|exact Hroot]; done.
Qed.

(** The outside nibling is RED: here [i] is the outside nibling and [so]
    the inside one. *)
Lemma outside_red_left :
  ctx_ok (Frame LEFT p pc pv pk (T so s BLACK sv sk (T il i RED iv ik ir)) :: C) (S d) ->
  ctx_ok (Frame LEFT p BLACK pv pk so :: Frame LEFT s pc sv sk (T il i BLACK iv ik ir) :: C) d.
Proof.
  intros (Hbh & (Hs & Hp & HC) & Hroot). cbn [f_sib f_color no_red_red color_of] in *.
  destruct Hs as (_ & Hso & (Hi & Hil & Hir)). destruct (Hi eq_refl) as [Hcil Hcir].
  split; [|split].
  - revert Hbh. clear. bh_ctx.
  - cbn [ctx_no_red_red f_sib f_color no_red_red color_of].
    split; [done|]. split; [done|]. split; [intuition congruence|]. split; [|done].
    intros ->. destruct (Hp eq_refl) as [_ ?]. done.
  - apply ctx_root_black_cons. eapply ctx_root_black_recolor; [|exact Hroot]; done.
Qed.

Lemma outside_red_right :
  ctx_ok (Frame RIGHT p pc pv pk (T (T il i RED iv ik ir) s BLACK sv sk so) :: C) (S d) ->
  ctx_ok (Frame RIGHT p BLACK pv pk so :: Frame RIGHT s pc sv sk (T il i BLACK iv ik ir) :: C) d.
Proof.
  intros (Hbh & (Hs & Hp & HC) & Hroot). cbn [f_sib f_color no_red_red color_of] in *.
  destruct Hs as (_ & (Hi & Hil & Hir) & Hso). destruct (Hi eq_refl) as [Hcil Hcir].
  split; [|split].
  - revert Hbh. clear. bh_ctx.
  - cbn [ctx_no_red_red f_sib f_color no_red_red color_of].
    split; [done|]. split; [done|]. split; [intuition congruence|]. split; [|done].
    intros ->. destruct (Hp eq_refl) as [_ ?]. done.
  - apply ctx_root_black_cons. eapply ctx_root_black_recolor; [|exact Hroot]; done.
Qed.
End cases2.

Section del_steps.
Context (cmp : comparator_t) (tree : addr).

Lemma del_root_ok h tf a :
  is_tree cmp tree h tf -> ptr_of tf = Some a -> color_of tf = BLACK ->
  ∃ h', (∀ fuel, rbt_del_rebalance (S fuel) (Some tree) (Some a) h = Ok (tt, h')) ∧
        is_tree cmp tree h' tf ∧ fields_only h h'.
Proof.
  intros Ht Ha Hc. destruct tf as [|tl a' c tv tk tr]; [done|].
  injection Ha as ->. cbn [color_of] in Hc. subst c.
  pose proof (node_at cmp tree h [] _ _ _ _ _ _ Ht) as Hn.
  destruct (recolor_ok cmp tree BLACK h [] _ _ _ _ _ _ Ht) as (h1 & Hc1 & Ht1 & Hfo1).
  exists h1. split; [|done].
  intros fuel. cbn [rbt_del_rebalance]. mrun.
Qed.

Lemma del_red_sib_left h C tf a p pc pv pk sl s sv sk sr :
  is_tree cmp tree h (plug (Frame LEFT p pc pv pk (T sl s RED sv sk sr) :: C) tf) ->
  ptr_of tf = Some a ->
  ∃ h', (∀ fuel, rbt_del_rebalance (S fuel) (Some tree) (Some a) h
                 = rbt_del_rebalance fuel (Some tree) (Some a) h') ∧
        is_tree cmp tree h'
          (plug (Frame LEFT p RED pv pk sl :: Frame LEFT s BLACK sv sk sr :: C) tf) ∧
        fields_only h h'.
Proof.
  intros Ht Ha. destruct tf as [|tl a' c tv tk tr]; [done|]. injection Ha as ->.
  pose proof (node_at cmp tree h (Frame LEFT p pc pv pk (T sl s RED sv sk sr) :: C)
                _ _ _ _ _ _ Ht) as Hn.
  pose proof (node_at cmp tree h C _ _ _ _ _ _ Ht) as Hp.
  pose proof (node_at cmp tree h (Frame RIGHT p pc pv pk (T tl a c tv tk tr) :: C)
                _ _ _ _ _ _ Ht) as Hs.
  destruct (rotate_ok cmp tree LEFT h C _ p Ht eq_refl) as (h1 & Hrot & Ht1 & Hfo1);
    [done|]. cbn [rotate_tree] in Ht1.
  destruct (recolor_ok cmp tree RED h1 (Frame LEFT s RED sv sk sr :: C) _ _ _ _ _ _ Ht1)
    as (h2 & Hc2 & Ht2 & Hfo2).
  destruct (recolor_ok cmp tree BLACK h2 C _ _ _ _ _ _ Ht2) as (h3 & Hc3 & Ht3 & Hfo3).
  exists h3. split; [|split].
  - intros fuel. cbn [rbt_del_rebalance]. mrun. reflexivity.
  - exact Ht3.
  - eauto using fields_only_trans.
Qed.

Lemma del_red_sib_right h C tf a p pc pv pk sl s sv sk sr :
  is_tree cmp tree h (plug (Frame RIGHT p pc pv pk (T sl s RED sv sk sr) :: C) tf) ->
  ptr_of tf = Some a ->
  ∃ h', (∀ fuel, rbt_del_rebalance (S fuel) (Some tree) (Some a) h
                 = rbt_del_rebalance fuel (Some tree) (Some a) h') ∧
        is_tree cmp tree h'
          (plug (Frame RIGHT p RED pv pk sr :: Frame RIGHT s BLACK sv sk sl :: C) tf) ∧
        fields_only h h'.
Proof.
  intros Ht Ha. destruct tf as [|tl a' c tv tk tr]; [done|]. injection Ha as ->.
  pose proof (node_at cmp tree h (Frame RIGHT p pc pv pk (T sl s RED sv sk sr) :: C)
                _ _ _ _ _ _ Ht) as Hn.
  pose proof (node_at cmp tree h C _ _ _ _ _ _ Ht) as Hp.
  pose proof (node_at cmp tree h (Frame LEFT p pc pv pk (T tl a c tv tk tr) :: C)
                _ _ _ _ _ _ Ht) as Hs.
  assert (Some s ≠ Some a) as Hsa.
  { pose proof Ht as (_ & _ & Hnd)%is_tree_plug. intros [= ->]. revert Hnd.
    cbn [addrs ctx_addrs flat_map f_addr f_sib]. rewrite NoDup_app. set_solver. }
  destruct (rotate_ok cmp tree RIGHT h C _ p Ht eq_refl) as (h1 & Hrot & Ht1 & Hfo1);
    [done|]. cbn [rotate_tree] in Ht1.
  destruct (recolor_ok cmp tree RED h1 (Frame RIGHT s RED sv sk sl :: C) _ _ _ _ _ _ Ht1)
    as (h2 & Hc2 & Ht2 & Hfo2).
  destruct (recolor_ok cmp tree BLACK h2 C _ _ _ _ _ _ Ht2) as (h3 & Hc3 & Ht3 & Hfo3).
  exists h3. split; [|split].
  - intros fuel. cbn [rbt_del_rebalance]. mrun. reflexivity.
  - exact Ht3.
  - eauto using fields_only_trans.
Qed.

(** The sibling and both niblings are BLACK. *)
Lemma del_both_black side h C tf a p pc pv pk sl s sv sk sr :
  is_tree cmp tree h (plug (Frame side p pc pv pk (T sl s BLACK sv sk sr) :: C) tf) ->
  ptr_of tf = Some a -> color_of sl = BLACK -> color_of sr = BLACK ->
  ∃ h', (∀ fuel, rbt_del_rebalance (S fuel) (Some tree) (Some a) h
                 = match pc with
                   | RED => Ok (tt, h')
                   | BLACK => rbt_del_rebalance fuel (Some tree) (Some p) h'
                   end) ∧
        is_tree cmp tree h'
          (plug (Frame side p BLACK pv pk (T sl s RED sv sk sr) :: C) tf) ∧
        fields_only h h'.
Proof.
  intros Ht Ha Hcl Hcr. destruct tf as [|tl a' c tv tk tr]; [done|]. injection Ha as ->.
  pose proof (node_at cmp tree h (Frame side p pc pv pk (T sl s BLACK sv sk sr) :: C)
                _ _ _ _ _ _ Ht) as Hn.
  assert (Some s ≠ Some a) as Hsa.
  { pose proof Ht as (_ & _ & Hnd)%is_tree_plug. intros [= ->]. revert Hnd.
    cbn [addrs ctx_addrs flat_map f_addr f_sib]. rewrite NoDup_app. set_solver. }
  destruct side.
  - pose proof (node_at cmp tree h C _ _ _ _ _ _ Ht) as Hp.
    pose proof (node_at cmp tree h (Frame RIGHT p pc pv pk (T tl a c tv tk tr) :: C)
                  _ _ _ _ _ _ Ht) as Hs.
    pose proof Ht as (((_ & _ & (_ & _ & Hrl & Hrr)) & _) & _ & _)%is_tree_plug.
    pose proof (node_color_rep _ _ _ _ Hrl) as Hnl. rewrite Hcl in Hnl.
    pose proof (node_color_rep _ _ _ _ Hrr) as Hnr. rewrite Hcr in Hnr.
    destruct (recolor_ok cmp tree RED h (Frame RIGHT p pc pv pk (T tl a c tv tk tr) :: C)
                _ _ _ _ _ _ Ht) as (h1 & Hc1 & Ht1 & Hfo1).
    pose proof (node_at cmp tree h1 C _ _ _ _ _ _ Ht1) as Hp1.
    destruct (recolor_ok cmp tree BLACK h1 C _ _ _ _ _ _ Ht1) as (h2 & Hc2 & Ht2 & Hfo2).
    destruct pc.
    + exists h2. split; [|split; [exact Ht2|eauto using fields_only_trans]].
      intros fuel. cbn [rbt_del_rebalance]. unfold andM. mrun.
    + exists h1. split; [|split; [exact Ht1|done]].
      intros fuel. cbn [rbt_del_rebalance]. unfold andM. mrun. reflexivity.
  - pose proof (node_at cmp tree h C _ _ _ _ _ _ Ht) as Hp.
    pose proof (node_at cmp tree h (Frame LEFT p pc pv pk (T tl a c tv tk tr) :: C)
                  _ _ _ _ _ _ Ht) as Hs.
    pose proof Ht as (((_ & _ & (_ & _ & Hrl & Hrr)) & _) & _ & _)%is_tree_plug.
    pose proof (node_color_rep _ _ _ _ Hrl) as Hnl. rewrite Hcl in Hnl.
    pose proof (node_color_rep _ _ _ _ Hrr) as Hnr. rewrite Hcr in Hnr.
    destruct (recolor_ok cmp tree RED h (Frame LEFT p pc pv pk (T tl a c tv tk tr) :: C)
                _ _ _ _ _ _ Ht) as (h1 & Hc1 & Ht1 & Hfo1).
    pose proof (node_at cmp tree h1 C _ _ _ _ _ _ Ht1) as Hp1.
    destruct (recolor_ok cmp tree BLACK h1 C _ _ _ _ _ _ Ht1) as (h2 & Hc2 & Ht2 & Hfo2).
    destruct pc.
    + exists h2. split; [|split; [exact Ht2|eauto using fields_only_trans]].
      intros fuel. cbn [rbt_del_rebalance]. unfold andM. mrun.
    + exists h1. split; [|split; [exact Ht1|done]].
      intros fuel. cbn [rbt_del_rebalance]. unfold andM. mrun. reflexivity.
Qed.

Ltac sib_ne Ht :=
  let Hnd := fresh in
  pose proof Ht as (_ & _ & Hnd)%is_tree_plug; intros [= ->]; revert Hnd;
  cbn [addrs ctx_addrs flat_map f_addr f_sib]; rewrite NoDup_app; set_solver.

(** The inside nibling is RED and the outside nibling BLACK. *)
Lemma del_inside_red_left h C tf a p pc pv pk il i iv ik ir s sv sk so :
  is_tree cmp tree h
    (plug (Frame LEFT p pc pv pk (T (T il i RED iv ik ir) s BLACK sv sk so) :: C) tf) ->
  ptr_of tf = Some a -> color_of so = BLACK ->
  ∃ h', (∀ fuel, rbt_del_rebalance (S fuel) (Some tree) (Some a) h
                 = rbt_del_rebalance fuel (Some tree) (Some a) h') ∧
        is_tree cmp tree h'
          (plug (Frame LEFT p pc pv pk (T il i BLACK iv ik (T ir s RED sv sk so)) :: C) tf) ∧
        fields_only h h'.
Proof.
  intros Ht Ha Hco. destruct tf as [|tl a' c tv tk tr]; [done|]. injection Ha as ->.
  set (P := Frame RIGHT p pc pv pk (T tl a c tv tk tr)).
  pose proof (node_at cmp tree h (Frame LEFT p pc pv pk (T (T il i RED iv ik ir) s BLACK sv sk so) :: C)
                _ _ _ _ _ _ Ht) as Hn.
  pose proof (node_at cmp tree h C _ _ _ _ _ _ Ht) as Hp.
  pose proof (node_at cmp tree h (P :: C) _ _ _ _ _ _ Ht) as Hs.
  pose proof (node_at cmp tree h (Frame LEFT s BLACK sv sk so :: P :: C) _ _ _ _ _ _ Ht) as Hi.
  pose proof Ht as (((_ & _ & (_ & _ & _ & Hro)) & _) & _ & _)%is_tree_plug.
  pose proof (node_color_rep _ _ _ _ Hro) as Hno. rewrite Hco in Hno.
  destruct (rotate_ok cmp tree RIGHT h (P :: C) _ s Ht eq_refl) as (h1 & Hrot & Ht1 & Hfo1);
    [done|]. cbn [rotate_tree] in Ht1.
  destruct (recolor_ok cmp tree RED h1 (Frame RIGHT i RED iv ik il :: P :: C) _ _ _ _ _ _ Ht1)
    as (h2 & Hc2 & Ht2 & Hfo2).
  destruct (recolor_ok cmp tree BLACK h2 (P :: C) _ _ _ _ _ _ Ht2) as (h3 & Hc3 & Ht3 & Hfo3).
  exists h3. split; [|split].
  - intros fuel. cbn [rbt_del_rebalance]. unfold andM. mrun. reflexivity.
  - exact Ht3.
  - eauto using fields_only_trans.
Qed.

Lemma del_inside_red_right h C tf a p pc pv pk il i iv ik ir s sv sk so :
  is_tree cmp tree h
    (plug (Frame RIGHT p pc pv pk (T so s BLACK sv sk (T il i RED iv ik ir)) :: C) tf) ->
  ptr_of tf = Some a -> color_of so = BLACK ->
  ∃ h', (∀ fuel, rbt_del_rebalance (S fuel) (Some tree) (Some a) h
                 = rbt_del_rebalance fuel (Some tree) (Some a) h') ∧
        is_tree cmp tree h'
          (plug (Frame RIGHT p pc pv pk (T (T so s RED sv sk il) i BLACK iv ik ir) :: C) tf) ∧
        fields_only h h'.
Proof.
  intros Ht Ha Hco. destruct tf as [|tl a' c tv tk tr]; [done|]. injection Ha as ->.
  set (P := Frame LEFT p pc pv pk (T tl a c tv tk tr)).
  pose proof (node_at cmp tree h (Frame RIGHT p pc pv pk (T so s BLACK sv sk (T il i RED iv ik ir)) :: C)
                _ _ _ _ _ _ Ht) as Hn.
  pose proof (node_at cmp tree h C _ _ _ _ _ _ Ht) as Hp.
  pose proof (node_at cmp tree h (P :: C) _ _ _ _ _ _ Ht) as Hs.
  pose proof (node_at cmp tree h (Frame RIGHT s BLACK sv sk so :: P :: C) _ _ _ _ _ _ Ht) as Hi.
  assert (Some s ≠ Some a) as Hsa by sib_ne Ht.
  pose proof Ht as (((_ & _ & (_ & _ & Hro & _)) & _) & _ & _)%is_tree_plug.
  pose proof (node_color_rep _ _ _ _ Hro) as Hno. rewrite Hco in Hno.
  destruct (rotate_ok cmp tree LEFT h (P :: C) _ s Ht eq_refl) as (h1 & Hrot & Ht1 & Hfo1);
    [done|]. cbn [rotate_tree] in Ht1.
  destruct (recolor_ok cmp tree RED h1 (Frame LEFT i RED iv ik ir :: P :: C) _ _ _ _ _ _ Ht1)
    as (h2 & Hc2 & Ht2 & Hfo2).
  destruct (recolor_ok cmp tree BLACK h2 (P :: C) _ _ _ _ _ _ Ht2) as (h3 & Hc3 & Ht3 & Hfo3).
  exists h3. split; [|split].
  - intros fuel. cbn [rbt_del_rebalance]. unfold andM. mrun. reflexivity.
  - exact Ht3.
  - eauto using fields_only_trans.
Qed.

(** The outside nibling is RED. *)
Lemma del_outside_red_left h C tf a p pc pv pk ol o ov ok or s sv sk si :
  is_tree cmp tree h
    (plug (Frame LEFT p pc pv pk (T si s BLACK sv sk (T ol o RED ov ok or)) :: C) tf) ->
  ptr_of tf = Some a ->
  ∃ h', (∀ fuel, rbt_del_rebalance (S fuel) (Some tree) (Some a) h = Ok (tt, h')) ∧
        is_tree cmp tree h'
          (plug (Frame LEFT p BLACK pv pk si
                 :: Frame LEFT s pc sv sk (T ol o BLACK ov ok or) :: C) tf) ∧
        fields_only h h'.
Proof.
  intros Ht Ha. destruct tf as [|tl a' c tv tk tr]; [done|]. injection Ha as ->.
  set (P := Frame RIGHT p pc pv pk (T tl a c tv tk tr)).
  pose proof (node_at cmp tree h (Frame LEFT p pc pv pk (T si s BLACK sv sk (T ol o RED ov ok or)) :: C)
                _ _ _ _ _ _ Ht) as Hn.
  pose proof (node_at cmp tree h C _ _ _ _ _ _ Ht) as Hp.
  pose proof (node_at cmp tree h (P :: C) _ _ _ _ _ _ Ht) as Hs.
  pose proof (node_at cmp tree h (Frame RIGHT s BLACK sv sk si :: P :: C) _ _ _ _ _ _ Ht) as Ho.
  pose proof Ht as (((_ & _ & (_ & _ & Hri & _)) & _) & _ & _)%is_tree_plug.
  pose proof (node_color_rep _ _ _ _ Hri) as Hni.
  destruct (rotate_ok cmp tree LEFT h C _ p Ht eq_refl) as (h1 & Hrot & Ht1 & Hfo1);
    [done|]. cbn [rotate_tree] in Ht1.
  pose proof (node_at cmp tree h1 (Frame LEFT s BLACK sv sk (T ol o RED ov ok or) :: C)
                _ _ _ _ _ _ Ht1) as Hp1.
  destruct (recolor_ok cmp tree pc h1 C _ _ _ _ _ _ Ht1) as (h2 & Hc2 & Ht2 & Hfo2).
  destruct (recolor_ok cmp tree BLACK h2 (Frame LEFT s pc sv sk (T ol o RED ov ok or) :: C)
              _ _ _ _ _ _ Ht2) as (h3 & Hc3 & Ht3 & Hfo3).
  destruct (recolor_ok cmp tree BLACK h3
              (Frame RIGHT s pc sv sk (T (T tl a c tv tk tr) p BLACK pv pk si) :: C)
              _ _ _ _ _ _ Ht3) as (h4 & Hc4 & Ht4 & Hfo4).
  exists h4. split; [|split].
  - intros fuel. cbn [rbt_del_rebalance]. unfold andM.
    destruct (color_of si); mrun.
  - exact Ht4.
  - eauto using fields_only_trans.
Qed.

Lemma del_outside_red_right h C tf a p pc pv pk ol o ov ok or s sv sk si :
  is_tree cmp tree h
    (plug (Frame RIGHT p pc pv pk (T (T ol o RED ov ok or) s BLACK sv sk si) :: C) tf) ->
  ptr_of tf = Some a ->
  ∃ h', (∀ fuel, rbt_del_rebalance (S fuel) (Some tree) (Some a) h = Ok (tt, h')) ∧
        is_tree cmp tree h'
          (plug (Frame RIGHT p BLACK pv pk si
                 :: Frame RIGHT s pc sv sk (T ol o BLACK ov ok or) :: C) tf) ∧
        fields_only h h'.
Proof.
  intros Ht Ha. destruct tf as [|tl a' c tv tk tr]; [done|]. injection Ha as ->.
  set (P := Frame LEFT p pc pv pk (T tl a c tv tk tr)).
  pose proof (node_at cmp tree h (Frame RIGHT p pc pv pk (T (T ol o RED ov ok or) s BLACK sv sk si) :: C)
                _ _ _ _ _ _ Ht) as Hn.
  pose proof (node_at cmp tree h C _ _ _ _ _ _ Ht) as Hp.
  pose proof (node_at cmp tree h (P :: C) _ _ _ _ _ _ Ht) as Hs.
  pose proof (node_at cmp tree h (Frame LEFT s BLACK sv sk si :: P :: C) _ _ _ _ _ _ Ht) as Ho.
  assert (Some s ≠ Some a) as Hsa by sib_ne Ht.
  pose proof Ht as (((_ & _ & (_ & _ & _ & Hri)) & _) & _ & _)%is_tree_plug.
  pose proof (node_color_rep _ _ _ _ Hri) as Hni.
  destruct (rotate_ok cmp tree RIGHT h C _ p Ht eq_refl) as (h1 & Hrot & Ht1 & Hfo1);
    [done|]. cbn [rotate_tree] in Ht1.
  pose proof (node_at cmp tree h1 (Frame RIGHT s BLACK sv sk (T ol o RED ov ok or) :: C)
                _ _ _ _ _ _ Ht1) as Hp1.
  destruct (recolor_ok cmp tree pc h1 C _ _ _ _ _ _ Ht1) as (h2 & Hc2 & Ht2 & Hfo2).
  destruct (recolor_ok cmp tree BLACK h2 (Frame RIGHT s pc sv sk (T ol o RED ov ok or) :: C)
              _ _ _ _ _ _ Ht2) as (h3 & Hc3 & Ht3 & Hfo3).
  destruct (recolor_ok cmp tree BLACK h3
              (Frame LEFT s pc sv sk (T si p BLACK pv pk (T tl a c tv tk tr)) :: C)
              _ _ _ _ _ _ Ht3) as (h4 & Hc4 & Ht4 & Hfo4).
  exists h4. split; [|split].
  - intros fuel. cbn [rbt_del_rebalance]. unfold andM.
    destruct (color_of si); mrun.
  - exact Ht4.
  - eauto using fields_only_trans.
Qed.
End del_steps.

Lemma color_cases c : c = RED ∨ c = BLACK.
Proof. destruct c; auto. Qed.

Lemma color_of_red t : color_of t = RED -> ∃ l a v k r, t = T l a RED v k r.
Proof. destruct t as [|l a c v k r]; [done|]. cbn. intros ->. by exists l, a, v, k, r. Qed.

Ltac nodes_same :=
  intros ?; cbn [plug fill f_side f_addr f_color f_contents f_key f_sib];
  apply nodes_plug; cbn [nodes];
  by repeat first [rewrite <- app_assoc | rewrite <- app_comm_cons].

Section del_fixup.
Context (cmp : comparator_t) (tree : addr).

(** The sibling is BLACK, and the parent or a nibling is RED: the fix-up
    ends within two calls. *)
Lemma del_black_sib side h C tf a d p pc pv pk sl s sv sk sr :
  let F := Frame side p pc pv pk (T sl s BLACK sv sk sr) in
  is_tree cmp tree h (plug (F :: C) tf) -> ptr_of tf = Some a ->
  ctx_ok (F :: C) (S d) ->
  pc = RED ∨ color_of sl = RED ∨ color_of sr = RED ->
  ∃ h' C', (∀ fuel, rbt_del_rebalance (S (S fuel)) (Some tree) (Some a) h = Ok (tt, h')) ∧
           fixed cmp tree h (F :: C) tf d h' C'.
Proof.
  intros F Ht Ha Hok Hred. unfold F in *. clear F. destruct side.
  - (* the node is a left child: the outside nibling is [sr] *)
    destruct (color_cases (color_of sr)) as [Hr|Hr].
    { apply color_of_red in Hr as (ol & o & ov & ok & or & ->).
      destruct (del_outside_red_left cmp tree h C tf a _ _ _ _ _ _ _ _ _ _ _ _ _ Ht Ha)
        as (h' & Hrun & Ht' & Hfo).
      eexists h', _. split; [intros fuel; apply Hrun|].
      split; [exact Ht'|]. split; [done|]. split; [by apply outside_red_left|]. nodes_same. }
    destruct (color_cases (color_of sl)) as [Hl|Hl].
    { apply color_of_red in Hl as (il & i & iv & ik & ir & ->).
      destruct (del_inside_red_left cmp tree h C tf a _ _ _ _ _ _ _ _ _ _ _ _ _ Ht Ha Hr)
        as (h1 & Hrun1 & Ht1 & Hfo1).
      destruct (del_outside_red_left cmp tree h1 C tf a _ _ _ _ _ _ _ _ _ _ _ _ _ Ht1 Ha)
        as (h' & Hrun & Ht' & Hfo).
      eexists h', _. split; [intros fuel; rewrite Hrun1; apply Hrun|].
      split; [exact Ht'|]. split; [by eapply fields_only_trans|].
      split; [by apply outside_red_left, inside_red_left|]. nodes_same. }
    destruct Hred as [->|[Hc|Hc]]; [|congruence..].
    destruct (del_both_black cmp tree LEFT h C tf a _ _ _ _ _ _ _ _ _ Ht Ha Hl Hr)
      as (h' & Hrun & Ht' & Hfo).
    eexists h', _. split; [intros fuel; apply Hrun|].
    split; [exact Ht'|]. split; [done|]. split; [by apply both_black_red_parent|]. nodes_same.
  - (* the node is a right child: the outside nibling is [sl] *)
    destruct (color_cases (color_of sl)) as [Hl|Hl].
    { apply color_of_red in Hl as (ol & o & ov & ok & or & ->).
      destruct (del_outside_red_right cmp tree h C tf a _ _ _ _ _ _ _ _ _ _ _ _ _ Ht Ha)
        as (h' & Hrun & Ht' & Hfo).
      eexists h', _. split; [intros fuel; apply Hrun|].
      split; [exact Ht'|]. split; [done|]. split; [by apply outside_red_right|]. nodes_same. }
    destruct (color_cases (color_of sr)) as [Hr|Hr].
    { apply color_of_red in Hr as (il & i & iv & ik & ir & ->).
      destruct (del_inside_red_right cmp tree h C tf a _ _ _ _ _ _ _ _ _ _ _ _ _ Ht Ha Hl)
        as (h1 & Hrun1 & Ht1 & Hfo1).
      destruct (del_outside_red_right cmp tree h1 C tf a _ _ _ _ _ _ _ _ _ _ _ _ _ Ht1 Ha)
        as (h' & Hrun & Ht' & Hfo).
      eexists h', _. split; [intros fuel; rewrite Hrun1; apply Hrun|].
      split; [exact Ht'|]. split; [by eapply fields_only_trans|].
      split; [by apply outside_red_right, inside_red_right|]. nodes_same. }
    destruct Hred as [->|[Hc|Hc]]; [|congruence..].
    destruct (del_both_black cmp tree RIGHT h C tf a _ _ _ _ _ _ _ _ _ Ht Ha Hl Hr)
      as (h' & Hrun & Ht' & Hfo).
    eexists h', _. split; [intros fuel; apply Hrun|].
    split; [exact Ht'|]. split; [done|]. split; [by apply both_black_red_parent|]. nodes_same.
Qed.

(** The sibling is RED: one rotation makes it the grandparent, and the
    fix-up ends within two more calls. *)
Lemma del_red_sib side h C tf a d p pc pv pk sl s sv sk sr :
  let F := Frame side p pc pv pk (T sl s RED sv sk sr) in
  is_tree cmp tree h (plug (F :: C) tf) -> ptr_of tf = Some a ->
  ctx_ok (F :: C) (S d) ->
  ∃ h' C', (∀ fuel, rbt_del_rebalance (S (S (S fuel))) (Some tree) (Some a) h = Ok (tt, h')) ∧
           fixed cmp tree h (F :: C) tf d h' C'.
Proof.
  intros F Ht Ha Hok. unfold F in *. clear F. destruct side.
  - destruct (red_sib_left _ _ _ _ _ _ _ _ _ _ _ Hok) as [Hok1 Hcl].
    pose proof (sib_not_leaf _ _ _ (proj1 Hok1)) as Hsl. cbn [f_sib] in Hsl.
    destruct sl as [|nl n nc nv nk nr]; [done|]. cbn [color_of] in Hcl. subst nc.
    destruct (del_red_sib_left cmp tree h C tf a _ _ _ _ _ _ _ _ _ Ht Ha)
      as (h1 & Hrun1 & Ht1 & Hfo1).
    destruct (del_black_sib LEFT h1 _ tf a d _ _ _ _ _ _ _ _ _ Ht1 Ha Hok1 (or_introl eq_refl))
      as (h' & C' & Hrun & Ht' & Hfo & Hok' & Hnodes).
    exists h', C'. split; [intros fuel; rewrite Hrun1; apply Hrun|].
    split; [exact Ht'|]. split; [by eapply fields_only_trans|]. split; [done|].
    intros x. rewrite Hnodes. revert x. nodes_same.
  - destruct (red_sib_right _ _ _ _ _ _ _ _ _ _ _ Hok) as [Hok1 Hcr].
    pose proof (sib_not_leaf _ _ _ (proj1 Hok1)) as Hsr. cbn [f_sib] in Hsr.
    destruct sr as [|nl n nc nv nk nr]; [done|]. cbn [color_of] in Hcr. subst nc.
    destruct (del_red_sib_right cmp tree h C tf a _ _ _ _ _ _ _ _ _ Ht Ha)
      as (h1 & Hrun1 & Ht1 & Hfo1).
    destruct (del_black_sib RIGHT h1 _ tf a d _ _ _ _ _ _ _ _ _ Ht1 Ha Hok1 (or_introl eq_refl))
      as (h' & C' & Hrun & Ht' & Hfo & Hok' & Hnodes).
    exists h', C'. split; [intros fuel; rewrite Hrun1; apply Hrun|].
    split; [exact Ht'|]. split; [by eapply fields_only_trans|]. split; [done|].
    intros x. rewrite Hnodes. revert x. nodes_same.
Qed.

(** The fix-up, in full. *)
Lemma rbt_del_rebalance_ok : ∀ C h tf a d,
  is_tree cmp tree h (plug C tf) -> ptr_of tf = Some a -> color_of tf = BLACK ->
  ctx_ok C (S d) ->
  ∃ h' C', (∀ fuel, (length C + 2 <= fuel)%nat ->
                    rbt_del_rebalance fuel (Some tree) (Some a) h = Ok (tt, h')) ∧
           fixed cmp tree h C tf d h' C'.
Proof.
  induction C as [|F C IH]; intros h tf a d Ht Ha Hc Hok.
  { destruct (del_root_ok cmp tree h tf a Ht Ha Hc) as (h' & Hrun & Ht' & Hfo).
    exists h', []. split.
    { intros [|fuel] H; [cbn in H; lia|]. apply Hrun. }
    split; [done|]. split; [done|]. split; [|done].
    destruct Hok as (_ & ? & ?). by split. }
  destruct F as [side p pc pv pk sib].
  pose proof (sib_not_leaf _ _ _ (proj1 Hok)) as Hsib. cbn [f_sib] in Hsib.
  destruct sib as [|sl s sc sv sk sr]; [done|].
  destruct sc.
  { destruct (del_red_sib side h C tf a d _ _ _ _ _ _ _ _ _ Ht Ha Hok)
      as (h' & C' & Hrun & Hfix).
    exists h', C'. split; [|done].
    intros [|[|[|fuel]]] H; cbn [length] in H; try lia. apply Hrun. }
  destruct (color_cases pc) as [Hpc|Hpc]; [|destruct (color_cases (color_of sl)) as [Hl|Hl];
    [|destruct (color_cases (color_of sr)) as [Hr|Hr]]].
  1-3: destruct (del_black_sib side h C tf a d _ _ _ _ _ _ _ _ _ Ht Ha Hok ltac:(tauto))
         as (h' & C' & Hrun & Hfix);
       exists h', C'; (split; [|done]);
       intros [|[|fuel]] H; cbn [length] in H; try lia; apply Hrun.
  subst pc.
  destruct (both_black_black_parent _ _ _ _ _ _ _ _ _ _ _ Hok Hl Hr) as [Hok1 Hback].
  destruct (del_both_black cmp tree side h C tf a _ _ _ _ _ _ _ _ _ Ht Ha Hl Hr)
    as (h1 & Hrun1 & Ht1 & Hfo1).
  destruct (IH h1 (fill (Frame side p BLACK pv pk (T sl s RED sv sk sr)) tf) p (S d))
    as (h' & C' & Hrun & Ht' & Hfo & Hok' & Hnodes); [exact Ht1|by destruct side|by destruct side|done|].
  exists h', (Frame side p BLACK pv pk (T sl s RED sv sk sr) :: C').
  split; [|split; [|split; [|split]]].
  - intros [|fuel] H; cbn [length] in H; [lia|]. rewrite Hrun1. apply Hrun. lia.
  - exact Ht'.
  - by eapply fields_only_trans.
  - by apply Hback.
  - intros x. cbn [plug]. rewrite Hnodes. apply nodes_plug.
    destruct side; cbn [fill f_side f_addr f_color f_contents f_key f_sib nodes]; done.
Qed.
End del_fixup.

Lemma height_plug C t : (length C + height t <= height (plug C t))%nat.
Proof.
  revert t. induction C as [|F C IH]; intros t; cbn [plug length]; [lia|].
  etrans; [|apply IH]. destruct F as [[] a c v k s]; cbn [fill f_side height]; lia.
Qed.

Lemma ctx_ok_of_tree C t d :
  red_black (plug C t) -> color_of (plug C t) = BLACK ->
  black_height t = Some d -> color_of t = BLACK -> ctx_ok C d.
Proof.
  intros [Hrr Hbh] Hroot Hd Hc. split; [|split].
  - by rewrite black_height_plug_eq, Hd in Hbh.
  - apply no_red_red_plug_iff in Hrr as [_ Hrr]. by rewrite Hc in Hrr.
  - destruct C as [|F C]; [done|]. by eapply ctx_root_black_plug.
Qed.

Lemma tree_of_ctx_ok C :
  ctx_ok C 0 -> red_black (plug C Leaf) ∧ color_of (plug C Leaf) = BLACK.
Proof.
  intros (Hbh & Hrr & Hroot). split; [split|].
  - apply no_red_red_plug_iff. by split.
  - by rewrite black_height_plug_eq.
  - by apply color_of_plug_black.
Qed.

Lemma bst_plug_leaf f C t : total_preorder f -> bst f (plug C t) -> bst f (plug C Leaf).
Proof.
  intros Hf. rewrite !bst_sorted, !keys_nodes, !nodes_plug_split by done.
  cbn [nodes app]. rewrite !fmap_app. rewrite !(StronglySorted_app _ (ctx_before C).*2).
  intros (H1 & H2 & (_ & _ & H3)%StronglySorted_app). split; [|done].
  intros x1 x2 Hx1 Hx2. apply H1; [done|]. set_solver.
Qed.

Section del_black_leaf.
Context (cmp : comparator_t) (tree : addr).

Lemma delete_black_leaf_ok fuel h C n b k :
  let t0 := T Leaf n BLACK (Some b) k Leaf in
  is_tree cmp tree h (plug C t0) -> node_owned h (n, Some b, k) ->
  NoDup (tree :: cells (plug C t0)) -> ctx_ok C 1 ->
  (length C + 1 <= fuel)%nat ->
  ∃ h' C', rbt_delete_node (S fuel) (Some tree) (Some n) h = Ok (tt, h') ∧
           is_tree cmp tree h' (plug C' Leaf) ∧ ctx_ok C' 0 ∧
           (∀ x, nodes (plug C' x) = nodes (plug C x)) ∧
           h' !! n = None ∧ h' !! b = None ∧
           fields_only (delete n (delete b h)) h'.
Proof.
  intros t0 Ht Hown Hnd Hok Hfuel.
  destruct (rbt_del_rebalance_ok cmp tree C h t0 n 0%nat Ht eq_refl eq_refl Hok)
    as (h1 & C' & Hrun & Ht1 & Hfo1 & Hok' & Hnodes).
  destruct (doomed_apart tree _ (plug C' Leaf) n b k Hnd)
    as (Hnt & Hbt & Hnb & Hn1 & Hb1 & Hc1).
  { rewrite Hnodes, !nodes_plug_split. cbn [nodes app]. solve_submseteq. }
  pose proof (node_at cmp tree h C _ _ _ _ _ _ Ht) as Hn.
  pose proof (node_at cmp tree h1 C' _ _ _ _ _ _ Ht1) as Hn'.
  pose proof (unlink_ok _ _ _ _ _ Ht1) as Ht2.
  pose proof Ht1 as (HC1 & _ & Hnd1)%is_tree_plug. cbn [ptr_of t0] in HC1.
  assert (n ∉ ctx_addrs C') as HnC by (cbn [addrs t0 app] in Hnd1; by_nodup Hnd1).
  pose proof (fields_only_set_hole cmp tree h1 C' _ NULL HC1) as Hfo2.
  destruct Hown as ((o & Ho & Hrc & Hfin) & (b' & ob & [= <-] & Hob & Hrcb & Hfinb)).
  cbn [fst snd] in Ho.
  destruct (fields_only_header _ _ _ _ Hfo1 Ho) as (o1 & Ho1 & Hrc1 & Hfin1).
  destruct (fields_only_header _ _ _ _ Hfo1 Hob) as (ob1 & Hob1 & Hrcb1 & Hfinb1).
  assert (b ∉ ctx_addrs C') as HbC.
  { intros Hin. apply Hb1. rewrite addrs_plug. set_solver. }
  set (h2 := set_hole cmp tree C' NULL h1) in *.
  assert (node_of h2 n = Some (mk_node NULL NULL (ctx_parent C') BLACK (Some b))) as Hn2.
  { unfold h2. by erewrite node_of_set_hole. }
  exists (delete n (delete b h2)), C'.
  split; [|split; [|split; [|split; [|split; [|split]]]]]; try done.
  - cbn [rbt_delete_node]. mstep. mstep. mstep. cbn [andb]. mstep. cbv iota.
    unfold orM. mrun.
    rewrite (bind_Ok _ _ _ _ _ (Hrun (S fuel) ltac:(lia))).
    mrun.
    rewrite (bind_Ok _ _ _ _ _ (set_hole_ok_right cmp tree h1 C' n NULL HC1 HnC)).
    fold h2. mrun.
    destruct fuel as [|fuel]; [lia|].
    match goal with |- mem_release _ _ ?g = _ =>
      eapply (finish_delete fuel n b _ ob1 g h2) end;
      [apply node_of_upd_eq|done|done|done| | |lia|congruence|done|].
    + rewrite !header_of_upd. unfold h2. rewrite header_of_set_hole. unfold header_of.
      rewrite Ho1. f_equal; congruence.
    + rewrite !lookup_upd_ne by done. unfold h2. by rewrite lookup_set_hole_ne.
    + intros x Hx. by rewrite !(lookup_upd_ne n) by done.
  - by apply is_tree_delete.
  - apply lookup_delete_eq.
  - rewrite lookup_delete_ne by done. apply lookup_delete_eq.
  - do 2 apply fields_only_delete. by eapply fields_only_trans.
Qed.

(** X16. [rbt_delete] of a value whose search stops at a BLACK node without
    children, in a tree that satisfies the color invariants: the delete
    ends normally, and the heap then holds a tree with a BLACK root that
    satisfies the color invariants again; its nodes in order are those of
    the tree before without the deleted one, so a search tree stays a
    search tree. The node is freed with its contents, and every other
    object keeps its count and finalizer. *)
Theorem rbt_delete_black_leaf (fuel : nat) (h : heap) (C : ctx) (n b : addr) (k : Z)
    (value : ptr) (kv : Z) :
  let t := plug C (T Leaf n BLACK (Some b) k Leaf) in
  is_tree cmp tree h t -> node_owned h (n, Some b, k) -> NoDup (tree :: cells t) ->
  red_black t -> color_of t = BLACK ->
  key_of cmp h value = Some kv -> search (cmp_fun cmp) kv t = Some n ->
  (height t <= fuel)%nat ->
  ∃ h' t', rbt_delete (S fuel) (Some tree) value h = Ok (tt, h') ∧
           is_tree cmp tree h' t' ∧
           red_black t' ∧ color_of t' = BLACK ∧
           nodes t' = nodes (plug C Leaf) ∧
           (total_preorder (cmp_fun cmp) -> bst (cmp_fun cmp) t -> bst (cmp_fun cmp) t') ∧
           h' !! n = None ∧ h' !! b = None ∧
           fields_only (delete n (delete b h)) h'.
Proof.
  intros t Ht Hown Hnd Hrb Hroot Hk Hs Hfuel.
  rewrite (rbt_delete_found cmp tree (S fuel) h t value kv n Ht Hk ltac:(lia) Hs).
  pose proof (height_plug C (T Leaf n BLACK (Some b) k Leaf)) as Hh.
  cbn [height] in Hh. fold t in Hh.
  assert (ctx_ok C 1) as Hok by (by eapply (ctx_ok_of_tree C _ 1%nat Hrb Hroot)).
  destruct (delete_black_leaf_ok fuel h C n b k Ht Hown Hnd Hok ltac:(lia))
    as (h' & C' & Hrun & Ht' & Hok' & Hnodes & Hn & Hb & Hfo).
  destruct (tree_of_ctx_ok C' Hok') as [Hrb' Hroot'].
  exists h', (plug C' Leaf). do 5 (split; [done|]). split; [|done].
  intros Hf Hbst. eapply bst_nodes; [done|apply Hnodes|]. by eapply bst_plug_leaf.
Qed.
End del_black_leaf.

(** The tree holding 1, 2, 3 and 4 (root 2, its children 1 and 3 BLACK,
    4 RED below 3) and a box holding 1, which is deleted. *)
Lemma rbt_delete_black_leaf_witness :
  let h := heap_after (build 10 [Ins 1; Ins 2; Ins 3; Ins 4];;; mem_box 1) in
  ∃ h' t', rbt_delete 4 (Some 1%positive) (Some 10%positive) h = Ok (tt, h') ∧
           is_tree (Fn_unbox_compare int_compare) 1%positive h' t' ∧
           red_black t' ∧ (nodes t').*2 = [2; 3; 4].
Proof.
  intros h.
  destruct (rbt_delete_black_leaf (Fn_unbox_compare int_compare) 1%positive 3 h
              [Frame LEFT 5%positive BLACK (Some 4%positive) 2
                 (T Leaf 7%positive BLACK (Some 6%positive) 3
                    (T Leaf 9%positive RED (Some 8%positive) 4 Leaf))]
              3%positive 2%positive 1 (Some 10%positive) 1)
    as (h' & t' & Hrun & Ht & Hrb & _ & Hnodes & _).
  - repeat split; try (vm_compute; reflexivity).
    apply (bool_decide_unpack _). vm_compute. exact I.
  - eapply node_owned_intro; vm_compute; reflexivity.
  - apply (bool_decide_unpack _). vm_compute. exact I.
  - split; [cbn; intuition congruence|vm_compute; eauto].
  - reflexivity.
  - vm_compute. reflexivity.
  - vm_compute. reflexivity.
  - cbn. lia.
  - exists h', t'. split; [exact Hrun|]. split; [exact Ht|]. split; [exact Hrb|].
    rewrite Hnodes. reflexivity.
Defined.

(** ** Deleting a node with two children whose left child is a RED leaf *)

Lemma node_of_with_count a c h x : node_of (with_count a c h) x = node_of h x.
Proof.
  unfold node_of, with_count. destruct (decide (a = x)) as [<-|Hne].
  - rewrite lookup_alter_eq. by destruct (h !! a).
  - by rewrite lookup_alter_ne.
Qed.

Lemma upd_with_count a x r c (h : heap) :
  is_Some (h !! r) -> upd a x (with_count r c h) = with_count r c (upd a x h).
Proof.
  intros [o Ho]. unfold upd, with_count, header_of.
  destruct (decide (a = r)) as [->|Hne].
  - rewrite lookup_alter_eq, Ho. cbn. apply map_eq. intros y.
    destruct (decide (y = r)) as [->|Hy].
    + by rewrite lookup_insert_eq, lookup_alter_eq, lookup_insert_eq.
    + by rewrite lookup_insert_ne, !lookup_alter_ne, lookup_insert_ne by done.
  - rewrite lookup_alter_ne by done. apply map_eq. intros y.
    destruct (decide (y = r)) as [Hy|Hy]; [subst y|destruct (decide (y = a)) as [Hya|Hya]; [subst y|]].
    + by rewrite lookup_insert_ne, !lookup_alter_eq, lookup_insert_ne by done.
    + by rewrite lookup_insert_eq, lookup_alter_ne, lookup_insert_eq by done.
    + by rewrite lookup_insert_ne, !lookup_alter_ne, lookup_insert_ne by done.
Qed.

Lemma live_upd a x (h : heap) r : is_Some (h !! r) -> is_Some (upd a x h !! r).
Proof.
  intros H. destruct (decide (a = r)) as [->|Hne].
  - rewrite lookup_upd_same. eauto.
  - by rewrite lookup_upd_ne.
Qed.

Lemma mem_retain_with_count a o (h : heap) :
  h !! a = Some o -> INT_MIN <= refcount o < INT_MAX ->
  mem_retain (Some a) h = Ok (Some a, with_count a (refcount o + 1) h).
Proof.
  intros H Hrc. rewrite (mem_retain_Some a o h H Hrc). do 2 f_equal.
  unfold with_count. apply map_eq. intros y. destruct (decide (y = a)) as [->|Hy].
  - by rewrite lookup_insert_eq, lookup_alter_eq, H.
  - by rewrite lookup_insert_ne, lookup_alter_ne.
Qed.

Lemma release_with_count fuel a o (h : heap) :
  h !! a = Some o -> 1 <= refcount o < INT_MAX ->
  mem_release (S fuel) (Some a) (with_count a (refcount o + 1) h) = Ok (tt, h).
Proof.
  intros H Hrc.
  rewrite (mem_release_shared fuel a (mk_obj (refcount o + 1) (p_finalize o) (payload o))).
  - do 2 f_equal. cbn [refcount p_finalize payload]. unfold with_count.
    apply map_eq. intros y. destruct (decide (y = a)) as [->|Hy].
    + rewrite lookup_insert_eq, H. destruct o. cbn. do 2 f_equal. lia.
    + by rewrite lookup_insert_ne, lookup_alter_ne.
  - unfold with_count. by rewrite lookup_alter_eq, H.
  - cbn. lia.
Qed.

Lemma release_retained fuel a c (g : heap) :
  is_Some (g !! a) -> (header_of g a).1 = c -> 1 <= c < INT_MAX ->
  mem_release (S fuel) (Some a) (with_count a (c + 1) g) = Ok (tt, g).
Proof.
  intros [o Ho] Hc Hrc. unfold header_of in Hc. rewrite Ho in Hc. cbn in Hc. subst c.
  by apply release_with_count.
Qed.

Lemma ptr_eqb_sym p q : ptr_eqb p q = ptr_eqb q p.
Proof. unfold ptr_eqb. apply bool_decide_ext. split; congruence. Qed.

Section two_children.
Context (cmp : comparator_t) (tree : addr).

(** The relinking at the end of the two-children branch of
    [rbt_delete_node]. *)
Lemma set_hole_ok_left h C a new :
  rep_ctx cmp tree h C (Some a) -> a ∉ ctx_addrs C ->
  (if is_null (ctx_parent C) then set_root (Some tree) new
   else
     let* pl := get_left (ctx_parent C) in
     if ptr_eqb (Some a) pl then set_left (ctx_parent C) new
     else set_right (ctx_parent C) new) h
  = Ok (tt, set_hole cmp tree C new h).
Proof.
  intros HC Ha. rewrite <- (set_hole_ok cmp tree h C a new HC Ha).
  destruct (is_null (ctx_parent C)); [done|].
  unfold bind. destruct (get_left (ctx_parent C) h) as [[pl h1]| |]; [|done..].
  by rewrite ptr_eqb_sym.
Qed.

(** [rbt_delete_node] on a retained RED leaf that is the left child of its
    parent: the node is unlinked and cleared, and keeps the reference it
    had before [mem_retain]. *)
Lemma delete_retained_red_left_leaf g h C p pc pv pk s r rv rk o :
  let F := Frame LEFT p pc pv pk s in
  is_tree cmp tree h (plug (F :: C) (T Leaf r RED rv rk Leaf)) ->
  h !! r = Some o -> 1 <= refcount o < INT_MAX ->
  rbt_delete_node (S g) (Some tree) (Some r) (with_count r (refcount o + 1) h)
  = Ok (tt, upd r (Node (mk_node NULL NULL NULL RED rv))
              (set_hole cmp tree (F :: C) NULL h)).
Proof.
  intros F Ht Ho Hrc. unfold F in *. clear F.
  pose proof (node_at cmp tree h (Frame LEFT p pc pv pk s :: C) _ _ _ _ _ _ Ht) as Hr.
  pose proof (node_at cmp tree h C _ _ _ _ _ _ Ht) as Hp.
  pose proof Ht as (_ & _ & Hnd)%is_tree_plug.
  cbn [addrs app ctx_addrs flat_map f_addr f_sib] in Hnd. fold (ctx_addrs C) in Hnd.
  assert (p ≠ r) as Hpr by (by_nodup Hnd).
  assert (ptr_of s ≠ Some r) as Hsr by (apply ptr_of_ne; by_nodup Hnd).
  set (h0 := with_count r (refcount o + 1) h).
  assert (node_of h0 r = Some (mk_node NULL NULL (Some p) RED rv)) as Hr0
    by (unfold h0; by rewrite node_of_with_count).
  assert (node_of h0 p = Some (mk_node (Some r) (ptr_of s) (ctx_parent C) pc pv)) as Hp0
    by (unfold h0; by rewrite node_of_with_count).
  cbn [ptr_of ctx_parent f_addr] in *.
  cbn [rbt_delete_node]. mrun. cbn [andb]. mrun.
  unfold h0. rewrite !upd_with_count by (repeat apply live_upd; eauto).
  rewrite release_retained.
  - do 2 f_equal. cbn [set_hole frame_node f_side f_addr f_sib f_color f_contents ctx_parent].
    by rewrite !upd_upd.
  - repeat apply live_upd. eauto.
  - rewrite !header_of_upd. unfold header_of. by rewrite Ho.
  - done.
Qed.
End two_children.

Section two_children_top.
Context (cmp : comparator_t) (tree : addr).

Lemma delete_two_children_red_left_ok fuel h C r rv rk rl ra rc rrv rrk rr n c b k o :
  let t := plug C (T (T Leaf r RED rv rk Leaf) n c (Some b) k (T rl ra rc rrv rrk rr)) in
  is_tree cmp tree h t -> node_owned h (n, Some b, k) ->
  h !! r = Some o -> 1 <= refcount o < INT_MAX ->
  NoDup (tree :: cells t) -> (1 <= fuel)%nat ->
  ∃ h', rbt_delete_node (S fuel) (Some tree) (Some n) h = Ok (tt, h') ∧
        is_tree cmp tree h' (plug C (T Leaf r c rv rk (T rl ra rc rrv rrk rr))) ∧
        h' !! n = None ∧ h' !! b = None ∧
        fields_only (delete n (delete b h)) h'.
Proof.
  intros t Ht Hor Ho Hrc Hnd Hfuel. unfold t in *. clear t.
  destruct (doomed_apart tree _ (plug C (T Leaf r c rv rk (T rl ra rc rrv rrk rr))) n b k Hnd)
    as (Hnt & Hbt & Hnb & Hn1 & Hb1 & Hc1).
  { rewrite !nodes_plug_split. cbn [nodes app]. rewrite <- !app_assoc. cbn [app].
    solve_submseteq. }
  pose proof Ht as (HC & Hrep & Hnd')%is_tree_plug.
  destruct Hrep as (Hn & Hk & (Hr & Hrk & _) & (Hra & Hrak & Hrl & Hrr)).
  cbn [ptr_of] in Hn, Hr, Hra. cbn [addrs app] in Hnd'.
  assert (r ≠ n) as Hrn by (by_nodup Hnd').
  assert (ra ≠ n) as Hran by (by_nodup Hnd').
  assert (ra ≠ r) as Hrar by (by_nodup Hnd').
  assert (n ∉ ctx_addrs C) as HnC by (by_nodup Hnd').
  assert (r ∉ ctx_addrs C) as HrC by (by_nodup Hnd').
  assert (ra ∉ ctx_addrs C) as HraC by (by_nodup Hnd').
  assert (NoDup (ctx_addrs C)) as HndC by (by_nodup Hnd').
  destruct Hor as ((on & Hon & Hrcn & Hfinn) & (b' & ob & [= <-] & Hob & Hrcb & Hfinb)).
  cbn [fst snd] in Hon.
  assert (r ≠ b ∧ ra ≠ b ∧ b ∉ ctx_addrs C) as (Hrb & Hrab & HbC).
  { rewrite addrs_plug in Hb1. cbn [addrs app] in Hb1. set_solver. }
  pose proof (delete_retained_red_left_leaf cmp tree) as Hinner.
  set (h8 := upd r (Node (mk_node NULL (Some ra) (ctx_parent C) c rv))
               (upd ra (Node (mk_node (ptr_of rl) (ptr_of rr) (Some r) rc rrv))
                  (upd r (Node (mk_node NULL NULL NULL RED rv))
                     (upd n (Node (mk_node NULL (Some ra) (ctx_parent C) c (Some b))) h)))).
  assert (is_node h n ∧ is_node h r ∧ is_node h ra) as (Hin & Hir & Hira)
    by (unfold is_node; eauto).
  assert (fields_only h h8) as Hfo8 by (unfold h8; fo_solve).
  assert (rep_ctx cmp tree h8 C (Some n)) as HC8.
  { unfold h8. repeat (apply rep_ctx_upd_node; [done|is_node_solve|]). done. }
  set (h9 := set_hole cmp tree C (Some r) h8).
  assert (fields_only h h9) as Hfo9.
  { eapply fields_only_trans; [exact Hfo8|]. by eapply fields_only_set_hole. }
  assert (is_tree cmp tree h9 (plug C (T Leaf r c rv rk (T rl ra rc rrv rrk rr)))) as Ht9.
  { apply is_tree_plug. split; [|split].
    - by eapply rep_ctx_set_hole.
    - eapply rep_set_hole; [exact HC8| |].
      + intros x Hx. revert x Hx. cbn [addrs app]. by_nodup Hnd'.
      + cbn [rep ptr_of]. unfold h8. node_simpl.
        repeat split; try done; try (by eapply (fields_only_keys _ _ _ Hfo8));
          rep_frame_solve Hnd'.
    - cbn [addrs app]. by_nodup Hnd'. }
  exists (delete n (delete b h9)).
  split; [|split; [|split; [|split]]].
  - cbn [rbt_delete_node]. mstep. mstep. mstep. cbn [andb]. cbv iota.
    cbn [rightmost_descendent]. mrun.
    rewrite (bind_Ok _ _ _ _ _ (mem_retain_with_count r o h Ho ltac:(unfold INT_MIN; lia))).
    destruct fuel as [|f2]; [lia|].
    rewrite bind_assoc.
    rewrite (bind_Ok _ _ _ _ _ (Hinner f2 h C n c (Some b) k _ r rv rk o Ht Ho Hrc)).
    cbn [set_hole frame_node f_side f_addr f_sib f_color f_contents ctx_parent ptr_of].
    mrun.
    rewrite !upd_upd.
    cbn [with_color with_parent with_right with_left]. fold h8.
    rewrite (bind_Ok _ _ _ _ _ (set_hole_ok_left cmp tree h8 C n (Some r) HC8 HnC)).
    fold h9.
    assert (node_of h9 n = Some (mk_node NULL (Some ra) (ctx_parent C) c (Some b))) as Hn9.
    { unfold h9. erewrite node_of_set_hole; [|exact HC8|done]. unfold h8. by node_simpl. }
    mrun.
    match goal with |- mem_release _ _ ?g = _ =>
      eapply (finish_delete f2 n b _ ob g h9) end;
      [apply node_of_upd_eq|done|done|done| | |done|done|done|].
    + rewrite !header_of_upd. unfold h9. rewrite header_of_set_hole. unfold h8.
      rewrite !header_of_upd. unfold header_of. by rewrite Hon, Hrcn, Hfinn.
    + rewrite !lookup_upd_ne by done. unfold h9. rewrite lookup_set_hole_ne by done.
      unfold h8. by rewrite !lookup_upd_ne.
    + intros x Hx. by rewrite !(lookup_upd_ne n) by done.
  - by apply is_tree_delete.
  - apply lookup_delete_eq.
  - rewrite lookup_delete_ne by done. apply lookup_delete_eq.
  - by do 2 apply fields_only_delete.
Qed.

(** X17. [rbt_delete] of a value whose search stops at a node with two
    children whose left child is a RED node without children: that child
    is the replacement. It is retained, unlinked, and put in the place of
    the node with the color of the node; the node is freed with its
    contents, and the replacement has the count it had before. The color
    invariants are kept. *)
Theorem rbt_delete_two_children_red_left (fuel : nat) (h : heap) (C : ctx)
    (r : addr) (rv : ptr) (rk : Z) (R : ntree) (n : addr) (c : rbt_color_t)
    (b : addr) (k : Z) (value : ptr) (kv : Z) :
  let t := plug C (T (T Leaf r RED rv rk Leaf) n c (Some b) k R) in
  let t' := plug C (T Leaf r c rv rk R) in
  R ≠ Leaf ->
  is_tree cmp tree h t -> node_owned h (n, Some b, k) ->
  1 <= (header_of h r).1 < INT_MAX ->
  NoDup (tree :: cells t) ->
  key_of cmp h value = Some kv -> search (cmp_fun cmp) kv t = Some n ->
  (height t <= fuel)%nat ->
  ∃ h', rbt_delete (S fuel) (Some tree) value h = Ok (tt, h') ∧
        is_tree cmp tree h' t' ∧
        (red_black t -> red_black t') ∧
        h' !! n = None ∧ h' !! b = None ∧
        fields_only (delete n (delete b h)) h'.
Proof.
  intros t t' HR Ht Hown Hrc Hnd Hk Hs Hfuel.
  rewrite (rbt_delete_found cmp tree (S fuel) h t value kv n Ht Hk ltac:(lia) Hs).
  destruct R as [|rl ra rc rrv rrk rr]; [done|].
  pose proof (height_plug C (T (T Leaf r RED rv rk Leaf) n c (Some b) k (T rl ra rc rrv rrk rr)))
    as Hh. cbn [height] in Hh. fold t in Hh.
  unfold header_of in Hrc. destruct (h !! r) as [o|] eqn:Ho; [|cbn in Hrc; lia].
  cbn [fst] in Hrc.
  destruct (delete_two_children_red_left_ok fuel h C r rv rk rl ra rc rrv rrk rr n c b k o
              Ht Hown Ho Hrc Hnd ltac:(lia)) as (h' & Hrun & Ht' & Hn & Hb & Hfo).
  exists h'. split; [done|]. split; [done|]. split; [|done].
  intros [Hrr Hbh]. apply no_red_red_plug_iff in Hrr as [Hrr HC].
  cbn [no_red_red color_of] in Hrr, HC.
  apply (red_black_plug C _ _ Hbh).
  - cbn [black_height]. by destruct (black_height rl), (black_height rr).
  - cbn [no_red_red color_of]. intuition congruence.
  - done.
Qed.
End two_children_top.

(** The tree holding 1, 2 and 3 (root 2, its children RED) and a box
    holding 2, which is deleted: 1 takes the place of the root. *)
Lemma rbt_delete_two_children_red_left_witness :
  let h := heap_after (build 10 [Ins 2; Ins 1; Ins 3];;; mem_box 2) in
  ∃ h', rbt_delete 3 (Some 1%positive) (Some 8%positive) h = Ok (tt, h') ∧
        is_tree (Fn_unbox_compare int_compare) 1%positive h'
          (T Leaf 5%positive BLACK (Some 4%positive) 1
             (T Leaf 7%positive RED (Some 6%positive) 3 Leaf)).
Proof.
  intros h.
  destruct (rbt_delete_two_children_red_left (Fn_unbox_compare int_compare) 1%positive 2 h []
              5%positive (Some 4%positive) 1
              (T Leaf 7%positive RED (Some 6%positive) 3 Leaf)
              3%positive BLACK 2%positive 2 (Some 8%positive) 2)
    as (h' & Hrun & Ht & _).
  - done.
  - repeat split; try (vm_compute; reflexivity).
    apply (bool_decide_unpack _). vm_compute. exact I.
  - eapply node_owned_intro; vm_compute; reflexivity.
  - vm_compute. split; [discriminate|reflexivity].
  - apply (bool_decide_unpack _). vm_compute. exact I.
  - vm_compute. reflexivity.
  - vm_compute. reflexivity.
  - cbn. lia.
  - exists h'. split; [exact Hrun|exact Ht].
Defined.

(** ** The validator on any well-formed tree *)

Lemma returns_ret {A} (a : A) h (P : A -> Prop) : P a -> returns (ret a) h h P.
Proof. intros H. by exists a. Qed.

Lemma returns_bind {A B} (m : M A) (k : A -> M B) h h1 h2 a (P : B -> Prop) :
  m h = Ok (a, h1) -> returns (k a) h1 h2 P -> returns (bind m k) h h2 P.
Proof. intros Hm (b & Hk & HP). exists b. by rewrite (bind_Ok _ _ _ _ _ Hm). Qed.

Lemma returns_bind_ex {A B} (m : M A) (k : A -> M B) h h1 h2
    (Q : A -> Prop) (P : B -> Prop) :
  returns m h h1 Q -> (∀ a, Q a -> returns (k a) h1 h2 P) -> returns (bind m k) h h2 P.
Proof. intros (a & Hm & HQ) Hk. eapply returns_bind; [exact Hm|]. by apply Hk. Qed.

Lemma returns_bind_assoc {A B C} (m : M A) (k1 : A -> M B) (k2 : B -> M C) h h'
    (P : C -> Prop) :
  returns (bind m (fun a => bind (k1 a) k2)) h h' P -> returns (bind (bind m k1) k2) h h' P.
Proof. intros (c & H & HP). exists c. by rewrite bind_assoc. Qed.

Lemma andM_both (a b : M bool) h x y :
  a h = Ok (x, h) -> b h = Ok (y, h) -> andM a b h = Ok (x && y, h).
Proof. intros Ha Hb. rewrite (andM_Ok _ _ _ _ _ Ha). by destruct x. Qed.

Lemma gtb_false x y : (x >? y) = false -> x <= y.
Proof. destruct (Z.gtb_spec x y); [done|lia]. Qed.

Lemma status_eqb_ne st : st ≠ OK -> status_eqb st OK = false.
Proof. intros H. unfold status_eqb. by rewrite bool_decide_eq_false_2. Qed.

Lemma black_count_bounds t : -1 <= black_count t <= Z.of_nat (height t).
Proof.
  induction t as [|l IHl a c v k r IHr]; cbn [black_count height]; [lia|].
  destruct (black_count l =? black_count r); cbn [negb]; [|lia].
  destruct c; lia.
Qed.

Lemma black_count_balanced t n : black_height t = Some n -> black_count t = Z.of_nat n.
Proof.
  revert n. induction t as [|l IHl a c v k r IHr]; intros n; cbn [black_height black_count].
  { by intros [= <-]. }
  destruct (black_height l) as [nl|]; [|done].
  destruct (black_height r) as [nr|]; [|done].
  case_decide; [subst nr|done].
  rewrite (IHl _ eq_refl), (IHr _ eq_refl), Z.eqb_refl. cbn [negb].
  destruct c; intros [= <-]; lia.
Qed.

Lemma count_black_nodes_exact cmp : ∀ t fuel h par,
  rep cmp h par t -> (height t < fuel)%nat -> Z.of_nat (height t) < INT_MAX ->
  count_black_nodes_to_leaf fuel (ptr_of t) h = Ok (black_count t, h).
Proof.
  induction t as [|l IHl a c v k r IHr]; intros fuel h par Hrep Hfuel Hmax;
    (destruct fuel as [|fuel]; [lia|]); [done|].
  cbn [height] in *. destruct Hrep as (Hn & Hk & Hl & Hr).
  cbn [count_black_nodes_to_leaf ptr_of is_null black_count].
  rewrite (bind_Ok _ _ _ _ _ (get_left_ok _ _ _ Hn)). cbn [left].
  rewrite (bind_Ok _ _ _ _ _ (IHl fuel h _ Hl ltac:(lia) ltac:(lia))).
  rewrite (bind_Ok _ _ _ _ _ (get_right_ok _ _ _ Hn)). cbn [right].
  rewrite (bind_Ok _ _ _ _ _ (IHr fuel h _ Hr ltac:(lia) ltac:(lia))).
  destruct (black_count l =? black_count r); cbn [negb]; [|done].
  rewrite (bind_Ok _ _ _ _ _ (get_color_ok _ _ _ Hn)). cbn [color].
  destruct c; [done|].
  change (color_eqb BLACK BLACK) with true. cbv iota.
  pose proof (black_count_bounds l).
  apply int_add_in_range. unfold INT_MIN. lia.
Qed.

Lemma ordered_within_bst f t klo khi :
  total_preorder f -> Forall (fun x => f x (-1) > 0) (keys t) ->
  ordered_within f t klo khi ->
  bst f t ∧
  (f klo (-1) > 0 -> Forall (fun x => f klo x <= 0) (keys t)) ∧
  (f khi (-1) > 0 -> Forall (fun x => f x khi <= 0) (keys t)).
Proof.
  intros Hf. revert klo khi.
  induction t as [|l IHl a c v k r IHr]; intros klo khi Hpos; cbn [ordered_within bst keys].
  { intros _. by repeat split. }
  apply Forall_app in Hpos as [Hposl Hpos]. apply Forall_cons in Hpos as [Hposk Hposr].
  intros (Blo & Bhi & Hl & Hr).
  destruct (IHl _ _ Hposl Hl) as (Hbl & Bll & Blh).
  destruct (IHr _ _ Hposr Hr) as (Hbr & Brl & Brh).
  specialize (Blh Hposk). specialize (Brl Hposk).
  assert (f klo (-1) > 0 -> f klo k <= 0) as Blo'.
  { intros Hgt. apply (cmp_not_below f Hf). lia. }
  assert (f khi (-1) > 0 -> f k khi <= 0) as Bhi' by lia.
  split; [done|]. split.
  - intros Hgt. apply Forall_app. split; [by apply Bll|].
    apply Forall_cons. split; [by apply Blo'|].
    eapply Forall_impl; [exact Brl|]. intros x Hx. cbn beta in Hx.
    apply (cmp_trans f Hf _ k); [by apply Blo'|done].
  - intros Hgt. apply Forall_app. split.
    + eapply Forall_impl; [exact Blh|]. intros x Hx. cbn beta in Hx.
      apply (cmp_trans f Hf _ k); [done|by apply Bhi'].
    + apply Forall_cons. split; [by apply Bhi'|by apply Brh].
Qed.

Lemma bst_ordered_within f t klo khi :
  total_preorder f -> bst f t ->
  (f klo (-1) > 0 -> Forall (fun x => f klo x <= 0) (keys t)) ->
  (f khi (-1) > 0 -> Forall (fun x => f x khi <= 0) (keys t)) ->
  ordered_within f t klo khi.
Proof.
  intros Hf. revert klo khi.
  induction t as [|l IHl a c v k r IHr]; intros klo khi; cbn [ordered_within bst keys]; [done|].
  intros (Bl & Br & Hbl & Hbr) Blo Bhi.
  split; [|split; [|split]].
  - intros [Hgt Hlt]. apply Blo in Hgt. apply Forall_app in Hgt as [_ Hgt].
    apply Forall_cons in Hgt as [Hgt _]. apply (cmp_flip f Hf) in Hlt. lia.
  - intros [Hgt Hlt]. apply Bhi in Hgt. apply Forall_app in Hgt as [_ Hgt].
    apply Forall_cons in Hgt as [Hgt _]. lia.
  - apply IHl; [done| |done]. intros Hgt. apply Blo in Hgt. by apply Forall_app in Hgt as [? _].
  - apply IHr; [done|done|]. intros Hgt. apply Bhi in Hgt. apply Forall_app in Hgt as [_ Hgt].
    by apply Forall_cons in Hgt as [_ ?].
Qed.

Lemma no_red_red_weaken t : no_red_red t -> no_red_with_red_children t.
Proof.
  induction t as [|l IHl a c v k r IHr]; cbn [no_red_red no_red_with_red_children]; [done|].
  intros (Hc & Hl & Hr). split; [|auto]. intros E. destruct (Hc E). by left.
Qed.

Section check_exact.
Context (f : Z -> Z -> Z) (tree : addr).

Lemma red_red_test h par l r c :
  rep (Fn_unbox_compare f) h par l -> rep (Fn_unbox_compare f) h par r ->
  andM (ret (color_eqb c RED))
    (andM (let* lc := node_color (ptr_of l) in ret (negb (color_eqb lc BLACK)))
          (let* rc := node_color (ptr_of r) in ret (negb (color_eqb rc BLACK)))) h
  = Ok (color_eqb c RED &&
        (negb (color_eqb (color_of l) BLACK) && negb (color_eqb (color_of r) BLACK)), h).
Proof.
  intros Hl Hr. apply andM_both; [reflexivity|].
  apply andM_both.
  - by rewrite (bind_Ok _ _ _ _ _ (node_color_rep _ _ _ _ Hl)).
  - by rewrite (bind_Ok _ _ _ _ _ (node_color_rep _ _ _ _ Hr)).
Qed.

Lemma rbt_check_node_exact : ∀ t fuel h r par lo hi klo khi,
  tree_of h tree = Some (mk_tree r (Fn_unbox_compare f)) ->
  rep (Fn_unbox_compare f) h par t -> NoDup (addrs t) ->
  box_of h lo = Some klo -> box_of h hi = Some khi ->
  (height t < fuel)%nat ->
  returns (rbt_check_node fuel (Some tree) (ptr_of t) lo hi) h h
    (fun st => st = OK <-> no_red_with_red_children t ∧ ordered_within f t klo khi).
Proof.
  induction t as [|l IHl a c v k rt IHr];
    intros fuel h r par lo hi klo khi Htree Hrep Hnd Hlo Hhi Hfuel;
    (destruct fuel as [|fuel]; [cbn in Hfuel; lia|]);
    destruct (mem_box_fresh (-1) h) as (b & Hb & Hbox);
    set (h1 := <[b := mk_obj 1 None (Box (-1))]> h) in *;
    cbn [rbt_check_node]; (eapply returns_bind; [exact Hbox|]);
    pose proof (release_box fuel b (-1) h Hb) as Hrel; fold h1 in Hrel.
  { cbn [ptr_of is_null]. eapply returns_bind; [reflexivity|].
    eapply returns_bind; [exact Hrel|]. apply returns_ret.
    cbn [ordered_within no_red_with_red_children]. done. }
  cbn [height] in Hfuel.
  assert (tree_of h1 tree = Some (mk_tree r (Fn_unbox_compare f))) as Htree1 by (by apply tree_of_alloc).
  assert (rep (Fn_unbox_compare f) h1 par (T l a c v k rt)) as Hrep1 by (by apply rep_alloc).
  assert (box_of h1 lo = Some klo) as Hlo1 by (by apply box_of_alloc).
  assert (box_of h1 hi = Some khi) as Hhi1 by (by apply box_of_alloc).
  assert (box_of h1 (Some b) = Some (-1)) as Hneg by (unfold box_of, h1; by rewrite lookup_insert_eq).
  destruct Hrep1 as (Hn & Hk & Hl & Hr). cbn [key_of] in Hk.
  cbn [addrs] in Hnd.
  assert (a ∉ addrs l) as Hal by (by_nodup Hnd).
  assert (a ∉ addrs rt) as Har by (by_nodup Hnd).
  assert (NoDup (addrs l)) as Hndl by (by_nodup Hnd).
  assert (NoDup (addrs rt)) as Hndr by (by_nodup Hnd).
  eapply returns_bind_ex.
  2:{ intros st Hst. eapply returns_bind; [exact Hrel|]. apply returns_ret. exact Hst. }
  cbn [ptr_of is_null].
  eapply returns_bind; [exact (get_color_ok _ _ _ Hn)|].
  eapply returns_bind; [exact (get_left_ok _ _ _ Hn)|].
  eapply returns_bind; [exact (get_right_ok _ _ _ Hn)|].
  eapply returns_bind; [exact (get_contents_ok _ _ _ Hn)|].
  cbn [color left right contents].
  cbn [no_red_with_red_children ordered_within].
  eapply returns_bind_ex
    with (Q := fun st => st = OK <->
                 (c = RED -> color_of l = BLACK ∨ color_of rt = BLACK) ∧
                 ¬ (f klo (-1) > 0 ∧ f k klo < 0) ∧ ¬ (f khi (-1) > 0 ∧ f k khi > 0)).
  { (* the tests at the node itself *)
    assert (negb (color_eqb c RED) && negb (color_eqb c BLACK) = false) as -> by (by destruct c).
    eapply returns_bind; [exact (red_red_test h1 (Some a) l rt c Hl Hr)|].
    destruct (color_eqb c RED && _) eqn:Brr.
    { apply returns_ret. split; [done|]. intros (Hc & _). exfalso.
      destruct c; [|done]. destruct (Hc eq_refl) as [E|E]; rewrite E in Brr;
        by destruct (color_of l), (color_of rt). }
    assert (c = RED -> color_of l = BLACK ∨ color_of rt = BLACK) as Hc.
    { intros ->. clear -Brr. by destruct (color_of l), (color_of rt); auto. }
    pose proof (tree_comp_ok (Fn_unbox_compare f) tree h1 r lo (Some b) klo (-1) Htree1 Hlo1 Hneg) as Hc1.
    pose proof (tree_comp_ok (Fn_unbox_compare f) tree h1 r v lo k klo Htree1 Hk Hlo1) as Hc2.
    pose proof (tree_comp_ok (Fn_unbox_compare f) tree h1 r hi (Some b) khi (-1) Htree1 Hhi1 Hneg) as Hc3.
    pose proof (tree_comp_ok (Fn_unbox_compare f) tree h1 r v hi k khi Htree1 Hk Hhi1) as Hc4.
    cbn [cmp_fun] in Hc1, Hc2, Hc3, Hc4.
    eapply returns_bind.
    { apply andM_both; [by rewrite (bind_Ok _ _ _ _ _ Hc1)|by rewrite (bind_Ok _ _ _ _ _ Hc2)]. }
    destruct ((f klo (-1) >? 0) && (f k klo <? 0)) eqn:B1.
    { apply returns_ret. split; [done|]. intros (_ & Hlo' & _). exfalso. apply Hlo'.
      apply andb_true_iff in B1 as [B1 B1']. apply Z.ltb_lt in B1'.
      destruct (Z.gtb_spec (f klo (-1)) 0); [lia|done]. }
    eapply returns_bind.
    { apply andM_both; [by rewrite (bind_Ok _ _ _ _ _ Hc3)|by rewrite (bind_Ok _ _ _ _ _ Hc4)]. }
    destruct ((f khi (-1) >? 0) && (f k khi >? 0)) eqn:B2.
    { apply returns_ret. split; [done|]. intros (_ & _ & Hhi'). exfalso. apply Hhi'.
      apply andb_true_iff in B2 as [B2 B2'].
      destruct (Z.gtb_spec (f khi (-1)) 0); [|done].
      destruct (Z.gtb_spec (f k khi) 0); [lia|done]. }
    rewrite !ptr_eqb_ptr_of by done. cbn [orb].
    eapply returns_bind; [exact (parent_check_ok _ _ _ _ Hl)|].
    eapply returns_bind; [exact (parent_check_ok _ _ _ _ Hr)|].
    apply returns_ret. split; [|done]. intros _. split; [done|]. split.
    - intros [Hgt Hlt]. apply andb_false_iff in B1 as [B1|B1]; [apply gtb_false in B1; lia|].
      apply Z.ltb_ge in B1. lia.
    - intros [Hgt Hlt]. apply andb_false_iff in B2 as [B2|B2]; apply gtb_false in B2; lia. }
  intros st0 Hst0.
  destruct (decide (st0 = OK)) as [->|Hne].
  2:{ rewrite (status_eqb_ne _ Hne). eapply returns_bind; [reflexivity|].
      rewrite (status_eqb_ne _ Hne). apply returns_ret.
      split; [done|]. intros ((Hc & _) & Hlo' & Hhi' & _). apply Hst0; done. }
  destruct (proj1 Hst0 eq_refl) as (Hcol & Blo & Bhi).
  change (status_eqb OK OK) with true. cbv iota.
  eapply returns_bind_ex.
  { eapply (IHl fuel h1 r (Some a) lo v klo k); try done. lia. }
  intros stl Hstl.
  destruct (decide (stl = OK)) as [->|Hne].
  2:{ rewrite (status_eqb_ne _ Hne). apply returns_ret.
      split; [done|]. intros ((_ & Hwl & _) & _ & _ & Hol & _). apply Hstl; done. }
  destruct (proj1 Hstl eq_refl) as (Hwl & Hol).
  change (status_eqb OK OK) with true. cbv iota.
  destruct (IHr fuel h1 r (Some a) v hi k khi Htree1 Hr Hndr Hk Hhi1 ltac:(lia))
    as (str & Hrun & Hstr).
  exists str. split; [exact Hrun|]. rewrite Hstr. tauto.
Qed.

Lemma rbt_check_status_exact (fuel : nat) (h : heap) (t : ntree) :
  is_tree (Fn_unbox_compare f) tree h t ->
  (height t < fuel)%nat -> Z.of_nat (height t) < INT_MAX ->
  returns (rbt_check_status fuel (Some tree)) h h (fun st => st = OK <-> accepted f t).
Proof.
  intros (Htree & Hrep & Hnd) Hfuel Hmax.
  destruct (mem_box_fresh (-1) h) as (b & Hb & Hbox).
  set (h1 := <[b := mk_obj 1 None (Box (-1))]> h) in *.
  pose proof (release_box 0 b (-1) h Hb) as Hrel. fold h1 in Hrel.
  assert (tree_of h1 tree = Some (mk_tree (ptr_of t) (Fn_unbox_compare f))) as Htree1
      by (by apply tree_of_alloc).
  assert (rep (Fn_unbox_compare f) h1 NULL t) as Hrep1 by (by apply rep_alloc).
  assert (box_of h1 (Some b) = Some (-1)) as Hneg by (unfold box_of, h1; by rewrite lookup_insert_eq).
  unfold rbt_check_status. eapply returns_bind; [exact Hbox|]. cbn [is_null].
  eapply returns_bind_ex.
  2:{ intros st Hst. eapply returns_bind; [exact Hrel|]. apply returns_ret. exact Hst. }
  eapply returns_bind; [exact (get_root_ok _ _ _ Htree1)|]. cbn [root].
  eapply returns_bind_ex.
  { by eapply (rbt_check_node_exact t fuel h1 _ NULL (Some b) (Some b) (-1) (-1)). }
  intros st0 Hst0. cbv beta in Hst0.
  assert (andM (ret (negb (is_null (ptr_of t))))
            (let* rp := get_parent (ptr_of t) in ret (negb (is_null rp))) h1
          = Ok (false, h1)) as Hpar.
  { destruct t as [|l a c v k r]; [reflexivity|]. destruct Hrep1 as (Hn & _).
    cbn [ptr_of is_null negb]. erewrite andM_Ok by reflexivity. cbv iota.
    by rewrite (bind_Ok _ _ _ _ _ (get_parent_ok _ _ _ Hn)). }
  pose proof (count_black_nodes_exact _ t fuel h1 NULL Hrep1 Hfuel Hmax) as Hcount.
  unfold accepted.
  destruct (decide (st0 = OK)) as [->|Hne].
  2:{ rewrite !(status_eqb_ne _ Hne).
      eapply returns_bind; [reflexivity|]. rewrite !(status_eqb_ne _ Hne).
      eapply returns_bind; [reflexivity|]. rewrite !(status_eqb_ne _ Hne).
      eapply returns_bind; [reflexivity|]. apply returns_ret.
      split; [done|]. intros (? & ? & _). apply Hst0; done. }
  destruct (proj1 Hst0 eq_refl) as (Hweak & Hord).
  change (status_eqb OK OK) with true.
  apply returns_bind_assoc. eapply returns_bind.
  { erewrite andM_Ok by reflexivity. cbv iota. exact Hpar. }
  cbv iota. eapply returns_bind; [reflexivity|].
  change (status_eqb OK OK) with true.
  apply returns_bind_assoc. eapply returns_bind.
  { erewrite andM_Ok by reflexivity. cbv iota.
    by rewrite (bind_Ok _ _ _ _ _ (node_color_rep _ _ _ _ Hrep1)). }
  destruct (color_of t) eqn:Hc.
  { change (color_eqb RED BLACK) with false. cbn [negb]. cbv iota.
    eapply returns_bind; [reflexivity|].
    change (status_eqb BAD_ROOT_COLOR OK) with false.
    eapply returns_bind; [reflexivity|]. apply returns_ret.
    split; [done|]. by intros (_ & _ & ? & _). }
  change (color_eqb BLACK BLACK) with true. cbn [negb]. cbv iota.
  eapply returns_bind; [reflexivity|].
  change (status_eqb OK OK) with true.
  eapply returns_bind.
  { erewrite andM_Ok by reflexivity. cbv iota.
    by rewrite (bind_Ok _ _ _ _ _ Hcount). }
  destruct (Z.eqb_spec (black_count t) (-1)) as [E|E]; apply returns_ret.
  - split; [done|]. by intros (_ & _ & _ & ?).
  - done.
Qed.

(** X20. The verdict of [rbt_check_status] on a well-formed tree over boxed
    integers: the validator ends normally, leaves the heap as it was, and
    returns OK exactly when the root is BLACK, no RED node has two RED
    children, every key is within the bounds in force (a key of an
    ancestor is a bound only when it compares above -1), and the count of
    BLACK nodes, which is -1 at a node whose subtrees differ, is not -1 at
    the root. *)
Theorem rbt_check_status_verdict (fuel : nat) (h : heap) (t : ntree) :
  is_tree (Fn_unbox_compare f) tree h t ->
  (height t < fuel)%nat -> Z.of_nat (height t) < INT_MAX ->
  ∃ st, rbt_check_status fuel (Some tree) h = Ok (st, h) ∧ (st = OK <-> accepted f t).
Proof. apply rbt_check_status_exact. Qed.

(** X19. On a well-formed tree over boxed integers that all compare above
    -1, under a comparator that is a total preorder, [rbt_check_status]
    ends normally with some status and leaves the heap as it was. When the
    status is OK, the keys are in order, the root is BLACK, and no RED node
    has two RED children. *)
Theorem rbt_check_status_sound (fuel : nat) (h : heap) (t : ntree) :
  total_preorder f ->
  is_tree (Fn_unbox_compare f) tree h t ->
  Forall (fun x => f x (-1) > 0) (keys t) ->
  (height t < fuel)%nat -> Z.of_nat (height t) < INT_MAX ->
  ∃ st, rbt_check_status fuel (Some tree) h = Ok (st, h) ∧
        (st = OK -> bst f t ∧ no_red_with_red_children t ∧ color_of t = BLACK).
Proof.
  intros Hf Ht Hpos Hfuel Hmax.
  destruct (rbt_check_status_exact fuel h t Ht Hfuel Hmax) as (st & Hrun & Hst).
  exists st. split; [done|]. intros (Hw & Hord & Hc & _)%Hst.
  by destruct (ordered_within_bst f t _ _ Hf Hpos Hord) as (? & _).
Qed.
End check_exact.

(** The tree holding 3 and 5. *)
Lemma rbt_check_status_sound_witness :
  let h := heap_after (build 10 [Ins 5; Ins 3]) in
  let t := T (T Leaf 5%positive RED (Some 4%positive) 3 Leaf)
             3%positive BLACK (Some 2%positive) 5 Leaf in
  ∃ st, rbt_check_status 3 (Some 1%positive) h = Ok (st, h) ∧
        (st = OK -> bst int_compare t ∧ no_red_with_red_children t ∧ color_of t = BLACK).
Proof.
  intros h t.
  apply (rbt_check_status_sound int_compare 1%positive 3 h t).
  - exact int_compare_preorder.
  - repeat split; try (vm_compute; reflexivity).
    apply (bool_decide_unpack _). vm_compute. exact I.
  - repeat constructor.
  - cbn. lia.
  - cbn. unfold INT_MAX. lia.
Defined.

(** A tree of BLACK nodes in which 2 and 6, the children of the root 4,
    have a left child and no right child: the count is -1 at both of them,
    and so 0 at the root. The validator returns OK, and the paths to the
    leaves do not hold the same number of BLACK nodes. *)
Lemma rbt_check_status_verdict_witness :
  let node l r p v := mk_obj 1 (Some Fn_rbt_node_free) (Node (mk_node l r p BLACK (Some v))) in
  let box k := mk_obj 1 None (Box k) in
  let h : heap :=
    list_to_map
      [(1%positive, mk_obj 1 (Some Fn_rbt_free)
                      (Tree (mk_tree (Some 10%positive) (Fn_unbox_compare int_compare))));
       (10%positive, node (Some 20%positive) (Some 40%positive) NULL 11%positive);
       (20%positive, node (Some 30%positive) NULL (Some 10%positive) 21%positive);
       (30%positive, node NULL NULL (Some 20%positive) 31%positive);
       (40%positive, node (Some 50%positive) NULL (Some 10%positive) 41%positive);
       (50%positive, node NULL NULL (Some 40%positive) 51%positive);
       (11%positive, box 4); (21%positive, box 2); (31%positive, box 1);
       (41%positive, box 6); (51%positive, box 5)] in
  let t :=
    T (T (T Leaf 30%positive BLACK (Some 31%positive) 1 Leaf)
         20%positive BLACK (Some 21%positive) 2 Leaf)
      10%positive BLACK (Some 11%positive) 4
      (T (T Leaf 50%positive BLACK (Some 51%positive) 5 Leaf)
         40%positive BLACK (Some 41%positive) 6 Leaf) in
  rbt_check_status 4 (Some 1%positive) h = Ok (OK, h) ∧ black_height t = None.
Proof.
  intros node box h t.
  assert (is_tree (Fn_unbox_compare int_compare) 1%positive h t) as Ht.
  { split; [vm_compute; reflexivity|]. split.
    - vm_compute. repeat split.
    - apply (bool_decide_unpack _). vm_compute. exact I. }
  assert (accepted int_compare t) as Hacc.
  { unfold accepted. split; [|split; [|split]].
    - vm_compute. intuition discriminate.
    - vm_compute. intuition discriminate.
    - reflexivity.
    - vm_compute. discriminate. }
  destruct (rbt_check_status_verdict int_compare 1%positive 4 h t Ht) as (st & Hrun & Hst).
  - cbn. lia.
  - cbn. unfold INT_MAX. lia.
  - apply Hst in Hacc. subst st. split; [exact Hrun|reflexivity].
Defined.
